(* ===== verification/_CoqProject ===== *)
-Q . S2P
Prelude.v
JsMap.v
JsNum.v
Json.v
Median.v
CircuitBreaker.v
SourceBreaker.v
Anomaly.v
Aggregator.v
Budget.v
SourceFetch.v
Merkle.v
Publishing.v
Shutdown.v
Ssrf.v
WsGuard.v
AssetIdentity.v
RateLimit.v
Lineage.v
Graphql.v
FeatureFlags.v
DbBreaker.v
EventStore.v
Cache.v
Replay.v
PushServer.v
PriceRegister.v
FeedLifecycle.v
FeedCatalog.v
Releases.v
Webhooks.v
AuditLog.v
Access.v
Proposals.v
Signers.v
StageGates.v
Grants.v
ExecutionAudit.v
Treasury.v
Checkpoint.v
CoiRegister.v
Emergency.v
CatalogPolicy.v
CatalogGovernance.v
