(* ===== verification/Prelude.v ===== *)
(** * Stellar Unified Price Oracle: verification development

    The program is a set of TypeScript services.  The aggregator
    ([services/aggregator/src]) collects prices from oracle providers, guards
    each provider with circuit breakers, reduces the prices of an asset to one
    value, commits batches of prices to a Merkle root that is published on
    chain (failed submissions go to a retry queue), and replicates prices
    between regions.  The API ([api/src]) serves prices over HTTP and WebSocket,
    decides who may call it and how often, keeps a tamper-evident audit log, and
    holds the governance registries that decide which feeds exist, who may
    change them and when they are frozen.  [packages] holds code both share.

    ** Parts, files and correspondence

    - [Prelude] (this file): results of fallible code, the state-and-exception
      monad the stateful classes are written in, its inversion and preservation
      rules and tactics, ECMAScript strings, dates, stable sorting, comparators
      and shared list lemmas.  [JsMap]: the ECMAScript [Map], insertion ordered,
      refined to finite maps.  [JsNum]: comparisons of numbers, the arithmetic of
      binary64, rounding.  [Json]: what [JSON.parse] returns.
    - [Median]: [price-aggregation/median.ts].  [medianOnCommonScale] and its
      helpers over an interface for the package bignumber.js.
    - [CircuitBreaker]: [price-aggregation/circuit-breaker.ts], the deviation
      breaker ([evaluatePrice] and the surge window).
    - [SourceBreaker]: [price-aggregation/source-circuit-breaker.ts], the
      CLOSED/OPEN/HALF_OPEN machine with surge limits.
    - [Anomaly]: [price-aggregation/anomaly-detector.ts].
    - [Aggregator]: [price-aggregation/aggregator.ts] with
      [price-quality/freshness.ts]: the prices the sources report, which of them
      are used, the published price and the evidence kept for it.  It runs the
      code of [Median], [CircuitBreaker] and [Anomaly].
    - [Budget]: the daily call budgets of [infrastructure/cost-model.ts].
    - [SourceFetch]: [oracle-sources/]: payload schemas
      ([response-validation.ts], [decimals.ts]), transport errors
      ([provider-errors.ts]), capabilities ([capabilities.ts]) and the fetch
      path of [base.ts] and the four adapters, which consults [Budget] and
      [SourceBreaker].
    - [Merkle]: [infrastructure/merkle.ts], leaf encoding, tree, proofs.
    - [Publishing]: [contract-publishing/retry-queue.ts] (Module [RetryQueue])
      and [contract-publishing/canary.ts] (Module [Canary]).
    - [Shutdown]: [infrastructure/shutdown.ts] of the aggregator.
    - [Ssrf]: the package [packages/ssrf-guard/src]: address ranges
      ([ranges.ts]), egress policy and redirect chains ([policy.ts]), pinned
      lookups ([lookup.ts]) and error reasons ([errors.ts]).
    - [WsGuard]: the package [packages/ws-guard/src] (Modules [Address],
      [Origin], [Guard]) and [infrastructure/ws-guard.ts] of the aggregator.
    - [AssetIdentity]: [api/src/feeds/asset-identity.ts].
    - [RateLimit]: [api/src/platform/limit-model.ts] (Module [LimitModel]) and
      [tenant-window.ts] (Module [TenantWindow]).
    - [Lineage]: [api/src/platform/lineage.ts].  [Cache]:
      [api/src/price-serving/cache.ts].  [Checkpoint]:
      [packages/sdk-bindings/src/checkpoint.ts].  [Graphql]:
      [api/src/graphql/validation.ts].
    - [FeatureFlags]: [api/src/services/featureFlags.ts].  [DbBreaker]:
      [api/src/infrastructure/db-circuit-breaker.ts].
    - [EventStore]: [api/src/services/eventStore.ts].
    - [Replay]: [api/src/infrastructure/ws-replay.ts] (buffer, window, limiter,
      scope) and the replay case of [handleMessage] in [server.ts].
    - [PushServer]: the WebSocket server of the aggregator,
      [infrastructure/ws-protocol.ts], [ws-session.ts] and [ws-server.ts].
    - [PriceRegister]: [replication/price-crdt.ts] (Modules [Router],
      [Register]) and the ownership classes of
      [replication/region-price-replicator.ts] (Module [Ownership]).
    - [FeedLifecycle]: [api/src/feeds/feed-lifecycle.ts] (Module [Lifecycle])
      and [feed-aliases.ts] (Module [Aliases]).
    - [FeedCatalog]: [api/src/feeds/feed-policy.ts] with
      [packages/types/src/feed-metadata.ts] (Module [Policy]) and
      [feed-catalog.ts] (Module [Catalog]), which looks feeds up through
      [FeedLifecycle] and [AssetIdentity].
    - [Releases]: the release manager of [api/src/feeds/catalog-snapshots.ts].
    - [Webhooks]: [api/src/webhooks/webhook-service.ts], registrations, triggers
      and the delivery queue.
    - [AuditLog]: [api/src/governance/audit-logger.ts] (Modules [Chain] and
      [Retention]).
    - [Access]: the policy scopes of [api/src/governance/api-key-manager.ts]
      (Module [KeyPolicy]) and [rbac.ts] (Module [Rbac]).
    - [Proposals]: [api/src/governance/proposal-service.ts] (Modules
      [MultiSig], [Voting], [Listing]).
    - [Signers]: [api/src/governance/decentralization/signer-independence.ts]
      (Modules [Matching] and [Report]).
    - [StageGates]: [decentralization/stage-gates.ts] with the snapshots of
      [decentralization/store.ts].
    - [Grants]: [decentralization/grant-outcomes.ts] with the grants of
      [store.ts].
    - [ExecutionAudit]: [decentralization/execution-audit.ts] with the reports
      and remediations of [store.ts].
    - [Treasury]: the treasury report of
      [api/src/governance/transparency/treasury.ts].
    - [CoiRegister]: [api/src/governance/coi-register.ts].
    - [Emergency]: [api/src/governance/emergency-actions.ts]; its recusal
      dependency is the class [RecusalOracle], which [CoiRegister] implements.
    - [CatalogPolicy], [CatalogGovernance]:
      [api/src/governance/catalog-policy.ts], the pure policy functions and the
      governance class; the class takes the conflict register and the emergency
      registry as dependencies, and the composition theorems plug them in.

    ** Modelling conventions

    Definitions keep the names of the sources.  A class is a record of its
    fields and each method a function of the monad [M]: it returns the new
    state together with a result or an error, because the sources mutate
    objects before they throw.  Objects that a [Map] holds are mutated in place
    by the code; here the updated record is stored back under its key.  Every
    reading of the clock is an argument of its own, so no theorem assumes that
    two readings agree or increase unless it says so.  Errors keep their
    code, or their message where they have no code; log lines and metrics are
    left out.  Counters,
    epochs and times are integers ([Z]): the code only adds and compares them
    within the safe range of doubles.  Where the rounding of doubles or
    decimals matters (deviation, costs, weights, backoff, concentration,
    anomaly scores, freshness budgets, utilisation) it is modelled in [JsNum] and
    [Median], and [x ** 2] is a product while [Math.pow] is a parameter; the percentages
    of [Signers], which are only compared and averaged, are exact;
    128-bit and 64-bit integers of the Merkle leaf wrap as the code wraps them.
    Strings are sequences of 8-bit characters, with case conversion on ASCII
    letters, except in [Merkle], where they are sequences of UTF-16 code units;
    a regular expression is a Boolean function on characters.  An
    [async] method is split at its [await]s where other calls can come between
    ([EventStore.rebuild], the epochs of [PriceRegister], the executions of
    [DbBreaker]); what the providers answer and when, and when the hooks of a
    shutdown settle, are arguments; what other processes
    do to the audit log during a sweep, and where a file operation fails or the
    process dies, are arguments of the sweep.  Timestamps the code stores as
    ISO text are the milliseconds they denote.

    Code outside the repository is a parameter: bignumber.js through
    [BigNumberOps] with the laws [BigNumberSpec] (instantiated by rationals),
    SHA-256 and HMAC as functions on text, [localeCompare] as a lawful comparator, the
    JSON text of a replay payload, [Math.random], the answer of the shared rate
    counter, and for the outbound guard the URL parser,
    the name resolver and the HTTP client ([net.isIP] is modelled).

    ** What the theorems show

    - Prices: the aggregate cannot leave the range a strict majority of sources
      agrees on, does not depend on their order, and is an integer on its scale.
    - Breakers: the source breaker implements a three-phase machine run over each
      source's own calls; the breakers trip and recover after exactly the
      configured counts and respect their budgets in every reachable state.
    - Sources: a price that leaves an adapter was quoted in a payload the schema
      accepts and is within half a unit of the quotation at a scale the contract
      accepts; every request is charged to its day and no day sees more requests
      than the budget (and at most three per fetch); health counts what happened; an open circuit or an exhausted
      budget sends no request.
    - Aggregation: with a freshness policy only fresh, unsuspicious observations
      are ever served and the budget stays within the policy's bounds; without
      one the fallbacks are exactly the documented ones; the degradation level is
      a function of the contributing share; and the evidence kept for a price
      reproduces it.  The anomaly detector keeps bounded histories and reports
      the highest positive verdict.
    - Push: a client receives of a broadcast exactly what it subscribed to, with
      increasing sequence numbers, within its subscription limit, and is dropped
      when it stops answering.
    - Webhooks: in every interleaving the requests under way respect the bound and
      the order of their queue, no job is lost or attempted too often while no
      backlog overflows, and every request is signed so that it verifies.
    - Cache: the in-process cache implements a map whose entries expire, within its
      size, and no answer is older than its lifetime.  SDK: every message of a
      resumed stream is handed over in order or reported missing, and following a
      finite stream ends.  Lineage: no record verifies, though from its second step
      on a new record is chained.  Queries: the limits are computed on every query,
      cyclic fragments included; the cost counts each fragment reached once.
    - Shutdown: the steps happen in the documented order, within the deadlines,
      and the process always exits.  Flags: a rollout is stable and monotone and a
      rolled-back flag stays off until reset.
    - Merkle batches: a leaf determines exactly the canonical entry (code points,
      price modulo 2^128, decimals, timestamp) for assets without NUL, generated
      proofs verify, and an accepted proof is of an entry with the canonical form
      of the committed one or exhibits a collision.
    - Outbound requests: the blocked IPv4 ranges are exactly the listed blocks, a
      socket only ever receives pinned addresses outside them and outside the
      IPv6 texts the guard lists, and a redirect chain is
      bounded and stays within the egress policy at each hop.
    - Upgrades: CIDR membership is equality of leading bits, the identity a
      client is limited under is the hop its proxies recorded in the header the
      guard reads, and the accepted
      upgrades of an identity are bounded in every interleaving.
    - Submissions: a queued submission is retried the configured number of times
      and then reported once; the canary gets exactly its share.
    - Access and limits: the route guards admit exactly what role, scopes and
      policy permit, refuse the rest with the reason of the first check that
      fails, and record it; the tenant window counts every request.
    - Audit log: the verifier accepts exactly the well-chained logs, the last
      tag of a writer commits to all of its entries, and a retention sweep loses
      no evidence it could see, however it ends.
    - Events: rebuilding a projection from a snapshot equals replaying all events.
    - Feeds: canonical asset ids are a faithful encoding, an alias resolves to a
      canonical id, a quorum counts distinct eligible sources and their weight, and a
      lookup serves exactly the feed the text names, if it may be served.
    - Replication: routing is optimal, an election fences the previous publisher
      for good whatever interleaves with its persistence hook, replicas converge
      within an epoch up to ties, and a feed has at most one publisher.
    - Replay: pushing terminates within the memory ceilings with exact counters,
      windows are bounded and maximal, following the cursor loses nothing, the
      limiter is a sliding-window log, and a request stays within the
      connection's subscriptions.
    - Governance: change logs are unbroken runs of the state machine; executed
      multi-sig and token proposals were approved by enough distinct people;
      recusals are lifted only by their author; emergency power is bounded in
      time and countersigned independently; every policy ever live satisfies the
      guard rails, and nothing becomes live without independent, timely reviews,
      an impact analysis and the time lock, or against an emergency override;
      the independent quorum reported is the true maximum, a passing signer
      report means what it says, and a decentralization stage is only ever in
      force after three consecutive snapshots that passed its gates; a grant is
      completed only with verified evidence, which nothing takes back; and an
      execution audit reports exactly the departures from the approved state; the
      treasury report says reconciled exactly when the books balance.

    Some theorems record behaviour that departs from the comments or from the
    contract the services mirror: [Register.advance_race_lowers_epoch],
    [Register.epoch_change_diverges], [Register.tie_keeps_first],
    [Lifecycle.unknown_role_passes], [Lifecycle.operator_activates_without_admin],
    [Voting.execute_skips_timelock], [Voting.cancel_by_anyone],
    [Merkle.single_leaf_index_unchecked], [Merkle.price_wraps],
    [Merkle.lone_surrogates_collide], [Merkle.nul_moves_boundary], [CoiRegister.expired_recusal_permanent],
    [Replay.named_twice_replayed_twice], [Replay.oversized_first_message],
    [Ssrf.mapped_literal_passes], [Ssrf.link_local_passes],
    [RetryQueue.requeue_never_fails], [Retention.late_line_lost],
    [Retention.unparseable_line_fails], [KeyPolicy.fractional_expiry_refused_later],
    [Rbac.wildcard_refused_by_guards], [Rbac.key_scopes_ignored_by_permission],
    [Guard.hops_overflow_forges], [Guard.forwarded_forges],
    [Address.embedded_misread], [EventStore.append_during_rebuild_lost],
    [EventStore.nan_price_recorded], [LimitModel.negative_override_kept],
    [Report.concentration_by_spelling], [StageGates.baseline_moves],
    [Grants.outcome_never_registered], [Grants.verified_before_submitted],
    [Releases.signature_malleable], [Anomaly.nan_window_unbounded],
    [Anomaly.flat_window_flags_any_move], [Aggregator.future_price_fresh],
    [Budget.zero_budget_unlimited], [SourceFetch.recovery_limits_inert],
    [SourceFetch.missing_decimals_defaulted], [SourceFetch.uptime_stale],
    [PushServer.unsubscribe_from_wildcard], [DbBreaker.late_success_closes],
    [FeatureFlags.first_error_rolls_back], [Shutdown.drained_without_draining],
    [Webhooks.overflow_loses_job], [Webhooks.refresh_keeps_circuit_closed],
    [Webhooks.replayed_twice], [Webhooks.reset_undercounts],
    [Treasury.negative_display], [Lineage.lineage_never_verifies],
    [Lineage.anchored_root_stale], [Cache.invalidated_value_served],
    [Cache.rewrite_evicts_other], [Cache.endpoint_ttl_ignored],
    [Cache.no_fallback_no_redis], [Checkpoint.gap_counted_twice],
    [Checkpoint.replay_unbounded], [Graphql.fragment_counted_once],
    [Graphql.fragment_nested_deeper].

    ** Fuel

    The loops over Merkle levels run on the number of leaves, which is enough
    because a level halves ([levels_complete], [verifyLoop_complete]).  The two
    eviction loops of the replay buffer run on fuel and return [None] when it is
    spent; [buffer_bounded] shows that twice the number of pushes suffices.  The
    recursion of [isPrivateIp] into an IPv4-mapped address runs two levels deep,
    which is enough because the mapped text holds no colon.  The depth of the
    matching search of [Signers] is bounded by one more than the number of
    custody providers, since every call marks one ([max_independent] includes
    that the search returns).  [fetchWithOutcome] recurses on the number of retries
    left, which the code bounds by two.  [pump] of [Webhooks] runs on the number of
    free slots, each pass taking one.  [run] of [Checkpoint] takes one unit per
    connection; [resume_settles] says how many a finite stream needs.
    The recursion through GraphQL fragments needs one unit more than there are
    fragments ([limits_return]).  All other recursion is structural.

    ** Not modelled

    The HTTP routes and the zod schemas (request parsing around the modelled
    registries), the contract publisher (a network client of an SDK outside the
    repository), the poll loop of [index.ts] and the HTTP requests of the
    adapters, persistence and archival (SQL and
    files), compliance requests, the stores of the webhooks, the GraphQL schema
    and resolvers, metrics, logging and alert delivery, the drift, bias and quality statistics, the OpenAPI document, the
    scripts and infrastructure definitions, and the Rust contracts.  Some code
    refers to undeclared names and has no behaviour beyond the exception: of
    [price-crdt.ts] [mergeLocal] and [clearOwnership], of [server.ts] the
    subscription bookkeeping, of [audit-logger.ts] [auditLog], of
    [api-key-manager.ts] the class, and [region-quarantine.ts],
    [upgrade-guard.ts] of the API, [feed-service.ts], [rate-limiter.ts] and parts
    of [publisher.ts]. *)

From stdpp Require Import base list strings gmap sorting pretty.
From Stdlib Require Import ZArith Lia.

(** ** Outcomes of fallible code

    A TypeScript function that may [throw] is a function into [result E A]:
    [Ok a] is a normal return, [Throw e] an exception carrying [e]. *)

Inductive result (E A : Type) : Type :=
| Ok (a : A)
| Throw (e : E).
Arguments Ok {E A} a.
Arguments Throw {E A} e.

Definition is_ok {E A} (r : result E A) : bool :=
  match r with Ok _ => true | Throw _ => false end.

#[export] Instance Ok_inj {E A} : Inj (=) (=) (@Ok E A).
Proof. by intros a b [=]. Qed.

(** ** Stateful methods

    A method of a class that mutates [this] and may throw.  The state is
    returned on both outcomes, because the sources mutate objects before they
    throw (for example a proposal marked [Expired] and then refused). *)

Definition M (St E A : Type) : Type := St → St * result E A.

Section monad.
Context {St E : Type}.

#[export] Instance M_ret : MRet (M St E) := λ A a s, (s, Ok a).
#[export] Instance M_bind : MBind (M St E) := λ A B f m s,
  match m s with
  | (s', Ok a) => f a s'
  | (s', Throw e) => (s', Throw e)
  end.

Definition throw {A} (e : E) : M St E A := λ s, (s, Throw e).
Definition gets {A} (f : St → A) : M St E A := λ s, (s, Ok (f s)).
Definition modify (f : St → St) : M St E unit := λ s, (f s, Ok tt).
Definition lift {A} (r : result E A) : M St E A := λ s, (s, r).

(** [if (!b) throw e] *)
Definition require (b : bool) (e : E) : M St E unit :=
  λ s, (s, if b then Ok tt else Throw e).
(** [if (!b) \{ update; throw e \}] *)
Definition require_or (b : bool) (upd : St → St) (e : E) : M St E unit :=
  λ s, if b then (s, Ok tt) else (upd s, Throw e).
(** [const x = map.get(k); if (!x) throw e] *)
Definition require_some {A} (f : St → option A) (e : E) : M St E A :=
  λ s, (s, match f s with Some a => Ok a | None => Throw e end).

(** The exception of a run, if it ended in one. *)
Definition run {A} (m : M St E A) (s : St) : St * result E A := m s.

(** ** Inversion of successful runs *)

Lemma bind_ok {A B} (m : M St E A) (f : A → M St E B) s s' b :
  (m ≫= f) s = (s', Ok b) ↔
    ∃ s1 a, m s = (s1, Ok a) ∧ f a s1 = (s', Ok b).
Proof.
  unfold mbind, M_bind. destruct (m s) as [s1 [a|e]]; naive_solver.
Qed.

Lemma ret_ok {A} (a b : A) s s' :
  (mret a : M St E A) s = (s', Ok b) ↔ s' = s ∧ b = a.
Proof. unfold mret, M_ret. naive_solver. Qed.

Lemma throw_ok {A} (e : E) s s' (b : A) : throw e s = (s', Ok b) ↔ False.
Proof. unfold throw. naive_solver. Qed.

Lemma gets_ok {A} (f : St → A) s s' b :
  gets f s = (s', Ok b) ↔ s' = s ∧ b = f s.
Proof. unfold gets. naive_solver. Qed.

Lemma modify_ok (f : St → St) s s' u :
  modify f s = (s', Ok u) ↔ s' = f s.
Proof. unfold modify. destruct u. naive_solver. Qed.

Lemma lift_ok {A} (r : result E A) s s' b :
  lift r s = (s', Ok b) ↔ s' = s ∧ r = Ok b.
Proof. unfold lift. naive_solver. Qed.

Lemma require_ok b e s s' u :
  require b e s = (s', Ok u) ↔ s' = s ∧ b = true.
Proof. unfold require. destruct b, u; naive_solver. Qed.

Lemma require_or_ok b upd e s s' u :
  require_or b upd e s = (s', Ok u) ↔ s' = s ∧ b = true.
Proof. unfold require_or. destruct b, u; naive_solver. Qed.

Lemma require_some_ok {A} (f : St → option A) e s s' b :
  require_some f e s = (s', Ok b) ↔ s' = s ∧ f s = Some b.
Proof. unfold require_some. destruct (f s) eqn:?; naive_solver. Qed.

(** ** Preservation of a state invariant, on every outcome *)

Definition preserves {A} (I : St → Prop) (m : M St E A) : Prop :=
  ∀ s, I s → I (fst (m s)).

(** ** Methods that change nothing when they throw *)

Definition reads {A} (m : M St E A) : Prop := ∀ s, fst (m s) = s.
Definition atomic {A} (m : M St E A) : Prop :=
  ∀ s s' e, m s = (s', Throw e) → s' = s.

Lemma reads_atomic {A} (m : M St E A) : reads m → atomic m.
Proof. intros Hm s s' e H. specialize (Hm s). by rewrite H in Hm. Qed.

Lemma reads_bind {A B} (m : M St E A) (f : A → M St E B) :
  reads m → (∀ a, reads (f a)) → reads (m ≫= f).
Proof.
  intros Hm Hf s. unfold mbind, M_bind. specialize (Hm s).
  destruct (m s) as [s1 [a|e]]; simpl in *; subst; [apply Hf|done].
Qed.

Lemma atomic_bind {A B} (m : M St E A) (f : A → M St E B) :
  reads m → (∀ a, atomic (f a)) → atomic (m ≫= f).
Proof.
  intros Hm Hf s s' e. unfold mbind, M_bind. specialize (Hm s).
  destruct (m s) as [s1 [a|e']]; simpl in *; subst; [apply Hf|congruence].
Qed.

Lemma atomic_write {A} f (a : A) : atomic (modify f ≫= λ _, mret a).
Proof. by intros s s' e. Qed.

Lemma reads_ret {A} (a : A) : reads (mret a).
Proof. done. Qed.
Lemma reads_throw {A} (e : E) : reads (throw (A:=A) e).
Proof. done. Qed.
Lemma reads_gets {A} (f : St → A) : reads (gets f).
Proof. done. Qed.
Lemma reads_lift {A} (r : result E A) : reads (lift r).
Proof. done. Qed.
Lemma reads_require b e : reads (require b e).
Proof. done. Qed.
Lemma reads_require_some {A} (f : St → option A) e : reads (require_some f e).
Proof. done. Qed.

Context (I : St → Prop).

Lemma preserves_bind {A B} (m : M St E A) (f : A → M St E B) :
  preserves I m →
  (∀ s s1 a, I s → m s = (s1, Ok a) → I s1 → I (fst (f a s1))) →
  preserves I (m ≫= f).
Proof.
  intros Hm Hf s Hs. unfold mbind, M_bind.
  specialize (Hm s Hs). destruct (m s) as [s1 [a|e]] eqn:E1; simpl in *; eauto.
Qed.

Lemma preserves_ret {A} (a : A) : preserves I (mret a).
Proof. by intros s Hs. Qed.
Lemma preserves_throw {A} (e : E) : preserves I (throw (A:=A) e).
Proof. by intros s Hs. Qed.
Lemma preserves_gets {A} (f : St → A) : preserves I (gets f).
Proof. by intros s Hs. Qed.
Lemma preserves_lift {A} (r : result E A) : preserves I (lift r).
Proof. by intros s Hs. Qed.
Lemma preserves_require b e : preserves I (require b e).
Proof. by intros s Hs. Qed.
Lemma preserves_require_some {A} (f : St → option A) e :
  preserves I (require_some f e).
Proof. by intros s Hs. Qed.
Lemma preserves_modify f : (∀ s, I s → I (f s)) → preserves I (modify f).
Proof. intros Hf s Hs. simpl. auto. Qed.
Lemma preserves_require_or b upd e :
  (∀ s, I s → I (upd s)) → preserves I (require_or b upd e).
Proof. intros Hu s Hs. unfold require_or. destruct b; simpl; auto. Qed.

(** Statement-by-statement rules, keeping what each guard established. *)

Lemma run_require {B} b e (f : unit → M St E B) s :
  I s → (b = true → I (fst (f tt s))) → I (fst ((require b e ≫= f) s)).
Proof. unfold mbind, M_bind, require. destruct b; simpl; auto. Qed.
Lemma run_require_or {B} b upd e (f : unit → M St E B) s :
  I (upd s) → (b = true → I (fst (f tt s))) → I (fst ((require_or b upd e ≫= f) s)).
Proof. unfold mbind, M_bind, require_or. destruct b; simpl; auto. Qed.
Lemma run_require_some {A B} (g : St → option A) e (f : A → M St E B) s :
  I s → (∀ a, g s = Some a → I (fst (f a s))) → I (fst ((require_some g e ≫= f) s)).
Proof. unfold mbind, M_bind, require_some. destruct (g s); simpl; auto. Qed.
Lemma run_lift {A B} (r : result E A) (f : A → M St E B) s :
  I s → (∀ a, r = Ok a → I (fst (f a s))) → I (fst ((lift r ≫= f) s)).
Proof. unfold mbind, M_bind, lift. destruct r; simpl; auto. Qed.
Lemma run_gets {A B} (g : St → A) (f : A → M St E B) s :
  I (fst (f (g s) s)) → I (fst ((gets g ≫= f) s)).
Proof. done. Qed.
Lemma run_modify {B} g (f : unit → M St E B) s :
  I (fst (f tt (g s))) → I (fst ((modify g ≫= f) s)).
Proof. done. Qed.
Lemma run_bind {A B} (m : M St E A) (f : A → M St E B) s :
  reads m → I s → (∀ a, m s = (s, Ok a) → I (fst (f a s))) → I (fst ((m ≫= f) s)).
Proof.
  intros Hm Hs Hf. unfold mbind, M_bind. specialize (Hm s).
  destruct (m s) as [s1 [a|e]] eqn:E1; simpl in *; subst; auto.
Qed.
End monad.

Create HintDb oracle discriminated.
#[export] Hint Resolve preserves_ret preserves_throw preserves_gets
  preserves_lift preserves_require preserves_require_some : oracle.

#[export] Hint Resolve reads_ret reads_throw reads_gets reads_lift reads_require
  reads_require_some reads_bind atomic_write : oracle.

(** A branching statement that only reads. *)
Ltac reads_cases :=
  match goal with |- reads (match ?x with _ => _ end) => destruct x end;
  auto 10 with oracle.

(** A method that only checks and reads before its single write is atomic. *)
Ltac solve_atomic :=
  repeat first
    [ apply atomic_write
    | apply atomic_bind; [solve [auto 10 with oracle]|intros ?]
    | apply atomic_bind; [solve [reads_cases]|intros ?]
    | match goal with |- atomic (match ?x with _ => _ end) => destruct x end
    | apply reads_atomic; solve [auto 10 with oracle] ].

(** Invert a successful run [m s = (s', Ok a)] down to the facts each statement
    of the method established. *)
Ltac inv_ok :=
  repeat match goal with
  | H : (_ ≫= _) _ = (_, Ok _) |- _ =>
      apply bind_ok in H; destruct H as (? & ? & ? & H)
  | H : mret _ _ = (_, Ok _) |- _ => apply ret_ok in H; destruct H as [? ?]
  | H : throw _ _ = (_, Ok _) |- _ => apply throw_ok in H; destruct H
  | H : gets _ _ = (_, Ok _) |- _ => apply gets_ok in H; destruct H as [? ?]
  | H : modify _ _ = (_, Ok _) |- _ => apply modify_ok in H
  | H : lift _ _ = (_, Ok _) |- _ => apply lift_ok in H; destruct H as [? ?]
  | H : require _ _ _ = (_, Ok _) |- _ => apply require_ok in H; destruct H as [? ?]
  | H : require_or _ _ _ _ = (_, Ok _) |- _ =>
      apply require_or_ok in H; destruct H as [? ?]
  | H : require_some _ _ _ = (_, Ok _) |- _ =>
      apply require_some_ok in H; destruct H as [? ?]
  | H : (if ?b then _ else _) _ = (_, Ok _) |- _ => destruct b eqn:?
  | _ => progress subst
  end.

(** Symbolic execution of a method for a goal [I (fst (m s))]: guards become
    hypotheses; it stops at each state update. *)
Ltac inv_run :=
  repeat first
    [ apply run_require; [assumption|intros ?]
    | apply run_require_some; [assumption|intros ? ?]
    | apply run_lift; [assumption|intros ? ?]
    | apply run_gets
    | apply run_bind; [solve [auto 10 with oracle]|assumption|intros ? ?]
    | apply run_bind; [solve [reads_cases]|assumption|intros ? ?] ].

(** Turn boolean tests of the code into propositions. *)
Ltac to_prop :=
  repeat match goal with
  | H : _ && _ = true |- _ => apply andb_true_iff in H; destruct H
  | H : _ || _ = false |- _ => apply orb_false_iff in H; destruct H
  | H : negb _ = true |- _ => apply negb_true_iff in H
  | H : negb _ = false |- _ => apply negb_false_iff in H
  | H : bool_decide _ = true |- _ => apply bool_decide_eq_true in H
  | H : bool_decide _ = false |- _ => apply bool_decide_eq_false in H
  | H : (_ <=? _)%Z = true |- _ => apply Z.leb_le in H
  | H : (_ <=? _)%Z = false |- _ => apply Z.leb_gt in H
  | H : (_ <? _)%Z = true |- _ => apply Z.ltb_lt in H
  | H : (_ <? _)%Z = false |- _ => apply Z.ltb_ge in H
  | H : (_ =? _)%Z = true |- _ => apply Z.eqb_eq in H
  | H : (_ =? _)%Z = false |- _ => apply Z.eqb_neq in H
  end.

(** Case analysis on every [if] and [match] of the goal, with equations. *)
Ltac split_ifs :=
  repeat match goal with
  | |- context [if ?b then _ else _] => destruct b eqn:?
  end.

(** ** JavaScript strings

    Strings are sequences of 8-bit characters, the code units below U+0100;
    [trim] removes the white space of ECMAScript among them (tab, line feed,
    vertical tab, form feed, carriage return, space and U+00A0), [toUpperCase]
    and [toLowerCase] act on ASCII letters, the alphabet of the identifiers the
    services exchange (tickers, provider names, key names). *)

Definition is_space (c : Ascii.ascii) : bool :=
  let n := Ascii.nat_of_ascii c in
  bool_decide (n = 32) || bool_decide (n = 160) || (bool_decide (9 ≤ n) && bool_decide (n ≤ 13)).

Fixpoint trim_start (s : string) : string :=
  match s with
  | String c s' => if is_space c then trim_start s' else s
  | EmptyString => EmptyString
  end.

Definition string_rev (s : string) : string :=
  String.string_of_list_ascii (rev (String.list_ascii_of_string s)).

Definition trim (s : string) : string :=
  string_rev (trim_start (string_rev (trim_start s))).

Definition upper_char (c : Ascii.ascii) : Ascii.ascii :=
  let n := Ascii.nat_of_ascii c in
  if bool_decide (97 ≤ n) && bool_decide (n ≤ 122)
  then Ascii.ascii_of_nat (n - 32) else c.
Definition lower_char (c : Ascii.ascii) : Ascii.ascii :=
  let n := Ascii.nat_of_ascii c in
  if bool_decide (65 ≤ n) && bool_decide (n ≤ 90)
  then Ascii.ascii_of_nat (n + 32) else c.

Fixpoint string_map (f : Ascii.ascii → Ascii.ascii) (s : string) : string :=
  match s with
  | String c s' => String (f c) (string_map f s')
  | EmptyString => EmptyString
  end.

Definition toUpperCase : string → string := string_map upper_char.
Definition toLowerCase : string → string := string_map lower_char.

(** The characters of a string, and their classes in regular expressions. *)
Abbreviation chars := String.list_ascii_of_string.

Lemma chars_app s t : chars (s +:+ t) = chars s ++ chars t.
Proof. induction s as [|ch s IH]; simpl; [done|]. by f_equal. Qed.

Lemma chars_inj s t : chars s = chars t → s = t.
Proof.
  intros H. by rewrite <- (String.string_of_list_ascii_of_string s), H, String.string_of_list_ascii_of_string.
Qed.

Definition char_between (lo hi : nat) (ch : Ascii.ascii) : bool :=
  (lo <=? Ascii.nat_of_ascii ch)%nat && (Ascii.nat_of_ascii ch <=? hi)%nat.

(** [s.length === 0] *)
Definition is_blank (s : string) : bool := bool_decide (trim s = EmptyString).
Definition strlen (s : string) : Z := Z.of_nat (String.length s).
Definition dquote : string := String (Ascii.ascii_of_nat 34) EmptyString.

Lemma upper_char_idemp c : upper_char (upper_char c) = upper_char c.
Proof. by destruct c as [[] [] [] [] [] [] [] []]. Qed.

Lemma toUpperCase_idemp s : toUpperCase (toUpperCase s) = toUpperCase s.
Proof.
  unfold toUpperCase. induction s as [|c s IH]; [done|]. simpl.
  by rewrite upper_char_idemp, IH.
Qed.

Lemma is_space_upper c : is_space (upper_char c) = is_space c.
Proof. by destruct c as [[] [] [] [] [] [] [] []]. Qed.

Lemma trim_start_map s :
  trim_start (string_map upper_char s) = string_map upper_char (trim_start s).
Proof.
  induction s as [|c s IH]; simpl; [done|]. rewrite is_space_upper. by destruct (is_space c).
Qed.

Lemma string_rev_map f s : string_rev (string_map f s) = string_map f (string_rev s).
Proof.
  assert (∀ l, String.string_of_list_ascii (f <$> l) =
               string_map f (String.string_of_list_ascii l)) as Hof.
  { induction l as [|c l IH]; simpl; [done|]. by f_equal. }
  assert (∀ t, String.list_ascii_of_string (string_map f t) =
               f <$> String.list_ascii_of_string t) as Hto.
  { induction t as [|c t IH]; simpl; [done|]. by f_equal. }
  unfold string_rev. rewrite Hto, <- Hof. f_equal. symmetry. apply map_rev.
Qed.

Lemma trim_toUpperCase s : trim (toUpperCase s) = toUpperCase (trim s).
Proof.
  unfold trim, toUpperCase. by rewrite trim_start_map, string_rev_map, trim_start_map, string_rev_map.
Qed.

Lemma is_space_lower c : is_space (lower_char c) = is_space c.
Proof. by destruct c as [[] [] [] [] [] [] [] []]. Qed.

Lemma lower_char_idemp c : lower_char (lower_char c) = lower_char c.
Proof. by destruct c as [[] [] [] [] [] [] [] []]. Qed.

Lemma toLowerCase_idemp s : toLowerCase (toLowerCase s) = toLowerCase s.
Proof.
  unfold toLowerCase. induction s as [|c s IH]; [done|]. simpl.
  by rewrite lower_char_idemp, IH.
Qed.

Lemma trim_start_lower s :
  trim_start (string_map lower_char s) = string_map lower_char (trim_start s).
Proof.
  induction s as [|c s IH]; simpl; [done|]. rewrite is_space_lower. by destruct (is_space c).
Qed.

Lemma trim_toLowerCase s : trim (toLowerCase s) = toLowerCase (trim s).
Proof.
  unfold trim, toLowerCase.
  by rewrite trim_start_lower, string_rev_map, trim_start_lower, string_rev_map.
Qed.

(** The text does not begin with white space. *)
Definition starts_clean (s : string) : Prop :=
  match s with String c _ => is_space c = false | EmptyString => True end.

Lemma trim_start_clean s : starts_clean (trim_start s).
Proof. induction s as [|c s IH]; simpl; [done|]. destruct (is_space c) eqn:E; [done|]. exact E. Qed.

Lemma trim_start_fix s : starts_clean s → trim_start s = s.
Proof. destruct s as [|c s]; simpl; [done|]. by intros ->. Qed.

Lemma string_rev_involutive s : string_rev (string_rev s) = s.
Proof.
  unfold string_rev. rewrite String.list_ascii_of_string_of_list_ascii, rev_involutive.
  apply String.string_of_list_ascii_of_string.
Qed.

Lemma trim_start_suffix s :
  ∃ l, String.list_ascii_of_string s = l ++ String.list_ascii_of_string (trim_start s).
Proof.
  induction s as [|c s [l IH]]; simpl; [by exists []|]. destruct (is_space c); [|by exists []].
  exists (c :: l). simpl. by rewrite IH.
Qed.

Lemma trim_clean s : starts_clean (trim s).
Proof.
  unfold trim. pose proof (trim_start_clean s) as Hc. set (t := trim_start s) in *.
  destruct (trim_start_suffix (string_rev t)) as [l Hl].
  unfold string_rev in Hl at 1. rewrite String.list_ascii_of_string_of_list_ascii in Hl.
  apply (f_equal (@rev _)) in Hl. rewrite rev_involutive, rev_app_distr in Hl.
  unfold string_rev at 1. set (u := rev (String.list_ascii_of_string _)) in *.
  destruct u as [|c u]; [done|]. destruct t as [|c' t]; simpl in *; [done|].
  injection Hl as -> _. exact Hc.
Qed.

Lemma trim_idemp s : trim (trim s) = trim s.
Proof.
  unfold trim at 1. rewrite (trim_start_fix (trim s)) by apply trim_clean. unfold trim.
  rewrite string_rev_involutive, trim_start_fix; [done|]. apply trim_start_clean.
Qed.

(** ** Splitting and searching text *)

Definition colon : Ascii.ascii := Ascii.ascii_of_nat 58.

(** [s.split(c)] on characters. *)
Fixpoint split_on (sep : Ascii.ascii) (l : list Ascii.ascii) : list (list Ascii.ascii) :=
  match l with
  | [] => [[]]
  | ch :: l' =>
      if decide (ch = sep) then [] :: split_on sep l'
      else match split_on sep l' with
           | part :: parts => (ch :: part) :: parts
           | [] => [[ch]]
           end
  end.

Lemma split_on_app sep l r : sep ∉ l → split_on sep (l ++ sep :: r) = l :: split_on sep r.
Proof.
  induction l as [|ch l IH]; intros Hl; simpl; [by rewrite decide_True|].
  rewrite decide_False by set_solver. rewrite IH by set_solver. done.
Qed.

Lemma split_on_nonempty sep l : split_on sep l ≠ [].
Proof. destruct l as [|ch l]; simpl; [done|]. case_decide; [done|]. by destruct (split_on sep l). Qed.

Lemma split_on_single sep l : sep ∉ l → split_on sep l = [l].
Proof.
  induction l as [|ch l IH]; intros Hl; simpl; [done|].
  rewrite decide_False by set_solver. rewrite IH by set_solver. done.
Qed.

(** [s.split(sep)] for a one-character separator. *)
Definition js_split (sep : Ascii.ascii) (s : string) : list string :=
  String.string_of_list_ascii <$> split_on sep (chars s).

(** [s.includes(pat)] *)
Fixpoint list_includes (pat l : list Ascii.ascii) : bool :=
  bool_decide (pat `prefix_of` l) ||
  match l with [] => false | _ :: l' => list_includes pat l' end.
Definition includes (pat s : string) : bool := list_includes (chars pat) (chars s).

Lemma chars_of_list l : chars (String.string_of_list_ascii l) = l.
Proof. apply String.list_ascii_of_string_of_list_ascii. Qed.

Lemma js_split_cons sep s t :
  sep ∉ chars s → js_split sep (s +:+ String sep t) = s :: js_split sep t.
Proof.
  intros Hs. unfold js_split. rewrite chars_app. simpl. rewrite split_on_app by done. simpl.
  by rewrite String.string_of_list_ascii_of_string.
Qed.

Lemma js_split_single sep s : sep ∉ chars s → js_split sep s = [s].
Proof.
  intros Hs. unfold js_split. rewrite split_on_single by done. simpl.
  by rewrite String.string_of_list_ascii_of_string.
Qed.

(** Text without white space is its own trimmed form. *)
Lemma trim_nospace s : Forall (λ c, is_space c = false) (chars s) → trim s = s.
Proof.
  intros Hs. unfold trim. rewrite (trim_start_fix s) by (destruct s; [done|by inversion Hs]).
  rewrite trim_start_fix, string_rev_involutive; [done|].
  unfold string_rev. destruct (rev (chars s)) as [|c l] eqn:E; [done|]. simpl.
  rewrite Forall_forall in Hs. apply Hs. rewrite list_elem_of_In, in_rev, E. by left.
Qed.

(** ** Timestamps

    Every ISO-8601 string the services store is produced by [toISOString] from
    a [Date], so a stored timestamp is represented by its epoch milliseconds
    ([Date.parse] inverts [toISOString]).  A timestamp supplied by a caller is
    text that may be blank or unparseable. *)

Inductive date_text : Type :=
| DBlank                  (* the text is empty after [trim] *)
| DInvalid                (* [Date.parse] gives [NaN] *)
| DInstant (ms : Z).      (* [Date.parse] gives [ms] *)

(** [Date.prototype.toISOString]: the proleptic Gregorian calendar date of a
    number of days since the epoch, and the fixed-width text. *)
Definition civil_from_days (days : Z) : Z * Z * Z :=
  (let z := days + 719468 in
   let era := z / 146097 in
   let doe := z mod 146097 in
   let yoe := (doe - doe / 1460 + doe / 36524 - doe / 146096) / 365 in
   let doy := doe - (365 * yoe + yoe / 4 - yoe / 100) in
   let mp := (5 * doy + 2) / 153 in
   let d := doy - (153 * mp + 2) / 5 + 1 in
   let m := if mp <? 10 then mp + 3 else mp - 9 in
   (yoe + era * 400 + (if m <=? 2 then 1 else 0), m, d))%Z.

(** [z] in decimal, with leading zeros up to [n] digits. *)
Definition digits (n : nat) (z : Z) : string :=
  let s := pretty z in
  String.string_of_list_ascii (repeat (Ascii.ascii_of_nat 48) (n - String.length s)) +:+ s.

Definition iso_year (y : Z) : string :=
  (if (0 <=? y)%Z && (y <=? 9999)%Z then digits 4 y
   else if (y <? 0)%Z then "-" +:+ digits 6 (- y) else "+" +:+ digits 6 y).

Definition toISOString (ms : Z) : string :=
  (let '(y, m, d) := civil_from_days (ms / 86400000) in
   let t := ms mod 86400000 in
   iso_year y +:+ "-" +:+ digits 2 m +:+ "-" +:+ digits 2 d +:+ "T" +:+
   digits 2 (t / 3600000) +:+ ":" +:+ digits 2 (t / 60000 mod 60) +:+ ":" +:+
   digits 2 (t / 1000 mod 60) +:+ "." +:+ digits 3 (t mod 1000) +:+ "Z")%Z.

(** ** Stable sorting: [Array.prototype.sort(compare)] *)

Section stable_sort.
Context {A : Type} (leb : A → A → bool).

Fixpoint sort_insert (x : A) (l : list A) : list A :=
  match l with
  | [] => [x]
  | y :: l' => if leb x y then x :: l else y :: sort_insert x l'
  end.

Fixpoint stable_sort (l : list A) : list A :=
  match l with
  | [] => []
  | x :: l' => sort_insert x (stable_sort l')
  end.

Lemma sort_insert_perm x l : sort_insert x l ≡ₚ x :: l.
Proof.
  induction l as [|y l IH]; simpl; [done|].
  destruct (leb x y); [done|]. rewrite IH. by apply Permutation_swap.
Qed.

Lemma stable_sort_perm l : stable_sort l ≡ₚ l.
Proof. induction l as [|x l IH]; simpl; [done|]. by rewrite sort_insert_perm, IH. Qed.

Lemma stable_sort_length l : length (stable_sort l) = length l.
Proof. by rewrite stable_sort_perm. Qed.

Lemma elem_of_stable_sort x l : x ∈ stable_sort l ↔ x ∈ l.
Proof. by rewrite stable_sort_perm. Qed.

Context (R : A → A → Prop) (leb_spec : ∀ x y, if leb x y then R x y else R y x).
Context `{!Transitive R}.

Lemma sort_insert_sorted x l :
  StronglySorted R l → StronglySorted R (sort_insert x l).
Proof.
  induction 1 as [|y l Hs IH Hall]; simpl; [repeat constructor|].
  specialize (leb_spec x y). destruct (leb x y).
  - constructor; [by constructor|]. constructor; [done|].
    eapply Forall_impl; [exact Hall|]. intros z Hz. by etrans.
  - constructor; [done|]. rewrite sort_insert_perm. by constructor.
Qed.

Lemma stable_sort_sorted l : StronglySorted R (stable_sort l).
Proof. induction l; simpl; [constructor|by apply sort_insert_sorted]. Qed.
End stable_sort.

(** A list in order is left as it is. *)
Lemma stable_sort_fix {A} (leb : A → A → bool) (l : list A) :
  StronglySorted (λ x y, leb x y = true) l → stable_sort leb l = l.
Proof.
  induction 1 as [|x l Hs IH Hall]; [done|]. simpl. rewrite IH.
  destruct l as [|y l']; [done|]. simpl. by rewrite (Forall_inv Hall).
Qed.

(** ** [new Set(...)]: each element once, in order of first occurrence *)

Section dedup.
Context {A : Type} `{EqDecision A}.

Fixpoint dedup_from (seen : list A) (l : list A) : list A :=
  match l with
  | [] => []
  | x :: l' => if decide (x ∈ seen) then dedup_from seen l'
               else x :: dedup_from (x :: seen) l'
  end.
Definition js_dedup : list A → list A := dedup_from [].

Lemma elem_of_dedup_from seen l x : x ∈ dedup_from seen l ↔ x ∈ l ∧ x ∉ seen.
Proof.
  revert seen. induction l as [|y l IH]; intros seen; simpl; [set_solver|].
  case_decide; [rewrite IH; set_solver|]. rewrite elem_of_cons, IH, elem_of_cons.
  destruct (decide (x = y)); set_solver.
Qed.

Lemma elem_of_js_dedup l x : x ∈ js_dedup l ↔ x ∈ l.
Proof. unfold js_dedup. rewrite elem_of_dedup_from. set_solver. Qed.

Lemma NoDup_dedup_from seen l : NoDup (dedup_from seen l).
Proof.
  revert seen. induction l as [|y l IH]; intros seen; simpl; [constructor|].
  case_decide; [apply IH|]. constructor; [|apply IH]. rewrite elem_of_dedup_from. set_solver.
Qed.

Lemma NoDup_js_dedup l : NoDup (js_dedup l).
Proof. apply NoDup_dedup_from. Qed.

Lemma dedup_from_fix seen l :
  NoDup l → (∀ x, x ∈ l → x ∉ seen) → dedup_from seen l = l.
Proof.
  intros Hnd. revert seen. induction Hnd as [|x l Hx Hnd IH]; intros seen Hs; [done|].
  simpl. rewrite decide_False by set_solver. f_equal. apply IH. set_solver.
Qed.

Lemma js_dedup_fix l : NoDup l → js_dedup l = l.
Proof. intros Hnd. apply dedup_from_fix; [done|set_solver]. Qed.
End dedup.

(** ** Generic list lemmas *)

Lemma list_find_bool {A} (f : A → bool) (l : list A) :
  List.find f l = None ↔ ∀ x, x ∈ l → f x = false.
Proof.
  split.
  - intros H x Hx. apply list_elem_of_In in Hx. by eapply List.find_none.
  - intros H. destruct (List.find f l) eqn:E; [|done].
    apply List.find_some in E as [Hin Hf]. apply list_elem_of_In in Hin.
    by rewrite H in Hf.
Qed.

Lemma forallb_elem {A} (f : A → bool) (l : list A) :
  forallb f l = true ↔ ∀ x, x ∈ l → f x = true.
Proof. rewrite List.forallb_forall. by setoid_rewrite list_elem_of_In. Qed.

Lemma existsb_elem {A} (f : A → bool) (l : list A) :
  existsb f l = true ↔ ∃ x, x ∈ l ∧ f x = true.
Proof. rewrite List.existsb_exists. by setoid_rewrite list_elem_of_In. Qed.

Lemma filter_none {A} (P : A → Prop) `{∀ x, Decision (P x)} (l : list A) :
  (∀ x, x ∈ l → ¬ P x) → filter P l = [].
Proof.
  induction l as [|x l IH]; intros Hl; [done|]. rewrite filter_cons, decide_False by set_solver.
  apply IH. set_solver.
Qed.

Lemma filter_all {A} (P : A → Prop) `{∀ x, Decision (P x)} (l : list A) :
  (∀ x, x ∈ l → P x) → filter P l = l.
Proof.
  induction l as [|x l IH]; intros Hl; [done|]. rewrite filter_cons, decide_True by set_solver.
  f_equal. apply IH. set_solver.
Qed.

Lemma NoDup_fmap_filter {A B} (f : A → B) (P : A → Prop) `{∀ x, Decision (P x)} (l : list A) :
  NoDup (f <$> l) → NoDup (f <$> filter P l).
Proof.
  induction l as [|x l IH]; [done|]. rewrite fmap_cons. intros [Hx Hl]%NoDup_cons.
  rewrite filter_cons. destruct (decide (P x)); [|by apply IH].
  rewrite fmap_cons. constructor; [|by apply IH]. intros (y & Heq & Hy)%list_elem_of_fmap.
  apply Hx. rewrite Heq. apply list_elem_of_filter in Hy as [_ ?]. by apply list_elem_of_fmap_2.
Qed.

Lemma length_filter_fmap {A B} (f : A → B) (P : B → Prop) (Q : A → Prop)
    `{∀ x, Decision (P x), ∀ x, Decision (Q x)} (l : list A) :
  (∀ x, x ∈ l → P (f x) ↔ Q x) →
  length (filter P (f <$> l)) = length (filter Q l).
Proof.
  induction l as [|x l IH]; intros Hl; [done|]. rewrite fmap_cons, !filter_cons.
  assert (P (f x) ↔ Q x) as HPQ by (apply Hl; set_solver).
  specialize (IH (λ y Hy, Hl y (list_elem_of_further _ _ _ Hy))).
  destruct (decide (P (f x))), (decide (Q x)); cbn [length]; [by f_equal|tauto..|done].
Qed.

(** ** Comparison functions

    A JavaScript comparator returns a number whose sign matters; it is modelled
    by [comparison].  [cmp_laws] is what [Array.prototype.sort] requires of it;
    the lawful comparators are closed under keys, reversal and lexicographic
    chaining. *)

Class cmp_laws {A} (c : A → A → comparison) : Prop := {
  cmp_opp x y : c y x = CompOpp (c x y);
  cmp_trans x y z : c x y ≠ Gt → c y z ≠ Gt → c x z ≠ Gt;
}.

Definition cmp_on {A B} (f : A → B) (c : B → B → comparison) : A → A → comparison :=
  λ x y, c (f x) (f y).
Definition cmp_flip {A} (c : A → A → comparison) : A → A → comparison :=
  λ x y, c y x.
(** [if (k1(x) !== k1(y)) return c1; return c2] *)
Definition cmp_lex {A} (c1 c2 : A → A → comparison) : A → A → comparison :=
  λ x y, match c1 x y with Eq => c2 x y | o => o end.
Definition cmp_leb {A} (c : A → A → comparison) (x y : A) : bool :=
  match c x y with Gt => false | _ => true end.

#[global] Typeclasses Opaque cmp_on cmp_flip cmp_lex.

Lemma cmp_eq_sym {A} (c : A → A → comparison) `{!cmp_laws c} x y :
  c x y = Eq → c y x = Eq.
Proof. rewrite (cmp_opp (c:=c) x y). by intros ->. Qed.

Lemma cmp_eq_trans {A} (c : A → A → comparison) `{!cmp_laws c} x y z :
  c x y = Eq → c y z = Eq → c x z = Eq.
Proof.
  intros Hxy Hyz. pose proof (cmp_trans (c:=c) x y z) as H1. pose proof (cmp_trans (c:=c) z y x) as H2.
  rewrite Hxy, Hyz in H1. rewrite (cmp_eq_sym c _ _ Hxy), (cmp_eq_sym c _ _ Hyz) in H2.
  rewrite (cmp_opp (c:=c) x z) in H2. destruct (c x z); simpl in *; naive_solver.
Qed.

Lemma cmp_lt_eq {A} (c : A → A → comparison) `{!cmp_laws c} x y z :
  c x y ≠ Gt → c y z ≠ Gt → c x z = Eq → c x y = Eq ∧ c y z = Eq.
Proof.
  intros Hxy Hyz Hxz. pose proof (cmp_trans (c:=c) y z x Hyz) as H1.
  pose proof (cmp_trans (c:=c) z x y) as H2. rewrite (cmp_eq_sym c _ _ Hxz) in *.
  specialize (H1 ltac:(done)). specialize (H2 ltac:(done) Hxy).
  rewrite (cmp_opp (c:=c) x y) in H1. rewrite (cmp_opp (c:=c) y z) in H2.
  destruct (c x y), (c y z); naive_solver.
Qed.

#[export] Instance cmp_on_laws {A B} (f : A → B) c : cmp_laws c → cmp_laws (cmp_on f c).
Proof. intros [H1 H2]. split; unfold cmp_on; eauto. Qed.

#[export] Instance cmp_flip_laws {A} (c : A → A → comparison) :
  cmp_laws c → cmp_laws (cmp_flip c).
Proof. intros [H1 H2]. split; unfold cmp_flip; eauto. Qed.

#[export] Instance cmp_lex_laws {A} (c1 c2 : A → A → comparison) :
  cmp_laws c1 → cmp_laws c2 → cmp_laws (cmp_lex c1 c2).
Proof.
  intros L1 L2. split; unfold cmp_lex.
  - intros x y. rewrite (cmp_opp (c:=c1) x y). destruct (c1 x y); simpl; [apply cmp_opp|done..].
  - intros x y z Hxy Hyz.
    assert (c1 x y ≠ Gt) as N1 by (by destruct (c1 x y)).
    assert (c1 y z ≠ Gt) as N2 by (by destruct (c1 y z)).
    pose proof (cmp_trans (c:=c1) x y z N1 N2) as N3.
    destruct (c1 x z) eqn:E; [|done..].
    destruct (cmp_lt_eq c1 _ _ _ N1 N2 E) as [E1 E2]. rewrite E1 in Hxy. rewrite E2 in Hyz.
    by eapply cmp_trans.
Qed.

#[export] Instance Z_compare_laws : cmp_laws Z.compare.
Proof.
  split; [intros; apply Z.compare_antisym|]. intros x y z. rewrite !Z.compare_le_iff. lia.
Qed.

#[export] Instance string_compare_laws : cmp_laws String.compare.
Proof.
  split; [intros; apply String.compare_antisym|]. intros x y z Hxy Hyz.
  assert (String.le x z) as Hxz.
  { trans y; unfold String.le, String.leb; [by destruct (x ?= y)%string|].
    by destruct (y ?= z)%string. }
  unfold String.le, String.leb in Hxz. by destruct (x ?= z)%string.
Qed.

Lemma cmp_leb_total {A} (c : A → A → comparison) `{!cmp_laws c} x y :
  if cmp_leb c x y then c x y ≠ Gt else c y x ≠ Gt.
Proof.
  unfold cmp_leb. destruct (c x y) eqn:E; try done.
  by rewrite (cmp_opp (c:=c) x y), E.
Qed.

Definition sort_strings : list string → list string :=
  stable_sort (cmp_leb String.compare).

Lemma cmp_sorted {A} (c : A → A → comparison) `{!cmp_laws c} l :
  StronglySorted (λ x y, cmp_leb c x y = true) (stable_sort (cmp_leb c) l).
Proof.
  apply stable_sort_sorted.
  - intros x y. pose proof (cmp_leb_total c x y) as H. unfold cmp_leb in *.
    destruct (c x y) eqn:E; try done. by destruct (c y x).
  - intros x y z. unfold cmp_leb. pose proof (cmp_trans (c:=c) x y z).
    destruct (c x y), (c y z), (c x z); naive_solver.
Qed.

Lemma cmp_sort_idemp {A} (c : A → A → comparison) `{!cmp_laws c} l :
  stable_sort (cmp_leb c) (stable_sort (cmp_leb c) l) = stable_sort (cmp_leb c) l.
Proof. apply stable_sort_fix, cmp_sorted, _. Qed.

(** The head of the sorted array is a least element. *)
Lemma sort_head_least {A} (c : A → A → comparison) `{!cmp_laws c} l x l' :
  stable_sort (cmp_leb c) l = x :: l' → x ∈ l ∧ ∀ y, y ∈ l → c x y ≠ Gt.
Proof.
  intros Hl. split; [rewrite <- (elem_of_stable_sort (cmp_leb c)), Hl; set_solver|].
  assert (Transitive (λ x y, c x y ≠ Gt)) by (intros ???; apply cmp_trans).
  pose proof (stable_sort_sorted (cmp_leb c) (λ x y, c x y ≠ Gt) (cmp_leb_total c) l) as Hs.
  rewrite Hl in Hs. apply StronglySorted_inv in Hs as [_ Hall].
  intros y. rewrite <- (elem_of_stable_sort (cmp_leb c)), Hl. intros [->|Hy]%elem_of_cons.
  - pose proof (cmp_opp (c:=c) x x). by destruct (c x x).
  - rewrite Forall_forall in Hall. by apply Hall.
Qed.

(** Sorting forgets the order the elements came in, if the comparator tells them apart. *)
Lemma cmp_sort_perm {A} (c : A → A → comparison) `{!cmp_laws c} l1 l2 :
  (∀ x y, x ∈ l1 → y ∈ l1 → c x y = Eq → x = y) → l1 ≡ₚ l2 →
  stable_sort (cmp_leb c) l1 = stable_sort (cmp_leb c) l2.
Proof.
  intros Hinj Hp. eapply StronglySorted_unique_strong; [|apply cmp_sorted, _..|by rewrite !stable_sort_perm].
  intros x y Hx Hy. rewrite elem_of_stable_sort in Hx, Hy. rewrite <- Hp in Hy.
  unfold cmp_leb. rewrite (cmp_opp (c:=c) x y). destruct (c x y) eqn:E; simpl; try done. auto.
Qed.

Lemma sort_strings_perm l1 l2 : l1 ≡ₚ l2 → sort_strings l1 = sort_strings l2.
Proof. apply (cmp_sort_perm String.compare). intros x y _ _. apply String.compare_eq_iff. Qed.
