(* ===== verification/JsMap.v ===== *)
(** * Insertion-ordered maps

    The sources keep nearly all of their state in ECMAScript [Map] objects and
    iterate over them ([values()], [entries()], [keys().next()]), so the order
    of insertion is observable: [set] on a present key keeps its position, on
    an absent key appends, and [delete] followed by [set] moves a key to the
    end.  A [jsmap K V] is that list of entries.  [to_gmap] forgets the order;
    the lemmas [to_gmap_set], [to_gmap_delete] and [to_gmap_get] say that the
    ordered map implements stdpp's finite maps. *)

From stdpp Require Import base list gmap.
From S2P Require Import Prelude.

Definition jsmap (K V : Type) : Type := list (K * V).

Section jsmap.
Context {K V : Type} `{EqDecision K}.
Implicit Types (m : jsmap K V) (k : K) (v : V).

Definition jm_empty : jsmap K V := [].

Fixpoint jm_get k m : option V :=
  match m with
  | [] => None
  | (k', v) :: m' => if decide (k' = k) then Some v else jm_get k m'
  end.

Definition jm_has k m : bool :=
  match jm_get k m with Some _ => true | None => false end.

Fixpoint jm_set k v m : jsmap K V :=
  match m with
  | [] => [(k, v)]
  | (k', v') :: m' =>
      if decide (k' = k) then (k, v) :: m' else (k', v') :: jm_set k v m'
  end.

Fixpoint jm_delete k m : jsmap K V :=
  match m with
  | [] => []
  | (k', v') :: m' =>
      if decide (k' = k) then jm_delete k m' else (k', v') :: jm_delete k m'
  end.

Definition jm_keys m : list K := m.*1.
Definition jm_values m : list V := m.*2.
Definition jm_size m : nat := length m.

(** [for (const v of m.values()) mutate(v)] *)
Definition jm_map_values (f : V → V) m : jsmap K V :=
  (λ '(k, v), (k, f v)) <$> m.

(** Keys are unique: the representation invariant. *)
Definition jm_wf m : Prop := NoDup (jm_keys m).

Lemma jm_get_set_eq k v m : jm_get k (jm_set k v m) = Some v.
Proof. induction m as [|[k' v'] m IH]; simpl; repeat (case_decide; simpl); congruence. Qed.

Lemma jm_get_set_ne k k' v m :
  k ≠ k' → jm_get k' (jm_set k v m) = jm_get k' m.
Proof.
  intros Hne. induction m as [|[k0 v0] m IH]; simpl; repeat (case_decide; simpl); congruence.
Qed.

Lemma jm_get_set k k' v m :
  jm_get k' (jm_set k v m) = if decide (k = k') then Some v else jm_get k' m.
Proof. case_decide; subst; [apply jm_get_set_eq|by apply jm_get_set_ne]. Qed.

Lemma jm_get_delete k k' m :
  jm_get k' (jm_delete k m) = if decide (k = k') then None else jm_get k' m.
Proof.
  induction m as [|[k0 v0] m IH]; simpl; repeat (case_decide; simpl); congruence.
Qed.

Lemma jm_get_delete_eq k m : jm_get k (jm_delete k m) = None.
Proof. rewrite jm_get_delete. by case_decide. Qed.

Lemma jm_get_delete_ne k k' m :
  k ≠ k' → jm_get k' (jm_delete k m) = jm_get k' m.
Proof. intros. rewrite jm_get_delete. by case_decide. Qed.

Lemma jm_get_map_values f k m : jm_get k (jm_map_values f m) = f <$> jm_get k m.
Proof. induction m as [|[k0 v0] m IH]; simpl; [done|]. by case_decide. Qed.

Lemma jm_keys_map_values f m : jm_keys (jm_map_values f m) = jm_keys m.
Proof. induction m as [|[k0 v0] m IH]; simpl; [done|]. by f_equal. Qed.

Lemma jm_values_map_values f m : jm_values (jm_map_values f m) = f <$> jm_values m.
Proof. induction m as [|[k0 v0] m IH]; simpl; [done|]. by f_equal. Qed.

Lemma jm_get_elem k v m : jm_get k m = Some v → (k, v) ∈ m.
Proof.
  induction m as [|[k0 v0] m IH]; simpl; [done|].
  case_decide; intros; simplify_eq; set_solver.
Qed.

Lemma jm_elem_get k v m : jm_wf m → (k, v) ∈ m → jm_get k m = Some v.
Proof.
  unfold jm_wf. induction m as [|[k0 v0] m IH]; simpl; [set_solver|].
  intros [Hni Hnd]%NoDup_cons [Heq|Hin]%elem_of_cons; simplify_eq.
  - by case_decide.
  - case_decide; [|auto]. subst. destruct Hni. apply list_elem_of_fmap. by exists (k, v).
Qed.

Lemma jm_get_None k m : jm_get k m = None ↔ k ∉ jm_keys m.
Proof.
  induction m as [|[k0 v0] m IH]; simpl; [set_solver|].
  case_decide; subst; set_solver.
Qed.

Lemma jm_has_true k m : jm_has k m = true ↔ is_Some (jm_get k m).
Proof. unfold jm_has. destruct (jm_get k m); split; [eauto|done|done|by intros []]. Qed.

Lemma jm_has_false k m : jm_has k m = false ↔ jm_get k m = None.
Proof. unfold jm_has. by destruct (jm_get k m). Qed.

Lemma jm_value_elem k v m : jm_get k m = Some v → v ∈ jm_values m.
Proof. intros H%jm_get_elem. apply list_elem_of_fmap. by exists (k, v). Qed.

Lemma jm_value_inv v m : jm_wf m → v ∈ jm_values m → ∃ k, jm_get k m = Some v.
Proof.
  intros Hwf ([k v'] & -> & Hin)%list_elem_of_fmap. exists k. by apply jm_elem_get.
Qed.

Lemma jm_keys_set k v m :
  jm_keys (jm_set k v m) =
    if decide (k ∈ jm_keys m) then jm_keys m else jm_keys m ++ [k].
Proof.
  induction m as [|[k0 v0] m IH]; simpl; [done|].
  destruct (decide (k0 = k)) as [->|Hne]; simpl.
  - rewrite decide_True by set_solver. done.
  - unfold jm_keys in *. rewrite IH. repeat case_decide; set_solver.
Qed.

Lemma jm_wf_empty : jm_wf jm_empty.
Proof. constructor. Qed.

Lemma jm_wf_set k v m : jm_wf m → jm_wf (jm_set k v m).
Proof.
  unfold jm_wf. intros Hwf. rewrite jm_keys_set. case_decide; [done|].
  apply NoDup_app. split_and!; [done| |apply NoDup_singleton]. set_solver.
Qed.

Lemma jm_elem_delete k m k' v' :
  (k', v') ∈ jm_delete k m ↔ k' ≠ k ∧ (k', v') ∈ m.
Proof. induction m as [|[k0 v0] m IH]; simpl; [set_solver|]. case_decide; set_solver. Qed.

Lemma jm_keys_delete k m : jm_keys (jm_delete k m) = filter (λ k', k' ≠ k) (jm_keys m).
Proof.
  unfold jm_keys. induction m as [|[k0 v0] m IH]; simpl; [done|].
  rewrite filter_cons. destruct (decide (k0 = k)) as [->|]; simpl.
  - by rewrite decide_False by tauto.
  - rewrite decide_True by done. by f_equal.
Qed.

Lemma jm_wf_delete k m : jm_wf m → jm_wf (jm_delete k m).
Proof. unfold jm_wf. intros. rewrite jm_keys_delete. by apply NoDup_filter. Qed.

Lemma jm_wf_map_values f m : jm_wf m → jm_wf (jm_map_values f m).
Proof. unfold jm_wf. by rewrite jm_keys_map_values. Qed.

Lemma jm_size_set_new k v m :
  jm_get k m = None → jm_size (jm_set k v m) = S (jm_size m).
Proof.
  unfold jm_size. induction m as [|[k0 v0] m IH]; simpl; [done|].
  case_decide; [done|]. simpl. intros. by rewrite IH.
Qed.

Lemma jm_size_set_old k v m :
  is_Some (jm_get k m) → jm_size (jm_set k v m) = jm_size m.
Proof.
  unfold jm_size. induction m as [|[k0 v0] m IH]; simpl; [by intros []|].
  case_decide; [done|]. simpl. intros. by rewrite IH.
Qed.

Lemma jm_values_set_new k v m :
  jm_get k m = None → jm_values (jm_set k v m) = jm_values m ++ [v].
Proof.
  induction m as [|[k0 v0] m IH]; simpl; [done|].
  case_decide; [done|]. simpl. intros. f_equal. by apply IH.
Qed.

Lemma jm_elem_set k v m k' v' :
  (k', v') ∈ jm_set k v m → (k', v') = (k, v) ∨ (k', v') ∈ m.
Proof.
  induction m as [|[k0 v0] m IH]; simpl; [set_solver|].
  case_decide; set_solver.
Qed.

Lemma jm_values_set k v m v' :
  v' ∈ jm_values (jm_set k v m) → v' = v ∨ v' ∈ jm_values m.
Proof.
  intros ([k0 v0] & -> & Hin)%list_elem_of_fmap.
  apply jm_elem_set in Hin as [?|?]; simplify_eq; [by left|right].
  apply list_elem_of_fmap. by exists (k0, v0).
Qed.

Lemma jm_values_delete k m v : v ∈ jm_values (jm_delete k m) → v ∈ jm_values m.
Proof.
  intros ([k0 v0] & -> & Hin)%list_elem_of_fmap.
  apply list_elem_of_fmap. exists (k0, v0). by apply jm_elem_delete in Hin as [_ ?].
Qed.

(** Up to order, an entry can be moved to the front. *)
Lemma jm_delete_notin k m : k ∉ jm_keys m → jm_delete k m = m.
Proof.
  induction m as [|[k0 v0] m IH]; simpl; [done|]. intros Hk.
  rewrite decide_False by set_solver. f_equal. apply IH. set_solver.
Qed.

Lemma jm_take_out k v m : jm_wf m → jm_get k m = Some v → m ≡ₚ (k, v) :: jm_delete k m.
Proof.
  unfold jm_wf. induction m as [|[k0 v0] m IH]; simpl; [done|].
  intros [Hk Hnd]%NoDup_cons. destruct (decide (k0 = k)) as [->|Hne].
  - intros [= ->]. by rewrite jm_delete_notin.
  - intros Hg. rewrite (IH Hnd Hg) at 1. apply Permutation_swap.
Qed.

Lemma jm_set_perm k v m : jm_wf m → jm_set k v m ≡ₚ (k, v) :: jm_delete k m.
Proof.
  unfold jm_wf. induction m as [|[k0 v0] m IH]; simpl; [done|].
  intros [Hk Hnd]%NoDup_cons. destruct (decide (k0 = k)) as [->|Hne].
  - by rewrite jm_delete_notin.
  - rewrite (IH Hnd). apply Permutation_swap.
Qed.

(** ** Filtering *)

Lemma jm_get_filter (P : K * V → Prop) `{∀ x, Decision (P x)} k (m : list (K * V)) :
  jm_wf m →
  jm_get k (filter P m) =
    match jm_get k m with Some v => if decide (P (k, v)) then Some v else None | None => None end.
Proof.
  unfold jm_wf. induction m as [|[k0 v0] m IH]; simpl; [done|]. intros [Hk Hnd]%NoDup_cons.
  rewrite filter_cons. destruct (decide (k0 = k)) as [->|Hne].
  - destruct (decide (P (k, v0))); simpl; [by rewrite decide_True|].
    rewrite IH by done. by rewrite (proj2 (jm_get_None k m) Hk).
  - destruct (decide (P (k0, v0))); simpl; [rewrite decide_False by done|]; by apply IH.
Qed.

Lemma jm_wf_filter (P : K * V → Prop) `{∀ x, Decision (P x)} (m : list (K * V)) :
  jm_wf m → jm_wf (filter P m).
Proof.
  unfold jm_wf, jm_keys. induction m as [|[k v] m IH]; simpl; [done|]. intros [Hk Hm]%NoDup_cons.
  rewrite filter_cons. destruct (decide _); [|by apply IH]. simpl. apply NoDup_cons. split; [|by apply IH].
  rewrite list_elem_of_fmap. intros ([k' v'] & -> & [_ Hin]%list_elem_of_filter). apply Hk.
  rewrite list_elem_of_fmap. by exists (k', v').
Qed.

(** ** Refinement to finite maps *)

Context `{!Countable K}.

Definition to_gmap m : gmap K V := list_to_map m.

Lemma to_gmap_get k m : to_gmap m !! k = jm_get k m.
Proof.
  induction m as [|[k0 v0] m IH]; simpl; [apply lookup_empty|].
  unfold to_gmap in *. rewrite lookup_insert. by case_decide.
Qed.

Lemma to_gmap_set k v m : to_gmap (jm_set k v m) = <[k := v]> (to_gmap m).
Proof.
  apply map_eq. intros i. rewrite to_gmap_get, jm_get_set, lookup_insert.
  case_decide; [done|]. by rewrite to_gmap_get.
Qed.

Lemma to_gmap_delete k m : to_gmap (jm_delete k m) = delete k (to_gmap m).
Proof.
  apply map_eq. intros i. rewrite to_gmap_get, jm_get_delete, lookup_delete.
  case_decide; [done|]. by rewrite to_gmap_get.
Qed.
End jsmap.

#[export] Hint Resolve jm_wf_empty jm_wf_set jm_wf_delete jm_wf_map_values jm_wf_filter : oracle.

(** Simplify lookups in updated maps, using disequalities in the context. *)
Ltac jm_simpl :=
  repeat match goal with
  | |- context [jm_get ?k (jm_set ?k _ _)] => rewrite jm_get_set_eq
  | H : ?k ≠ ?k' |- context [jm_get ?k' (jm_set ?k _ _)] =>
      rewrite (jm_get_set_ne k k') by done
  | H : ?k' ≠ ?k |- context [jm_get ?k' (jm_set ?k _ _)] =>
      rewrite (jm_get_set_ne k k') by (by apply not_eq_sym)
  | |- context [jm_get ?k (jm_delete ?k _)] => rewrite jm_get_delete_eq
  | |- context [jm_get _ (jm_map_values _ _)] => rewrite jm_get_map_values
  end.
