(* ===== verification/JsNum.v ===== *)
(** * Numbers

    ECMAScript numbers as the sources compare them: a finite double is a
    rational, and [NaN] and the infinities behave as IEEE 754 prescribes
    (every comparison with [NaN] is false).  Only comparisons and the tests
    [Number.isInteger] and [Number.isFinite] are provided here: counters,
    sequence numbers and epoch times, which the sources only ever add and
    subtract inside the safe-integer range, are plain integers [Z] in the
    component files.  The second half gives the half-up rounding on rationals
    that [bignumber.js] documents. *)

From Stdlib Require Import ZArith QArith Qround Qpower Qcanon Lia Lqa.
From Stdlib Require Import SpecFloat.
From stdpp Require Import base tactics decidable numbers list.

Local Open Scope Q_scope.

Inductive number : Type :=
| NFin (q : Q)
| NNaN
| NInf (negative : bool).

Definition NInt (z : Z) : number := NFin (inject_Z z).

(** [a < b] *)
Definition num_ltb (a b : number) : bool :=
  match a, b with
  | NFin p, NFin q => negb (Qle_bool q p)
  | NFin _, NInf neg => negb neg
  | NInf neg, NFin _ => neg
  | NInf n1, NInf n2 => n1 && negb n2
  | _, _ => false
  end.

(** [a <= b] *)
Definition num_leb (a b : number) : bool :=
  match a, b with
  | NFin p, NFin q => Qle_bool p q
  | NFin _, NInf neg => negb neg
  | NInf neg, NFin _ => neg
  | NInf n1, NInf n2 => n1 || negb n2
  | _, _ => false
  end.

(** [a === b] *)
Definition num_eqb (a b : number) : bool :=
  match a, b with
  | NFin p, NFin q => Qeq_bool p q
  | NInf n1, NInf n2 => Bool.eqb n1 n2
  | _, _ => false
  end.

(** [Number.isInteger] *)
Definition is_integer (a : number) : bool :=
  match a with
  | NFin q => Qeq_bool q (inject_Z (Qfloor q))
  | _ => false
  end.

(** [Number.isFinite] *)
Definition is_finite (a : number) : bool :=
  match a with NFin _ => true | _ => false end.

Lemma Qeq_bool_refl q : Qeq_bool q q = true.
Proof. by apply Qeq_bool_iff. Qed.

Lemma num_eqb_refl a : a ≠ NNaN → num_eqb a a = true.
Proof. destruct a as [q| |[]]; simpl; [|done..]. intros _. apply Qeq_bool_refl. Qed.

Lemma num_leb_int a b : num_leb (NInt a) (NInt b) = (a <=? b)%Z.
Proof.
  unfold num_leb, NInt. apply eq_true_iff_eq.
  by rewrite Qle_bool_iff, <- Zle_Qle, Z.leb_le.
Qed.

Lemma num_ltb_leb p q : num_ltb (NFin p) (NFin q) = negb (num_leb (NFin q) (NFin p)).
Proof. done. Qed.

Lemma num_ltb_int a b : num_ltb (NInt a) (NInt b) = (a <? b)%Z.
Proof.
  unfold NInt. rewrite num_ltb_leb. fold (NInt a) (NInt b).
  rewrite num_leb_int, Z.leb_antisym. by destruct (a <? b)%Z.
Qed.

Lemma is_integer_spec a :
  is_integer a = true → ∃ z, match a with NFin q => q == inject_Z z | _ => False end.
Proof. destruct a; simpl; [|done..]. rewrite Qeq_bool_iff. by eauto. Qed.

Lemma is_integer_int z : is_integer (NInt z) = true.
Proof. unfold is_integer, NInt. rewrite Qfloor_Z. apply Qeq_bool_refl. Qed.

(** ** Double arithmetic

    Products of fractional settings are computed in binary64, with the
    executable specification of IEEE 754 in the standard library. *)

Definition double : Type := spec_float.
Definition double_of_Z (z : Z) : double := binary_normalize 53 1024 z 0 false.
Definition double_mul : double → double → double := SFmul 53 1024.
Definition double_add : double → double → double := SFadd 53 1024.
Definition double_div : double → double → double := SFdiv 53 1024.
Definition double_0 : double := S754_zero false.

Definition num_of_double (d : double) : number :=
  match d with
  | S754_zero _ => NFin 0
  | S754_infinity s => NInf s
  | S754_nan => NNaN
  | S754_finite s m e =>
      NFin ((if s then - inject_Z (Zpos m) else inject_Z (Zpos m)) * Qpower (inject_Z 2) e)
  end.

(** [Math.floor], [Math.max] and [Math.min] ([NaN] propagates). *)
Definition num_floor (a : number) : number :=
  match a with NFin q => NInt (Qfloor q) | _ => a end.
Definition num_max (a b : number) : number :=
  match a, b with
  | NNaN, _ | _, NNaN => NNaN
  | _, _ => if num_leb a b then b else a
  end.
Definition num_min (a b : number) : number :=
  match a, b with
  | NNaN, _ | _, NNaN => NNaN
  | _, _ => if num_leb a b then a else b
  end.

(** [Math.floor(n * ratio)] *)
Definition floor_mul (n : Z) (ratio : double) : number :=
  num_floor (num_of_double (double_mul (double_of_Z n) ratio)).

(** The double nearest to 0.8. *)
Definition double_0_8 : double := S754_finite false 7205759403792794 (-53).
(** The double 0.25. *)
Definition double_0_25 : double := S754_finite false 4503599627370496 (-54).

Example floor_mul_0_8 : floor_mul 1000 double_0_8 = NInt 800.
Proof. reflexivity. Qed.
Example floor_mul_0_25 : floor_mul 10 double_0_25 = NInt 2.
Proof. reflexivity. Qed.

(** ** Rounding half away from zero *)

(** [ROUND_HALF_UP] of bignumber.js: towards the nearest neighbour, ties away
    from zero. *)
Definition round_half_up (q : Q) : Z :=
  if Qle_bool 0 q then Qfloor (q + (1#2)) else (- Qfloor (- q + (1#2)))%Z.

(** Rounding at [d] decimal places. *)
Definition round_at (d : Z) (q : Q) : Q :=
  inject_Z (round_half_up (q * inject_Z (10 ^ d))) / inject_Z (10 ^ d).

#[export] Instance round_half_up_proper : Proper (Qeq ==> eq) round_half_up.
Proof.
  intros p q Hpq. unfold round_half_up.
  rewrite (Qleb_comp 0 0 (Qeq_refl 0) p q Hpq).
  rewrite (Qfloor_comp (p + (1#2)) (q + (1#2))) by (by rewrite Hpq).
  by rewrite (Qfloor_comp (- p + (1#2)) (- q + (1#2))) by (by rewrite Hpq).
Qed.

#[export] Instance round_at_proper d : Proper (Qeq ==> Qeq) (round_at d).
Proof. intros p q Hpq. unfold round_at. by rewrite Hpq. Qed.

Lemma Qfloor_half z : Qfloor (inject_Z z + (1#2)) = z.
Proof.
  assert (Hle : (z <= Qfloor (inject_Z z + (1#2)))%Z).
  { rewrite <- (Qfloor_Z z) at 1. apply Qfloor_resp_le. lra. }
  assert (Hlt : (Qfloor (inject_Z z + (1#2)) < z + 1)%Z).
  { rewrite Zlt_Qlt. eapply Qle_lt_trans; [apply Qfloor_le|].
    rewrite inject_Z_plus. change (inject_Z 1) with 1. lra. }
  lia.
Qed.

Lemma round_half_up_int z : round_half_up (inject_Z z) = z.
Proof.
  unfold round_half_up. destruct (Qle_bool 0 (inject_Z z)); [apply Qfloor_half|].
  rewrite <- inject_Z_opp, Qfloor_half. lia.
Qed.

Lemma round_half_up_mono p q : p <= q → (round_half_up p <= round_half_up q)%Z.
Proof.
  intros Hpq. unfold round_half_up.
  destruct (Qle_bool 0 p) eqn:Hp, (Qle_bool 0 q) eqn:Hq.
  - apply Qfloor_resp_le. lra.
  - apply Qle_bool_iff in Hp. exfalso.
    assert (Qle_bool 0 q = true) by (apply Qle_bool_iff; lra). congruence.
  - apply Qle_bool_iff in Hq.
    assert (0 <= Qfloor (q + (1#2)))%Z.
    { change 0%Z with (Qfloor 0). apply Qfloor_resp_le. lra. }
    assert (¬ 0 <= p) by (intros ?%Qle_bool_iff; congruence).
    assert (0 <= Qfloor (- p + (1#2)))%Z.
    { change 0%Z with (Qfloor 0). apply Qfloor_resp_le. lra. }
    lia.
  - assert (Qfloor (- q + (1#2)) <= Qfloor (- p + (1#2)))%Z; [|lia].
    apply Qfloor_resp_le. lra.
Qed.

Lemma pow10_pos d : (0 < 10 ^ d)%Z ∨ (d < 0)%Z.
Proof. destruct (decide (d < 0)%Z); [by right|left]. apply Z.pow_pos_nonneg; lia. Qed.

(** Rounding at [d] places leaves a value with at most [d] places unchanged. *)
Lemma round_at_exact d q z :
  (0 <= d)%Z → q * inject_Z (10 ^ d) == inject_Z z → round_at d q == q.
Proof.
  intros Hd Hz. unfold round_at. rewrite Hz, round_half_up_int, <- Hz.
  field. destruct (pow10_pos d); [|lia].
  intros H0. apply (inject_Z_injective (10 ^ d) 0) in H0. lia.
Qed.

Lemma round_at_mono d p q : (0 <= d)%Z → p <= q → round_at d p <= round_at d q.
Proof.
  intros Hd Hpq. unfold round_at. destruct (pow10_pos d) as [Hpos|]; [|lia].
  rewrite Zlt_Qlt in Hpos. change (inject_Z 0) with 0 in Hpos.
  unfold Qdiv. apply Qmult_le_r; [by apply Qinv_lt_0_compat|].
  rewrite <- Zle_Qle. apply round_half_up_mono. by apply Qmult_le_r.
Qed.

Lemma num_leb_ltb a b : num_leb a b = true → num_ltb b a = false.
Proof. destruct a as [p| |[]], b as [q| |[]]; simpl; try done. by intros ->. Qed.

Lemma num_ltb_mono a b n :
  (a <= b)%Z → num_ltb (NInt a) n = false → num_ltb (NInt b) n = false.
Proof.
  destruct n as [q| |[]]; simpl; try done. rewrite !negb_false_iff, !Qle_bool_iff.
  intros Hab Hq. eapply Qle_trans; [exact Hq|]. by rewrite <- Zle_Qle.
Qed.

(** ** Signs of doubles

    Non-negative doubles, infinity included, are closed under addition and,
    away from [0 * Infinity], under multiplication; in particular the result is
    never [NaN]. *)

Definition double_nonneg (d : double) : Prop :=
  match d with
  | S754_zero s => s = false
  | S754_infinity s => s = false
  | S754_finite s _ _ => s = false
  | S754_nan => False
  end.

(** A positive finite double. *)
Definition double_pos_finite (d : double) : bool :=
  match d with S754_finite s _ _ => negb s | _ => false end.

Definition double_is_finite (d : double) : bool :=
  match d with S754_finite _ _ _ | S754_zero _ => true | _ => false end.

Lemma iter_pos_ind {A} (f : A → A) (P : A → Prop) n x :
  (∀ y, P y → P (f y)) → P x → P (SpecFloat.iter_pos f n x).
Proof. intros Hf. revert x. induction n as [n IH|n IH|]; intros x Hx; simpl; auto. Qed.

Lemma shr_fexp_nonneg m e l mrs e' :
  (0 <= m)%Z → shr_fexp 53 1024 m e l = (mrs, e') → (0 <= shr_m mrs)%Z.
Proof.
  intros Hm. unfold shr_fexp, shr.
  assert (0 <= shr_m (shr_record_of_loc m l))%Z as H0 by (by destruct l as [|[]]).
  destruct (fexp _ _ _ - e)%Z as [|p|p]; intros [= <- _]; [done| |done].
  apply iter_pos_ind; [|done]. intros [y r s]. unfold shr_1. simpl. by destruct y as [|[]|[]].
Qed.

Lemma binary_round_aux_nonneg m e l :
  (0 <= m)%Z → double_nonneg (binary_round_aux 53 1024 false m e l).
Proof.
  intros Hm. unfold binary_round_aux.
  destruct (shr_fexp 53 1024 m e l) as [mrs e'] eqn:E1. apply shr_fexp_nonneg in E1; [|done].
  destruct (shr_fexp 53 1024 _ e' loc_Exact) as [mrs2 e2] eqn:E2. apply shr_fexp_nonneg in E2.
  - destruct (shr_m mrs2); [done| |done]. by destruct (_ <=? _)%Z.
  - unfold round_nearest_even. destruct (loc_of_shr_record mrs) as [|[]]; simpl; try lia.
    destruct (Z.even _); lia.
Qed.

Lemma binary_normalize_nonneg m e : (0 <= m)%Z → double_nonneg (binary_normalize 53 1024 m e false).
Proof.
  intros Hm. destruct m as [|p|p]; simpl; [done| |lia].
  unfold binary_round. destruct (shl_align _ _ _). by apply binary_round_aux_nonneg.
Qed.

Lemma double_of_Z_nonneg z : (0 <= z)%Z → double_nonneg (double_of_Z z).
Proof. apply binary_normalize_nonneg. Qed.

Lemma double_add_nonneg x y : double_nonneg x → double_nonneg y → double_nonneg (double_add x y).
Proof.
  destruct x as [sx|sx| |sx mx ex], y as [sy|sy| |sy my ey]; simpl; intros; subst; try done.
  apply binary_normalize_nonneg. simpl. lia.
Qed.

Lemma double_mul_nonneg x y :
  double_pos_finite x = true → double_nonneg y → double_nonneg (double_mul x y).
Proof.
  destruct x as [sx|sx| |[] mx ex], y as [sy|sy| |sy my ey]; simpl; intros ? ?; subst; try done.
  by apply binary_round_aux_nonneg.
Qed.

Lemma double_mul_nonneg_r x y :
  double_nonneg x → double_pos_finite y = true → double_nonneg (double_mul x y).
Proof.
  destruct x as [sx|sx| |sx mx ex], y as [sy|sy| |[] my ey]; simpl; intros ? ?; subst; try done.
  by apply binary_round_aux_nonneg.
Qed.

Lemma num_of_double_nonneg d :
  double_nonneg d → num_of_double d = NInf false ∨ ∃ q, num_of_double d = NFin q ∧ 0 <= q.
Proof.
  destruct d as [s|s| |s m e]; simpl; intros; subst; [right|by left|done|right].
  - exists 0. split; [done|]. lra.
  - eexists. split; [done|]. apply Qmult_le_0_compat; [by unfold Qle; simpl|].
    by apply Qpower_pos.
Qed.

Lemma num_floor_int z : num_floor (NInt z) = NInt z.
Proof. unfold num_floor, NInt. by rewrite Qfloor_Z. Qed.

(** ** More operations on doubles

    Subtraction, square root, absolute value and the comparisons of the
    numeric code of the aggregator. *)

Definition double_sub : double → double → double := SFsub 53 1024.
Definition double_sqrt : double → double := SFsqrt 53 1024.
Definition double_abs : double → double := SFabs.
Definition double_opp : double → double := SFopp.
Definition double_ltb (a b : double) : bool := num_ltb (num_of_double a) (num_of_double b).
Definition double_leb (a b : double) : bool := num_leb (num_of_double a) (num_of_double b).
Definition double_eqb (a b : double) : bool := num_eqb (num_of_double a) (num_of_double b).

(** [Math.max(a, b)] and [Math.min(a, b)] *)
Definition double_max (a b : double) : double :=
  match a, b with
  | S754_nan, _ | _, S754_nan => S754_nan
  | _, _ => if double_leb a b then b else a
  end.
Definition double_min (a b : double) : double :=
  match a, b with
  | S754_nan, _ | _, S754_nan => S754_nan
  | _, _ => if double_leb a b then a else b
  end.

(** [Math.round] *)
Definition double_round (d : double) : double :=
  match num_of_double d with NFin q => double_of_Z (Qfloor (q + (1 # 2))%Q) | _ => d end.

(** [ToIntegerOrInfinity]: truncation towards zero, [NaN] read as 0. *)
Definition trunc_to_Z (q : Q) : Z := if Qle_bool 0 q then Qfloor q else (- Qfloor (- q))%Z.

(** [a.slice(start)] *)
Definition slice_from {A} (start : double) (l : list A) : list A :=
  let len := Z.of_nat (length l) in
  let k := match num_of_double start with
           | NNaN => 0%Z
           | NInf negative => if negative then 0%Z else len
           | NFin q =>
               let n := trunc_to_Z q in
               if (n <? 0)%Z then Z.max 0 (len + n) else Z.min n len
           end in
  drop (Z.to_nat k) l.

Lemma num_leb_refl a : a ≠ NNaN → num_leb a a = true.
Proof. destruct a as [q| |[]]; simpl; [|done..]. intros _. apply Qle_bool_iff. lra. Qed.

Lemma num_leb_trans a b c : num_leb a b = true → num_leb b c = true → num_leb a c = true.
Proof.
  destruct a as [p| |[]], b as [q| |[]], c as [r| |[]]; simpl; try done.
  rewrite !Qle_bool_iff. apply Qle_trans.
Qed.

Lemma num_leb_ltb_trans a b c : num_leb a b = true → num_ltb b c = true → num_ltb a c = true.
Proof.
  destruct a as [p| |[]], b as [q| |[]], c as [r| |[]]; simpl; try done.
  rewrite !negb_true_iff. intros Hpq%Qle_bool_iff Hrq.
  destruct (Qle_bool r p) eqn:Hrp; [|done]. apply Qle_bool_iff in Hrp.
  enough (Qle_bool r q = true) by congruence. apply Qle_bool_iff. lra.
Qed.

Lemma num_ltb_leb_trans a b c : num_ltb a b = true → num_leb b c = true → num_ltb a c = true.
Proof.
  destruct a as [p| |[]], b as [q| |[]], c as [r| |[]]; simpl; try done.
  rewrite !negb_true_iff. intros Hqp Hqr%Qle_bool_iff.
  destruct (Qle_bool r p) eqn:Hrp; [|done]. apply Qle_bool_iff in Hrp.
  enough (Qle_bool q p = true) by congruence. apply Qle_bool_iff. lra.
Qed.

Lemma num_ltb_leb_weak a b : num_ltb a b = true → num_leb a b = true.
Proof.
  destruct a as [p| |[]], b as [q| |[]]; simpl; try done. rewrite negb_true_iff. intros H.
  apply Qle_bool_iff. destruct (Qlt_le_dec p q) as [|Hle]; [lra|].
  apply Qle_bool_iff in Hle. congruence.
Qed.

Lemma num_ltb_false_leb a b :
  a ≠ NNaN → b ≠ NNaN → num_ltb a b = false → num_leb b a = true.
Proof. destruct a as [p| |[]], b as [q| |[]]; simpl; try done. by rewrite negb_false_iff. Qed.

Lemma num_leb_total a b : a ≠ NNaN → b ≠ NNaN → num_leb a b = false → num_leb b a = true.
Proof.
  destruct a as [p| |[]], b as [q| |[]]; simpl; try done.
  intros _ _ H. apply Qle_bool_iff. destruct (Qlt_le_dec q p) as [|Hle]; [lra|].
  apply Qle_bool_iff in Hle. congruence.
Qed.

Lemma double_not_nan d : double_nonneg d → num_of_double d ≠ NNaN.
Proof. by destruct d as [s|s| |s m e]. Qed.

Lemma double_pos_nonneg d : double_pos_finite d = true → double_nonneg d.
Proof. by destruct d as [s|s| |[] m e]. Qed.

Lemma double_div_nonneg x y :
  double_pos_finite x = true → double_nonneg y → double_nonneg (double_div x y).
Proof.
  destruct x as [sx|sx| |[] mx ex], y as [sy|sy| |sy my ey]; simpl; intros ? ?; subst; try done.
  unfold double_div, SFdiv, SFdiv_core_binary. set (m' := match _ with Z0 => _ | _ => _ end).
  assert (0 <= m')%Z as Hm'.
  { subst m'. destruct (_ - _)%Z; [lia| |lia]. apply Z.shiftl_nonneg. lia. }
  destruct (Z.div_eucl m' (Zpos my)) as [q r] eqn:E. apply binary_round_aux_nonneg.
  assert (q = m' / Zpos my)%Z as -> by (unfold Z.div; by rewrite E). by apply Z.div_pos.
Qed.

Lemma double_div_pos_r x y :
  double_nonneg x → double_pos_finite y = true → double_nonneg (double_div x y).
Proof.
  intros Hx Hy. destruct x as [sx|sx| |sx mx ex]; simpl in Hx; subst; try done.
  - by destruct y as [sy|sy| |[] my ey].
  - by destruct y as [sy|sy| |[] my ey].
  - apply double_div_nonneg; [done|]. by apply double_pos_nonneg.
Qed.

(** Clamping a value that is not [NaN] between two bounds. *)
Lemma double_clamp lo hi x :
  double_nonneg lo → double_nonneg hi → double_nonneg x → double_leb lo hi = true →
  let c := double_min hi (double_max lo x) in
  double_leb lo c = true ∧ double_leb c hi = true ∧ double_nonneg c.
Proof.
  intros Hlo Hhi Hx Hlh. unfold double_min, double_max, double_leb in *.
  pose proof (double_not_nan _ Hlo). pose proof (double_not_nan _ Hhi).
  pose proof (double_not_nan _ Hx).
  assert (∀ d, double_nonneg d → num_leb (num_of_double d) (num_of_double d) = true) as Hrefl.
  { intros d Hd. apply num_leb_refl. by apply double_not_nan. }
  destruct lo as [sl|sl| |sl ml el]; [| |done|];
    (destruct hi as [sh|sh| |sh mh eh]; [| |done|]);
    (destruct x as [sx|sx| |sx mx ex]; [| |done|]);
    match goal with |- context [if num_leb ?a ?b then _ else _] => destruct (num_leb a b) eqn:E1 end;
    match goal with |- context [if num_leb ?a ?b then _ else _] => destruct (num_leb a b) eqn:E2 end;
    repeat split; auto; apply num_leb_total; auto.
Qed.
