(* ===== verification/Json.v ===== *)
(** * JSON values

    What [JSON.parse] returns and the components read: provider payloads (file
    SourceFetch) and WebSocket messages (file PushServer).  The fields of an
    object are a map in insertion order, as for a JavaScript object. *)

From stdpp Require Import base strings.
From S2P Require Import JsMap JsNum.

Local Unset Elimination Schemes.
Inductive json : Type :=
| JNull
| JBool (b : bool)
| JNum (n : number)
| JStr (s : string)
| JArr (l : list json)
| JObj (fields : jsmap string json).
Local Set Elimination Schemes.

(** [value.key] for a value of type object; [None] for an absent field. *)
Definition json_field (key : string) (j : json) : option json :=
  match j with JObj fields => jm_get key fields | _ => None end.
