(* ===== verification/Median.v ===== *)
(** * The aggregated price: median on a common scale

    Models [services/aggregator/src/price-aggregation/median.ts] and the
    [NormalizedPrice] record of [packages/types].  Prices are arbitrary
    precision decimals of the third-party package [bignumber.js]; its
    operations are the interface [BigNumberOps], what its documentation
    promises of them is [BigNumberSpec], and the instance on rationals at the
    end of the file shows that the promises can be kept.

    The theorems: the aggregate is an integer on the scale it is labelled with,
    it does not depend on the order in which sources reported, and as long as a
    strict majority of the sources is inside a range the aggregate is inside
    that range, whatever the others report. *)

From Stdlib Require Import ZArith QArith Qround Qabs Qpower Qcanon Lia Lqa.
From stdpp Require Import base tactics decidable list sets sorting strings.
From S2P Require Import Prelude JsNum.

Local Open Scope Q_scope.

(** ** The interface to bignumber.js *)

Inductive ordering : Type := OLt | OEq | OGt.

Class BigNumberOps (BN : Type) : Type := {
  bn_of_bigint : Z → BN;                      (* new BigNumber(z.toString()) *)
  bn_shiftedBy : BN → Z → BN;
  bn_comparedTo : BN → BN → option ordering;  (* null for NaN *)
  bn_plus : BN → BN → BN;
  bn_minus : BN → BN → BN;
  bn_abs : BN → BN;
  bn_dividedBy : BN → BN → BN;
  bn_multipliedBy : BN → BN → BN;
  bn_decimalPlaces : BN → Z → BN;             (* with ROUND_HALF_UP *)
  bn_isZero : BN → bool;
  bn_toNumber : BN → number;
}.

(** The documented behaviour: exact sums, differences, products and shifts,
    division rounded half up at [DECIMAL_PLACES = 20], a total comparison on
    finite values, and a conversion to double that is monotone and exact on
    small integers. *)
Class BigNumberSpec (BN : Type) `{!BigNumberOps BN} : Type := {
  bn_val : BN → Q;
  bn_of_bigint_val z : bn_val (bn_of_bigint z) == inject_Z z;
  bn_shiftedBy_val b n : bn_val (bn_shiftedBy b n) == bn_val b * Qpower (inject_Z 10) n;
  bn_comparedTo_val a b :
    bn_comparedTo a b =
      Some (match Qcompare (bn_val a) (bn_val b) with Lt => OLt | Eq => OEq | Gt => OGt end);
  bn_plus_val a b : bn_val (bn_plus a b) == bn_val a + bn_val b;
  bn_minus_val a b : bn_val (bn_minus a b) == bn_val a - bn_val b;
  bn_abs_val a : bn_val (bn_abs a) == Qabs (bn_val a);
  bn_multipliedBy_val a b : bn_val (bn_multipliedBy a b) == bn_val a * bn_val b;
  bn_dividedBy_val a b :
    ¬ bn_val b == 0 → bn_val (bn_dividedBy a b) == round_at 20 (bn_val a / bn_val b);
  bn_decimalPlaces_val a d : bn_val (bn_decimalPlaces a d) == round_at d (bn_val a);
  bn_isZero_val a : bn_isZero a = true ↔ bn_val a == 0;
  bn_toNumber_mono a b :
    bn_val a <= bn_val b → num_leb (bn_toNumber a) (bn_toNumber b) = true;
  bn_toNumber_int a z :
    bn_val a == inject_Z z → (Z.abs z <= 2 ^ 53)%Z → bn_toNumber a = NInt z;
}.

(** ** Prices as the sources report them *)

Inductive OracleSourceName : Type := chainlink | redstone | band | reflector.

#[export] Instance OracleSourceName_eq_dec : EqDecision OracleSourceName.
Proof. solve_decision. Defined.

Record NormalizedPrice : Type := mkPrice {
  np_asset : string;
  np_price : Z;
  np_decimals : Z;
  np_source : OracleSourceName;
  np_timestamp : Z;
  np_observedAt : option Z;     (* [None] for [null] and for an absent field *)
  np_fetchedAt : option Z;
}.

#[export] Instance NormalizedPrice_eq_dec : EqDecision NormalizedPrice.
Proof. solve_decision. Defined.

Section median.
Context {BN : Type} `{!BigNumberOps BN}.

Definition toScale (price : NormalizedPrice) (decimals : Z) : BN :=
  bn_shiftedBy (bn_of_bigint (np_price price)) (decimals - np_decimals price)%Z.

(** [a.comparedTo(b) ?? 0], as the test [a <= b] a stable sort performs. *)
Definition compare_leb (a b : BN) : bool :=
  match default OEq (bn_comparedTo a b) with OGt => false | _ => true end.

Definition commonDecimals (prices : list NormalizedPrice) : Z :=
  fold_left (λ m p, Z.max m (np_decimals p)) prices 0%Z.

Definition scaledSorted (prices : list NormalizedPrice) : list BN :=
  stable_sort compare_leb ((λ p, toScale p (commonDecimals prices)) <$> prices).

(** Array access; the index is in range wherever the code reads it. *)
Definition at_index (i : nat) (l : list BN) : BN := nth i l (bn_of_bigint 0).

Definition medianOnCommonScale (prices : list NormalizedPrice) : BN * Z :=
  match prices with
  | [] => (bn_of_bigint 0, 0%Z)
  | _ =>
      let decimals := commonDecimals prices in
      let sorted := scaledSorted prices in
      let mid := (length sorted / 2)%nat in
      let value :=
        if (length sorted mod 2 =? 0)%nat
        then bn_decimalPlaces
               (bn_dividedBy (bn_plus (at_index (mid - 1) sorted) (at_index mid sorted))
                  (bn_of_bigint 2)) 0
        else at_index mid sorted in
      (value, decimals)
  end.

Definition isAgeVerified (prices : list NormalizedPrice) : bool :=
  forallb (λ p, match np_observedAt p with Some _ => true | None => false end) prices.
End median.

(** ** Positions in a sorted list *)

Section sorted_positions.
Context {A : Type} (R : relation A) `{!Reflexive R}.
Context (P : A → Prop) `{∀ x, Decision (P x)}.

Lemma sorted_lookup_le (l : list A) i j x y :
  StronglySorted R l → (i <= j)%nat → l !! i = Some x → l !! j = Some y → R x y.
Proof.
  intros Hs. revert i j. induction Hs as [|z l Hs IH Hall]; intros i j Hij Hi Hj; [done|].
  destruct i as [|i], j as [|j]; simplify_eq/=; try lia.
  - done.
  - rewrite Forall_forall in Hall. apply Hall. by eapply list_elem_of_lookup_2.
  - by apply (IH i j); [lia|..].
Qed.

Lemma sorted_count_below (l : list A) i x :
  StronglySorted R l → l !! i = Some x → (∀ y, R y x → ¬ P y) →
  (length (filter P l) + (i + 1) <= length l)%nat.
Proof.
  intros Hs Hi Hbelow. rewrite <- (take_drop (S i) l) at 1. rewrite filter_app, length_app.
  assert (filter P (take (S i) l) = []) as ->.
  { apply filter_none. intros y Hy.
    apply list_elem_of_lookup in Hy as [j Hj]. apply lookup_take_Some in Hj as [Hj ?].
    apply Hbelow. by eapply (sorted_lookup_le l j i); [|lia|..]. }
  apply lookup_lt_Some in Hi. pose proof (length_filter P (drop (S i) l)) as Hl.
  rewrite length_drop in Hl. simpl. lia.
Qed.

Lemma sorted_count_above (l : list A) i x :
  StronglySorted R l → l !! i = Some x → (∀ y, R x y → ¬ P y) →
  (length (filter P l) <= i)%nat.
Proof.
  intros Hs Hi Habove. rewrite <- (take_drop i l) at 1. rewrite filter_app, length_app.
  assert (filter P (drop i l) = []) as ->.
  { apply filter_none. intros y Hy.
    apply list_elem_of_lookup in Hy as [j Hj]. rewrite lookup_drop in Hj.
    apply Habove. by eapply (sorted_lookup_le l i (i + j)); [|lia|..]. }
  pose proof (length_filter P (take i l)) as Hl. rewrite length_take in Hl. simpl. lia.
Qed.
End sorted_positions.

Lemma Qpower_10 n : (0 <= n)%Z → Qpower (inject_Z 10) n == inject_Z (10 ^ n).
Proof. intros Hn. symmetry. by apply Zpower_Qpower. Qed.

Lemma round_at_0 q : round_at 0 q == inject_Z (round_half_up q).
Proof. unfold round_at. rewrite Z.pow_0_r, Qmult_1_r. by field. Qed.

(** Halving an integer is exact at twenty decimal places. *)
Lemma round_at_half z : round_at 20 (inject_Z z / inject_Z 2) == inject_Z z / inject_Z 2.
Proof.
  apply (round_at_exact 20 _ (z * (5 * 10 ^ 19))%Z); [lia|].
  rewrite inject_Z_mult. change (10 ^ 20)%Z with (2 * (5 * 10 ^ 19))%Z.
  rewrite (inject_Z_mult 2). by field.
Qed.

Section median_facts.
Context {BN : Type} `{!BigNumberOps BN, !BigNumberSpec BN}.
Implicit Types (prices : list NormalizedPrice).

(** The integer a price is on a scale at least as fine as its own. *)
Definition scaledInt (D : Z) (p : NormalizedPrice) : Z :=
  (np_price p * 10 ^ (D - np_decimals p))%Z.

Lemma toScale_int p D :
  (np_decimals p <= D)%Z → bn_val (toScale p D) == inject_Z (scaledInt D p).
Proof.
  intros HD. unfold toScale, scaledInt.
  by rewrite bn_shiftedBy_val, bn_of_bigint_val, Qpower_10, inject_Z_mult by lia.
Qed.

Lemma commonDecimals_ge_acc prices m :
  (m <= fold_left (λ m p, Z.max m (np_decimals p)) prices m)%Z ∧
  ∀ p, p ∈ prices → (np_decimals p <= fold_left (λ m p, Z.max m (np_decimals p)) prices m)%Z.
Proof.
  revert m. induction prices as [|q prices IH]; intros m; simpl; [split; [lia|set_solver]|].
  destruct (IH (Z.max m (np_decimals q))) as [Hm Hp]. split; [lia|].
  intros p [->|Hin]%elem_of_cons; [lia|auto].
Qed.

Lemma commonDecimals_ge prices p : p ∈ prices → (np_decimals p <= commonDecimals prices)%Z.
Proof. apply commonDecimals_ge_acc. Qed.

Lemma commonDecimals_perm prices prices' :
  prices ≡ₚ prices' → commonDecimals prices = commonDecimals prices'.
Proof.
  unfold commonDecimals. generalize 0%Z. intros m HP. revert m.
  induction HP; intros m; simpl; [done|auto|f_equal; lia|congruence].
Qed.

Definition bn_le (a b : BN) : Prop := bn_val a <= bn_val b.

#[export] Instance bn_le_refl : Reflexive bn_le.
Proof. intros a. unfold bn_le. lra. Qed.
#[export] Instance bn_le_trans : Transitive bn_le.
Proof. intros a b c. unfold bn_le. lra. Qed.

Lemma compare_leb_spec a b : if compare_leb a b then bn_le a b else bn_le b a.
Proof.
  unfold compare_leb, bn_le. rewrite bn_comparedTo_val. simpl.
  destruct (Qcompare_spec (bn_val a) (bn_val b)); lra.
Qed.

Lemma scaledSorted_sorted prices : StronglySorted bn_le (scaledSorted prices).
Proof. apply stable_sort_sorted; [apply compare_leb_spec|apply _]. Qed.

Lemma scaledSorted_length prices : length (scaledSorted prices) = length prices.
Proof. unfold scaledSorted. by rewrite stable_sort_length, length_fmap. Qed.

Lemma scaledSorted_elem prices b :
  b ∈ scaledSorted prices →
  ∃ p, p ∈ prices ∧ bn_val b == inject_Z (scaledInt (commonDecimals prices) p).
Proof.
  unfold scaledSorted. rewrite elem_of_stable_sort. intros (p & -> & Hp)%list_elem_of_fmap.
  exists p. split; [done|]. by apply toScale_int, commonDecimals_ge.
Qed.

Lemma at_index_lookup i (l : list BN) : (i < length l)%nat → l !! i = Some (at_index i l).
Proof.
  intros Hi. destruct (lookup_lt_is_Some_2 l i Hi) as [x Hx].
  unfold at_index. rewrite Hx. f_equal. symmetry. by apply nth_lookup_Some.
Qed.

(** ** The aggregate is an integer on its scale *)

Lemma scaledSorted_int prices i :
  (i < length prices)%nat →
  ∃ z, bn_val (at_index i (scaledSorted prices)) == inject_Z z.
Proof.
  intros Hi. rewrite <- scaledSorted_length in Hi. apply at_index_lookup in Hi.
  apply list_elem_of_lookup_2, scaledSorted_elem in Hi as (p & _ & Hp). eauto.
Qed.

Lemma even_median_val a b za zb :
  bn_val a == inject_Z za → bn_val b == inject_Z zb →
  bn_val (bn_decimalPlaces (bn_dividedBy (bn_plus a b) (bn_of_bigint 2)) 0) ==
    inject_Z (round_half_up (inject_Z (za + zb) / inject_Z 2)).
Proof.
  intros Ha Hb. rewrite bn_decimalPlaces_val, round_at_0.
  rewrite bn_dividedBy_val; rewrite bn_of_bigint_val; [|discriminate].
  by rewrite bn_plus_val, Ha, Hb, <- inject_Z_plus, round_at_half.
Qed.

(** the aggregate is an integer on the scale it is labelled with (the
    "price is a bigint scaled by [decimals]" contract of every consumer). *)
Theorem median_integral prices :
  ∃ z, bn_val (fst (medianOnCommonScale prices)) == inject_Z z.
Proof.
  unfold medianOnCommonScale. destruct prices as [|p0 ps] eqn:E.
  { exists 0%Z. apply bn_of_bigint_val. }
  rewrite <- E. assert (0 < length prices)%nat by (subst; simpl; lia).
  cbv zeta. cbn [fst]. rewrite scaledSorted_length.
  pose proof (Nat.div_lt (length prices) 2).
  destruct (scaledSorted_int prices (length prices / 2)) as [zb Hb]; [lia|].
  destruct (scaledSorted_int prices (length prices / 2 - 1)) as [za Ha]; [lia|].
  case_match; [|eauto]. eexists. by apply even_median_val.
Qed.

(** ** A strict majority bounds the aggregate *)

Definition inRange (lo hi : Z) (b : BN) : Prop :=
  inject_Z lo <= bn_val b ∧ bn_val b <= inject_Z hi.

#[export] Instance inRange_dec lo hi b : Decision (inRange lo hi b).
Proof. unfold inRange. destruct (Qlt_le_dec (bn_val b) (inject_Z lo));
  [right; lra|]. destruct (Qlt_le_dec (inject_Z hi) (bn_val b)); [right; lra|by left]. Defined.

Lemma sorted_in_range prices lo hi i :
  (i < length prices)%nat →
  (length prices < length (filter (inRange lo hi) (scaledSorted prices)) + (i + 1))%nat →
  (i < length (filter (inRange lo hi) (scaledSorted prices)))%nat →
  inRange lo hi (at_index i (scaledSorted prices)).
Proof.
  intros Hi Hlo Hhi. rewrite <- scaledSorted_length in Hi, Hlo.
  pose proof (scaledSorted_sorted prices) as Hs. apply at_index_lookup in Hi.
  destruct (decide (inRange lo hi (at_index i (scaledSorted prices)))) as [|Hn]; [done|].
  exfalso. unfold inRange in Hn.
  destruct (Qlt_le_dec (bn_val (at_index i (scaledSorted prices))) (inject_Z lo)) as [Hlt|Hle].
  - pose proof (sorted_count_below bn_le (inRange lo hi) _ _ _ Hs Hi) as Hc.
    enough (length (filter (inRange lo hi) (scaledSorted prices)) + (i + 1) <=
      length (scaledSorted prices))%nat by lia.
    apply Hc. unfold bn_le, inRange. intros y Hy [? _]. lra.
  - pose proof (sorted_count_above bn_le (inRange lo hi) _ _ _ Hs Hi) as Hc.
    enough (length (filter (inRange lo hi) (scaledSorted prices)) <= i)%nat by lia.
    apply Hc. unfold bn_le, inRange. intros y Hy [_ ?]. apply Hn. split; lra.
Qed.

(** The prices a range contains, read on the common scale. *)
Definition priceInRange (D lo hi : Z) (p : NormalizedPrice) : Prop :=
  (lo <= scaledInt D p <= hi)%Z.
#[export] Instance priceInRange_dec D lo hi p : Decision (priceInRange D lo hi p).
Proof. unfold priceInRange. apply _. Defined.

Lemma count_in_range prices lo hi :
  length (filter (inRange lo hi) (scaledSorted prices)) =
  length (filter (priceInRange (commonDecimals prices) lo hi) prices).
Proof.
  unfold scaledSorted. rewrite stable_sort_perm. apply length_filter_fmap.
  intros p Hp. unfold inRange, priceInRange.
  rewrite toScale_int by (by apply commonDecimals_ge). by rewrite <- !Zle_Qle.
Qed.

Lemma halved_sum_range lo hi a b za zb :
  inRange lo hi a → inRange lo hi b →
  bn_val a == inject_Z za → bn_val b == inject_Z zb →
  inRange lo hi (bn_decimalPlaces (bn_dividedBy (bn_plus a b) (bn_of_bigint 2)) 0).
Proof.
  intros [La Ha] [Lb Hb] Za Zb. unfold inRange.
  rewrite (even_median_val a b za zb), <- !Zle_Qle by done.
  rewrite <- (round_half_up_int lo), <- (round_half_up_int hi).
  assert (inject_Z (za + zb) == bn_val a + bn_val b) as Hz
    by (by rewrite inject_Z_plus, Za, Zb).
  change (inject_Z 2) with (2#1).
  split; apply round_half_up_mono; rewrite Hz.
  - apply Qle_shift_div_l; lra.
  - apply Qle_shift_div_r; lra.
Qed.

(** C1: if strictly more than half of the contributing prices lie between
    [lo] and [hi] on the common scale, so does the aggregate, whatever values
    and scales the remaining sources report. *)
Theorem median_majority_range prices lo hi :
  (length prices <
     2 * length (filter (priceInRange (commonDecimals prices) lo hi) prices))%nat →
  inject_Z lo <= bn_val (fst (medianOnCommonScale prices)) ∧
  bn_val (fst (medianOnCommonScale prices)) <= inject_Z hi.
Proof.
  intros Hmaj. change (inRange lo hi (fst (medianOnCommonScale prices))).
  rewrite <- count_in_range in Hmaj.
  unfold medianOnCommonScale. destruct prices as [|p0 ps] eqn:E; [simpl in Hmaj; lia|].
  rewrite <- E in *. assert (0 < length prices)%nat by (subst; simpl; lia).
  cbv zeta. cbn [fst]. rewrite scaledSorted_length. clear E.
  pose proof (Nat.div_mod_eq (length prices) 2) as Hdm.
  pose proof (Nat.mod_upper_bound (length prices) 2).
  destruct (Nat.eqb_spec (length prices mod 2) 0) as [He|Ho].
  - destruct (scaledSorted_int prices (length prices / 2)) as [zb Hb]; [lia|].
    destruct (scaledSorted_int prices (length prices / 2 - 1)) as [za Ha]; [lia|].
    eapply halved_sum_range; [..|exact Ha|exact Hb]; apply sorted_in_range; lia.
  - apply sorted_in_range; lia.
Qed.

(** ** Independence of the order of reports *)

#[export] Instance Qcle_anti_symm : AntiSymm (=) Qcle.
Proof. intros x y. apply Qcle_antisym. Qed.

Definition bn_key (b : BN) : Qc := Q2Qc (bn_val b).

Lemma bn_key_le a b : bn_le a b ↔ (bn_key a <= bn_key b)%Qc.
Proof. unfold bn_le, bn_key, Qcle. simpl. by rewrite !Qred_correct. Qed.

Lemma bn_key_eq a b : bn_key a = bn_key b ↔ bn_val a == bn_val b.
Proof.
  unfold bn_key. split; [|apply Q2Qc_eq_iff].
  intros H. apply Q2Qc_eq_iff in H. done.
Qed.

Lemma keys_sorted (l : list BN) :
  StronglySorted bn_le l → StronglySorted Qcle (bn_key <$> l).
Proof.
  induction 1 as [|b l Hs IH Hall]; simpl; constructor; [done|].
  apply Forall_fmap. eapply Forall_impl; [exact Hall|]. intros c. by rewrite bn_key_le.
Qed.

Lemma scaledSorted_keys_perm prices prices' :
  prices ≡ₚ prices' → bn_key <$> scaledSorted prices = bn_key <$> scaledSorted prices'.
Proof.
  intros HP. apply (StronglySorted_unique Qcle).
  - apply keys_sorted, scaledSorted_sorted.
  - apply keys_sorted, scaledSorted_sorted.
  - unfold scaledSorted. rewrite !stable_sort_perm, (commonDecimals_perm _ _ HP). by rewrite HP.
Qed.

Lemma at_index_keys (l l' : list BN) i :
  bn_key <$> l = bn_key <$> l' → bn_val (at_index i l) == bn_val (at_index i l').
Proof.
  intros Heq. destruct (decide (i < length l)%nat) as [Hi|Hi].
  - assert (i < length l')%nat as Hi'
      by (rewrite <- (length_fmap bn_key), <- Heq, length_fmap; done).
    apply at_index_lookup in Hi, Hi'. apply bn_key_eq. apply (inj Some).
    transitivity ((bn_key <$> l) !! i); [by rewrite list_lookup_fmap, Hi|].
    by rewrite Heq, list_lookup_fmap, Hi'.
  - assert (¬ i < length l')%nat
      by (rewrite <- (length_fmap bn_key), <- Heq, length_fmap; done).
    unfold at_index. by rewrite !nth_overflow by lia.
Qed.

(** the aggregate does not depend on the order in which the source prices
    are enumerated: permuted inputs give the same value on the same scale. *)
Theorem median_order_independent prices prices' :
  prices ≡ₚ prices' →
  bn_val (fst (medianOnCommonScale prices)) == bn_val (fst (medianOnCommonScale prices')) ∧
  snd (medianOnCommonScale prices) = snd (medianOnCommonScale prices').
Proof.
  intros HP. pose proof (scaledSorted_keys_perm _ _ HP) as Hk.
  pose proof (commonDecimals_perm _ _ HP) as HD.
  assert (length (scaledSorted prices) = length (scaledSorted prices')) as Hlen
    by (by rewrite !scaledSorted_length, HP).
  unfold medianOnCommonScale.
  destruct prices as [|p ps], prices' as [|p' ps'];
    [done|by apply Permutation_nil_cons in HP|by symmetry in HP; apply Permutation_nil_cons in HP|].
  cbv zeta. cbn [fst snd]. split; [|done]. rewrite Hlen.
  pose proof (λ i, at_index_keys _ _ i Hk) as Hi. case_match; [|apply Hi].
  rewrite !bn_decimalPlaces_val. rewrite !bn_dividedBy_val; rewrite ?bn_of_bigint_val;
    [|discriminate..]. by rewrite !bn_plus_val, !Hi.
Qed.
End median_facts.

(** ** The interface can be met: rationals *)

#[export] Instance Q_ops : BigNumberOps Q := {
  bn_of_bigint := inject_Z;
  bn_shiftedBy b n := b * Qpower (inject_Z 10) n;
  bn_comparedTo a b :=
    Some (match Qcompare a b with Lt => OLt | Eq => OEq | Gt => OGt end);
  bn_plus := Qplus;
  bn_minus := Qminus;
  bn_abs := Qabs;
  bn_dividedBy a b := round_at 20 (a / b);
  bn_multipliedBy := Qmult;
  bn_decimalPlaces a d := round_at d a;
  bn_isZero a := Qeq_bool a 0;
  bn_toNumber a := NFin (Qred a);
}.

#[export] Instance Q_spec : BigNumberSpec Q.
Proof.
  refine {| bn_val := λ q : Q, q |}; simpl; intros; try reflexivity.
  - apply Qeq_bool_iff.
  - apply Qle_bool_iff. by rewrite !Qred_correct.
  - unfold NInt. f_equal. rewrite (Qred_complete a (inject_Z z)) by done.
    apply Qred_identity. simpl. apply Z.gcd_1_r.
Defined.

(** Three agreeing sources and one reporting a thousandfold price. *)
Definition example_prices : list NormalizedPrice :=
  [ mkPrice "XLM" 11000000 8 chainlink 1700000000 (Some 1700000000%Z) None;
    mkPrice "XLM" 110500 6 redstone 1700000000 (Some 1700000000%Z) None;
    mkPrice "XLM" 111 3 band 1700000000 None None;
    mkPrice "XLM" 111000 3 reflector 1700000000 None None ].

(** On the example: the outlier cannot move the aggregate out of the range
    of the three agreeing sources. *)
Lemma median_majority_range_witness :
  inject_Z 11000000 <= bn_val (fst (medianOnCommonScale (BN:=Q) example_prices)) ∧
  bn_val (fst (medianOnCommonScale (BN:=Q) example_prices)) <= inject_Z 11100000.
Proof. apply (median_majority_range example_prices 11000000 11100000). vm_compute. lia. Defined.

Lemma median_order_independent_witness :
  bn_val (fst (medianOnCommonScale (BN:=Q) example_prices)) ==
    bn_val (fst (medianOnCommonScale (BN:=Q) (reverse example_prices))) ∧
  snd (medianOnCommonScale (BN:=Q) example_prices) =
    snd (medianOnCommonScale (BN:=Q) (reverse example_prices)).
Proof.
  apply (median_order_independent example_prices (reverse example_prices)).
  symmetry. apply reverse_Permutation.
Defined.

Example median_example :
  Qred (fst (medianOnCommonScale (BN:=Q) example_prices)) = inject_Z 11075000 ∧
  snd (medianOnCommonScale (BN:=Q) example_prices) = 8%Z.
Proof. by vm_compute. Qed.
