(* ===== verification/CircuitBreaker.v ===== *)
(** * Deviation circuit breaker

    Models [services/aggregator/src/price-aggregation/circuit-breaker.ts]: the
    breaker the aggregator consults on every source price.  The state of the
    class is the record [breaker]; the objects kept in its [Map]s are updated in
    place by the code, which here is a [jm_set] of the updated record.  The wall
    clock is an argument of every operation that reads it.  Logging and the
    alert sink are left out; the flags that decide whether an alert is raised
    are part of the state. *)

From Stdlib Require Import ZArith QArith Qabs Lia Lqa.
From stdpp Require Import base tactics decidable list sets strings relations.
From S2P Require Import Prelude JsMap JsNum Median.

Local Open Scope Z_scope.

Record SurgeLimitConfig : Type := mkSurgeLimits {
  maxEvaluationsPerWindow : Z;
  sl_windowMs : Z;
  maxConcurrentRecoveries : Z;
  alertThresholdRatio : double;
}.

Definition DEFAULT_SURGE_LIMITS : SurgeLimitConfig := {|
  maxEvaluationsPerWindow := 1000;
  sl_windowMs := 60000;
  maxConcurrentRecoveries := 5;
  alertThresholdRatio := double_0_8;
|}.

Record CircuitBreakerConfig : Type := mkBreakerConfig {
  deviationThreshold : number;
  recoveryRequiredSuccesses : Z;
  surgeLimits : SurgeLimitConfig;    (* after the defaults are filled in *)
}.

Record SurgeState : Type := mkSurge {
  degraded : bool;
  windowStart : Z;
  evaluationsInWindow : Z;
  activeRecoveries : Z;
  rejectedEvaluations : Z;
  alertFired : bool;
}.

Record SourceState : Type := mkSourceState {
  suspicious : bool;
  consecutiveSuccesses : Z;
  lastSuspicionTime : option Z;
  deviations : Z;
}.

Definition source_name (s : OracleSourceName) : string :=
  match s with
  | chainlink => "chainlink" | redstone => "redstone"
  | band => "band" | reflector => "reflector"
  end.

(** The key of a source's state. *)
Definition sourceKey (p : NormalizedPrice) : string :=
  np_asset p +:+ ":" +:+ source_name (np_source p).

Section breaker.
Context {BN : Type} `{!BigNumberOps BN}.

Record breaker : Type := mkBreaker {
  cfg : CircuitBreakerConfig;
  sourceStates : jsmap string SourceState;
  trailingMedians : jsmap string (list BN);
  surge : SurgeState;
}.

Definition medianHistorySize : nat := 10.

Definition freshSurge (now : Z) : SurgeState := mkSurge false now 0 0 0 false.
Definition freshSource : SourceState := mkSourceState false 0 None 0.

(** [new CircuitBreaker(config)] *)
Definition newBreaker (c : CircuitBreakerConfig) (now : Z) : breaker :=
  mkBreaker c jm_empty jm_empty (freshSurge now).

Definition with_source (k : string) (st : SourceState) (b : breaker) : breaker :=
  mkBreaker (cfg b) (jm_set k st (sourceStates b)) (trailingMedians b) (surge b).
Definition with_surge (f : SurgeState → SurgeState) (b : breaker) : breaker :=
  mkBreaker (cfg b) (sourceStates b) (trailingMedians b) (f (surge b)).
Definition with_medians (a : string) (h : list BN) (b : breaker) : breaker :=
  mkBreaker (cfg b) (sourceStates b) (jm_set a h (trailingMedians b)) (surge b).

Definition getOrCreateSourceState (k : string) (b : breaker) : breaker * SourceState :=
  match jm_get k (sourceStates b) with
  | Some st => (b, st)
  | None => (with_source k freshSource b, freshSource)
  end.

(** Rolling the window over, the first statement of [admitEvaluation]. *)
Definition rollWindow (l : SurgeLimitConfig) (now : Z) (s : SurgeState) : SurgeState :=
  if (sl_windowMs l <=? now - windowStart s)
  then mkSurge false now 0 (activeRecoveries s) (rejectedEvaluations s) false
  else s.

Definition admitEvaluation (l : SurgeLimitConfig) (now : Z) (s0 : SurgeState)
    : SurgeState * bool :=
  let s := rollWindow l now s0 in
  let used := evaluationsInWindow s in
  if (maxEvaluationsPerWindow l <=? used) then
    (mkSurge true (windowStart s) used (activeRecoveries s)
       (rejectedEvaluations s) (alertFired s), false)
  else
    let threshold := floor_mul (maxEvaluationsPerWindow l) (alertThresholdRatio l) in
    let fire := negb (alertFired s) && num_leb threshold (NInt (used + 1)) in
    (mkSurge (degraded s) (windowStart s) (used + 1) (activeRecoveries s)
       (rejectedEvaluations s) (alertFired s || fire), true).

Definition calculateDeviation (price median : BN) : number :=
  if bn_isZero median then NInt 0
  else bn_toNumber
         (bn_multipliedBy (bn_dividedBy (bn_abs (bn_minus price median)) median)
            (bn_of_bigint 100)).

(** [history.push(median); if (history.length > size) history.shift()] *)
Definition pushMedian (h : list BN) (m : BN) : list BN :=
  let h' := h ++ [m] in
  if (medianHistorySize <? length h')%nat then tail h' else h'.

(** The transition of a source's state once its deviation is known; [None]
    when recovery is deferred and the state is left alone. *)
Definition nextSourceState (c : CircuitBreakerConfig) (active : Z) (now : Z)
    (isDeviation : bool) (st : SourceState) : SourceState :=
  if isDeviation then
    mkSourceState true 0 (Some now) (deviations st + 1)
  else if suspicious st then
    if (maxConcurrentRecoveries (surgeLimits c) <=? active) then st
    else
      let k := consecutiveSuccesses st + 1 in
      if (recoveryRequiredSuccesses c <=? k)
      then mkSourceState false 0 (lastSuspicionTime st) (deviations st)
      else mkSourceState true k (lastSuspicionTime st) (deviations st)
  else st.

(** [evaluatePrice]: [t0] is the clock read by [admitEvaluation], [t1] the one
    read when a suspicion is recorded. *)
Definition evaluatePrice (t0 t1 : Z) (price : NormalizedPrice)
    (allPrices : list NormalizedPrice) (b0 : breaker) : breaker * (bool * number) :=
  let key := sourceKey price in
  let '(b1, st) := getOrCreateSourceState key b0 in
  let '(surge', admitted) := admitEvaluation (surgeLimits (cfg b1)) t0 (surge b1) in
  let b2 := with_surge (λ _, surge') b1 in
  if negb admitted then
    let b3 := with_surge (λ s, mkSurge (degraded s) (windowStart s) (evaluationsInWindow s)
      (activeRecoveries s) (rejectedEvaluations s + 1) (alertFired s)) b2 in
    (with_source key (mkSourceState true 0 (Some t1) (deviations st)) b3, (true, NInt 0))
  else
    let assetPrices := filter (λ p, np_asset p = np_asset price) allPrices in
    match assetPrices with
    | [] => (b2, (suspicious st, NInt 0))
    | _ =>
        let '(median, decimals) := medianOnCommonScale assetPrices in
        let deviation := calculateDeviation (toScale price decimals) median in
        let history := default [] (jm_get (np_asset price) (trailingMedians b2)) in
        let b3 := with_medians (np_asset price) (pushMedian history median) b2 in
        let isDeviation := num_ltb (deviationThreshold (cfg b3)) deviation in
        let st' := nextSourceState (cfg b3) (activeRecoveries (surge b3)) t1 isDeviation st in
        (with_source key st' b3, (suspicious st', deviation))
    end.

Definition getSourceState (k : string) (b : breaker) : option SourceState :=
  jm_get k (sourceStates b).

Definition getSuspiciousSources (b : breaker) : list (string * SourceState) :=
  filter (λ '(_, st), suspicious st = true) (sourceStates b).

Definition resetSource (k : string) (b : breaker) : breaker :=
  mkBreaker (cfg b) (jm_delete k (sourceStates b)) (trailingMedians b) (surge b).

Definition resetAll (now : Z) (b : breaker) : breaker :=
  mkBreaker (cfg b) jm_empty (trailingMedians b) (freshSurge now).
End breaker.
Arguments breaker BN : clear implicits.

(** ** Deviation *)

Section deviation.
Context {BN : Type} `{!BigNumberOps BN, !BigNumberSpec BN}.
Local Open Scope Q_scope.

Lemma percent_quotient (x m : Q) (T : Z) :
  0 < m → x * inject_Z 100 <= inject_Z T * m → x / m <= inject_Z T / inject_Z 100.
Proof.
  intros Hm Hx. apply Qle_shift_div_l; [done|].
  assert (x / m * inject_Z 100 == x * inject_Z 100 / m) as ->
    by (field; intros H0; rewrite H0 in Hm; discriminate).
  by apply Qle_shift_div_r.
Qed.

(** a source within [T] percent of the median is never reported as
    deviating beyond a threshold of [T] percent: neither the twenty-place
    division nor the conversion to a double can push it over. *)
Theorem deviation_within_threshold (price median : BN) (T : Z) :
  0 < bn_val median →
  Qabs (bn_val price - bn_val median) * inject_Z 100 <= inject_Z T * bn_val median →
  (0 <= T <= 2 ^ 53)%Z →
  num_ltb (NInt T) (calculateDeviation price median) = false.
Proof.
  intros Hpos Hdev HT. apply num_leb_ltb. unfold calculateDeviation.
  destruct (bn_isZero median) eqn:Hz.
  { apply bn_isZero_val in Hz. rewrite Hz in Hpos. discriminate. }
  assert (bn_val (bn_of_bigint T : BN) == inject_Z T) as HTv by apply bn_of_bigint_val.
  assert (bn_toNumber (bn_of_bigint T : BN) = NInt T) as <-
    by (apply bn_toNumber_int; [done|lia]).
  apply bn_toNumber_mono. rewrite HTv, bn_multipliedBy_val, bn_dividedBy_val, bn_of_bigint_val
    by (intros H0; rewrite H0 in Hpos; discriminate).
  rewrite bn_abs_val, bn_minus_val.
  assert (round_at 20 (inject_Z T / inject_Z 100) == inject_Z T / inject_Z 100) as Hex.
  { apply (round_at_exact 20 _ (T * 10 ^ 18)%Z); [lia|].
    change (10 ^ 20)%Z with (100 * 10 ^ 18)%Z. rewrite !inject_Z_mult. by field. }
  assert (Qabs (bn_val price - bn_val median) / bn_val median <= inject_Z T / inject_Z 100) as Hq.
  { by apply percent_quotient. }
  apply (round_at_mono 20) in Hq; [|lia]. rewrite Hex in Hq.
  apply (Qmult_le_r _ _ (inject_Z 100)) in Hq; [|done].
  assert (inject_Z T / inject_Z 100 * inject_Z 100 == inject_Z T) as <- by (by field).
  exact Hq.
Qed.
End deviation.

(** ** The evaluation budget of a window *)

(** Successive calls of [admitEvaluation] at the clock values [ts]. *)
Fixpoint admitAll (l : SurgeLimitConfig) (ts : list Z) (s : SurgeState)
    : SurgeState * nat :=
  match ts with
  | [] => (s, O)
  | t :: ts' =>
      let '(s1, ok) := admitEvaluation l t s in
      let '(s2, n) := admitAll l ts' s1 in
      (s2, if ok then S n else n)
  end.

Lemma admit_within l t s :
  t - windowStart s < sl_windowMs l →
  admitEvaluation l t s =
    if maxEvaluationsPerWindow l <=? evaluationsInWindow s
    then (mkSurge true (windowStart s) (evaluationsInWindow s) (activeRecoveries s)
            (rejectedEvaluations s) (alertFired s), false)
    else (mkSurge (degraded s) (windowStart s) (evaluationsInWindow s + 1) (activeRecoveries s)
            (rejectedEvaluations s)
            (alertFired s || negb (alertFired s) &&
              num_leb (floor_mul (maxEvaluationsPerWindow l) (alertThresholdRatio l))
                (NInt (evaluationsInWindow s + 1))), true).
Proof.
  intros Ht. unfold admitEvaluation, rollWindow.
  by replace (sl_windowMs l <=? t - windowStart s) with false by (symmetry; apply Z.leb_gt; lia).
Qed.

(** as long as the rolling window has not elapsed, exactly the unused part
    of the budget is admitted and every further evaluation is refused, however
    many submissions arrive. *)
Theorem window_budget l ts s :
  (∀ t, t ∈ ts → t - windowStart s < sl_windowMs l) →
  Z.of_nat (snd (admitAll l ts s)) =
    Z.min (Z.of_nat (length ts)) (Z.max 0 (maxEvaluationsPerWindow l - evaluationsInWindow s)).
Proof.
  revert s. induction ts as [|t ts IH]; intros s Hts; simpl; [lia|].
  rewrite admit_within by (apply Hts; set_solver).
  destruct (Z.leb_spec (maxEvaluationsPerWindow l) (evaluationsInWindow s)) as [Hge|Hlt].
  - match goal with |- context [admitAll l ts ?s1] =>
      specialize (IH s1); destruct (admitAll l ts s1) as [s2 n] end.
    simpl in *. rewrite IH by (intros; apply Hts; set_solver). lia.
  - match goal with |- context [admitAll l ts ?s1] =>
      specialize (IH s1); destruct (admitAll l ts s1) as [s2 n] end.
    cbn [snd windowStart evaluationsInWindow] in *.
    specialize (IH (λ t' Ht', Hts t' (list_elem_of_further _ _ _ Ht'))). lia.
Qed.

Definition tight_limits : SurgeLimitConfig := mkSurgeLimits 2 60000 5 double_0_8.

Lemma window_budget_witness :
  snd (admitAll tight_limits [10; 20; 30; 40] (freshSurge 0)) = 2%nat ∧
  Z.of_nat (snd (admitAll tight_limits [10; 20; 30; 40] (freshSurge 0))) = Z.min 4 (Z.max 0 2).
Proof.
  split; [reflexivity|].
  apply (window_budget tight_limits [10; 20; 30; 40] (freshSurge 0)).
  intros t Ht. repeat (apply elem_of_cons in Ht as [->|Ht]; [vm_compute; reflexivity|]).
  by apply not_elem_of_nil in Ht.
Defined.

(** ** Per-source behaviour *)

Section source_states.
Context {BN : Type} `{!BigNumberOps BN}.
Implicit Types (b : breaker BN) (p : NormalizedPrice).

(** The state of a source, an absent entry standing for a fresh one. *)
Definition stateOf (k : string) b : SourceState :=
  default freshSource (jm_get k (sourceStates b)).

Lemma getOrCreate_spec k b :
  getOrCreateSourceState k b =
    ((if jm_has k (sourceStates b) then b else with_source k freshSource b), stateOf k b).
Proof.
  unfold getOrCreateSourceState, stateOf, jm_has. by destruct (jm_get k (sourceStates b)).
Qed.

(** What [evaluatePrice] does, with the bookkeeping of the two maps factored
    out: the surge counters, the other sources and the verdict. *)
Record evaluation_spec (t0 t1 : Z) p (ps : list NormalizedPrice) b
    (b' : breaker BN) (out : bool * number) : Prop := {
  es_cfg : cfg b' = cfg b;
  es_active : activeRecoveries (surge b') = activeRecoveries (surge b);
  es_other k : k ≠ sourceKey p → jm_get k (sourceStates b') = jm_get k (sourceStates b);
  es_verdict : fst out = suspicious (stateOf (sourceKey p) b');
  es_state :
    let st := stateOf (sourceKey p) b in
    let admitted := snd (admitEvaluation (surgeLimits (cfg b)) t0 (surge b)) in
    stateOf (sourceKey p) b' =
      if negb admitted then mkSourceState true 0 (Some t1) (deviations st)
      else if bool_decide (filter (λ q, np_asset q = np_asset p) ps = []) then st
      else nextSourceState (cfg b) (activeRecoveries (surge b)) t1
             (num_ltb (deviationThreshold (cfg b)) (snd out)) st;
}.

Lemma admit_active l t s : activeRecoveries (fst (admitEvaluation l t s)) = activeRecoveries s.
Proof. unfold admitEvaluation, rollWindow. by repeat case_match. Qed.

Lemma evaluatePrice_spec t0 t1 p ps b :
  evaluation_spec t0 t1 p ps b (fst (evaluatePrice t0 t1 p ps b))
    (snd (evaluatePrice t0 t1 p ps b)).
Proof.
  unfold evaluatePrice. rewrite getOrCreate_spec.
  set (k := sourceKey p). set (b1 := if jm_has k (sourceStates b) then _ else _).
  assert (cfg b1 = cfg b ∧ surge b1 = surge b ∧
    (∀ k', k' ≠ k → jm_get k' (sourceStates b1) = jm_get k' (sourceStates b)) ∧
    jm_get k (sourceStates b1) = Some (stateOf k b)) as (Hc & Hs & Ho & Hg).
  { subst b1. unfold stateOf, jm_has. destruct (jm_get k (sourceStates b)) eqn:E; simpl.
    - done.
    - split_and!; [done|done| |by jm_simpl]. intros k' Hk'. by jm_simpl. }
  clearbody b1. rewrite Hc, Hs.
  pose proof (admit_active (surgeLimits (cfg b)) t0 (surge b)) as Ha.
  destruct (admitEvaluation (surgeLimits (cfg b)) t0 (surge b)) as [sg []] eqn:E; simpl in Ha.
  - cbn [negb]. destruct (filter (λ q, np_asset q = np_asset p) ps) as [|q qs] eqn:Ef.
    + split; simpl; try done; fold k; rewrite ?E, ?bool_decide_eq_true_2 by done;
        unfold stateOf; simpl; by rewrite ?Hg, ?Ef.
    + destruct (medianOnCommonScale (q :: qs)) as [m d].
      split; simpl; try done; fold k; unfold stateOf; simpl; jm_simpl; [| |].
      * intros k' Hk'. jm_simpl. by apply Ho.
      * done.
      * rewrite E. simpl. rewrite bool_decide_eq_false_2 by (by rewrite Ef).
        by rewrite Hc, Ha.
  - split; simpl; try done; fold k; unfold stateOf; simpl; jm_simpl; [| |].
    + intros k' Hk'. jm_simpl. by apply Ho.
    + done.
    + rewrite E. done.
Qed.

(** the verdict on one source never changes the state of another. *)
Theorem evaluation_isolated t0 t1 p ps b k :
  k ≠ sourceKey p →
  getSourceState k (fst (evaluatePrice t0 t1 p ps b)) = getSourceState k b.
Proof. apply evaluatePrice_spec. Qed.

(** ** Reachable breakers *)

Inductive breaker_step : breaker BN → breaker BN → Prop :=
| step_evaluate t0 t1 p ps b : breaker_step b (fst (evaluatePrice t0 t1 p ps b))
| step_resetSource k b : breaker_step b (resetSource k b)
| step_resetAll t b : breaker_step b (resetAll t b).

Definition reachable (c : CircuitBreakerConfig) b : Prop :=
  ∃ t, rtc breaker_step (newBreaker c t) b.

Definition source_ok (c : CircuitBreakerConfig) (st : SourceState) : Prop :=
  0 ≤ deviations st ∧ 0 ≤ consecutiveSuccesses st ∧
  (suspicious st = false → consecutiveSuccesses st = 0) ∧
  (0 < consecutiveSuccesses st → consecutiveSuccesses st < recoveryRequiredSuccesses c).

Record breaker_inv (c : CircuitBreakerConfig) b : Prop := {
  bi_cfg : cfg b = c;
  bi_sources k st : jm_get k (sourceStates b) = Some st → source_ok c st;
  bi_medians a h : jm_get a (trailingMedians b) = Some h → (length h ≤ medianHistorySize)%nat;
  bi_budget : 0 ≤ evaluationsInWindow (surge b) ≤
    Z.max 0 (maxEvaluationsPerWindow (surgeLimits c));
  bi_active : activeRecoveries (surge b) = 0;
}.

Lemma fresh_ok c : source_ok c freshSource.
Proof. unfold source_ok, freshSource. simpl. lia. Qed.

Lemma nextSourceState_ok c a t d st : source_ok c st → source_ok c (nextSourceState c a t d st).
Proof.
  unfold source_ok, nextSourceState. intros (?&?&?&?).
  destruct d; simpl; [split_and!; try lia; done|].
  destruct (suspicious st) eqn:?; [|split_and!; auto].
  repeat case_match; simpl; to_prop; split_and!; auto; try lia; congruence.
Qed.

Lemma pushMedian_length h (m : BN) :
  (length h ≤ medianHistorySize)%nat → (length (pushMedian h m) ≤ medianHistorySize)%nat.
Proof.
  unfold pushMedian. intros Hh. destruct (Nat.ltb_spec medianHistorySize (length (h ++ [m])));
    [|lia]. rewrite length_app in *. simpl in *. destruct h; simpl in *; [unfold medianHistorySize in *; lia|].
  rewrite length_app. simpl. lia.
Qed.

Lemma admit_budget l t s :
  0 ≤ evaluationsInWindow s ≤ Z.max 0 (maxEvaluationsPerWindow l) →
  0 ≤ evaluationsInWindow (fst (admitEvaluation l t s)) ≤ Z.max 0 (maxEvaluationsPerWindow l).
Proof.
  intros Hs. unfold admitEvaluation, rollWindow.
  destruct (sl_windowMs l <=? t - windowStart s); simpl;
    match goal with |- context [?a <=? ?b] => destruct (Z.leb_spec a b) end; simpl; lia.
Qed.

Lemma with_source_inv c b k st :
  breaker_inv c b → source_ok c st → breaker_inv c (with_source k st b).
Proof.
  intros [? Hsrc ?? ?] Hst. split; simpl; try done.
  intros k' st' H. rewrite jm_get_set in H. case_decide; simplify_eq; eauto.
Qed.

Lemma with_surge_inv c b (sg : SurgeState) :
  breaker_inv c b →
  0 ≤ evaluationsInWindow sg ≤ Z.max 0 (maxEvaluationsPerWindow (surgeLimits c)) →
  activeRecoveries sg = 0 → breaker_inv c (with_surge (λ _, sg) b).
Proof. intros [? ?? ? ?] ??. by split. Qed.

Lemma with_medians_inv c b a (h : list BN) :
  breaker_inv c b → (length h ≤ medianHistorySize)%nat → breaker_inv c (with_medians a h b).
Proof.
  intros [? ? Hm ? ?] Hh. split; simpl; try done.
  intros a' h' H. rewrite jm_get_set in H. case_decide; simplify_eq; eauto.
Qed.

Lemma stateOf_ok c b k : breaker_inv c b → source_ok c (stateOf k b).
Proof.
  intros Hi. unfold stateOf. destruct (jm_get k (sourceStates b)) eqn:E; simpl;
    [by eapply bi_sources|apply fresh_ok].
Qed.

Lemma evaluatePrice_inv c t0 t1 p ps b :
  breaker_inv c b → breaker_inv c (fst (evaluatePrice t0 t1 p ps b)).
Proof.
  intros Hi. unfold evaluatePrice. rewrite getOrCreate_spec.
  pose proof (stateOf_ok c b (sourceKey p) Hi) as Hst.
  set (st := stateOf (sourceKey p) b) in *. set (b1 := if jm_has _ _ then _ else _).
  assert (breaker_inv c b1) as Hi1
    by (subst b1; case_match; [done|apply with_source_inv; [done|apply fresh_ok]]).
  clearbody b1 st. clear Hi. rewrite (bi_cfg _ _ Hi1).
  pose proof (admit_budget (surgeLimits c) t0 _ (bi_budget _ _ Hi1)) as Hb.
  pose proof (admit_active (surgeLimits c) t0 (surge b1)) as Ha. rewrite (bi_active _ _ Hi1) in Ha.
  destruct (admitEvaluation (surgeLimits c) t0 (surge b1)) as [sg ok]. simpl in Hb, Ha.
  pose proof (with_surge_inv c b1 sg Hi1 Hb Ha) as Hi2.
  destruct ok; cbn [negb].
  - destruct (filter _ ps) as [|q qs]; [done|]. destruct (medianOnCommonScale (q :: qs)) as [m d].
    simpl. apply with_source_inv.
    + apply with_medians_inv; [done|]. apply pushMedian_length.
      destruct (jm_get (np_asset p) (trailingMedians b1)) eqn:E; simpl;
        [by eapply bi_medians|unfold medianHistorySize; lia].
    + rewrite (bi_cfg _ _ Hi1). by apply nextSourceState_ok.
  - simpl. apply with_source_inv.
    + by apply (with_surge_inv c (with_surge (λ _, sg) b1) (mkSurge (degraded sg) (windowStart sg)
        (evaluationsInWindow sg) (activeRecoveries sg) (rejectedEvaluations sg + 1) (alertFired sg))).
    + unfold source_ok in *. simpl. split_and!; [lia..|done|lia].
Qed.

Lemma resetSource_inv c b k : breaker_inv c b → breaker_inv c (resetSource k b).
Proof.
  intros [? Hsrc ?? ?]. split; simpl; try done.
  intros k' st' H. rewrite jm_get_delete in H. case_decide; simplify_eq; eauto.
Qed.

Lemma resetAll_inv c b t : breaker_inv c b → breaker_inv c (resetAll t b).
Proof. intros [? ?? ? ?]. split; simpl; try done. lia. Qed.

(** every reachable breaker keeps its recovery counters below the recovery
    requirement (and at zero for trusted sources), its median histories at
    most ten long and its evaluation count inside the window budget. *)
Theorem reachable_invariant c b : reachable c b → breaker_inv c b.
Proof.
  intros [t Hr]. assert (breaker_inv c (newBreaker c t)) as Hi by (split; simpl; done || lia).
  induction Hr as [|b1 b2 b3 Hstep Hr IH]; [done|]. apply IH.
  destruct Hstep; [by apply evaluatePrice_inv|by apply resetSource_inv|by apply resetAll_inv].
Qed.

(** ** Recovery *)

(** One submission: the two clock reads, the price and the prices known. *)
Record submission : Type := mkSubmission {
  sub_t0 : Z; sub_t1 : Z; sub_price : NormalizedPrice; sub_all : list NormalizedPrice }.

Definition submit (e : submission) b : breaker BN :=
  fst (evaluatePrice (sub_t0 e) (sub_t1 e) (sub_price e) (sub_all e) b).

(** The submission was admitted and compared with a median it is close to. *)
Definition quiet (e : submission) b : bool :=
  snd (admitEvaluation (surgeLimits (cfg b)) (sub_t0 e) (surge b)) &&
  negb (bool_decide (filter (λ q, np_asset q = np_asset (sub_price e)) (sub_all e) = [])) &&
  negb (num_ltb (deviationThreshold (cfg b))
    (snd (snd (evaluatePrice (sub_t0 e) (sub_t1 e) (sub_price e) (sub_all e) b)))).

Fixpoint all_quiet (k : string) (es : list submission) b : bool :=
  match es with
  | [] => true
  | e :: es' => bool_decide (sourceKey (sub_price e) = k) && quiet e b && all_quiet k es' (submit e b)
  end.

Lemma quiet_step e b :
  quiet e b = true →
  stateOf (sourceKey (sub_price e)) (submit e b) =
    nextSourceState (cfg b) (activeRecoveries (surge b)) (sub_t1 e) false
      (stateOf (sourceKey (sub_price e)) b).
Proof.
  unfold quiet, submit. intros Hq. apply andb_true_iff in Hq as [[Ha Hne]%andb_true_iff Hd].
  rewrite (es_state _ _ _ _ _ _ _
    (evaluatePrice_spec (sub_t0 e) (sub_t1 e) (sub_price e) (sub_all e) b)).
  apply negb_true_iff in Hne, Hd. by rewrite Ha, Hne, Hd.
Qed.

(** a suspicious source is trusted again after exactly
    [recoveryRequiredSuccesses] consecutive admitted submissions close to the
    median, and not one earlier. *)
Theorem recovery_exact c k es b :
  reachable c b → 0 < maxConcurrentRecoveries (surgeLimits c) →
  suspicious (stateOf k b) = true →
  consecutiveSuccesses (stateOf k b) < recoveryRequiredSuccesses c →
  all_quiet k es b = true →
  suspicious (stateOf k (fold_left (λ b e, submit e b) es b)) =
    (consecutiveSuccesses (stateOf k b) + Z.of_nat (length es) <? recoveryRequiredSuccesses c).
Proof.
  intros Hr%reachable_invariant Hcap. revert b Hr.
  assert (∀ es b, breaker_inv c b → suspicious (stateOf k b) = false →
    all_quiet k es b = true →
    suspicious (stateOf k (fold_left (λ b e, submit e b) es b)) = false) as Hclean.
  { clear es. induction es as [|e es IH]; intros b Hi Hs; simpl; [done|]. intros Hq. to_prop. subst k.
    apply IH; [by apply evaluatePrice_inv| |done].
    rewrite quiet_step by done. unfold nextSourceState. by rewrite Hs. }
  induction es as [|e es IH]; intros b Hi Hs Hlt; simpl.
  { rewrite Hs. intros _. symmetry. apply Z.ltb_lt. lia. }
  intros Hq. to_prop. subst k.
  pose proof (evaluatePrice_inv c (sub_t0 e) (sub_t1 e) (sub_price e) (sub_all e) b Hi) as Hi'.
  fold (submit e b) in Hi'. pose proof (quiet_step e b ltac:(done)) as Hst.
  rewrite (bi_cfg _ _ Hi), (bi_active _ _ Hi) in Hst. unfold nextSourceState in Hst.
  rewrite Hs, (proj2 (Z.leb_gt _ _) Hcap) in Hst.
  destruct (Z.leb_spec (recoveryRequiredSuccesses c)
    (consecutiveSuccesses (stateOf (sourceKey (sub_price e)) b) + 1)).
  - rewrite Hclean; [symmetry; apply Z.ltb_ge; lia|done|by rewrite Hst|done].
  - rewrite IH; rewrite ?Hst; cbn [consecutiveSuccesses suspicious]; [f_equal; lia|done|done|lia|done].
Qed.
End source_states.

(** ** Concrete runs *)

Definition default_config : CircuitBreakerConfig :=
  mkBreakerConfig (NInt 20) 3 DEFAULT_SURGE_LIMITS.

Definition xlm (src : OracleSourceName) (price : Z) : NormalizedPrice :=
  mkPrice "XLM" price 7 src 1700000000 None None.

(** Band reports a price far off the other two, then three good ones. *)
Definition outlier : submission :=
  mkSubmission 1 1 (xlm band 2000000) [xlm chainlink 1000000; xlm redstone 1010000; xlm band 2000000].
Definition steady : submission :=
  mkSubmission 2 2 (xlm band 1005000) [xlm chainlink 1000000; xlm redstone 1010000; xlm band 1005000].

Definition tripped : breaker Q := submit outlier (newBreaker default_config 0).

Lemma tripped_reachable : reachable default_config tripped.
Proof. exists 0. eapply rtc_l; [apply step_evaluate|apply rtc_refl]. Qed.

Lemma recovery_exact_witness :
  suspicious (stateOf "XLM:band" tripped) = true ∧
  suspicious (stateOf "XLM:band"
    (fold_left (λ b e, submit e b) [steady; steady] tripped)) = true ∧
  suspicious (stateOf "XLM:band"
    (fold_left (λ b e, submit e b) [steady; steady; steady] tripped)) =
    (consecutiveSuccesses (stateOf "XLM:band" tripped) + 3 <? 3).
Proof.
  split_and!; [vm_compute; reflexivity..|].
  apply (recovery_exact default_config "XLM:band" [steady; steady; steady] tripped);
    [apply tripped_reachable|vm_compute; reflexivity..].
Defined.

Lemma deviation_within_threshold_witness :
  num_ltb (NInt 20) (calculateDeviation (inject_Z 1200000) (inject_Z 1000000)) = false.
Proof.
  apply (deviation_within_threshold (BN:=Q) (inject_Z 1200000) (inject_Z 1000000) 20);
    [reflexivity|vm_compute; discriminate|lia].
Defined.

Lemma evaluation_isolated_witness :
  getSourceState "XLM:band" (submit (mkSubmission 3 3 (xlm chainlink 9000000)
    [xlm chainlink 9000000; xlm redstone 1010000; xlm band 1005000]) tripped) =
  getSourceState "XLM:band" tripped.
Proof.
  apply (evaluation_isolated 3 3 (xlm chainlink 9000000)
    [xlm chainlink 9000000; xlm redstone 1010000; xlm band 1005000] tripped "XLM:band").
  vm_compute. discriminate.
Defined.

Lemma reachable_invariant_witness : breaker_inv default_config tripped.
Proof. apply (reachable_invariant default_config tripped). apply tripped_reachable. Defined.
