(* ===== verification/SourceBreaker.v ===== *)
(** * Per-source circuit breaker with surge control

    Models [services/aggregator/src/price-aggregation/source-circuit-breaker.ts]:
    the CLOSED / OPEN / HALF_OPEN machine in front of every provider request and
    the limits that throttle a recovering provider.  Entries live in a [Map] and
    are mutated in place; every clock read is an argument ([tc] is the time at
    which a missing entry is created).  The [Warn]/[Info] log lines are left out. *)

From Stdlib Require Import ZArith Lia.
From stdpp Require Import base tactics decidable list sets strings relations.
From S2P Require Import Prelude JsMap JsNum.

Local Open Scope Z_scope.

Inductive CBState : Type := CLOSED | OPEN | HALF_OPEN.
#[export] Instance CBState_eq_dec : EqDecision CBState.
Proof. solve_decision. Defined.

Record SurgeConfig : Type := mkSurgeConfig {
  maxConcurrentHalfOpen : Z;
  maxRequestsPerWindow : Z;
  sc_windowMs : Z;
  halfOpenRateFraction : double;
  costPerRequest : double;
  maxCostPerWindow : double;
}.

Record SourceCBConfig : Type := mkSourceConfig {
  failureThreshold : Z;
  cooldownMs : Z;
  cfg_halfOpenSuccesses : Z;
  cfg_surge : SurgeConfig;     (* after the defaults are filled in *)
}.

Definition DEFAULT_SURGE : SurgeConfig := {|
  maxConcurrentHalfOpen := 2;
  maxRequestsPerWindow := 10;
  sc_windowMs := 10000;
  halfOpenRateFraction := double_0_25;
  costPerRequest := double_of_Z 1;
  maxCostPerWindow := double_of_Z 20;
|}.

Inductive SurgeDecision : Type := ALLOW | THROTTLE | DEGRADE.
#[export] Instance SurgeDecision_eq_dec : EqDecision SurgeDecision.
Proof. solve_decision. Defined.

Record CBEntry : Type := mkEntry {
  state : CBState;
  failures : Z;
  lastFailureTime : option Z;
  lastStateChange : Z;
  halfOpenSuccesses : Z;
  totalTrips : Z;
  inFlight : Z;
  windowStart : Z;
  requestsInWindow : Z;
  costInWindow : double;
  throttled : Z;
  degraded : Z;
  lastSurgeAlertTime : option Z;
}.

Record SurgeStatus : Type := mkStatus {
  decision : SurgeDecision;
  st_inFlight : Z;
  st_requestsInWindow : Z;
  st_costInWindow : double;
  st_throttled : Z;
  st_degraded : Z;
  st_lastSurgeAlertTime : option Z;
}.

Definition buildSurgeStatus (s : CBEntry) (d : SurgeDecision) : SurgeStatus :=
  mkStatus d (inFlight s) (requestsInWindow s) (costInWindow s) (throttled s) (degraded s)
    (lastSurgeAlertTime s).

Definition newEntry (tc : Z) : CBEntry :=
  mkEntry CLOSED 0 None tc 0 0 0 tc 0 double_0 0 0 None.

(** ** Field updates *)

Definition resetWindow (now : Z) (s : CBEntry) : CBEntry :=
  mkEntry (state s) (failures s) (lastFailureTime s) (lastStateChange s) (halfOpenSuccesses s)
    (totalTrips s) (inFlight s) now 0 double_0 (throttled s) (degraded s) (lastSurgeAlertTime s).

Definition rollWindow (c : SourceCBConfig) (now : Z) (s : CBEntry) : CBEntry :=
  if (sc_windowMs (cfg_surge c) <=? now - windowStart s) then resetWindow now s else s.

(** OPEN -> HALF_OPEN once the cooldown is over. *)
Definition enterHalfOpen (now : Z) (s : CBEntry) : CBEntry :=
  mkEntry HALF_OPEN (failures s) (lastFailureTime s) now 0 (totalTrips s) 0 now 0 double_0
    (throttled s) (degraded s) (lastSurgeAlertTime s).

Definition alertSurge (c : SourceCBConfig) (now : Z) (s : CBEntry) : CBEntry :=
  let recent := match lastSurgeAlertTime s with
                | Some t => now - t <? sc_windowMs (cfg_surge c)
                | None => false
                end in
  if recent then s
  else mkEntry (state s) (failures s) (lastFailureTime s) (lastStateChange s)
         (halfOpenSuccesses s) (totalTrips s) (inFlight s) (windowStart s) (requestsInWindow s)
         (costInWindow s) (throttled s) (degraded s) (Some now).

Definition countThrottled (s : CBEntry) : CBEntry :=
  mkEntry (state s) (failures s) (lastFailureTime s) (lastStateChange s) (halfOpenSuccesses s)
    (totalTrips s) (inFlight s) (windowStart s) (requestsInWindow s) (costInWindow s)
    (throttled s + 1) (degraded s) (lastSurgeAlertTime s).

Definition countDegraded (s : CBEntry) : CBEntry :=
  mkEntry (state s) (failures s) (lastFailureTime s) (lastStateChange s) (halfOpenSuccesses s)
    (totalTrips s) (inFlight s) (windowStart s) (requestsInWindow s) (costInWindow s)
    (throttled s) (degraded s + 1) (lastSurgeAlertTime s).

Definition effectiveRateCap (c : SurgeConfig) : number :=
  let rateCap := num_max (NInt 1) (floor_mul (maxRequestsPerWindow c) (halfOpenRateFraction c)) in
  num_min (NInt (maxRequestsPerWindow c)) rateCap.

(** The HALF_OPEN part of [evaluateSurge]. *)
Definition halfOpenDecision (c : SourceCBConfig) (now : Z) (s : CBEntry)
    : CBEntry * SurgeDecision :=
  let sg := cfg_surge c in
  if (maxConcurrentHalfOpen sg <=? inFlight s) then
    (alertSurge c now (countThrottled s), THROTTLE)
  else if num_leb (effectiveRateCap sg) (NInt (requestsInWindow s)) then
    (alertSurge c now (countThrottled s), THROTTLE)
  else if num_ltb (num_of_double (maxCostPerWindow sg))
            (num_of_double (double_add (costInWindow s) (costPerRequest sg))) then
    (alertSurge c now (countDegraded s), DEGRADE)
  else (s, ALLOW).

(** [evaluateSurge] on the entry it works on. *)
Definition evaluateEntry (c : SourceCBConfig) (now : Z) (s0 : CBEntry)
    : CBEntry * SurgeDecision :=
  let s := rollWindow c now s0 in
  match state s with
  | OPEN =>
      if (cooldownMs c <=? now - default 0 (lastFailureTime s))
      then halfOpenDecision c now (enterHalfOpen now s)
      else (s, DEGRADE)
  | CLOSED => (s, ALLOW)
  | HALF_OPEN => halfOpenDecision c now s
  end.

Definition successEntry (c : SourceCBConfig) (now : Z) (s : CBEntry) : CBEntry :=
  match state s with
  | HALF_OPEN =>
      let k := halfOpenSuccesses s + 1 in
      if (cfg_halfOpenSuccesses c <=? k)
      then mkEntry CLOSED 0 (lastFailureTime s) now k (totalTrips s) (inFlight s) (windowStart s)
             (requestsInWindow s) (costInWindow s) (throttled s) (degraded s) (lastSurgeAlertTime s)
      else mkEntry HALF_OPEN (failures s) (lastFailureTime s) (lastStateChange s) k (totalTrips s)
             (inFlight s) (windowStart s) (requestsInWindow s) (costInWindow s) (throttled s)
             (degraded s) (lastSurgeAlertTime s)
  | CLOSED =>
      mkEntry CLOSED 0 (lastFailureTime s) (lastStateChange s) (halfOpenSuccesses s) (totalTrips s)
        (inFlight s) (windowStart s) (requestsInWindow s) (costInWindow s) (throttled s)
        (degraded s) (lastSurgeAlertTime s)
  | OPEN => s
  end.

(** [recordFailure]: [t0] stamps the failure, [t1] a state change. *)
Definition failureEntry (c : SourceCBConfig) (t0 t1 : Z) (s : CBEntry) : CBEntry :=
  let f := failures s + 1 in
  let trips := match state s with
               | HALF_OPEN => true
               | CLOSED => failureThreshold c <=? f
               | OPEN => false
               end in
  mkEntry (if trips then OPEN else state s) f (Some t0)
    (if trips then t1 else lastStateChange s) (halfOpenSuccesses s)
    (if trips then totalTrips s + 1 else totalTrips s) (inFlight s) (windowStart s)
    (requestsInWindow s) (costInWindow s) (throttled s) (degraded s) (lastSurgeAlertTime s).

Definition acquireEntry (c : SourceCBConfig) (s : CBEntry) : CBEntry :=
  mkEntry (state s) (failures s) (lastFailureTime s) (lastStateChange s) (halfOpenSuccesses s)
    (totalTrips s) (inFlight s + 1) (windowStart s) (requestsInWindow s + 1)
    (double_add (costInWindow s) (costPerRequest (cfg_surge c))) (throttled s) (degraded s)
    (lastSurgeAlertTime s).

Definition releaseEntry (s : CBEntry) : CBEntry :=
  if (0 <? inFlight s)
  then mkEntry (state s) (failures s) (lastFailureTime s) (lastStateChange s) (halfOpenSuccesses s)
         (totalTrips s) (inFlight s - 1) (windowStart s) (requestsInWindow s) (costInWindow s)
         (throttled s) (degraded s) (lastSurgeAlertTime s)
  else s.

(** ** The class *)

Definition states : Type := jsmap string CBEntry.

Definition getOrCreate (tc : Z) (source : string) (m : states) : states * CBEntry :=
  match jm_get source m with
  | Some s => (m, s)
  | None => (jm_set source (newEntry tc) m, newEntry tc)
  end.

Definition evaluateSurge (c : SourceCBConfig) (tc now : Z) (source : string) (m : states)
    : states * SurgeStatus :=
  let '(m1, s) := getOrCreate tc source m in
  let '(s', d) := evaluateEntry c now s in
  (jm_set source s' m1, buildSurgeStatus s' d).

Definition isAllowed (c : SourceCBConfig) (tc now : Z) (source : string) (m : states)
    : states * bool :=
  let '(m', st) := evaluateSurge c tc now source m in
  (m', bool_decide (decision st = ALLOW)).

Definition acquire (c : SourceCBConfig) (tc now : Z) (source : string) (m : states)
    : states * bool :=
  let '(m1, st) := evaluateSurge c tc now source m in
  if negb (bool_decide (decision st = ALLOW)) then (m1, false)
  else
    let '(m2, s) := getOrCreate now source m1 in
    (jm_set source (acquireEntry c s) m2, true).

Definition release (tc : Z) (source : string) (m : states) : states :=
  let '(m1, s) := getOrCreate tc source m in jm_set source (releaseEntry s) m1.

Definition recordSuccess (c : SourceCBConfig) (tc now : Z) (source : string) (m : states) : states :=
  let '(m1, s) := getOrCreate tc source m in jm_set source (successEntry c now s) m1.

Definition recordFailure (c : SourceCBConfig) (tc t0 t1 : Z) (source : string) (m : states)
    : states :=
  let '(m1, s) := getOrCreate tc source m in jm_set source (failureEntry c t0 t1 s) m1.

Record SourceCBStatus : Type := mkSourceStatus {
  ss_state : CBState; ss_failures : Z; ss_lastFailureTime : option Z;
  ss_lastStateChange : Z; ss_totalTrips : Z; ss_surge : SurgeStatus }.

Definition getStatus (tc : Z) (source : string) (m : states) : states * SourceCBStatus :=
  let '(m1, s) := getOrCreate tc source m in
  (m1, mkSourceStatus (state s) (failures s) (lastFailureTime s) (lastStateChange s) (totalTrips s)
         (buildSurgeStatus s (if bool_decide (state s = OPEN) then DEGRADE else ALLOW))).

(** ** Operations as steps of one entry *)

Section facts.
Context (c : SourceCBConfig).
Implicit Types (s : CBEntry) (m : states) (source : string).

Inductive entry_step : CBEntry → CBEntry → Prop :=
| es_evaluate now s : entry_step s (fst (evaluateEntry c now s))
| es_acquire now s :
    snd (evaluateEntry c now s) = ALLOW →
    entry_step s (acquireEntry c (fst (evaluateEntry c now s)))
| es_release s : entry_step s (releaseEntry s)
| es_success now s : entry_step s (successEntry c now s)
| es_failure t0 t1 s : entry_step s (failureEntry c t0 t1 s).

(** The public operations of the class that change its state. *)
Inductive cb_step : states → states → Prop :=
| cb_evaluate tc now source m : cb_step m (fst (evaluateSurge c tc now source m))
| cb_acquire tc now source m : cb_step m (fst (acquire c tc now source m))
| cb_release tc source m : cb_step m (release tc source m)
| cb_success tc now source m : cb_step m (recordSuccess c tc now source m)
| cb_failure tc t0 t1 source m : cb_step m (recordFailure c tc t0 t1 source m)
| cb_status tc source m : cb_step m (fst (getStatus tc source m)).

Definition entryOf tc source m : CBEntry := default (newEntry tc) (jm_get source m).

Lemma getOrCreate_entry tc source m :
  snd (getOrCreate tc source m) = entryOf tc source m ∧
  jm_get source (fst (getOrCreate tc source m)) = Some (entryOf tc source m) ∧
  ∀ k, k ≠ source → jm_get k (fst (getOrCreate tc source m)) = jm_get k m.
Proof.
  unfold getOrCreate, entryOf. destruct (jm_get source m) eqn:E; simpl; [done|].
  split_and!; [done|by jm_simpl|]. intros k Hk. by jm_simpl.
Qed.

(** The effect of an operation: one entry takes at most one step. *)
Definition one_entry m m' : Prop :=
  ∃ source tc, (∀ k, k ≠ source → jm_get k m' = jm_get k m) ∧
    ∃ s', jm_get source m' = Some s' ∧
      (s' = entryOf tc source m ∨ entry_step (entryOf tc source m) s').

Lemma set_one_entry tc source m s' :
  entry_step (entryOf tc source m) s' →
  one_entry m (jm_set source s' (fst (getOrCreate tc source m))).
Proof.
  intros Hs. destruct (getOrCreate_entry tc source m) as (_ & _ & Ho).
  exists source, tc. split.
  - intros k Hk. jm_simpl. by apply Ho.
  - exists s'. split; [by jm_simpl|by right].
Qed.

Lemma cb_step_one m m' : cb_step m m' → one_entry m m'.
Proof.
  destruct 1 as [tc now source m|tc now source m|tc source m|tc now source m
    |tc t0 t1 source m|tc source m];
    unfold acquire, evaluateSurge, release, recordSuccess, recordFailure, getStatus;
    destruct (getOrCreate_entry tc source m) as (Hs & Hg & Ho);
    destruct (getOrCreate tc source m) as [m1 s] eqn:E; simpl in Hs, Hg, Ho; subst s.
  - destruct (evaluateEntry c now (entryOf tc source m)) as [s' d] eqn:Ev. simpl.
    replace m1 with (fst (getOrCreate tc source m)) by (by rewrite E).
    apply set_one_entry. replace s' with (fst (evaluateEntry c now (entryOf tc source m)))
      by (by rewrite Ev). constructor.
  - destruct (evaluateEntry c now (entryOf tc source m)) as [s' d] eqn:Ev. simpl.
    exists source, tc. destruct d; simpl;
      [unfold getOrCreate; rewrite jm_get_set_eq; simpl|..].
    + split; [intros k Hk; jm_simpl; by apply Ho|]. eexists. split; [by jm_simpl|right].
      replace s' with (fst (evaluateEntry c now (entryOf tc source m))) by (by rewrite Ev).
      apply es_acquire. by rewrite Ev.
    + split; [intros k Hk; jm_simpl; by apply Ho|]. eexists. split; [by jm_simpl|right].
      replace s' with (fst (evaluateEntry c now (entryOf tc source m))) by (by rewrite Ev).
      constructor.
    + split; [intros k Hk; jm_simpl; by apply Ho|]. eexists. split; [by jm_simpl|right].
      replace s' with (fst (evaluateEntry c now (entryOf tc source m))) by (by rewrite Ev).
      constructor.
  - replace m1 with (fst (getOrCreate tc source m)) by (by rewrite E).
    apply set_one_entry. constructor.
  - replace m1 with (fst (getOrCreate tc source m)) by (by rewrite E).
    apply set_one_entry. constructor.
  - replace m1 with (fst (getOrCreate tc source m)) by (by rewrite E).
    apply set_one_entry. constructor.
  - simpl. exists source, tc. split; [done|]. eauto.
Qed.

Definition reachable m : Prop := rtc cb_step jm_empty m.

(** An entry invariant that new entries satisfy and steps preserve holds of
    every entry of every reachable breaker. *)
Lemma reachable_entries (I : CBEntry → Prop) m source s :
  (∀ tc, I (newEntry tc)) → (∀ s s', I s → entry_step s s' → I s') →
  reachable m → jm_get source m = Some s → I s.
Proof.
  intros Hnew Hstep Hr.
  assert (∀ m m', rtc cb_step m m' → (∀ k s, jm_get k m = Some s → I s) →
    ∀ k s, jm_get k m' = Some s → I s) as Hind.
  { clear -Hnew Hstep. induction 1 as [|m1 m2 m3 H1 _ IH]; [done|]. intros Hm. apply IH.
    apply cb_step_one in H1 as (src & tc & Ho & s' & Hs' & Hcase). intros k s Hk.
    destruct (decide (k = src)) as [->|Hne]; [|rewrite Ho in Hk by done; eauto].
    rewrite Hs' in Hk. simplify_eq.
    assert (I (entryOf tc src m1)) by (unfold entryOf; destruct (jm_get src m1) eqn:?; simpl; eauto).
    destruct Hcase as [->|?]; eauto. }
  intros Hg. eapply (Hind jm_empty m Hr); [|exact Hg]. done.
Qed.

(** ** Field lemmas *)

Lemma alertSurge_fields now s :
  state (alertSurge c now s) = state s ∧ totalTrips (alertSurge c now s) = totalTrips s ∧
  lastStateChange (alertSurge c now s) = lastStateChange s ∧
  inFlight (alertSurge c now s) = inFlight s ∧
  requestsInWindow (alertSurge c now s) = requestsInWindow s ∧
  costInWindow (alertSurge c now s) = costInWindow s.
Proof. unfold alertSurge. by case_match. Qed.

Lemma halfOpenDecision_fields now s :
  state (fst (halfOpenDecision c now s)) = state s ∧
  totalTrips (fst (halfOpenDecision c now s)) = totalTrips s ∧
  lastStateChange (fst (halfOpenDecision c now s)) = lastStateChange s ∧
  inFlight (fst (halfOpenDecision c now s)) = inFlight s ∧
  requestsInWindow (fst (halfOpenDecision c now s)) = requestsInWindow s ∧
  costInWindow (fst (halfOpenDecision c now s)) = costInWindow s.
Proof.
  unfold halfOpenDecision. repeat case_match; simpl; try done;
    match goal with |- context [alertSurge c now ?x] =>
      destruct (alertSurge_fields now x) as (->&->&->&->&->&->) end; done.
Qed.

Lemma rollWindow_fields now s :
  state (rollWindow c now s) = state s ∧ totalTrips (rollWindow c now s) = totalTrips s ∧
  lastFailureTime (rollWindow c now s) = lastFailureTime s ∧
  inFlight (rollWindow c now s) = inFlight s.
Proof. unfold rollWindow. by case_match. Qed.

(** ** Limits on recovery traffic *)

(** The limits of a half-open source; [rate] is the value of the rate cap. *)
Definition half_open_limits (rate : Z) s : Prop :=
  0 ≤ inFlight s ∧
  (state s = HALF_OPEN →
     inFlight s ≤ Z.max 0 (maxConcurrentHalfOpen (cfg_surge c)) ∧
     requestsInWindow s ≤ Z.max 0 rate ∧
     num_ltb (num_of_double (maxCostPerWindow (cfg_surge c)))
       (num_of_double (costInWindow s)) = false).

Context (rate : Z) (rate_cap : effectiveRateCap (cfg_surge c) = NInt rate).
Context (cost_cap : num_ltb (num_of_double (maxCostPerWindow (cfg_surge c))) (NInt 0) = false).

Lemma rollWindow_limits now s : half_open_limits rate s → half_open_limits rate (rollWindow c now s).
Proof.
  unfold half_open_limits, rollWindow. intros [Hin Hl]. case_match; [|done]. simpl.
  split; [done|]. intros (?&?&?)%Hl. split_and!; [done|lia|exact cost_cap].
Qed.

Lemma enterHalfOpen_limits now s : half_open_limits rate (enterHalfOpen now s).
Proof. unfold half_open_limits. simpl. split; [lia|]. intros _. split_and!; [lia..|exact cost_cap]. Qed.

Lemma halfOpenDecision_limits now s :
  half_open_limits rate s → half_open_limits rate (fst (halfOpenDecision c now s)).
Proof.
  unfold half_open_limits. destruct (halfOpenDecision_fields now s) as (->&_&_&->&->&->). done.
Qed.

Lemma evaluateEntry_limits now s :
  half_open_limits rate s → half_open_limits rate (fst (evaluateEntry c now s)).
Proof.
  intros Hl%(rollWindow_limits now). unfold evaluateEntry.
  case_match; [done| |by apply halfOpenDecision_limits].
  case_match; [|done]. apply halfOpenDecision_limits, enterHalfOpen_limits.
Qed.

Lemma halfOpen_allow_room now s :
  snd (halfOpenDecision c now s) = ALLOW →
  fst (halfOpenDecision c now s) = s ∧
  inFlight s + 1 ≤ maxConcurrentHalfOpen (cfg_surge c) ∧
  requestsInWindow s + 1 ≤ rate ∧
  num_ltb (num_of_double (maxCostPerWindow (cfg_surge c)))
    (num_of_double (double_add (costInWindow s) (costPerRequest (cfg_surge c)))) = false.
Proof.
  unfold halfOpenDecision. rewrite rate_cap, num_leb_int.
  repeat case_match; simpl; try done. to_prop. intros _. split_and!; [done|lia..|done].
Qed.

Lemma acquire_limits now s :
  half_open_limits rate s → snd (evaluateEntry c now s) = ALLOW →
  half_open_limits rate (acquireEntry c (fst (evaluateEntry c now s))).
Proof.
  intros Hl Ha. pose proof (evaluateEntry_limits now s Hl) as [Hin Hl'].
  split; simpl; [lia|]. intros Hh. revert Ha Hh. clear Hl' Hin. unfold evaluateEntry.
  destruct (state (rollWindow c now s)) eqn:E; simpl; [by rewrite E|..].
  - case_match; [|done]. intros (Heq & ? & ? & ?)%halfOpen_allow_room _.
    rewrite Heq. split_and!; [lia..|done].
  - intros (Heq & ? & ? & ?)%halfOpen_allow_room _. rewrite Heq. split_and!; [lia..|done].
Qed.

Lemma entry_step_limits s s' :
  half_open_limits rate s → entry_step s s' → half_open_limits rate s'.
Proof.
  intros Hl. destruct 1 as [now s|now s Hd|s|now s|t0 t1 s].
  - by apply evaluateEntry_limits.
  - by apply acquire_limits.
  - destruct Hl as [Hin Hl]. unfold releaseEntry, half_open_limits. case_match; to_prop; simpl; [|done].
    split; [lia|]. intros (?&?&?)%Hl. split_and!; [lia..|done].
  - destruct Hl as [Hin Hl]. unfold successEntry, half_open_limits.
    destruct (state s) eqn:E; simpl; [done|by rewrite E|]. case_match; simpl; [done|]. auto.
  - destruct Hl as [Hin Hl]. unfold failureEntry, half_open_limits.
    destruct (state s) eqn:E; simpl; [|done..]. case_match; done.
Qed.

(** whatever sequence of requests, releases, successes and failures led
    there, a half-open source has at most [maxConcurrentHalfOpen] requests in
    flight, at most the rate cap of requests in the current window and an
    estimated window cost that does not exceed the budget. *)
Theorem recovery_traffic_bounded m source s :
  reachable m → jm_get source m = Some s → state s = HALF_OPEN →
  0 ≤ inFlight s ≤ Z.max 0 (maxConcurrentHalfOpen (cfg_surge c)) ∧
  requestsInWindow s ≤ Z.max 0 rate ∧
  num_ltb (num_of_double (maxCostPerWindow (cfg_surge c)))
    (num_of_double (costInWindow s)) = false.
Proof.
  intros Hr Hs Hh.
  destruct (reachable_entries (half_open_limits rate) m source s) as [Hin Hl]; try done.
  { apply entry_step_limits. }
  destruct (Hl Hh) as (?&?&?). split_and!; [done..|lia|done].
Qed.
End facts.

(** ** The machine a source runs through

    The specification: what a source's own operations make of it, without the
    map, the surge windows and the counters of the implementation. *)

Inductive phase : Type :=
| Closed (failures : Z)
| Opened (lastFailure : Z)
| Probing (successes : Z).

(** The public operations, with the clock readings they take. *)
Inductive cb_op : Type :=
| OpEvaluateSurge (tc now : Z)
| OpIsAllowed (tc now : Z)
| OpAcquire (tc now : Z)
| OpRelease (tc : Z)
| OpSuccess (tc now : Z)
| OpFailure (tc t0 t1 : Z)
| OpStatus (tc : Z).

(** A request is asked for at [now]: an open source starts probing once the
    cooldown since its last failure is over. *)
Definition asked (c : SourceCBConfig) (now : Z) (p : phase) : phase :=
  match p with
  | Opened t => if (cooldownMs c <=? now - t) then Probing 0 else p
  | _ => p
  end.

Definition machine (c : SourceCBConfig) (op : cb_op) (p : phase) : phase :=
  match op with
  | OpEvaluateSurge _ now | OpIsAllowed _ now | OpAcquire _ now => asked c now p
  | OpSuccess _ _ =>
      match p with
      | Closed _ => Closed 0
      | Opened t => Opened t
      | Probing k => if (cfg_halfOpenSuccesses c <=? k + 1) then Closed 0 else Probing (k + 1)
      end
  | OpFailure _ t0 _ =>
      match p with
      | Closed n => if (failureThreshold c <=? n + 1) then Opened t0 else Closed (n + 1)
      | Opened _ | Probing _ => Opened t0
      end
  | OpRelease _ | OpStatus _ => p
  end.

Definition is_opened (p : phase) : bool := match p with Opened _ => true | _ => false end.

(** The phase and the number of times it became [Opened]. *)
Definition machine_run (c : SourceCBConfig) (ops : list cb_op) : phase * Z :=
  fold_left (λ st op,
    let p := machine c op (fst st) in
    (p, if is_opened p && negb (is_opened (fst st)) then snd st + 1 else snd st))
    ops (Closed 0, 0).

(** What the machine says of the answer to a request: let through while closed,
    refused while open; the limits decide while probing. *)
Definition answer_ok (c : SourceCBConfig) (op : cb_op) (p : phase) (answer : option bool) : Prop :=
  match op with
  | OpIsAllowed _ now | OpAcquire _ now =>
      match asked c now p with
      | Closed _ => answer = Some true
      | Opened _ => answer = Some false
      | Probing _ => is_Some answer
      end
  | _ => answer = None
  end.

(** The call of an operation on a source, with its answer where it has one. *)
Definition cb_exec (c : SourceCBConfig) (source : string) (op : cb_op) (m : states)
    : states * option bool :=
  match op with
  | OpEvaluateSurge tc now => (fst (evaluateSurge c tc now source m), None)
  | OpIsAllowed tc now => let '(m', ok) := isAllowed c tc now source m in (m', Some ok)
  | OpAcquire tc now => let '(m', ok) := acquire c tc now source m in (m', Some ok)
  | OpRelease tc => (release tc source m, None)
  | OpSuccess tc now => (recordSuccess c tc now source m, None)
  | OpFailure tc t0 t1 => (recordFailure c tc t0 t1 source m, None)
  | OpStatus tc => (fst (getStatus tc source m), None)
  end.

Definition cb_run (c : SourceCBConfig) (calls : list (string * cb_op)) : states :=
  fold_left (λ m call, fst (cb_exec c (fst call) (snd call) m)) calls jm_empty.

(** The operations of one source in a history of calls. *)
Definition ops_of (source : string) (calls : list (string * cb_op)) : list cb_op :=
  snd <$> filter (λ call, fst call = source) calls.

Definition phaseOf (s : CBEntry) : phase :=
  match state s with
  | CLOSED => Closed (failures s)
  | OPEN => Opened (default 0 (lastFailureTime s))
  | HALF_OPEN => Probing (halfOpenSuccesses s)
  end.

Section machine.
Context (c : SourceCBConfig).
Implicit Types (s : CBEntry) (m : states) (source : string).

(** What the machine sees of an entry. *)
Definition view s : phase * Z := (phaseOf s, totalTrips s).

Lemma alertSurge_view now s : view (alertSurge c now s) = view s.
Proof. unfold alertSurge. by case_match. Qed.

Lemma halfOpenDecision_view now s : view (fst (halfOpenDecision c now s)) = view s.
Proof. unfold halfOpenDecision. repeat case_match; cbn [fst]; rewrite ?alertSurge_view; done. Qed.

Lemma rollWindow_view now s : view (rollWindow c now s) = view s ∧ phaseOf (rollWindow c now s) = phaseOf s.
Proof. unfold rollWindow. by case_match. Qed.

Lemma evaluateEntry_view now s :
  view (fst (evaluateEntry c now s)) = (asked c now (phaseOf s), totalTrips s).
Proof.
  unfold evaluateEntry. destruct (rollWindow_view now s) as [Hv Hp].
  assert (totalTrips (rollWindow c now s) = totalTrips s) as Ht by (by apply (f_equal snd) in Hv).
  rewrite <- Hp, <- Ht. generalize (rollWindow c now s). clear. intros s. unfold phaseOf at 1.
  destruct (state s) eqn:E; cbn [asked fst].
  - unfold view, phaseOf. by rewrite E.
  - destruct (_ <=? _); [by rewrite halfOpenDecision_view|]. unfold view, phaseOf. cbn [fst]. by rewrite E.
  - rewrite halfOpenDecision_view. unfold view, phaseOf. by rewrite E.
Qed.

Lemma evaluateEntry_answer now s :
  match asked c now (phaseOf s) with
  | Closed _ => snd (evaluateEntry c now s) = ALLOW
  | Opened _ => snd (evaluateEntry c now s) ≠ ALLOW
  | Probing _ => True
  end.
Proof.
  unfold evaluateEntry. destruct (rollWindow_view now s) as [_ <-].
  generalize (rollWindow c now s). clear. intros s. unfold phaseOf.
  destruct (state s); cbn [asked]; [done| |done]. by destruct (_ <=? _).
Qed.

(** The entry an operation leaves, and its answer. *)
Definition entry_exec (op : cb_op) s : CBEntry * option bool :=
  match op with
  | OpEvaluateSurge _ now => (fst (evaluateEntry c now s), None)
  | OpIsAllowed _ now =>
      let '(s', d) := evaluateEntry c now s in (s', Some (bool_decide (d = ALLOW)))
  | OpAcquire _ now =>
      let '(s', d) := evaluateEntry c now s in
      (if bool_decide (d = ALLOW) then acquireEntry c s' else s', Some (bool_decide (d = ALLOW)))
  | OpRelease _ => (releaseEntry s, None)
  | OpSuccess _ now => (successEntry c now s, None)
  | OpFailure _ t0 t1 => (failureEntry c t0 t1 s, None)
  | OpStatus _ => (s, None)
  end.

Definition op_tc (op : cb_op) : Z :=
  match op with
  | OpEvaluateSurge tc _ | OpIsAllowed tc _ | OpAcquire tc _ | OpRelease tc | OpSuccess tc _
  | OpFailure tc _ _ | OpStatus tc => tc
  end.

(** A call touches the entry of its source and no other. *)
Lemma cb_exec_entry source op m :
  jm_get source (fst (cb_exec c source op m)) =
    Some (fst (entry_exec op (entryOf (op_tc op) source m))) ∧
  snd (cb_exec c source op m) = snd (entry_exec op (entryOf (op_tc op) source m)) ∧
  ∀ k, k ≠ source → jm_get k (fst (cb_exec c source op m)) = jm_get k m.
Proof.
  destruct op as [tc now|tc now|tc now|tc|tc now|tc t0 t1|tc]; cbn [cb_exec entry_exec op_tc];
    unfold isAllowed, acquire, evaluateSurge, release, recordSuccess, recordFailure, getStatus;
    destruct (getOrCreate_entry tc source m) as (Hs & Hg & Ho);
    destruct (getOrCreate tc source m) as [m1 s]; cbn [fst snd] in Hs, Hg, Ho; subst s;
    try (destruct (evaluateEntry c now (entryOf tc source m)) as [s' d]);
    cbn [fst snd buildSurgeStatus decision]; [..|by split_and!];
    try (split_and!; [by jm_simpl|done|intros k Hk; jm_simpl; by apply Ho]).
  destruct (bool_decide (d = ALLOW)); cbn [negb fst snd];
    unfold getOrCreate; rewrite ?jm_get_set_eq; cbn [fst snd];
    (split_and!; [by jm_simpl|done|intros k Hk; jm_simpl; by apply Ho]).
Qed.

Lemma entry_exec_view op s :
  view (fst (entry_exec op s)) =
    (machine c op (phaseOf s),
     if is_opened (machine c op (phaseOf s)) && negb (is_opened (phaseOf s))
     then totalTrips s + 1 else totalTrips s).
Proof.
  assert (∀ now, is_opened (asked c now (phaseOf s)) && negb (is_opened (phaseOf s)) = false) as Hq.
  { intros now. destruct (phaseOf s); cbn; [done| |done]. by destruct (_ <=? _). }
  destruct op as [tc now|tc now|tc now|tc|tc now|tc t0 t1|tc]; cbn [entry_exec machine fst].
  - by rewrite Hq, evaluateEntry_view.
  - rewrite Hq, <- evaluateEntry_view. by destruct (evaluateEntry c now s).
  - rewrite Hq, <- evaluateEntry_view. destruct (evaluateEntry c now s) as [s' d]. cbn [fst].
    by destruct (bool_decide (d = ALLOW)).
  - rewrite andb_negb_r. unfold releaseEntry. by case_match.
  - unfold successEntry, view, phaseOf. destruct (state s) eqn:E; cbn; rewrite ?E; [done..|].
    by destruct (_ <=? _).
  - unfold failureEntry, view, phaseOf. destruct (state s) eqn:E; cbn; [|done..].
    by destruct (_ <=? _).
  - by rewrite andb_negb_r.
Qed.

Lemma entry_exec_answer op s : answer_ok c op (phaseOf s) (snd (entry_exec op s)).
Proof.
  destruct op as [tc now|tc now|tc now|tc|tc now|tc t0 t1|tc]; cbn [entry_exec answer_ok snd]; try done;
    pose proof (evaluateEntry_answer now s) as Ha; destruct (evaluateEntry c now s) as [s' d];
    cbn [snd] in *; destruct (asked c now (phaseOf s));
    [by rewrite bool_decide_true|by rewrite bool_decide_false|done
    |by rewrite bool_decide_true|by rewrite bool_decide_false|done].
Qed.

Lemma machine_run_snoc ops op :
  machine_run c (ops ++ [op]) =
    let st := machine_run c ops in
    let p := machine c op (fst st) in
    (p, if is_opened p && negb (is_opened (fst st)) then snd st + 1 else snd st).
Proof. unfold machine_run. by rewrite fold_left_app. Qed.

Lemma ops_of_snoc source calls k op :
  ops_of source (calls ++ [(k, op)]) =
    if decide (k = source) then ops_of source calls ++ [op] else ops_of source calls.
Proof.
  unfold ops_of. rewrite filter_app, fmap_app, filter_cons, filter_nil. cbn [fst].
  case_decide; [done|]. by rewrite app_nil_r.
Qed.

(** The entry of a source reflects the machine run over its own operations. *)
Lemma cb_run_view calls source :
  match jm_get source (cb_run c calls) with
  | Some s => ops_of source calls ≠ [] ∧ view s = machine_run c (ops_of source calls)
  | None => ops_of source calls = []
  end.
Proof.
  induction calls as [|[k op] calls IH] using rev_ind; [done|].
  rewrite ops_of_snoc. unfold cb_run. rewrite fold_left_app. cbn [fold_left fst snd].
  fold (cb_run c calls). set (m := cb_run c calls) in *.
  destruct (cb_exec_entry k op m) as (Hg & _ & Ho). case_decide as Hk; [subst k|by rewrite Ho].
  rewrite Hg. split; [by destruct (ops_of source calls)|].
  rewrite entry_exec_view, machine_run_snoc. cbn zeta.
  assert (view (entryOf (op_tc op) source m) = machine_run c (ops_of source calls)) as <-; [|done].
  unfold entryOf. destruct (jm_get source m); cbn [default]; [by destruct IH|]. by rewrite IH.
Qed.

(** C23: the breaker implements the three-phase machine.  After any history of
    calls on any sources, a source has an entry exactly when some call named
    it, and the entry's phase and trip counter are those of the machine run
    over that source's own operations, in order, and no other: closed with the
    count of failures since the last success or recovery, opened by a failure
    that brings the count to [failureThreshold] or by any failure while
    probing, probing once a request is asked for [cooldownMs] after the last
    failure, closed again by [halfOpenSuccesses] successes, the trips counting
    the openings.  The next call answers as the machine says: requests are let
    through while closed and refused while open. *)
Theorem breaker_refines_machine calls source :
  (match jm_get source (cb_run c calls) with
   | Some s => ops_of source calls ≠ [] ∧
       (phaseOf s, totalTrips s) = machine_run c (ops_of source calls)
   | None => ops_of source calls = []
   end) ∧
  ∀ op, answer_ok c op (fst (machine_run c (ops_of source calls)))
          (snd (cb_exec c source op (cb_run c calls))).
Proof.
  pose proof (cb_run_view calls source) as Hv. split; [exact Hv|]. intros op.
  destruct (cb_exec_entry source op (cb_run c calls)) as (_ & -> & _).
  assert (machine_run c (ops_of source calls) = view (entryOf (op_tc op) source (cb_run c calls))) as ->.
  { unfold entryOf. destruct (jm_get source (cb_run c calls)); cbn [default]; [by destruct Hv|by rewrite Hv]. }
  apply entry_exec_answer.
Qed.
End machine.

(** ** Tripping and blocking *)

Lemma recordFailure_entry c tc t0 t1 source m :
  jm_get source (recordFailure c tc t0 t1 source m) =
    Some (failureEntry c t0 t1 (entryOf tc source m)).
Proof.
  unfold recordFailure. destruct (getOrCreate_entry tc source m) as (Hs & _).
  destruct (getOrCreate tc source m) as [m1 s]. simpl in Hs. subst s. by jm_simpl.
Qed.

(** A run of failures at the given (failure, state change) times. *)
Definition failRun (c : SourceCBConfig) (source : string) (ts : list (Z * Z)) (m : states) : states :=
  fold_left (λ m t, recordFailure c (fst t) (fst t) (snd t) source m) ts m.

(** starting from a source that has not failed, [n] consecutive failures
    open the breaker exactly when [n] reaches [failureThreshold]. *)
Theorem trips_at_threshold c source ts m s :
  jm_get source m = Some s → state s = CLOSED → failures s = 0 → 0 < failureThreshold c →
  (state <$> jm_get source (failRun c source ts m)) =
    Some (if failureThreshold c <=? Z.of_nat (length ts) then OPEN else CLOSED).
Proof.
  intros Hs Hc Hf Hpos.
  assert (∀ ts m s, jm_get source m = Some s →
    state s = (if failureThreshold c <=? failures s then OPEN else CLOSED) →
    0 ≤ failures s →
    (state <$> jm_get source (failRun c source ts m)) =
      Some (if failureThreshold c <=? failures s + Z.of_nat (length ts) then OPEN else CLOSED)) as Hgen.
  { clear. induction ts as [|t ts IH]; intros m s Hs Hst Hf; simpl.
    { rewrite Hs. simpl. rewrite Hst. by rewrite Z.add_0_r. }
    pose proof (recordFailure_entry c (fst t) (fst t) (snd t) source m) as Hg.
    unfold entryOf in Hg. rewrite Hs in Hg. simpl in Hg.
    rewrite (IH _ _ Hg); simpl; [f_equal; by replace (failures s + 1 + Z.of_nat (length ts)) with
      (failures s + Z.pos (Pos.of_succ_nat (length ts))) by lia| |lia].
    rewrite Hst. destruct (Z.leb_spec (failureThreshold c) (failures s)); simpl.
    - by replace (failureThreshold c <=? failures s + 1) with true by (symmetry; apply Z.leb_le; lia).
    - by destruct (failureThreshold c <=? failures s + 1). }
  rewrite (Hgen ts m s Hs); [by rewrite Hf| |lia].
  rewrite Hf, Hc. by rewrite (proj2 (Z.leb_gt _ _) Hpos).
Qed.

(** while a source is OPEN and its cooldown has not elapsed, no request is
    allowed and none can be acquired. *)
Theorem open_blocks c tc now source m s :
  jm_get source m = Some s → state s = OPEN → now - default 0 (lastFailureTime s) < cooldownMs c →
  snd (isAllowed c tc now source m) = false ∧ snd (acquire c tc now source m) = false.
Proof.
  intros Hs Ho Hcool. unfold isAllowed, acquire, evaluateSurge, getOrCreate. rewrite Hs.
  assert (snd (evaluateEntry c now s) = DEGRADE) as Hd.
  { unfold evaluateEntry. destruct (rollWindow_fields c now s) as (-> & _ & -> & _). rewrite Ho.
    by rewrite (proj2 (Z.leb_gt _ _) Hcool). }
  destruct (evaluateEntry c now s) as [s' d]. simpl in Hd. subst d. done.
Qed.

(** ** Concrete runs with the configuration of the aggregator *)

Definition default_source_config : SourceCBConfig := mkSourceConfig 3 30000 2 DEFAULT_SURGE.
Definition three_failures : states :=
  failRun default_source_config "band" [(1, 1); (2, 2); (3, 3)] jm_empty.
Definition probing : states := fst (acquire default_source_config 0 40000 "band" three_failures).

Lemma probing_reachable : reachable default_source_config probing.
Proof.
  unfold reachable, probing, three_failures, failRun. cbn [fold_left fst snd].
  eapply rtc_r; [|apply cb_acquire].
  eapply rtc_r; [|apply cb_failure]. eapply rtc_r; [|apply cb_failure].
  eapply rtc_r; [|apply cb_failure]. apply rtc_refl.
Qed.

Definition probing_entry : CBEntry :=
  mkEntry HALF_OPEN 3 (Some 3) 40000 0 1 1 40000 1 (double_of_Z 1) 0 0 None.

Lemma recovery_traffic_bounded_witness :
  jm_get "band" probing = Some probing_entry ∧
  (0 ≤ inFlight probing_entry ≤ Z.max 0 2 ∧
   requestsInWindow probing_entry ≤ Z.max 0 2 ∧
   num_ltb (num_of_double (double_of_Z 20)) (num_of_double (costInWindow probing_entry)) = false).
Proof.
  split; [vm_compute; reflexivity|].
  apply (recovery_traffic_bounded default_source_config 2 eq_refl eq_refl probing "band" probing_entry);
    [apply probing_reachable|vm_compute; reflexivity..].
Defined.

Definition tripped_entry : CBEntry := mkEntry OPEN 3 (Some 3) 3 0 1 0 1 0 double_0 0 0 None.

(** Three failures open the source, a probe after the cooldown fails and opens
    it again, two successful probes close it; another source is not affected. *)
Example machine_history :
  let fail t := ("band"%string, OpFailure t t t) in
  let run := cb_run default_source_config
    [fail 1; ("pyth"%string, OpStatus 1); fail 2; fail 3; ("band"%string, OpAcquire 40000 40000);
     fail 40001; ("band"%string, OpAcquire 80000 80000); ("band"%string, OpSuccess 80001 80001);
     ("band"%string, OpSuccess 80002 80002)] in
  (phaseOf <$> jm_get "band" run) = Some (Closed 0) ∧ (totalTrips <$> jm_get "band" run) = Some 2 ∧
  (phaseOf <$> jm_get "pyth" run) = Some (Closed 0).
Proof. vm_compute. done. Qed.

Lemma trips_at_threshold_witness :
  (state <$> jm_get "band" (failRun default_source_config "band" [(1, 1); (2, 2); (3, 3)]
     (fst (getStatus 0 "band" jm_empty)))) = Some OPEN.
Proof.
  apply (trips_at_threshold default_source_config "band" [(1, 1); (2, 2); (3, 3)]
    (fst (getStatus 0 "band" jm_empty)) (newEntry 0)); vm_compute; reflexivity.
Defined.

Lemma open_blocks_witness :
  snd (isAllowed default_source_config 0 20000 "band" three_failures) = false ∧
  snd (acquire default_source_config 0 20000 "band" three_failures) = false.
Proof.
  apply (open_blocks default_source_config 0 20000 "band" three_failures tripped_entry);
    vm_compute; reflexivity.
Defined.
