(* ===== verification/Anomaly.v ===== *)
(** * Anomaly detection on aggregated prices

    Models [services/aggregator/src/price-aggregation/anomaly-detector.ts], the
    process-wide detector the aggregator feeds with every median it serves.
    Prices are doubles and every sum, quotient and square root is rounded as
    binary64 prescribes.  [Math.pow], which ECMAScript leaves
    implementation-approximated, the formatting of numbers in the texts and the
    reading of environment variables are arguments; no theorem depends on what
    they return.

    The theorems: the histories the detector keeps are bounded by the windows
    configured, a call touches only the asset it is about, and a reported
    anomaly is one of the three tests' positive verdicts with the highest score
    among them.  Two examples record where the code surprises: a window that is
    not a number is never trimmed, and after a flat window any move is reported
    with score 0. *)

From Stdlib Require Import ZArith QArith Lia.
From Stdlib Require Import SpecFloat.
From stdpp Require Import base tactics decidable numbers list strings.
From S2P Require Import Prelude JsMap JsNum.

Local Open Scope Z_scope.

Record AnomalyConfig : Type := mkAnomalyConfig {
  windowSize : double;
  zScoreThreshold : double;
  movingAverageDeviationPercent : double;
  volatilityMultiplier : double;
}.

Definition DEFAULT_CONFIG : AnomalyConfig := {|
  windowSize := double_of_Z 20;
  zScoreThreshold := double_of_Z 3;
  movingAverageDeviationPercent := double_of_Z 5;
  volatilityMultiplier := double_of_Z 3;
|}.

(** [Partial<AnomalyConfig>]: [None] for a field that is not given. *)
Record PartialAnomalyConfig : Type := mkPartialConfig {
  p_windowSize : option double;
  p_zScoreThreshold : option double;
  p_movingAverageDeviationPercent : option double;
  p_volatilityMultiplier : option double;
}.

Inductive AnomalyMethod : Type := zscore | moving_average | volatility.

Record AnomalyScore : Type := mkScore {
  isAnomaly : bool;
  score : double;
  method : AnomalyMethod;
  details : string;
}.

Record AnomalyDetector : Type := mkDetector {
  priceHistory : jsmap string (list double);
  configs : jsmap string AnomalyConfig;
  falsePositives : jsmap string Z;
  trueAnomalies : jsmap string Z;
}.

Definition newDetector : AnomalyDetector := mkDetector jm_empty jm_empty jm_empty jm_empty.

(** [{ ...DEFAULT_CONFIG, ...config }] *)
Definition fillConfig (c : PartialAnomalyConfig) : AnomalyConfig := {|
  windowSize := default (windowSize DEFAULT_CONFIG) (p_windowSize c);
  zScoreThreshold := default (zScoreThreshold DEFAULT_CONFIG) (p_zScoreThreshold c);
  movingAverageDeviationPercent :=
    default (movingAverageDeviationPercent DEFAULT_CONFIG) (p_movingAverageDeviationPercent c);
  volatilityMultiplier := default (volatilityMultiplier DEFAULT_CONFIG) (p_volatilityMultiplier c);
|}.

Definition setConfig (asset : string) (c : PartialAnomalyConfig) (d : AnomalyDetector)
    : AnomalyDetector :=
  mkDetector (priceHistory d) (jm_set asset (fillConfig c) (configs d))
    (falsePositives d) (trueAnomalies d).

Definition getConfig (asset : string) (d : AnomalyDetector) : AnomalyConfig :=
  default DEFAULT_CONFIG (jm_get asset (configs d)).

Definition recordFeedback (asset : string) (isTrueAnomaly : bool) (d : AnomalyDetector)
    : AnomalyDetector :=
  if isTrueAnomaly then
    mkDetector (priceHistory d) (configs d) (falsePositives d)
      (jm_set asset (default 0 (jm_get asset (trueAnomalies d)) + 1) (trueAnomalies d))
  else
    mkDetector (priceHistory d) (configs d)
      (jm_set asset (default 0 (jm_get asset (falsePositives d)) + 1) (falsePositives d))
      (trueAnomalies d).

Definition getFalsePositiveRate (asset : string) (d : AnomalyDetector) : double :=
  let fp := default 0 (jm_get asset (falsePositives d)) in
  let tp := default 0 (jm_get asset (trueAnomalies d)) in
  let total := fp + tp in
  if total =? 0 then double_0 else double_div (double_of_Z fp) (double_of_Z total).

Definition getConfigSummary (asset : string) (d : AnomalyDetector)
    : string * AnomalyConfig * double :=
  (asset, getConfig asset d, getFalsePositiveRate asset d).

Definition double_100 : double := double_of_Z 100.
Definition lengthOf {A} (l : list A) : double := double_of_Z (Z.of_nat (length l)).

Section detector.
Variable math_pow : double → double → double.       (* Math.pow *)
Variable toFixed : Z → double → string.              (* x.toFixed(n) *)
Variable numToString : double → string.              (* `${x}` *)

(** [xs.reduce((a, b) => a + b, 0) / xs.length] *)
Definition mean (xs : list double) : double :=
  double_div (fold_left double_add xs double_0) (lengthOf xs).

(** [xs.reduce((sum, v) => sum + Math.pow(v - mean, 2), 0) / xs.length] *)
Definition variance (m : double) (xs : list double) : double :=
  double_div
    (fold_left (λ sum v, double_add sum (math_pow (double_sub v m) (double_of_Z 2))) xs double_0)
    (lengthOf xs).

Definition detectZScore (price : double) (window : list double) (threshold : double)
    : AnomalyScore :=
  let m := mean window in
  let stdDev := double_sqrt (variance m window) in
  let z := if double_eqb stdDev double_0 then double_0
           else double_abs (double_div (double_sub price m) stdDev) in
  mkScore (double_ltb threshold z) (double_div z threshold) zscore
    ("z=" +:+ toFixed 3 z +:+ ", mean=" +:+ toFixed 6 m +:+ ", stdDev=" +:+ toFixed 6 stdDev
       +:+ ", threshold=" +:+ numToString threshold).

Definition detectMovingAverageDeviation (price : double) (window : list double)
    (thresholdPercent : double) : AnomalyScore :=
  let ma := mean window in
  let deviationPercent :=
    if double_eqb ma double_0 then double_0
    else double_mul (double_div (double_abs (double_sub price ma)) ma) double_100 in
  mkScore (double_ltb thresholdPercent deviationPercent)
    (double_div deviationPercent thresholdPercent) moving_average
    ("deviation=" +:+ toFixed 2 deviationPercent +:+ "%, ma=" +:+ toFixed 6 ma
       +:+ ", threshold=" +:+ numToString thresholdPercent +:+ "%").

(** The returns between neighbours, a zero predecessor being skipped. *)
Fixpoint returnsOf (window : list double) : list double :=
  match window with
  | prev :: ((cur :: _) as rest) =>
      if double_eqb prev double_0 then returnsOf rest
      else double_div (double_sub cur prev) prev :: returnsOf rest
  | _ => []
  end.

Definition detectVolatility (price : double) (window : list double) (multiplier : double)
    : AnomalyScore :=
  if (length window <? 2)%nat
  then mkScore false double_0 volatility "insufficient data"
  else
    let returns := returnsOf window in
    match returns with
    | [] => mkScore false double_0 volatility "no valid returns"
    | _ =>
        let vol := double_sqrt (variance (mean returns) returns) in
        let last := List.last window S754_nan in
        let currentReturn := if double_eqb last double_0 then double_0
                             else double_abs (double_div (double_sub price last) last) in
        let threshold := double_mul vol multiplier in
        let score := if double_eqb threshold double_0 then double_0
                     else double_div currentReturn threshold in
        mkScore (double_ltb threshold currentReturn) score volatility
          ("return=" +:+ toFixed 3 (double_mul currentReturn double_100) +:+ "%, vol="
             +:+ toFixed 3 (double_mul vol double_100) +:+ "%, threshold="
             +:+ toFixed 3 (double_mul threshold double_100) +:+ "%")
    end.

(** [(a, b) => (a.score > b.score ? a : b)] *)
Definition higherScore (a b : AnomalyScore) : AnomalyScore :=
  if double_ltb (score b) (score a) then a else b.

(** [xs.reduce(f)] on a list that is not empty. *)
Definition reduce1 {A} (f : A → A → A) (xs : list A) : option A :=
  match xs with [] => None | x :: xs' => Some (fold_left f xs' x) end.

(** The three verdicts on a price, in the order the code lists them. *)
Definition detections (config : AnomalyConfig) (history : list double) (price : double)
    : list AnomalyScore :=
  let window := slice_from (double_opp (windowSize config)) history in
  [detectZScore price window (zScoreThreshold config);
   detectMovingAverageDeviation price window (movingAverageDeviationPercent config);
   detectVolatility price window (volatilityMultiplier config)].

Definition setHistory (asset : string) (h : list double) (d : AnomalyDetector) : AnomalyDetector :=
  mkDetector (jm_set asset h (priceHistory d)) (configs d) (falsePositives d) (trueAnomalies d).

(** [history.push(price); if (history.length > windowSize * 2) history.shift()] *)
Definition pushTrimmed (config : AnomalyConfig) (history : list double) (price : double)
    : list double :=
  let h := history ++ [price] in
  if num_ltb (num_of_double (double_mul (windowSize config) (double_of_Z 2)))
       (NInt (Z.of_nat (length h)))
  then tail h else h.

Definition detect (asset : string) (currentPrice : double) (d : AnomalyDetector)
    : AnomalyDetector * option AnomalyScore :=
  let history := default [] (jm_get asset (priceHistory d)) in
  if (length history <? 5)%nat
  then (setHistory asset (history ++ [currentPrice]) d, None)
  else
    let config := getConfig asset d in
    (setHistory asset (pushTrimmed config history currentPrice) d,
     reduce1 higherScore
       (List.filter isAnomaly (detections config history currentPrice))).

(** [applyRuntimeConfig]: [env] is [process.env] and [toNumber] is [Number]. *)
Definition applyRuntimeConfig (env : string → option string) (toNumber : string → double)
    (asset : string) (d : AnomalyDetector) : AnomalyDetector :=
  let read (name : string) (dflt : double) :=
    match env (name +:+ "_" +:+ toUpperCase asset) with
    | Some v => toNumber v
    | None => match env name with Some v => toNumber v | None => dflt end
    end in
  setConfig asset
    (mkPartialConfig
       (Some (read "ANOMALY_WINDOW_SIZE" (windowSize DEFAULT_CONFIG)))
       (Some (read "ANOMALY_ZSCORE_THRESHOLD" (zScoreThreshold DEFAULT_CONFIG)))
       (Some (read "ANOMALY_MOVING_AVERAGE_DEVIATION" (movingAverageDeviationPercent DEFAULT_CONFIG)))
       (Some (read "ANOMALY_VOLATILITY_MULTIPLIER" (volatilityMultiplier DEFAULT_CONFIG)))) d.

(** ** Runs of the detector *)

Inductive detector_op : Type :=
| DSetConfig (asset : string) (c : PartialAnomalyConfig)
| DFeedback (asset : string) (isTrueAnomaly : bool)
| DDetect (asset : string) (price : double).

Definition run_detector (o : detector_op) (d : AnomalyDetector) : AnomalyDetector :=
  match o with
  | DSetConfig a c => setConfig a c d
  | DFeedback a b => recordFeedback a b d
  | DDetect a p => fst (detect a p d)
  end.

Definition run_detector_all (os : list detector_op) (d : AnomalyDetector) : AnomalyDetector :=
  fold_left (λ d o, run_detector o d) os d.

(** A window size whose double is a number not above [L]. *)
Definition windowWithin (L : Z) (c : AnomalyConfig) : bool :=
  num_leb (num_of_double (double_mul (windowSize c) (double_of_Z 2))) (NInt L).

Definition op_within (L : Z) (o : detector_op) : bool :=
  match o with DSetConfig _ c => windowWithin L (fillConfig c) | _ => true end.

(** ** What is known of a detector *)

Record detector_ok (L : Z) (d : AnomalyDetector) : Prop := {
  do_history a h : jm_get a (priceHistory d) = Some h → Z.of_nat (length h) <= Z.max 5 L;
  do_config a c : jm_get a (configs d) = Some c → windowWithin L c = true;
}.

Lemma getConfig_within L a d :
  40 <= L → detector_ok L d → windowWithin L (getConfig a d) = true.
Proof.
  intros HL [_ Hc]. unfold getConfig. destruct (jm_get a (configs d)) as [c|] eqn:E; simpl; [eauto|].
  apply (num_leb_trans _ (NInt 40)); [reflexivity|]. rewrite num_leb_int. lia.
Qed.

Lemma pushTrimmed_length L c h p :
  windowWithin L c = true → (5 <= length h)%nat → Z.of_nat (length h) <= Z.max 5 L →
  Z.of_nat (length (pushTrimmed c h p)) <= Z.max 5 L.
Proof.
  intros Hw H5 Hh. unfold pushTrimmed. destruct (num_ltb _ _) eqn:E.
  - destruct h; simpl in *; rewrite ?length_app; simpl; lia.
  - destruct (decide (Z.of_nat (length (h ++ [p])) <= L)) as [|Hgt]; [lia|].
    enough (num_ltb (num_of_double (double_mul (windowSize c) (double_of_Z 2)))
      (NInt (Z.of_nat (length (h ++ [p])))) = true) by congruence.
    apply (num_leb_ltb_trans _ (NInt L)); [done|]. rewrite num_ltb_int. lia.
Qed.

Lemma setConfig_ok L a c d :
  windowWithin L (fillConfig c) = true → detector_ok L d → detector_ok L (setConfig a c d).
Proof.
  intros Hc [Hh Hcs]. split; [done|]. intros a' c'. simpl. destruct (decide (a' = a)) as [->|Hne].
  - rewrite jm_get_set_eq. by intros [= <-].
  - rewrite jm_get_set_ne by done. eauto.
Qed.

Lemma setHistory_ok L a h d :
  Z.of_nat (length h) <= Z.max 5 L → detector_ok L d → detector_ok L (setHistory a h d).
Proof.
  intros Hl [Hh Hcs]. split; [|done]. intros a' h'. simpl. destruct (decide (a' = a)) as [->|Hne].
  - rewrite jm_get_set_eq. by intros [= <-].
  - rewrite jm_get_set_ne by done. eauto.
Qed.

Lemma detect_ok L a p d : 40 <= L → detector_ok L d → detector_ok L (fst (detect a p d)).
Proof.
  intros HL Hok. unfold detect. destruct (Nat.ltb_spec (length (default [] (jm_get a (priceHistory d)))) 5).
  - apply setHistory_ok; [|done]. rewrite length_app. simpl. lia.
  - apply setHistory_ok; [|done]. apply pushTrimmed_length; [by apply getConfig_within|lia|].
    destruct (jm_get a (priceHistory d)) as [h|] eqn:E; simpl in *; [|lia].
    by eapply do_history.
Qed.

(** however the detector is used, no history is longer than twice the largest
    window ever configured (40 entries with the defaults). *)
Theorem history_bounded L os a h :
  40 <= L → forallb (op_within L) os = true →
  jm_get a (priceHistory (run_detector_all os newDetector)) = Some h →
  Z.of_nat (length h) <= L.
Proof.
  intros HL Hos. unfold run_detector_all.
  assert (detector_ok L newDetector) as Hok by (by split).
  revert Hok. generalize newDetector.
  induction os as [|o os IH]; simpl in *; intros d Hok.
  - intros Hh%(do_history _ _ Hok). lia.
  - apply andb_true_iff in Hos as [Ho Hos]. apply IH; [done|].
    destruct o as [a' c|a' []|a' p]; simpl in *;
      [by apply setConfig_ok|by destruct Hok|by destruct Hok|by apply detect_ok].
Qed.

(** ** The verdict *)

Lemma reduce1_elem {A} (f : A → A → A) xs x :
  (∀ a b, f a b = a ∨ f a b = b) → reduce1 f xs = Some x → x ∈ xs.
Proof.
  intros Hf. destruct xs as [|y ys]; [done|]. intros [= <-].
  revert y. induction ys as [|z ys IH]; intros y; simpl; [by left|].
  destruct (Hf y z) as [->| ->]; [|right; apply IH].
  specialize (IH y). apply elem_of_cons in IH as [->|IH]; [by left|by do 2 right].
Qed.

Lemma higherScore_cases a b : higherScore a b = a ∨ higherScore a b = b.
Proof. unfold higherScore. destruct (double_ltb _ _); auto. Qed.

(** No score among [xs] is [NaN]. *)
Definition scored (xs : list AnomalyScore) : Prop := ∀ x, x ∈ xs → num_of_double (score x) ≠ NNaN.

Lemma reduce1_highest xs x y :
  scored xs → reduce1 higherScore xs = Some x → y ∈ xs → double_leb (score y) (score x) = true.
Proof.
  intros Hs. destruct xs as [|a xs]; [done|]. intros [= <-].
  revert a Hs y. induction xs as [|b xs IH]; intros a Hs y Hy; simpl.
  - apply list_elem_of_singleton in Hy as ->. apply num_leb_refl, Hs. by left.
  - assert (scored (higherScore a b :: xs)) as Hs'.
    { intros z [->|Hz]%elem_of_cons; [|apply Hs; by do 2 right].
      destruct (higherScore_cases a b) as [-> | ->]; apply Hs; [by left|by right; left]. }
    assert (double_leb (score a) (score (higherScore a b)) = true ∧
            double_leb (score b) (score (higherScore a b)) = true) as [Ha Hb].
    { assert (num_of_double (score a) ≠ NNaN) by (apply Hs; by left).
      assert (num_of_double (score b) ≠ NNaN) by (apply Hs; by right; left).
      unfold higherScore, double_leb. destruct (double_ltb (score b) (score a)) eqn:E.
      - split; [by apply num_leb_refl|]. by apply num_ltb_leb_weak.
      - split; [|by apply num_leb_refl]. by apply num_ltb_false_leb. }
    pose proof (IH _ Hs' (higherScore a b) ltac:(by left)) as Htop.
    apply elem_of_cons in Hy as [->|[->|Hy]%elem_of_cons].
    + by eapply num_leb_trans.
    + by eapply num_leb_trans.
    + apply IH; [done|by right].
Qed.

(** a reported anomaly is a positive verdict of one of the three tests on the
    window, and no positive verdict scores higher; nothing is reported exactly
    when the history is too short or all three tests pass. *)
Theorem detect_verdict a p d :
  let history := default [] (jm_get a (priceHistory d)) in
  let verdicts := detections (getConfig a d) history p in
  match snd (detect a p d) with
  | Some s => (5 <= length history)%nat ∧ s ∈ verdicts ∧ isAnomaly s = true ∧
      (scored (List.filter isAnomaly verdicts) →
       ∀ v, v ∈ verdicts → isAnomaly v = true → double_leb (score v) (score s) = true)
  | None => (length history < 5)%nat ∨ ∀ v, v ∈ verdicts → isAnomaly v = false
  end.
Proof.
  intros history verdicts. unfold detect. fold history.
  destruct (Nat.ltb_spec (length history) 5) as [|H5]; cbn [snd]; [by left|]. fold verdicts.
  destruct (reduce1 higherScore (List.filter isAnomaly verdicts)) as [s|] eqn:E.
  - pose proof (reduce1_elem _ _ _ higherScore_cases E) as Hs.
    apply list_elem_of_In, filter_In in Hs as [Hs%list_elem_of_In Ha].
    split; [done|]. split; [done|]. split; [done|]. intros Hsc v Hv Hva. eapply reduce1_highest; [done..|].
    by apply list_elem_of_In, filter_In; rewrite <- list_elem_of_In.
  - right. intros v Hv. destruct (isAnomaly v) eqn:Hva; [|done]. exfalso.
    assert (In v (List.filter isAnomaly verdicts)) as Hin
      by (apply filter_In; by rewrite <- list_elem_of_In).
    by destruct (List.filter isAnomaly verdicts).
Qed.

(** a call changes the history of its own asset only, by one entry, and never
    the settings or the feedback counters. *)
Theorem detect_frame a p d a' :
  let d' := fst (detect a p d) in
  configs d' = configs d ∧ falsePositives d' = falsePositives d ∧
  trueAnomalies d' = trueAnomalies d ∧
  (a' ≠ a → jm_get a' (priceHistory d') = jm_get a' (priceHistory d)) ∧
  List.last (default [] (jm_get a (priceHistory d'))) S754_nan = p.
Proof.
  intros d'. subst d'. unfold detect.
  destruct (Nat.ltb_spec (length (default [] (jm_get a (priceHistory d)))) 5) as [|H5];
    cbn [fst setHistory priceHistory configs falsePositives trueAnomalies];
    rewrite jm_get_set_eq; (do 3 (split; [done|])); (split; [intros; by rewrite jm_get_set_ne|]);
    [apply last_last|].
  cbn [default]. unfold pushTrimmed. destruct (num_ltb _ _); [|apply last_last].
  destruct (default [] (jm_get a (priceHistory d))) as [|x h]; [simpl in H5; lia|].
  apply last_last.
Qed.
End detector.

(** ** Concrete runs *)

Definition squared (x _ : double) : double := double_mul x x.
Definition no_text (_ : Z) (_ : double) : string := "".
Definition no_num (_ : double) : string := "".

Definition feed (prices : list double) (d : AnomalyDetector) : AnomalyDetector :=
  run_detector_all squared no_text no_num (DDetect "XLM" <$> prices) d.

Definition steady : list double := replicate 60 (double_of_Z 1).

Lemma history_bounded_witness :
  Z.of_nat (length (default [] (jm_get "XLM" (priceHistory (feed steady newDetector))))) <= 40.
Proof.
  pose proof (history_bounded squared no_text no_num 40 (DDetect "XLM" <$> steady) "XLM") as H.
  unfold feed. revert H.
  generalize (jm_get "XLM" (priceHistory (run_detector_all squared no_text no_num
    (DDetect "XLM" <$> steady) newDetector))).
  intros [h|] H; [|simpl; lia]. apply (H h); [lia|reflexivity|reflexivity].
Defined.

Definition nan_window : PartialAnomalyConfig := mkPartialConfig (Some S754_nan) None None None.

(** A window size that is not a number ([Number] of an unreadable environment
    variable) disables the trimming: the history keeps every price. *)
Example nan_window_unbounded :
  length (default [] (jm_get "XLM"
    (priceHistory (feed steady (setConfig "XLM" nan_window newDetector))))) = 60%nat.
Proof. vm_compute. reflexivity. Qed.

(** One part in ten million above one. *)
Definition slightly_up : double :=
  double_div (double_of_Z 10000001) (double_of_Z 10000000).

(** After a flat window the volatility threshold is 0, so the smallest move is
    an anomaly, and its score is 0. *)
Example flat_window_flags_any_move :
  match snd (detect squared no_text no_num "XLM" slightly_up
               (feed (replicate 5 (double_of_Z 1)) newDetector)) with
  | Some s => isAnomaly s = true ∧ score s = double_0 ∧ method s = volatility
  | None => False
  end.
Proof. vm_compute. done. Qed.
