(* ===== verification/Aggregator.v ===== *)
(** * The price aggregator

    Models [services/aggregator/src/price-aggregation/aggregator.ts] and
    [services/aggregator/src/price-quality/freshness.ts]: the class that keeps
    the last price of every source, consults the deviation circuit breaker on
    every update and computes the price the service publishes.  It composes the
    components of the files Median, CircuitBreaker and Anomaly.

    [PriceAggregator] is the record [aggregator]; the detector of the file
    Anomaly, a singleton of its module, is the last field of it.  The clock and
    the configured staleness threshold are arguments or fields.  What the code
    takes from [bignumber.js] beyond the operations of the file Median is the
    interface [BigNumberText]; the SHA-256 of the serialised evidence is the
    argument [evidence_id].

    The theorems: a price served under a freshness policy is the median of
    exactly the trusted sources whose own observation is within a budget that
    never exceeds the policy's hard limit; without a policy an asset that has
    any price is served; no state the aggregator can reach makes it throw,
    except on an overflow of the volatility; the evidence kept for a price lists
    the contributors it was computed from; the degradation level is exact. *)

From Stdlib Require Import ZArith QArith Qabs Qpower Qround Lia Lqa.
From Stdlib Require Import SpecFloat.
From stdpp Require Import base tactics decidable numbers countable pretty list sets strings.
From S2P Require Import Prelude JsMap JsNum Median CircuitBreaker Anomaly.

Local Open Scope Z_scope.

(** ** More of bignumber.js *)

Class BigNumberText (BN : Type) : Type := {
  bn_toString : BN → string;
  bn_toFixed : BN → string;
  bn_parse : string → BN;          (* new BigNumber(text) *)
  bn_isFinite : BN → bool;
  bn_toDouble : BN → double;       (* toNumber(), parseFloat(toString()) *)
}.

(** The documented behaviour: [toFixed()] writes the value exactly, in a text
    the constructor reads back, and the conversion to a double keeps the sign. *)
Class BigNumberTextSpec (BN : Type) `{!BigNumberOps BN, !BigNumberSpec BN, !BigNumberText BN}
    : Type := {
  bn_parse_toFixed b : (bn_val (bn_parse (bn_toFixed b)) == bn_val b)%Q;
  bn_parse_finite b : bn_isFinite (bn_parse (bn_toFixed b)) = true;
  bn_toDouble_nonneg b : (0 <= bn_val b)%Q → double_nonneg (bn_toDouble b);
}.

(** ** Freshness *)

Record FreshnessPolicy : Type := mkFreshness {
  hardMaxAgeMs : double;
  minAgeMs : double;
  baseAgeMs : double;
  sensitivity : double;
}.

(** [freshnessPolicySchema] *)
Definition policy_valid (p : FreshnessPolicy) : bool :=
  double_pos_finite (hardMaxAgeMs p) && double_pos_finite (minAgeMs p) &&
  double_pos_finite (baseAgeMs p) &&
  (double_is_finite (sensitivity p) && double_leb double_0 (sensitivity p)) &&
  (double_leb (minAgeMs p) (baseAgeMs p) && double_leb (baseAgeMs p) (hardMaxAgeMs p)).

Definition INVALID_POLICY : string := "Invalid freshness policy".
Definition INVALID_VOLATILITY : string := "Invalid volatility".
Definition VOLATILITY_PRICES : string := "Volatility prices must be finite and positive".
Definition VOLATILITY_OVERFLOW : string := "Volatility overflow".

Definition freshnessBudget (policy : FreshnessPolicy) (volatilityBps : double)
    : result string double :=
  if negb (policy_valid policy) then Throw INVALID_POLICY
  else if negb (double_is_finite volatilityBps) || double_ltb volatilityBps double_0
  then Throw INVALID_VOLATILITY
  else Ok (double_min (hardMaxAgeMs policy)
             (double_max (minAgeMs policy)
                (double_div (baseAgeMs policy)
                   (double_add (double_of_Z 1)
                      (double_div (double_mul (sensitivity policy) volatilityBps)
                         (double_of_Z 10000)))))).

(** [isFresh]; [observedAt] is in seconds. *)
Definition isFresh (observedAt : option Z) (nowMs : Z) (budgetMs : number) : bool :=
  match observedAt with
  | None => false
  | Some o =>
      (0 <=? o) && is_finite budgetMs && num_ltb (NInt 0) budgetMs &&
      (o * 1000 <=? nowMs) && num_ltb (NInt (nowMs - o * 1000)) budgetMs
  end.

Section freshness.
Context {BN : Type} `{!BigNumberOps BN, !BigNumberText BN}.

Definition bn_lte0 (b : BN) : bool :=
  match bn_comparedTo b (bn_of_bigint 0) with Some OLt | Some OEq => true | _ => false end.
Definition bn_gt0 (b : BN) : bool :=
  match bn_comparedTo b (bn_of_bigint 0) with Some OGt => true | _ => false end.

Definition realizedVolatility (previous current : string) : result string double :=
  let before : BN := bn_parse previous in
  let after : BN := bn_parse current in
  if negb (bn_isFinite before) || negb (bn_isFinite after) || bn_lte0 before || bn_lte0 after
  then Throw VOLATILITY_PRICES
  else
    let result := bn_toDouble
      (bn_multipliedBy (bn_dividedBy (bn_abs (bn_minus after before)) before)
         (bn_of_bigint 10000)) in
    if negb (double_is_finite result) then Throw VOLATILITY_OVERFLOW else Ok result.
End freshness.

(** ** The published price *)

Inductive DegradationLevel : Type := healthy | degraded_level | critical.

Record AggregatedPrice : Type := mkAggregated {
  ap_asset : string;
  ap_price : string;
  ap_decimals : Z;
  ap_sources : list OracleSourceName;
  ap_timestamp : Z;
  ap_confidence : double;
  ap_degradationLevel : DegradationLevel;
  ap_stale : bool;
  ap_ageVerified : bool;
  ap_anomaly : option AnomalyScore;
}.

(** ** Evidence *)

Inductive PolicyMode : Type := legacy | volatility_bounded.
Inductive Fallback : Type := no_fallback | stale_fallback | suspicious_fallback.

Record EvidencePolicy : Type := mkEvidencePolicy {
  ep_mode : PolicyMode;
  ep_budgetMs : number;
  ep_hardMaxAgeMs : option double;
  ep_volatilityBps : double;
}.

Record Observation : Type := mkObservation {
  ob_source : OracleSourceName;
  ob_price : string;
  ob_decimals : Z;
  ob_observedAt : option Z;
  ob_timestamp : Z;
  ob_normalizedPrice : option string;
  ob_included : bool;
  ob_reasons : list string;
}.

Record Quorum : Type := mkQuorum {
  qu_available : Z; qu_contributing : Z; qu_minimum : Z; qu_met : bool;
}.

Record EvidenceContent : Type := mkContent {
  ev_asset : string;
  ev_evaluatedAtMs : Z;
  ev_policy : EvidencePolicy;
  ev_observations : list Observation;
  ev_quorum : Quorum;
  ev_fallback : Fallback;
  ev_result : option AggregatedPrice;
}.

Record AggregationEvidence : Type := mkEvidence { ev_content : EvidenceContent; ev_id : string }.

Record Previous : Type := mkPrevious {
  pv_price : string;
  pv_timestamp : Z;
  pv_volatilityBps : double;
}.

Section aggregator.
Context {BN : Type} `{!BigNumberOps BN, !BigNumberText BN}.
Variable math_pow : double → double → double.
Variable toFixed : Z → double → string.
Variable numToString : double → string.
Variable evidence_id : EvidenceContent → string.   (* sha256(JSON.stringify(content)) in hex *)

Record aggregator : Type := mkAggregator {
  ag_sources : jsmap string NormalizedPrice;
  ag_breaker : breaker BN;
  ag_evidence : jsmap string AggregationEvidence;
  ag_previous : jsmap string Previous;
  ag_policy : option FreshnessPolicy;
  ag_stalenessMs : Z;                         (* config.stalenessThresholdMs *)
  ag_anomalies : AnomalyDetector;             (* the anomalyDetector singleton *)
}.

Definition with_sources (m : jsmap string NormalizedPrice) (s : aggregator) : aggregator :=
  mkAggregator m (ag_breaker s) (ag_evidence s) (ag_previous s) (ag_policy s) (ag_stalenessMs s)
    (ag_anomalies s).
Definition with_breaker (b : breaker BN) (s : aggregator) : aggregator :=
  mkAggregator (ag_sources s) b (ag_evidence s) (ag_previous s) (ag_policy s) (ag_stalenessMs s)
    (ag_anomalies s).
Definition with_evidence (m : jsmap string AggregationEvidence) (s : aggregator) : aggregator :=
  mkAggregator (ag_sources s) (ag_breaker s) m (ag_previous s) (ag_policy s) (ag_stalenessMs s)
    (ag_anomalies s).
Definition with_previous (m : jsmap string Previous) (s : aggregator) : aggregator :=
  mkAggregator (ag_sources s) (ag_breaker s) (ag_evidence s) m (ag_policy s) (ag_stalenessMs s)
    (ag_anomalies s).
Definition with_anomalies (d : AnomalyDetector) (s : aggregator) : aggregator :=
  mkAggregator (ag_sources s) (ag_breaker s) (ag_evidence s) (ag_previous s) (ag_policy s)
    (ag_stalenessMs s) d.

(** [new PriceAggregator(cbConfig, freshnessPolicy)]; [c] is the breaker's
    configuration with the defaults filled in. *)
Definition newAggregator (c : CircuitBreakerConfig) (policy : option FreshnessPolicy)
    (stalenessMs now : Z) (d : AnomalyDetector) : result string aggregator :=
  match policy with
  | Some p =>
      if policy_valid p
      then Ok (mkAggregator jm_empty (newBreaker c now) jm_empty jm_empty (Some p) stalenessMs d)
      else Throw INVALID_POLICY
  | None => Ok (mkAggregator jm_empty (newBreaker c now) jm_empty jm_empty None stalenessMs d)
  end.

(** The breaker's settings when the caller gives none. *)
Definition DEFAULT_BREAKER : CircuitBreakerConfig :=
  mkBreakerConfig (NInt 20) 3 DEFAULT_SURGE_LIMITS.

(** [`${price.source}:${price.asset}`] *)
Definition storageKey (p : NormalizedPrice) : string :=
  source_name (np_source p) +:+ ":" +:+ np_asset p.

Definition updateSourcePrice (t0 t1 : Z) (price : NormalizedPrice) (s : aggregator) : aggregator :=
  let sources := jm_set (storageKey price) price (ag_sources s) in
  let '(b, _) := evaluatePrice t0 t1 price (jm_values sources) (ag_breaker s) in
  with_breaker b (with_sources sources s).

(** [Array.from(this.sources.values()).filter((p) => p.asset === normalized)] *)
Definition pricesOf (normalized : string) (s : aggregator) : list NormalizedPrice :=
  filter (λ p, np_asset p = normalized) (jm_values (ag_sources s)).

Definition getSourcePricesForAsset (asset : string) (s : aggregator) : list NormalizedPrice :=
  pricesOf (toUpperCase asset) s.

Definition getFreshSourcePricesForAsset (now : Z) (asset : string) (s : aggregator)
    : list NormalizedPrice :=
  List.filter (λ p, now - np_timestamp p * 1000 <? ag_stalenessMs s)
    (getSourcePricesForAsset asset s).

Definition getSourceCount (s : aggregator) : nat :=
  length (js_dedup (np_source <$> jm_values (ag_sources s))).

Definition isSuspicious (s : aggregator) (p : NormalizedPrice) : bool :=
  match getSourceState (sourceKey p) (ag_breaker s) with
  | Some st => suspicious st
  | None => false
  end.

Definition computeDegradationLevel (activeCount totalCount : Z) (stale : bool)
    : DegradationLevel :=
  if stale || (activeCount =? 0) then critical
  else
    let ratio := double_div (double_of_Z activeCount) (double_of_Z (Z.max totalCount 1)) in
    if double_ltb ratio (double_div (double_of_Z 1) (double_of_Z 2)) then critical
    else if double_ltb ratio (double_of_Z 1) then degraded_level
    else healthy.

(** What [getLatestForAsset] decides before it computes the median. *)
Record selection : Type := mkSelection {
  sel_valid : list NormalizedPrice;
  sel_stale : bool;
  sel_use : list NormalizedPrice;
  sel_fallback : Fallback;
}.

Definition is_nil {A} (l : list A) : bool := match l with [] => true | _ => false end.

Definition select (s : aggregator) (nowMs : Z) (budgetMs : number) (prices : list NormalizedPrice)
    : selection :=
  let has_policy := match ag_policy s with Some _ => true | None => false end in
  let validPrices := List.filter (λ p,
    if has_policy then isFresh (np_observedAt p) nowMs budgetMs
    else num_ltb (NInt (nowMs - np_timestamp p * 1000)) budgetMs) prices in
  let stale := is_nil validPrices in
  let activePrices := if stale && negb has_policy then prices else validPrices in
  let trustedPrices := List.filter (λ p, negb (isSuspicious s p)) activePrices in
  let pricesToUse := if negb (is_nil trustedPrices) then trustedPrices
                     else if has_policy then [] else activePrices in
  let fallback :=
    if stale && negb has_policy then stale_fallback
    else if is_nil trustedPrices && negb (is_nil pricesToUse) then suspicious_fallback
    else no_fallback in
  mkSelection validPrices stale pricesToUse fallback.

Definition observe (s : aggregator) (sel : selection) (result : option AggregatedPrice)
    (p : NormalizedPrice) : Observation :=
  mkObservation (np_source p) (pretty (np_price p)) (np_decimals p) (np_observedAt p)
    (np_timestamp p)
    ((λ r, bn_toFixed (toScale p (ap_decimals r) : BN)) <$> result)
    (bool_decide (p ∈ sel_use sel))
    ((if bool_decide (p ∈ sel_valid sel) then [] else ["outside-freshness-policy"]) ++
     (match np_observedAt p with None => ["unverified-observation-time"] | _ => [] end) ++
     (if isSuspicious s p then ["suspicious"] else [])).

(** The closure [capture]. *)
Definition capture (normalized : string) (nowMs : Z) (budgetMs : number) (volatilityBps : double)
    (prices : list NormalizedPrice) (sel : selection) (result : option AggregatedPrice)
    (s : aggregator) : aggregator :=
  let contributing := Z.of_nat (length (sel_use sel)) in
  let content := mkContent normalized nowMs
    (mkEvidencePolicy (match ag_policy s with Some _ => volatility_bounded | None => legacy end)
       budgetMs (hardMaxAgeMs <$> ag_policy s) volatilityBps)
    (observe s sel result <$> prices)
    (mkQuorum (Z.of_nat (length prices)) contributing 1 (1 <=? contributing))
    (sel_fallback sel) result in
  with_evidence (jm_set normalized (mkEvidence content (evidence_id content)) (ag_evidence s)) s.

(** [Math.max(...prices.map(p => p.observedAt ?? p.timestamp))], of a list that
    is not empty. *)
Definition latestObservation (prices : list NormalizedPrice) : Z :=
  match (λ p, default (np_timestamp p) (np_observedAt p)) <$> prices with
  | [] => 0
  | t :: ts => fold_left Z.max ts t
  end.

(** [anomalyDetector.detect(normalized, medianFloat)] *)
Definition detectAnomaly (normalized : string) (price : double)
    : M aggregator string (option AnomalyScore) := λ s,
  let '(d, a) := detect math_pow toFixed numToString normalized price (ag_anomalies s) in
  (with_anomalies d s, Ok a).

(** The update of [this.previous]. *)
Definition recordPrevious (normalized humanPrice : string) (latest : Z)
    (previous : option Previous) : M aggregator string unit :=
  vol ← lift (match previous with
              | Some pv => realizedVolatility (BN := BN) (pv_price pv) humanPrice
              | None => Ok double_0
              end);
  modify (λ s, with_previous
    (jm_set normalized (mkPrevious humanPrice latest vol) (ag_previous s)) s).

(** [previous?.volatilityBps ?? 0] *)
Definition volatilityOf (previous : option Previous) : double :=
  default double_0 (pv_volatilityBps <$> previous).

(** [this.freshnessPolicy ? freshnessBudget(...) : config.stalenessThresholdMs] *)
Definition budgetFor (s : aggregator) (volatilityBps : double) : result string number :=
  match ag_policy s with
  | Some p => match freshnessBudget p volatilityBps with
              | Ok b => Ok (num_of_double b)
              | Throw e => Throw e
              end
  | None => Ok (NInt (ag_stalenessMs s))
  end.

(** The object [result] of a median on a scale. *)
Definition buildResult (normalized : string) (nowMs : Z) (prices : list NormalizedPrice)
    (sel : selection) (anomaly : option AnomalyScore) : AggregatedPrice :=
  let '(median, decimals) := medianOnCommonScale (BN := BN) (sel_use sel) in
  let contributing := Z.of_nat (length (sel_use sel)) in
  let totalSources := Z.of_nat (length prices) in
  mkAggregated normalized (bn_toString median) decimals
    (js_dedup (np_source <$> sel_use sel)) (nowMs / 1000)
    (double_div (double_of_Z contributing) (double_of_Z (Z.max totalSources 1)))
    (computeDegradationLevel contributing totalSources (sel_stale sel))
    (sel_stale sel) (isAgeVerified (sel_use sel)) anomaly.

Definition getLatestForAsset (nowMs : Z) (asset : string)
    : M aggregator string (option AggregatedPrice) :=
  let normalized := toUpperCase asset in
  s ← gets id;
  let prices := pricesOf normalized s in
  if is_nil prices then mret None else
  let previous := jm_get normalized (ag_previous s) in
  let volatilityBps := volatilityOf previous in
  budgetMs ← lift (budgetFor s volatilityBps);
  let sel := select s nowMs budgetMs prices in
  if is_nil (sel_use sel) then
    modify (capture normalized nowMs budgetMs volatilityBps prices sel None);; mret None
  else
  let '(median, decimals) := medianOnCommonScale (BN := BN) (sel_use sel) in
  let medianFloat := double_div (bn_toDouble median)
                       (math_pow (double_of_Z 10) (double_of_Z decimals)) in
  anomaly ← detectAnomaly normalized medianFloat;
  let result := buildResult normalized nowMs prices sel anomaly in
  let latest := latestObservation (sel_use sel) in
  let humanPrice := bn_toFixed (bn_shiftedBy median (- decimals)) in
  (if bn_gt0 median && match previous with Some pv => pv_timestamp pv <? latest | None => true end
   then recordPrevious normalized humanPrice latest previous
   else mret tt);;
  modify (capture normalized nowMs budgetMs volatilityBps prices sel (Some result));;
  mret (Some result).

Definition getEvidence (asset : string) (s : aggregator) : option AggregationEvidence :=
  jm_get (toUpperCase asset) (ag_evidence s).

(** [getAllPrices]; the [i]-th call reads the clock [clock i]. *)
Fixpoint latestOfAll (clock : nat → Z) (i : nat) (assets : list string)
    : M aggregator string (list AggregatedPrice) :=
  match assets with
  | [] => mret []
  | a :: assets' =>
      r ← getLatestForAsset (clock i) a;
      rs ← latestOfAll clock (S i) assets';
      mret (match r with Some p => p :: rs | None => rs end)
  end.

Definition getAllPrices (clock : nat → Z) : M aggregator string (list AggregatedPrice) :=
  assets ← gets (λ s, js_dedup (np_asset <$> jm_values (ag_sources s)));
  latestOfAll clock 0 assets.

Definition resetCircuitBreaker (now : Z) (key : option string) (s : aggregator) : aggregator :=
  match key with
  | Some k => if bool_decide (k = "") then with_breaker (resetAll now (ag_breaker s)) s
              else with_breaker (resetSource k (ag_breaker s)) s
  | None => with_breaker (resetAll now (ag_breaker s)) s
  end.
End aggregator.
Arguments aggregator BN : clear implicits.

(** ** The freshness budget *)

Lemma policy_valid_inv p :
  policy_valid p = true →
  double_pos_finite (hardMaxAgeMs p) = true ∧ double_pos_finite (minAgeMs p) = true ∧
  double_pos_finite (baseAgeMs p) = true ∧ double_is_finite (sensitivity p) = true ∧
  double_leb double_0 (sensitivity p) = true ∧
  double_leb (minAgeMs p) (baseAgeMs p) = true ∧
  double_leb (baseAgeMs p) (hardMaxAgeMs p) = true.
Proof. unfold policy_valid. intros H. to_prop. tauto. Qed.

(** A finite double that is at least 0 is a zero, of either sign, or positive. *)
Lemma double_finite_nonneg d :
  double_is_finite d = true → double_leb double_0 d = true →
  (∃ s, d = S754_zero s) ∨ double_pos_finite d = true.
Proof.
  destruct d as [s|s| |s m e]; simpl; intros Hf Hle; try done; [by left; eauto|].
  destruct s; [|by right]. exfalso. unfold double_leb in Hle. simpl in Hle.
  apply Qle_bool_iff in Hle.
  pose proof (Qpower_0_lt (inject_Z 2) e ltac:(reflexivity)) as Hp.
  assert (0 < inject_Z (Z.pos m))%Q by (unfold Qlt; simpl; lia).
  assert (0 < inject_Z (Z.pos m) * Qpower (inject_Z 2) e)%Q by (by apply Qmult_lt_0_compat).
  nra.
Qed.

(** The product of two such numbers, divided by a positive number and added to
    one, is again positive or zero: the denominator of the budget is never
    [NaN]. *)
Lemma budget_denominator s v :
  double_is_finite s = true → double_leb double_0 s = true →
  double_is_finite v = true → double_leb double_0 v = true →
  double_nonneg (double_add (double_of_Z 1) (double_div (double_mul s v) (double_of_Z 10000))).
Proof.
  intros Hs Hs0 Hv Hv0.
  destruct (double_finite_nonneg _ Hs Hs0) as [[z ->]|Hs'],
    (double_finite_nonneg _ Hv Hv0) as [[z' ->]|Hv'].
  - by destruct z, z'.
  - by destruct v as [|?| |[] ? ?].
  - by destruct s as [|?| |[] ? ?].
  - apply double_add_nonneg; [done|]. apply double_div_pos_r; [|done].
    apply double_mul_nonneg; [done|]. by apply double_pos_nonneg.
Qed.

Definition volatility_ok (v : double) : Prop :=
  double_is_finite v = true ∧ double_leb double_0 v = true.

Lemma volatility_ok_not_ltb v : volatility_ok v → double_ltb v double_0 = false.
Proof. intros [_ Hv]. by apply num_leb_ltb. Qed.

(** the freshness budget is total on valid inputs, and whatever the volatility
    it stays between the policy's minimum and its hard limit. *)
Theorem budget_bounded p v :
  policy_valid p = true → volatility_ok v →
  ∃ b, freshnessBudget p v = Ok b ∧
    double_leb (minAgeMs p) b = true ∧ double_leb b (hardMaxAgeMs p) = true ∧ double_nonneg b.
Proof.
  intros Hp Hv. pose proof (policy_valid_inv _ Hp) as (Hh & Hm & Hb & Hs & Hs0 & Hmb & Hbh).
  pose proof (volatility_ok_not_ltb _ Hv) as Hlt. destruct Hv as [Hvf Hv0].
  unfold freshnessBudget. rewrite Hp, Hvf, Hlt. simpl. eexists. split; [done|].
  apply double_clamp; [by apply double_pos_nonneg..| |by eapply num_leb_trans].
  apply double_div_nonneg; [done|]. by apply budget_denominator.
Qed.

(** ** Realized volatility *)

Section volatility_facts.
Context {BN : Type} `{!BigNumberOps BN, !BigNumberSpec BN, !BigNumberText BN,
  !BigNumberTextSpec BN}.

Lemma bn_gt0_val (b : BN) : bn_gt0 b = true ↔ (0 < bn_val b)%Q.
Proof.
  unfold bn_gt0. rewrite bn_comparedTo_val, bn_of_bigint_val. change (inject_Z 0) with 0%Q.
  destruct (Qcompare_spec (bn_val b) 0) as [H|H|H]; split; try done; lra.
Qed.

Lemma bn_lte0_val (b : BN) : (0 < bn_val b)%Q → bn_lte0 b = false.
Proof.
  intros Hb. unfold bn_lte0. rewrite bn_comparedTo_val, bn_of_bigint_val.
  change (inject_Z 0) with 0%Q. destruct (Qcompare_spec (bn_val b) 0); done || lra.
Qed.

(** A price text the aggregator can have recorded. *)
Definition recorded_price (t : string) : Prop :=
  bn_isFinite (bn_parse t : BN) = true ∧ (0 < bn_val (bn_parse t : BN))%Q.

Lemma recorded_toFixed (b : BN) : (0 < bn_val b)%Q → recorded_price (bn_toFixed b).
Proof. intros Hb. split; [apply bn_parse_finite|]. by rewrite bn_parse_toFixed. Qed.

Lemma realizedVolatility_spec previous current :
  recorded_price previous → recorded_price current →
  match realizedVolatility (BN := BN) previous current with
  | Ok v => volatility_ok v
  | Throw e => e = VOLATILITY_OVERFLOW
  end.
Proof.
  intros [Hpf Hp] [Hcf Hc]. unfold realizedVolatility.
  rewrite Hpf, Hcf, !bn_lte0_val by done. simpl.
  match goal with |- context [bn_toDouble ?b] => set (r := b) end.
  assert (double_nonneg (bn_toDouble r)) as Hr.
  { apply bn_toDouble_nonneg. subst r.
    rewrite bn_multipliedBy_val, bn_dividedBy_val, bn_of_bigint_val by lra.
    apply Qmult_le_0_compat; [|done].
    rewrite bn_abs_val, bn_minus_val.
    assert (round_at 20 0 == 0)%Q as <- by reflexivity.
    apply round_at_mono; [lia|]. apply Qle_shift_div_l; [done|]. rewrite Qmult_0_l.
    apply Qabs_nonneg. }
  destruct (double_is_finite (bn_toDouble r)) eqn:Hf; simpl; [|done]. split; [done|].
  destruct (num_of_double_nonneg _ Hr) as [H|(q & H & Hq)]; unfold double_leb; rewrite H; simpl; [done|].
  by apply Qle_bool_iff.
Qed.
End volatility_facts.

(** ** Runs of the aggregator *)

Section runs.
Context {BN : Type} `{!BigNumberOps BN, !BigNumberSpec BN, !BigNumberText BN,
  !BigNumberTextSpec BN}.
Variable math_pow : double → double → double.
Variable toFixed : Z → double → string.
Variable numToString : double → string.
Variable evidence_id : EvidenceContent → string.

Implicit Types s : aggregator BN.

Let getLatest := getLatestForAsset (BN := BN) math_pow toFixed numToString evidence_id.

Inductive agg_op : Type :=
| OpUpdate (t0 t1 : Z) (p : NormalizedPrice)
| OpLatest (now : Z) (asset : string)
| OpAll (clock : nat → Z)
| OpReset (now : Z) (key : option string).

Definition run_agg (o : agg_op) s : aggregator BN :=
  match o with
  | OpUpdate t0 t1 p => updateSourcePrice t0 t1 p s
  | OpLatest now a => fst (getLatest now a s)
  | OpAll clock => fst (getAllPrices math_pow toFixed numToString evidence_id clock s)
  | OpReset now k => resetCircuitBreaker now k s
  end.

Definition run_agg_all (os : list agg_op) s : aggregator BN :=
  fold_left (λ s o, run_agg o s) os s.

(** What holds of every state the aggregator reaches. *)
Record agg_ok s : Prop := {
  ao_wf : jm_wf (ag_sources s);
  ao_keys k p : (k, p) ∈ ag_sources s → k = storageKey p;
  ao_policy p : ag_policy s = Some p → policy_valid p = true;
  ao_previous a pv : jm_get a (ag_previous s) = Some pv →
    recorded_price (BN := BN) (pv_price pv) ∧ volatility_ok (pv_volatilityBps pv);
}.

Lemma newAggregator_ok c policy st now d s :
  newAggregator c policy st now d = Ok s → agg_ok s.
Proof.
  unfold newAggregator. destruct policy as [p|]; [destruct (policy_valid p) eqn:Hp; [|done]|];
    intros [= <-]; split; simpl; try done.
  - apply jm_wf_empty.
  - by intros ?? ?%not_elem_of_nil.
  - by intros ? [= <-].
  - apply jm_wf_empty.
  - by intros ?? ?%not_elem_of_nil.
Qed.

Lemma update_ok t0 t1 p s : agg_ok s → agg_ok (updateSourcePrice t0 t1 p s).
Proof.
  intros [Hwf Hk Hp Hv]. unfold updateSourcePrice.
  destruct (evaluatePrice _ _ _ _ _) as [b out]. split; simpl; [|..|done|done].
  - by apply jm_wf_set.
  - intros k q [[= -> ->]|Hin]%jm_elem_set; eauto.
Qed.

Lemma reset_ok now k s : agg_ok s → agg_ok (resetCircuitBreaker now k s).
Proof.
  intros [Hwf Hk Hp Hv]. unfold resetCircuitBreaker.
  destruct k as [k|]; [destruct (bool_decide _)|]; by split.
Qed.

Lemma capture_ok n now b v ps sel r s : agg_ok s → agg_ok (capture evidence_id n now b v ps sel r s).
Proof. by intros [Hwf Hk Hp Hv]. Qed.

Lemma anomalies_ok d s : agg_ok s → agg_ok (with_anomalies d s).
Proof. by intros [Hwf Hk Hp Hv]. Qed.

Lemma previous_ok a price t v s :
  recorded_price (BN := BN) price → volatility_ok v → agg_ok s →
  agg_ok (with_previous (jm_set a (mkPrevious price t v) (ag_previous s)) s).
Proof.
  intros Hp Hv [Hwf Hk Hpol Hprev]. split; simpl; [done..|]. intros a' pv.
  destruct (decide (a' = a)) as [->|Hne].
  - rewrite jm_get_set_eq. by intros [= <-].
  - rewrite jm_get_set_ne by done. eauto.
Qed.

(** ** One call *)

Lemma volatilityOf_ok a s : agg_ok s → volatility_ok (volatilityOf (jm_get a (ag_previous s))).
Proof.
  intros Hok. unfold volatilityOf. destruct (jm_get a (ag_previous s)) as [pv|] eqn:E; simpl.
  - by apply (ao_previous _ Hok) in E as [_ ?].
  - by split.
Qed.

Lemma budgetFor_ok a s :
  agg_ok s → ∃ b, budgetFor s (volatilityOf (jm_get a (ag_previous s))) = Ok b.
Proof.
  intros Hok. unfold budgetFor. destruct (ag_policy s) as [p|] eqn:Hp; [|eauto].
  destruct (budget_bounded p (volatilityOf (jm_get a (ag_previous s)))) as (b & -> & _); [|
    by apply volatilityOf_ok|by eauto]. by eapply ao_policy.
Qed.

(** The part of the state [recordPrevious] and the detector leave alone. *)
Definition same_view s1 s : Prop :=
  ag_sources s1 = ag_sources s ∧ ag_breaker s1 = ag_breaker s ∧ ag_policy s1 = ag_policy s ∧
  ag_evidence s1 = ag_evidence s.

Lemma recordPrevious_spec n price latest s :
  agg_ok s → recorded_price (BN := BN) price →
  match recordPrevious (BN := BN) n price latest (jm_get n (ag_previous s)) s with
  | (s1, Ok _) => agg_ok s1 ∧ same_view s1 s
  | (s1, Throw e) => s1 = s ∧ e = VOLATILITY_OVERFLOW
  end.
Proof.
  intros Hok Hprice. unfold recordPrevious, lift, modify, mbind, M_bind.
  destruct (jm_get n (ag_previous s)) as [pv|] eqn:E.
  - apply (ao_previous _ Hok) in E as [Hpv _].
    pose proof (realizedVolatility_spec _ _ Hpv Hprice) as Hv.
    destruct (realizedVolatility _ _) as [v|e]; [|done]. split; [by apply previous_ok|done].
  - split; [by apply previous_ok|done].
Qed.

(** What a call of [getLatestForAsset] does, on each of its outcomes. *)
Definition latest_spec (now : Z) (a : string) s (out : aggregator BN * result string (option AggregatedPrice))
    : Prop :=
  let n := toUpperCase a in
  let prices := pricesOf n s in
  let v := volatilityOf (jm_get n (ag_previous s)) in
  ∃ b, budgetFor s v = Ok b ∧
  let sel := select s now b prices in
  match out with
  | (s', Ok None) =>
      (prices = [] ∧ s' = s) ∨
      (prices ≠ [] ∧ sel_use sel = [] ∧ s' = capture evidence_id n now b v prices sel None s)
  | (s', Ok (Some r)) => prices ≠ [] ∧ sel_use sel ≠ [] ∧
      ∃ anomaly s1, r = buildResult (BN := BN) n now prices sel anomaly ∧
        agg_ok s1 ∧ same_view s1 s ∧
        s' = capture evidence_id n now b v prices sel (Some r) s1
  | (s', Throw e) => agg_ok s' ∧ same_view s' s ∧ e = VOLATILITY_OVERFLOW
  end.

Lemma is_nil_spec {A} (l : list A) : is_nil l = bool_decide (l = []).
Proof. by destruct l. Qed.

Lemma latest_outcome now a s : agg_ok s → latest_spec now a s (getLatest now a s).
Proof.
  intros Hok. destruct (budgetFor_ok (toUpperCase a) s Hok) as [b Hb].
  exists b. split; [done|]. cbn zeta. unfold getLatest, getLatestForAsset.
  unfold gets, lift, modify, mbind, M_bind, mret, M_ret. simpl (id s). rewrite !is_nil_spec.
  destruct (bool_decide_reflect (pricesOf (toUpperCase a) s = [])) as [Hnil|Hne]; [by left|].
  rewrite Hb, is_nil_spec.
  set (sel := select s now b (pricesOf (toUpperCase a) s)).
  destruct (bool_decide_reflect (sel_use sel = [])) as [Hu|Hu]; [by right|].
  destruct (medianOnCommonScale (sel_use sel)) as [median decimals] eqn:Hm.
  unfold detectAnomaly. destruct (detect _ _ _ _ _ _) as [d anomaly].
  assert (agg_ok (with_anomalies d s)) as Hok1 by (by apply anomalies_ok).
  assert (recorded_price (BN := BN) (bn_toFixed (bn_shiftedBy median (- decimals))) ∨
    bn_gt0 median = false) as Hprice.
  { destruct (bn_gt0 median) eqn:Hpos; [left|by right]. apply bn_gt0_val in Hpos.
    apply recorded_toFixed. rewrite bn_shiftedBy_val. apply Qmult_lt_0_compat; [done|].
    by apply Qpower_0_lt. }
  destruct (bn_gt0 median && _) eqn:Hg.
  2: { split; [done|]. split; [done|]. by exists anomaly, (with_anomalies d s). }
  destruct Hprice as [Hprice|Hpos]; [|by rewrite Hpos in Hg].
  pose proof (recordPrevious_spec (toUpperCase a) (bn_toFixed (bn_shiftedBy median (- decimals)))
    (latestObservation (sel_use sel)) (with_anomalies d s) Hok1 Hprice) as Hrec.
  destruct (recordPrevious _ _ _ _ _) as [s1 [u|e]].
  - destruct Hrec as [Hok2 Hsame]. split; [done|]. split; [done|]. by exists anomaly, s1.
  - by destruct Hrec as [-> ->].
Qed.

(** ** Every reachable state *)

Lemma latest_ok now a s : agg_ok s → agg_ok (fst (getLatest now a s)).
Proof.
  intros Hok. destruct (latest_outcome now a s Hok) as (b & _ & Hout). cbn zeta in Hout.
  destruct (getLatest now a s) as [s' [[r|]|e]]; simpl.
  - destruct Hout as (_ & _ & anomaly & s1 & _ & Hok1 & _ & ->). by apply capture_ok.
  - destruct Hout as [[_ ->]|(_ & _ & ->)]; [done|by apply capture_ok].
  - by destruct Hout.
Qed.

Lemma latestOfAll_ok clock i assets s :
  agg_ok s → agg_ok (fst (latestOfAll (BN := BN) math_pow toFixed numToString evidence_id clock i assets s)).
Proof.
  revert i s. induction assets as [|a assets IH]; intros i s Hok; simpl; [done|].
  unfold mbind, M_bind. pose proof (latest_ok (clock i) a s Hok) as Hok1. unfold getLatest in Hok1.
  destruct (getLatestForAsset _ _ _ _ (clock i) a s) as [s1 [r|e]]; [|done]. simpl in Hok1.
  specialize (IH (S i) s1 Hok1).
  by destruct (latestOfAll _ _ _ _ _ _ _ s1) as [s2 [rs|e]].
Qed.

Definition agg_reachable s : Prop :=
  ∃ c policy stalenessMs now d s0 os,
    newAggregator c policy stalenessMs now d = Ok s0 ∧ s = run_agg_all os s0.

Lemma agg_reachable_ok s : agg_reachable s → agg_ok s.
Proof.
  intros (c & policy & st & now & d & s0 & os & H0 & ->). apply newAggregator_ok in H0.
  unfold run_agg_all. revert s0 H0. induction os as [|o os IH]; intros s0 H0; simpl; [done|].
  apply IH. destruct o as [t0 t1 p|t a|clock|t k]; simpl.
  - by apply update_ok.
  - by apply latest_ok.
  - unfold getAllPrices, mbind, M_bind, gets. by apply latestOfAll_ok.
  - by apply reset_ok.
Qed.

Lemma prices_sources_nodup n s : agg_ok s → NoDup (np_source <$> pricesOf n s).
Proof.
  intros Hok. unfold pricesOf.
  assert (storageKey <$> jm_values (ag_sources s) = jm_keys (ag_sources s)) as Hkeys.
  { pose proof (ao_keys _ Hok) as Hk. unfold jm_values, jm_keys.
    induction (ag_sources s) as [|[k p] m IH]; [done|]. simpl. f_equal.
    - symmetry. apply Hk. by left.
    - apply IH. intros k' p' Hin. apply Hk. by right. }
  assert (NoDup (storageKey <$> filter (λ p, np_asset p = n) (jm_values (ag_sources s)))) as Hnd.
  { apply NoDup_fmap_filter. rewrite Hkeys. apply (ao_wf _ Hok). }
  apply (NoDup_fmap_1 (λ src, source_name src +:+ ":" +:+ n)). rewrite <- list_fmap_compose.
  erewrite list_fmap_ext; [exact Hnd|]. intros i p Hp. simpl. unfold storageKey.
  apply list_elem_of_lookup_2, list_elem_of_filter in Hp as [-> _]. done.
Qed.

Lemma nodup_prices n s : agg_ok s → NoDup (pricesOf n s).
Proof. intros Hok. by eapply NoDup_fmap_1, prices_sources_nodup. Qed.

(** ** Under a freshness policy *)

Lemma filter_filter_and {A} (f g : A → bool) l :
  List.filter g (List.filter f l) = List.filter (λ x, f x && g x) l.
Proof.
  induction l as [|x l IH]; simpl; [done|]. destruct (f x); simpl; rewrite IH; by destruct (g x).
Qed.

Lemma select_policy s p now b prices :
  ag_policy s = Some p →
  sel_use (select s now b prices) =
    List.filter (λ q, isFresh (np_observedAt q) now b && negb (isSuspicious s q)) prices.
Proof.
  intros Hp. unfold select. rewrite Hp. cbn [sel_use]. rewrite andb_false_r, filter_filter_and.
  by destruct (List.filter _ prices).
Qed.

Lemma nodup_filter_sources (f : NormalizedPrice → bool) l :
  NoDup (np_source <$> l) → NoDup (np_source <$> List.filter f l).
Proof.
  induction l as [|q l IH]; simpl; [done|]. intros [Hq Hl]%NoDup_cons.
  destruct (f q); [|auto]. simpl. apply NoDup_cons. split; [|auto].
  intros (y & Hy1 & Hy)%list_elem_of_fmap. apply Hq, list_elem_of_fmap. exists y. split; [done|].
  apply list_elem_of_In. apply list_elem_of_In, filter_In in Hy. tauto.
Qed.

(** The contributors of a price served under the policy [p]: the sources whose
    own observation is within the budget and which the breaker trusts. *)
Definition contributors (budget : double) (now : Z) (a : string) s : list NormalizedPrice :=
  List.filter (λ q, isFresh (np_observedAt q) now (num_of_double budget) && negb (isSuspicious s q))
    (getSourcePricesForAsset a s).

Lemma fresh_age budget hard now q :
  double_leb budget hard = true → isFresh (np_observedAt q) now (num_of_double budget) = true →
  ∃ o, np_observedAt q = Some o ∧ 0 <= o ∧ o * 1000 <= now ∧
    num_ltb (NInt (now - o * 1000)) (num_of_double hard) = true.
Proof.
  intros Hle. unfold isFresh. destruct (np_observedAt q) as [o|]; [|done]. intros H.
  rewrite !andb_true_iff, !Z.leb_le in H. destruct H as [[[[? _] _] ?] ?].
  exists o. split_and!; try done. by eapply num_ltb_leb_trans.
Qed.

(** C2: under a freshness policy the price served is the median of exactly the
    trusted sources whose own observation time is inside a budget between the
    policy's minimum and its hard limit; no older, future or unverified
    observation and no suspicious source contributes, and when nobody qualifies
    nothing is served. *)
Theorem policy_serving s p now a :
  agg_reachable s → ag_policy s = Some p →
  ∃ budget, double_leb (minAgeMs p) budget = true ∧ double_leb budget (hardMaxAgeMs p) = true ∧
  let used := contributors budget now a s in
  (∀ q, q ∈ used → isSuspicious s q = false ∧
     ∃ o, np_observedAt q = Some o ∧ 0 <= o ∧ o * 1000 <= now ∧
       num_ltb (NInt (now - o * 1000)) (num_of_double (hardMaxAgeMs p)) = true) ∧
  match snd (getLatest now a s) with
  | Ok (Some r) => used ≠ [] ∧
      ap_price r = bn_toString (medianOnCommonScale (BN := BN) used).1 ∧
      ap_decimals r = (medianOnCommonScale (BN := BN) used).2 ∧
      ap_sources r = np_source <$> used ∧
      ap_stale r = false ∧ ap_ageVerified r = true
  | Ok None => used = []
  | Throw e => e = VOLATILITY_OVERFLOW
  end.
Proof.
  intros Hr Hp. apply agg_reachable_ok in Hr as Hok.
  destruct (latest_outcome now a s Hok) as (b & Hb & Hout). cbn zeta in Hout.
  unfold budgetFor in Hb. rewrite Hp in Hb.
  destruct (budget_bounded p (volatilityOf (jm_get (toUpperCase a) (ag_previous s))))
    as (budget & Hbud & Hmin & Hmax & _);
    [by eapply ao_policy|by apply volatilityOf_ok|].
  rewrite Hbud in Hb. injection Hb as <-. exists budget. split; [done|]. split; [done|].
  intros used. rewrite (select_policy _ p) in Hout by done.
  change (List.filter _ (pricesOf (toUpperCase a) s)) with used in Hout.
  assert (∀ q, q ∈ used → isSuspicious s q = false ∧
    isFresh (np_observedAt q) now (num_of_double budget) = true) as Hused.
  { intros q Hq. apply list_elem_of_In, filter_In in Hq as [_ Hq].
    apply andb_true_iff in Hq as [? ?%negb_true_iff]. done. }
  split. { intros q Hq. destruct (Hused q Hq) as [? Hf]. split; [done|]. by eapply fresh_age. }
  destruct (getLatest now a s) as [s' [[r|]|e]]; simpl.
  - destruct Hout as (_ & Hu & anomaly & s1 & -> & _). split; [done|].
    unfold buildResult. rewrite (select_policy _ p) by done.
    change (List.filter _ (pricesOf (toUpperCase a) s)) with used.
    destruct (medianOnCommonScale used) as [m dec]. simpl. do 2 (split; [done|]). split_and!.
    + apply js_dedup_fix, nodup_filter_sources. by apply prices_sources_nodup.
    + unfold select. rewrite Hp. cbn [sel_stale]. rewrite is_nil_spec. apply bool_decide_eq_false.
      intros Hnil. apply Hu. subst used. unfold contributors, getSourcePricesForAsset.
      by rewrite <- filter_filter_and, Hnil.
    + unfold isAgeVerified. apply forallb_forall. intros q Hq%list_elem_of_In.
      destruct (Hused q Hq) as [_ Hf]. unfold isFresh in Hf. by destruct (np_observedAt q).
  - destruct Hout as [[Hnil _]|(_ & Hu & _)]; [|done]. subst used.
    unfold contributors, getSourcePricesForAsset. by rewrite Hnil.
  - by destruct Hout as (_ & _ & ->).
Qed.

(** ** Without a policy *)

(** without a freshness policy an asset with any price is served: stale prices
    are used, and flagged, only when no price is within the threshold, and
    suspicious sources only when no other source is left; the sole error is the
    overflow of the volatility. *)
Theorem legacy_serves s now a :
  agg_reachable s → ag_policy s = None →
  let prices := getSourcePricesForAsset a s in
  let fresh := getFreshSourcePricesForAsset now a s in
  let active := if is_nil fresh then prices else fresh in
  let trusted := List.filter (λ q, negb (isSuspicious s q)) active in
  let used := if is_nil trusted then active else trusted in
  match snd (getLatest now a s) with
  | Ok (Some r) => prices ≠ [] ∧
      ap_price r = bn_toString (medianOnCommonScale (BN := BN) used).1 ∧
      ap_decimals r = (medianOnCommonScale (BN := BN) used).2 ∧
      ap_stale r = is_nil fresh
  | Ok None => prices = []
  | Throw e => e = VOLATILITY_OVERFLOW
  end.
Proof.
  intros Hr Hp prices fresh active trusted used. apply agg_reachable_ok in Hr as Hok.
  destruct (latest_outcome now a s Hok) as (b & Hb & Hout). cbn zeta in Hout.
  unfold budgetFor in Hb. rewrite Hp in Hb. injection Hb as <-.
  assert (List.filter (λ p, num_ltb (NInt (now - np_timestamp p * 1000)) (NInt (ag_stalenessMs s)))
    prices = fresh) as Hfresh.
  { subst fresh. unfold getFreshSourcePricesForAsset. apply filter_ext. intros p. apply num_ltb_int. }
  assert (sel_use (select s now (NInt (ag_stalenessMs s)) prices) = used ∧
    sel_stale (select s now (NInt (ag_stalenessMs s)) prices) = is_nil fresh) as [Huse Hstale].
  { unfold select. rewrite Hp. cbn [sel_use sel_stale]. rewrite Hfresh, andb_true_r.
    fold active. fold trusted. subst used. by destruct (is_nil trusted). }
  change (pricesOf (toUpperCase a) s) with prices in Hout.
  destruct (getLatest now a s) as [s' [[r|]|e]]; simpl.
  - destruct Hout as (Hne & _ & anomaly & s1 & -> & _). split; [done|].
    unfold buildResult. rewrite Huse, Hstale. by destruct (medianOnCommonScale used).
  - destruct Hout as [[Hnil _]|(Hne & Hu & _)]; [done|]. exfalso. rewrite Huse in Hu.
    subst used. destruct trusted eqn:Ht; simpl in Hu; [|done]. subst active.
    by destruct fresh.
  - by destruct Hout as (_ & _ & ->).
Qed.

(** ** The degradation level *)

Lemma sources_at_most_four (l : list OracleSourceName) : NoDup l → (length l <= 4)%nat.
Proof.
  intros Hnd. change 4%nat with (length [chainlink; redstone; band; reflector]).
  apply submseteq_length, NoDup_submseteq; [done|]. intros x _. destruct x; set_solver.
Qed.

Definition level_of (used total : nat) (stale : bool) : DegradationLevel :=
  if stale || (2 * used <? total)%nat then critical
  else if (used <? total)%nat then degraded_level else healthy.

Lemma degradation_small used total stale :
  (0 < used <= total)%nat → (total <= 4)%nat →
  computeDegradationLevel (Z.of_nat used) (Z.of_nat total) stale = level_of used total stale.
Proof.
  intros Hu Ht. destruct stale; [done|].
  assert (used = 1 ∨ used = 2 ∨ used = 3 ∨ used = 4)%nat as Hus by lia.
  assert (total = 1 ∨ total = 2 ∨ total = 3 ∨ total = 4)%nat as Hts by lia.
  destruct_or!; subst; first [reflexivity|exfalso; lia].
Qed.

Lemma filter_length_le {A} (f : A → bool) l : (length (List.filter f l) <= length l)%nat.
Proof. induction l as [|x l IH]; simpl; [lia|]. destruct (f x); simpl; lia. Qed.

Lemma select_shape s now b prices :
  ∃ f, sel_use (select s now b prices) = List.filter f prices.
Proof.
  unfold select. cbn [sel_use].
  assert (prices = List.filter (λ _, true) prices) as Hall.
  { clear. induction prices as [|p prices IH]; simpl; [done|by f_equal]. }
  destruct (is_nil _ && _).
  - destruct (negb _); [by eauto|]. destruct (ag_policy s); [|by eauto].
    exists (λ _, false). clear. by induction prices.
  - rewrite filter_filter_and. destruct (negb _); [by eauto|]. destruct (ag_policy s); [|by eauto].
    exists (λ _, false). clear. by induction prices.
Qed.

(** the level published with a price is exact: healthy when every source of the
    asset contributed, critical when the price is stale or fewer than half of
    them did, degraded otherwise. *)
Theorem degradation_exact s now a s' r :
  agg_reachable s → getLatest now a s = (s', Ok (Some r)) →
  let total := length (getSourcePricesForAsset a s) in
  (0 < length (ap_sources r) <= total)%nat ∧ (total <= 4)%nat ∧
  ap_degradationLevel r = level_of (length (ap_sources r)) total (ap_stale r).
Proof.
  intros Hr Hget total. apply agg_reachable_ok in Hr as Hok.
  destruct (latest_outcome now a s Hok) as (b & _ & Hout). cbn zeta in Hout. rewrite Hget in Hout.
  destruct Hout as (_ & Hu & anomaly & s1 & -> & _).
  destruct (select_shape s now b (pricesOf (toUpperCase a) s)) as [f Hf].
  pose proof (prices_sources_nodup (toUpperCase a) s Hok) as Hnd.
  unfold buildResult. rewrite Hf in *. destruct (medianOnCommonScale _) as [m dec].
  cbn [ap_sources ap_degradationLevel ap_stale].
  rewrite js_dedup_fix by (by apply nodup_filter_sources). rewrite length_fmap.
  pose proof (filter_length_le f (pricesOf (toUpperCase a) s)).
  assert (0 < length (List.filter f (pricesOf (toUpperCase a) s)))%nat
    by (destruct (List.filter f _); [done|simpl; lia]).
  assert (total <= 4)%nat by (apply sources_at_most_four in Hnd; by rewrite length_fmap in Hnd).
  split; [done|]. split; [done|]. by apply degradation_small.
Qed.

(** ** Evidence *)

(** The part of a price the median depends on. *)
Definition quoted (q : NormalizedPrice) : Z * Z := (np_price q, np_decimals q).

Lemma commonDecimals_quoted ps ps' :
  quoted <$> ps = quoted <$> ps' → commonDecimals ps = commonDecimals ps'.
Proof.
  unfold commonDecimals. generalize 0. revert ps'.
  induction ps as [|q ps IH]; intros [|q' ps'] z; try done. intros [= Hq Hd Hps]. simpl. rewrite Hd. by apply IH.
Qed.

Lemma scaled_quoted D (ps ps' : list NormalizedPrice) :
  quoted <$> ps = quoted <$> ps' →
  ((λ p, toScale p D : BN) <$> ps) = ((λ p, toScale p D) <$> ps').
Proof.
  revert ps'. induction ps as [|q ps IH]; intros [|q' ps']; try done. intros [= Hq Hd Hps].
  rewrite !fmap_cons. f_equal; [unfold toScale; by rewrite Hq, Hd|by apply IH].
Qed.

Lemma median_quoted ps ps' :
  quoted <$> ps = quoted <$> ps' →
  medianOnCommonScale (BN := BN) ps = medianOnCommonScale ps'.
Proof.
  intros H. unfold medianOnCommonScale, scaledSorted.
  rewrite (commonDecimals_quoted _ _ H), (scaled_quoted _ _ _ H).
  by destruct ps, ps'.
Qed.

(** The figures an observation lists, as texts and scales. *)
Definition listed (ob : Observation) : string * Z := (ob_price ob, ob_decimals ob).
Definition listed_as (q : NormalizedPrice) : string * Z := (pretty (np_price q), np_decimals q).

Lemma listed_quoted (ps ps' : list NormalizedPrice) :
  listed_as <$> ps = listed_as <$> ps' → quoted <$> ps = quoted <$> ps'.
Proof.
  revert ps'. induction ps as [|q ps IH]; intros [|q' ps']; try done. intros [= Hq Hd Hps].
  apply (inj pretty) in Hq. rewrite !fmap_cons. f_equal; [unfold quoted; by rewrite Hq, Hd|by apply IH].
Qed.

Lemma filter_included (f : NormalizedPrice → bool) l :
  List.filter (λ q, bool_decide (q ∈ List.filter f l)) l = List.filter f l.
Proof.
  apply filter_ext_in. intros q Hq. destruct (f q) eqn:Hf.
  - apply bool_decide_eq_true. by apply list_elem_of_In, filter_In.
  - apply bool_decide_eq_false. intros [_ ?]%list_elem_of_In%filter_In. congruence.
Qed.

Lemma included_observations s sel r l :
  List.filter ob_included (observe (BN := BN) s sel r <$> l) =
  observe s sel r <$> List.filter (λ q, bool_decide (q ∈ sel_use sel)) l.
Proof.
  induction l as [|q l IH]; [done|]. rewrite fmap_cons. cbn [List.filter]. rewrite IH.
  change (ob_included (observe s sel r q)) with (bool_decide (q ∈ sel_use sel)).
  by destruct (bool_decide _).
Qed.

Lemma same_view_observe s1 s sel r q :
  same_view s1 s → observe (BN := BN) s1 sel r q = observe s sel r q.
Proof. intros (_ & Hb & _ & _). unfold observe, isSuspicious. by rewrite Hb. Qed.

(** What the bundle kept for a call says: one observation per source, the
    contributors marked as included. *)
Definition evidences (s : aggregator BN) (a : string) (o : option AggregatedPrice)
    (ev : AggregationEvidence) : Prop :=
  let c := ev_content ev in
  let included := List.filter ob_included (ev_observations c) in
  ev_id ev = evidence_id c ∧ ev_result c = o ∧
  ob_source <$> ev_observations c = np_source <$> getSourcePricesForAsset a s ∧
  qu_contributing (ev_quorum c) = Z.of_nat (length included) ∧
  qu_met (ev_quorum c) = negb (is_nil included) ∧
  match o with
  | Some r => ap_sources r = ob_source <$> included ∧
      ∀ ps, listed_as <$> ps = listed <$> included →
        ap_price r = bn_toString (medianOnCommonScale (BN := BN) ps).1 ∧
        ap_decimals r = (medianOnCommonScale (BN := BN) ps).2
  | None => included = []
  end.

Lemma capture_evidences s s1 now b v a o anomaly :
  agg_ok s → same_view s1 s →
  let n := toUpperCase a in
  let prices := pricesOf n s in
  let sel := select s now b prices in
  (o = None ∧ sel_use sel = [] ∨ o = Some (buildResult (BN := BN) n now prices sel anomaly)) →
  ∃ ev, getEvidence a (capture evidence_id n now b v prices sel o s1) = Some ev ∧ evidences s a o ev.
Proof.
  intros Hok Hsame n prices sel Ho. unfold getEvidence, capture. fold n.
  destruct (select_shape s now b prices) as [f Hf]. fold sel in Hf. clearbody sel.
  cbn [ag_evidence with_evidence]. rewrite jm_get_set_eq.
  eexists. split; [done|]. unfold evidences. cbn [ev_content ev_id ev_result ev_observations ev_quorum
    qu_contributing qu_met].
  assert (observe s1 sel o <$> prices = observe s sel o <$> prices) as Hobs.
  { apply list_fmap_ext. intros i q _. by apply same_view_observe. }
  rewrite !Hobs, included_observations.
  rewrite Hf, filter_included, <- Hf, !is_nil_spec.
  split; [done|]. split; [done|]. split; [by rewrite <- list_fmap_compose|].
  split; [by rewrite length_fmap|].
  split.
  { destruct (sel_use sel) as [|q l]; [done|]. rewrite bool_decide_false by done.
    apply Z.leb_le. simpl length. lia. }
  destruct Ho as [[-> Hu]| ->]; [by rewrite Hu|].
  unfold buildResult. destruct (medianOnCommonScale (sel_use sel)) as [m dec] eqn:Hm.
  cbn [ap_sources ap_price ap_decimals]. split.
  - rewrite <- list_fmap_compose. apply js_dedup_fix. rewrite Hf.
    by apply nodup_filter_sources, prices_sources_nodup.
  - intros ps Hps. rewrite <- list_fmap_compose in Hps.
    change (listed ∘ observe s sel _) with listed_as in Hps.
    rewrite (median_quoted ps (sel_use sel)) by (by apply listed_quoted). by rewrite Hm.
Qed.

(** C8: every call that looks at prices leaves an evidence bundle for its asset: it
    carries the result returned and lists every source once, and whoever
    recomputes the median of the observations it marks as included gets the
    price that was served. *)
Theorem evidence_reproduces s now a s' o :
  agg_reachable s → getSourcePricesForAsset a s ≠ [] →
  getLatest now a s = (s', Ok o) →
  ∃ ev, getEvidence a s' = Some ev ∧ evidences s a o ev.
Proof.
  intros Hr Hne Hget. apply agg_reachable_ok in Hr as Hok.
  destruct (latest_outcome now a s Hok) as (b & _ & Hout). cbn zeta in Hout. rewrite Hget in Hout.
  destruct o as [r|].
  - destruct Hout as (_ & _ & anomaly & s1 & Hr' & _ & Hsame & ->).
    apply (capture_evidences _ _ _ _ _ _ _ anomaly); [done..|]. right. by f_equal.
  - destruct Hout as [[Hnil _]|(_ & Hu & ->)]; [done|].
    apply (capture_evidences _ _ _ _ _ _ _ None); [done..|]. by left.
Qed.
End runs.

(** ** The interface can be met: rationals *)

Fixpoint pos_text (p : positive) : string :=
  match p with
  | xH => ""
  | xO p => String (Ascii.ascii_of_nat 48) (pos_text p)
  | xI p => String (Ascii.ascii_of_nat 49) (pos_text p)
  end.
Fixpoint text_pos (t : string) : positive :=
  match t with
  | EmptyString => xH
  | String c t => if bool_decide (c = Ascii.ascii_of_nat 48) then xO (text_pos t) else xI (text_pos t)
  end.

Lemma text_pos_text p : text_pos (pos_text p) = p.
Proof. by induction p as [p IH|p IH|]; simpl; rewrite ?IH. Qed.

#[export] Instance Q_text : BigNumberText Q := {
  bn_toString q := pos_text (encode (Qnum q, Qden q));
  bn_toFixed q := pos_text (encode (Qnum q, Qden q));
  bn_parse t := match decode (text_pos t) with Some (n, d) => Qmake n d | None => 0%Q end;
  bn_isFinite _ := true;
  bn_toDouble q := binary_normalize 53 1024 (Qfloor (q * inject_Z (2 ^ 64))) (-64) false;
}.

#[export] Instance Q_text_spec : BigNumberTextSpec Q.
Proof.
  split.
  - intros q. simpl. rewrite text_pos_text, decode_encode. by destruct q.
  - done.
  - intros q Hq. unfold bn_toDouble, Q_text. apply binary_normalize_nonneg.
    apply (Qfloor_resp_le 0). apply Qmult_le_0_compat; [done|]. unfold Qle. simpl. lia.
Defined.

(** Three sources, of which the first reports no observation time and the last
    an observation of long ago. *)
Definition demo_updates : list agg_op :=
  [ OpUpdate 1700000000000 1700000000000
      (mkPrice "XLM" 11000000 8 chainlink 1700000000 None (Some 1700000000));
    OpUpdate 1700000000000 1700000000000
      (mkPrice "XLM" 110500 6 redstone 1700000000 (Some 1700000000) None);
    OpUpdate 1700000000000 1700000000000
      (mkPrice "XLM" 111 3 band 1699990000 (Some 1699990000) None) ].

Definition demo_policy : FreshnessPolicy :=
  mkFreshness (double_of_Z 60000) (double_of_Z 5000) (double_of_Z 30000) (double_of_Z 1).

Definition demo_start (policy : option FreshnessPolicy) : aggregator Q :=
  mkAggregator jm_empty (newBreaker DEFAULT_BREAKER 0) jm_empty jm_empty policy 60000 newDetector.

Definition no_digest (_ : EvidenceContent) : string := "".

Definition demo (policy : option FreshnessPolicy) : aggregator Q :=
  run_agg_all squared no_text no_num no_digest demo_updates (demo_start policy).

Definition demo_latest (policy : option FreshnessPolicy) :=
  getLatestForAsset squared no_text no_num no_digest 1700000010000 "xlm" (demo policy).

Lemma demo_agg_reachable policy :
  policy = Some demo_policy ∨ policy = None →
  agg_reachable squared no_text no_num no_digest (demo policy).
Proof.
  intros H. exists DEFAULT_BREAKER, policy, 60000, 0, newDetector, (demo_start policy), demo_updates.
  split; [|done]. by destruct H as [-> | ->].
Qed.

Definition served_by (sources : list OracleSourceName) (r : result string (option AggregatedPrice))
    : bool :=
  match r with Ok (Some p) => bool_decide (ap_sources p = sources) | _ => false end.

(** Under the policy only the verified, recent source contributes. *)
Lemma policy_serving_witness :
  served_by [redstone] (snd (demo_latest (Some demo_policy))) = true ∧
  ∃ budget, double_leb (double_of_Z 5000) budget = true ∧ double_leb budget (double_of_Z 60000) = true ∧
    ∀ q, q ∈ contributors budget 1700000010000 "xlm" (demo (Some demo_policy)) →
      isSuspicious (demo (Some demo_policy)) q = false.
Proof.
  split; [vm_compute; reflexivity|].
  destruct (policy_serving squared no_text no_num no_digest (demo (Some demo_policy)) demo_policy
    1700000010000 "xlm" (demo_agg_reachable _ (or_introl eq_refl)) eq_refl) as (b & Hmin & Hmax & Hu & _).
  exists b. split; [exact Hmin|]. split; [exact Hmax|]. intros q Hq. by apply Hu.
Defined.

(** Without one, the sources within the threshold do. *)
Lemma legacy_serves_witness :
  served_by [chainlink; redstone] (snd (demo_latest None)) = true ∧
  ∀ r, snd (demo_latest None) = Ok (Some r) → ap_stale r = false.
Proof.
  split; [vm_compute; reflexivity|]. intros r Hr.
  pose proof (legacy_serves squared no_text no_num no_digest (demo None) 1700000010000 "xlm"
    (demo_agg_reachable _ (or_intror eq_refl)) eq_refl) as H. cbn zeta in H.
  change (getLatestForAsset squared no_text no_num no_digest 1700000010000 "xlm" (demo None))
    with (demo_latest None) in H. rewrite Hr in H.
  destruct H as (_ & _ & _ & ->). vm_compute. reflexivity.
Defined.

Lemma served_inv sources (out : aggregator Q * result string (option AggregatedPrice)) :
  served_by sources (snd out) = true →
  ∃ s' r, out = (s', Ok (Some r)) ∧ ap_sources r = sources.
Proof.
  destruct out as [s' [[r|]|e]]; simpl; try done. intros H. exists s', r. split; [done|].
  by apply bool_decide_eq_true in H.
Qed.

Lemma degradation_exact_witness :
  ∃ s' r, demo_latest None = (s', Ok (Some r)) ∧
    ap_degradationLevel r = level_of 2 (length (getSourcePricesForAsset "xlm" (demo None))) (ap_stale r).
Proof.
  destruct (served_inv [chainlink; redstone] (demo_latest None)) as (s' & r & H & Hs);
    [vm_compute; reflexivity|].
  exists s', r. split; [exact H|].
  destruct (degradation_exact squared no_text no_num no_digest (demo None) 1700000010000 "xlm" s' r
    (demo_agg_reachable _ (or_intror eq_refl)) H) as (_ & _ & Hl).
  rewrite Hl, Hs. reflexivity.
Defined.

Lemma evidence_reproduces_witness :
  ∃ s' r ev, demo_latest None = (s', Ok (Some r)) ∧ getEvidence "xlm" s' = Some ev ∧
    evidences no_digest (demo None) "xlm" (Some r) ev.
Proof.
  destruct (served_inv [chainlink; redstone] (demo_latest None)) as (s' & r & H & _);
    [vm_compute; reflexivity|].
  destruct (evidence_reproduces squared no_text no_num no_digest (demo None) 1700000010000 "xlm" s'
    (Some r) (demo_agg_reachable _ (or_intror eq_refl))) as (ev & Hev & Hdoc); [|exact H|].
  - intros Hnil%(f_equal length). vm_compute in Hnil. discriminate.
  - exists s', r, ev. split; [exact H|]. split; [exact Hev|exact Hdoc].
Defined.

(** Without a policy a timestamp ahead of the clock counts as fresh, however
    far ahead it is. *)
Example future_price_fresh :
  length (getFreshSourcePricesForAsset 0 "XLM" (demo None)) = 3%nat.
Proof. vm_compute. reflexivity. Qed.
