(* ===== verification/Budget.v ===== *)
(** * Daily call budgets

    Models the daily API budgets of
    [services/aggregator/src/infrastructure/cost-model.ts]: the call counters of
    the providers, their rollover at midnight UTC, the file they are persisted
    to and the budget state every fetch consults.

    The module's variables are the record [counters]; the persisted file is the
    field [file], [None] when it is missing or unreadable, and every operation
    that may write it takes the outcome of the write ([wr]).  The clock is an
    argument.

    The theorems: as long as calls are made only when the budget is not
    exhausted, no day sees more calls than the budget; a crash loses fewer than
    [PERSIST_EVERY_CALLS] calls as long as the writes succeed; the counters of
    another day are never charged to today. *)

From Stdlib Require Import ZArith QArith Lia.
From Stdlib Require Import SpecFloat.
From stdpp Require Import base tactics decidable numbers list sets strings.
From S2P Require Import Prelude JsMap JsNum.

Local Open Scope Z_scope.

Definition PERSIST_EVERY_CALLS : Z := 10.
Definition BUDGET_WARN_RATIO : double := double_0_8.
Definition BUDGET_EXHAUSTED_RATIO : double := double_of_Z 1.

Definition DEFAULT_DAILY_BUDGET_CALLS : jsmap string double :=
  [("chainlink", double_of_Z 10000); ("redstone", double_of_Z 10000);
   ("band", double_of_Z 10000); ("reflector", double_of_Z 10000)].

(** The loop over [dailyBudgetCalls] of [loadBudgetsFromConfig]; [None] for a
    value that is not a number. *)
Definition loadBudgets (budgets : list (string * option double)) : jsmap string double :=
  fold_left (λ effective '(source, budget),
    match budget with
    | Some b => if double_leb double_0 b then jm_set (toLowerCase source) b effective else effective
    | None => effective
    end) budgets DEFAULT_DAILY_BUDGET_CALLS.

(** [applyEnvBudgetOverrides]: [env] is [process.env], [parseInt] reads base ten. *)
Definition applyEnvBudgetOverrides (env : string → option string) (parseInt : string → option Z)
    (target : jsmap string double) : jsmap string double :=
  fold_left (λ t source,
    match env ("ORACLE_BUDGET_DAILY_CALLS_" +:+ toUpperCase source) with
    | Some raw =>
        if bool_decide (raw = "") then t
        else match parseInt raw with
             | Some n => if 0 <=? n then jm_set source (double_of_Z n) t else t
             | None => t
             end
    | None => t
    end) (jm_keys target) target.

Record counters : Type := mkCounters {
  dailyCounts : jsmap string Z;
  lastResetDate : string;
  callsSincePersist : Z;
  file : option (string * jsmap string Z);
}.

(** [new Date(at).toISOString().slice(0, 10)] *)
Definition utcDateStamp (at_ : Z) : string := String.substring 0 10 (toISOString at_).

Arguments utcDateStamp : simpl never.
#[global] Strategy 1000 [utcDateStamp].

Definition persistDailyCounts (wr : bool) (c : counters) : counters :=
  if wr
  then mkCounters (dailyCounts c) (lastResetDate c) (callsSincePersist c)
         (Some (lastResetDate c, dailyCounts c))
  else c.

(** [loadPersistedDailyCounts]; the counts written by this module are finite
    and non-negative numbers under lower-case keys, which the code checks again. *)
Definition loadPersistedDailyCounts (now : Z) (c : counters) : counters :=
  match file c with
  | Some (date, counts) =>
      if bool_decide (date = utcDateStamp now) then
        mkCounters
          (fold_left (λ m '(source, count),
             if 0 <=? count then jm_set (toLowerCase source) count m else m) counts (dailyCounts c))
          (lastResetDate c) (callsSincePersist c) (file c)
      else c
  | None => c
  end.

(** The module as it is loaded. *)
Definition startCounters (now : Z) (f : option (string * jsmap string Z)) : counters :=
  loadPersistedDailyCounts now (mkCounters jm_empty (utcDateStamp now) 0 f).

Definition maybeReset (now : Z) (wr : bool) (c : counters) : counters :=
  let today := utcDateStamp now in
  if bool_decide (today = lastResetDate c) then c
  else persistDailyCounts wr (mkCounters jm_empty today (callsSincePersist c) (file c)).

Definition countOf (key : string) (c : counters) : Z := default 0 (jm_get key (dailyCounts c)).

Definition recordCall (now : Z) (wr : bool) (source : string) (c0 : counters) : counters :=
  let c := maybeReset now wr c0 in
  let key := toLowerCase source in
  let counts := jm_set key (countOf key c + 1) (dailyCounts c) in
  let k := callsSincePersist c + 1 in
  if PERSIST_EVERY_CALLS <=? k
  then persistDailyCounts wr (mkCounters counts (lastResetDate c) 0 (file c))
  else mkCounters counts (lastResetDate c) k (file c).

Inductive BudgetState : Type := budget_ok | budget_warn | budget_exhausted.
#[export] Instance BudgetState_eq_dec : EqDecision BudgetState.
Proof. solve_decision. Defined.

Record BudgetStatus : Type := mkBudgetStatus {
  bs_dailyCalls : Z;
  bs_budget : double;
  bs_utilization : double;
  bs_state : BudgetState;
}.

Section budgets.
Variable DAILY_BUDGET_CALLS : jsmap string double.

(** [getBudgetStatus] on counters that have been rolled over. *)
Definition budgetStatus (source : string) (c : counters) : BudgetStatus :=
  let key := toLowerCase source in
  let budget := default double_0 (jm_get key DAILY_BUDGET_CALLS) in
  let dailyCalls := countOf key c in
  let positive := double_ltb double_0 budget in
  let utilization := if positive then double_div (double_of_Z dailyCalls) budget else double_0 in
  let state :=
    if positive && double_leb BUDGET_EXHAUSTED_RATIO utilization then budget_exhausted
    else if positive && double_leb BUDGET_WARN_RATIO utilization then budget_warn
    else budget_ok in
  mkBudgetStatus dailyCalls budget utilization state.

Definition getBudgetStatus (now : Z) (wr : bool) (source : string) (c : counters)
    : counters * BudgetStatus :=
  let c' := maybeReset now wr c in (c', budgetStatus source c').

(** [isBudgetBlocked] of [oracle-sources/base.ts]. *)
Definition isBudgetBlocked (now : Z) (wr : bool) (source : string) (c : counters)
    : counters * bool :=
  let '(c', st) := getBudgetStatus now wr source c in
  (c', bool_decide (bs_state st = budget_exhausted)).

Definition getBudgetUtilization (now : Z) (wr : bool) (source : string) (c : counters)
    : counters * double :=
  let c' := maybeReset now wr c in
  let key := toLowerCase source in
  match jm_get key DAILY_BUDGET_CALLS with
  | Some budget =>
      if double_eqb budget double_0 then (c', double_0)
      else (c', double_div (double_of_Z (countOf key c')) budget)
  | None => (c', double_0)
  end.

Definition getDailyCount (now : Z) (wr : bool) (source : string) (c : counters) : counters * Z :=
  let c' := maybeReset now wr c in (c', countOf (toLowerCase source) c').

(** [getBudgetStatuses]; all the calls read the clock at [now]. *)
Definition getBudgetStatuses (now : Z) (wr : bool) (c : counters)
    : counters * list (string * BudgetStatus) :=
  let c' := maybeReset now wr c in
  (c', (λ source, (source, budgetStatus source c')) <$> jm_keys DAILY_BUDGET_CALLS).

Definition resetDailyCounts (now : Z) (c : counters) : counters :=
  mkCounters jm_empty (utcDateStamp now) 0 (file c).

Definition flushDailyCounts (wr : bool) (c : counters) : counters := persistDailyCounts wr c.

Definition reloadPersistedCounts (now : Z) (c : counters) : counters :=
  loadPersistedDailyCounts now
    (mkCounters jm_empty (lastResetDate c) (callsSincePersist c) (file c)).

(** A call as a source makes it: the budget is consulted, and the call recorded
    when it is not exhausted.  The code does both before it awaits anything, so
    no other call comes in between. *)
Definition tryCall (now : Z) (wr : bool) (source : string) (c0 : counters) : counters * bool :=
  let '(c, blocked) := isBudgetBlocked now wr source c0 in
  if blocked then (c, false) else (recordCall now wr source c, true).
End budgets.

(** ** Dividing a double by itself *)

Lemma double_self_div x : double_pos_finite x = true → double_div x x = double_of_Z 1.
Proof.
  destruct x as [s|s| |[] m e]; simpl; try done. intros _.
  unfold double_div, SFdiv, SFdiv_core_binary.
  replace (Zdigits2 (Z.pos m) + e - (Zdigits2 (Z.pos m) + e)) with 0 by lia.
  replace (e - e) with 0 by lia.
  change (0 - Z.min (fexp 53 1024 0) 0) with 53. cbn iota.
  assert (Z.div_eucl (Z.shiftl (Z.pos m) 53) (Z.pos m) = (2 ^ 53, 0)) as ->.
  { rewrite Z.shiftl_mul_pow2 by lia.
    pose proof (Z_div_mod_eq_full (Z.pos m * 2 ^ 53) (Z.pos m)) as H.
    pose proof (Z.mod_mul (2 ^ 53) (Z.pos m) ltac:(lia)) as Hm.
    pose proof (Z.div_mul (2 ^ 53) (Z.pos m) ltac:(lia)) as Hd.
    rewrite (Z.mul_comm (2 ^ 53)) in Hm, Hd. unfold Z.div, Z.modulo in *.
    destruct (Z.div_eucl (Z.pos m * 2 ^ 53) (Z.pos m)) as [q r]. by subst. }
  assert (new_location (Z.pos m) 0 = loc_Exact) as ->.
  { unfold new_location. by destruct (Z.even _). }
  vm_compute. reflexivity.
Qed.

(** ** The budget is respected *)

Section respected.
Variable budgets : jsmap string double.

(** Calls attempted one after the other: instant, outcome of the write, source. *)
Fixpoint tryCalls (calls : list (Z * bool * string)) (c : counters) : counters * list (string * bool) :=
  match calls with
  | [] => (c, [])
  | (now, wr, source) :: calls' =>
      let '(c1, made) := tryCall budgets now wr source c in
      let '(c2, rest) := tryCalls calls' c1 in
      (c2, (toLowerCase source, made) :: rest)
  end.

(** The calls of a provider that were made. *)
Definition callsMade (key : string) (outcomes : list (string * bool)) : Z :=
  Z.of_nat (length (filter (λ '(k, made), k = key ∧ made = true) outcomes)).

(** What counts against today's budget. *)
Definition chargedToday (today key : string) (c : counters) : Z :=
  if bool_decide (lastResetDate c = today) then countOf key c else 0.

Lemma maybeReset_charged now wr c key :
  lastResetDate (maybeReset now wr c) = utcDateStamp now ∧
  countOf key (maybeReset now wr c) = chargedToday (utcDateStamp now) key c.
Proof.
  unfold maybeReset, chargedToday. destruct (bool_decide_reflect (utcDateStamp now = lastResetDate c)).
  - rewrite bool_decide_true by done. done.
  - rewrite (bool_decide_false (lastResetDate c = _)) by congruence. by destruct wr.
Qed.

Lemma maybeReset_idemp now wr c : maybeReset now wr (maybeReset now wr c) = maybeReset now wr c.
Proof.
  unfold maybeReset at 1. destruct (maybeReset_charged now wr c "") as [Hd _].
  by rewrite Hd, bool_decide_true.
Qed.

Lemma recordCall_counts now wr source c key :
  lastResetDate (recordCall now wr source c) = utcDateStamp now ∧
  countOf key (recordCall now wr source c) =
    chargedToday (utcDateStamp now) key c + (if bool_decide (key = toLowerCase source) then 1 else 0).
Proof.
  destruct (maybeReset_charged now wr c key) as [Hd Hk].
  unfold recordCall. set (c1 := maybeReset now wr c) in *.
  assert (∀ l, countOf key (mkCounters (jm_set (toLowerCase source)
    (countOf (toLowerCase source) c1 + 1) (dailyCounts c1)) (lastResetDate c1) l (file c1)) =
    chargedToday (utcDateStamp now) key c + (if bool_decide (key = toLowerCase source) then 1 else 0)) as Hc.
  { intros l. unfold countOf at 1. cbn [dailyCounts]. rewrite <- Hk. case_bool_decide as Hkey.
    - rewrite Hkey, jm_get_set_eq. done.
    - rewrite jm_get_set_ne by done. unfold countOf. lia. }
  destruct (_ <=? _); [destruct wr|]; (split; [exact Hd|]); apply Hc.
Qed.

Lemma exhausted_at_budget key b source c :
  jm_get key budgets = Some (double_of_Z b) → double_pos_finite (double_of_Z b) = true →
  toLowerCase source = key → countOf key c = b →
  bs_state (budgetStatus budgets source c) = budget_exhausted.
Proof.
  intros Hb Hpos <- Hc. unfold budgetStatus. rewrite Hb, Hc.
  change (default double_0 (Some (double_of_Z b))) with (double_of_Z b). cbn [bs_state].
  assert (double_ltb double_0 (double_of_Z b) = true) as ->.
  { destruct (double_of_Z b) as [s|s| |[] m e]; try done. unfold double_ltb. simpl.
    apply negb_true_iff. destruct (Qle_bool _ 0) eqn:E; [|done]. apply Qle_bool_iff in E. exfalso.
    pose proof (Qpower.Qpower_0_lt (inject_Z 2) e ltac:(reflexivity)) as Hp.
    assert (0 < inject_Z (Z.pos m) * Qpower (inject_Z 2) e)%Q.
    { apply Qmult_lt_0_compat; [unfold Qlt; simpl; lia|done]. }
    by apply (Qlt_not_le _ _ H). }
  rewrite double_self_div by done. reflexivity.
Qed.

(** no day sees more calls to a provider than its budget: whatever else is
    called in between, the calls made to it on one UTC day together with those
    already counted never exceed the configured number. *)
Theorem budget_respected key b today calls c :
  jm_get key budgets = Some (double_of_Z b) → double_pos_finite (double_of_Z b) = true →
  Forall (λ '(now, _, _), utcDateStamp now = today) calls →
  chargedToday today key c <= b →
  chargedToday today key c + callsMade key (snd (tryCalls calls c)) <= b.
Proof.
  intros Hb Hpos Hday. revert c. induction Hday as [|[[now wr] source] calls Hnow Hday IH];
    intros c Hc; simpl.
  { unfold callsMade. simpl. lia. }
  unfold tryCall, isBudgetBlocked, getBudgetStatus.
  destruct (maybeReset_charged now wr c key) as [Hd1 Hk1]. rewrite Hnow in Hd1, Hk1.
  set (c1 := maybeReset now wr c) in *.
  assert (chargedToday today key c1 = chargedToday today key c) as Hc1.
  { unfold chargedToday at 1. by rewrite Hd1, bool_decide_true, Hk1. }
  destruct (bool_decide_reflect (bs_state (budgetStatus budgets source c1) = budget_exhausted))
    as [Hex|Hex].
  - specialize (IH c1). destruct (tryCalls calls c1) as [c2 rest]. cbn [snd] in *.
    unfold callsMade in *. rewrite filter_cons_False by (by intros [_ ?]). lia.
  - destruct (recordCall_counts now wr source c1 key) as [Hd2 Hk2]. rewrite Hnow in Hd2, Hk2.
    set (c2 := recordCall now wr source c1) in *.
    assert (chargedToday today key c2 = chargedToday today key c +
      (if bool_decide (key = toLowerCase source) then 1 else 0)) as Hc2.
    { unfold chargedToday at 1. rewrite Hd2, bool_decide_true by done. lia. }
    assert (chargedToday today key c2 <= b) as Hle.
    { rewrite Hc2. case_bool_decide as Hkey; [|lia].
      destruct (decide (chargedToday today key c = b)) as [Heq|]; [|lia]. exfalso. apply Hex.
      apply (exhausted_at_budget key b); [done..|]. by rewrite Hk1. }
    specialize (IH c2 Hle). clearbody c1 c2.
    destruct (tryCalls calls c2) as [c3 rest]. cbn [snd] in *.
    unfold callsMade in *. rewrite filter_cons.
    destruct (decide _) as [[Hk _]|Hk]; cbn [length].
    + rewrite bool_decide_true in Hc2 by done. lia.
    + rewrite bool_decide_false in Hc2; [lia|]. intros ->. by apply Hk.
Qed.

(** A budget of 0 is no budget: the provider is never blocked. *)
Theorem zero_budget_unlimited now wr source c :
  jm_get (toLowerCase source) budgets = Some double_0 →
  snd (isBudgetBlocked budgets now wr source c) = false.
Proof.
  intros Hb. unfold isBudgetBlocked, getBudgetStatus, budgetStatus. rewrite Hb. reflexivity.
Qed.
End respected.

(** ** What a crash loses *)

(** Counters under lower-case keys, as this module writes them. *)
Record counts_ok (m : jsmap string Z) : Prop := {
  co_wf : jm_wf m;
  co_lower k v : (k, v) ∈ m → toLowerCase k = k ∧ 0 <= v;
}.

Definition loadCounts (counts m0 : jsmap string Z) : jsmap string Z :=
  fold_left (λ m '(source, count),
    if 0 <=? count then jm_set (toLowerCase source) count m else m) counts m0.

Lemma loadCounts_get counts m0 k :
  counts_ok counts →
  jm_get k (loadCounts counts m0) =
    match jm_get k counts with Some v => Some v | None => jm_get k m0 end.
Proof.
  unfold loadCounts. revert m0. induction counts as [|[k0 v0] counts IH]; intros m0 [Hwf Hl]; [done|].
  destruct (Hl k0 v0 ltac:(by left)) as [Hk0 Hv0]. cbn [fold_left].
  rewrite (proj2 (Z.leb_le 0 v0) Hv0), Hk0.
  apply NoDup_cons in Hwf as [Hnin Hwf]. rewrite IH by (split; [done|]; intros; apply Hl; by right).
  simpl. destruct (decide (k0 = k)) as [->|Hne].
  - destruct (jm_get k counts) as [v|] eqn:E.
    + exfalso. apply Hnin. apply jm_get_elem in E. by apply (list_elem_of_fmap_2 fst) in E.
    + by rewrite jm_get_set_eq.
  - destruct (jm_get k counts); [done|]. by rewrite jm_get_set_ne.
Qed.

Lemma counts_ok_set key v m :
  toLowerCase key = key → 0 <= v → counts_ok m → counts_ok (jm_set key v m).
Proof.
  intros Hk Hv [Hwf Hl]. split; [by apply jm_wf_set|].
  intros k' v' [[= -> ->]|Hin]%jm_elem_set; eauto.
Qed.

Lemma counts_ok_load counts m0 : counts_ok m0 → counts_ok (loadCounts counts m0).
Proof.
  unfold loadCounts. revert m0. induction counts as [|[k v] counts IH]; intros m0 Hok; [done|].
  cbn [fold_left]. destruct (Z.leb_spec 0 v); [|by apply IH].
  apply IH, counts_ok_set; [apply toLowerCase_idemp|done..].
Qed.

(** The counts a process that starts now reads from the file. *)
Definition afterRestart (now : Z) (key : string) (c : counters) : Z :=
  countOf key (startCounters now (file c)).

Lemma afterRestart_spec now key c :
  afterRestart now key c =
    match file c with
    | Some (date, counts) =>
        if bool_decide (date = utcDateStamp now)
        then default 0 (jm_get key (loadCounts counts jm_empty)) else 0
    | None => 0
    end.
Proof.
  unfold afterRestart, startCounters, loadPersistedDailyCounts. cbn [file].
  destruct (file c) as [[date counts]|]; [|done]. by destruct (bool_decide _).
Qed.

(** What holds of the counters as long as every write succeeds. *)
Record counters_ok (c : counters) : Prop := {
  ct_counts : counts_ok (dailyCounts c);
  ct_since : 0 <= callsSincePersist c < PERSIST_EVERY_CALLS;
  ct_drift now key : utcDateStamp now = lastResetDate c →
    countOf key c <= afterRestart now key c + callsSincePersist c;
}.

Lemma afterRestart_persisted m d k t key now :
  counts_ok m → utcDateStamp now = d →
  afterRestart now key (mkCounters t d k (Some (d, m))) = default 0 (jm_get key m).
Proof.
  intros Hm Hd. rewrite afterRestart_spec. cbn [file]. rewrite bool_decide_true by done.
  rewrite loadCounts_get by done. by destruct (jm_get key m).
Qed.

Lemma counts_ok_empty : counts_ok jm_empty.
Proof. split; [apply jm_wf_empty|]. by intros ?? ?%not_elem_of_nil. Qed.

Lemma startCounters_ok now f : counters_ok (startCounters now f).
Proof.
  assert (∀ key t, utcDateStamp t = utcDateStamp now →
    afterRestart t key (startCounters now f) = countOf key (startCounters now f)) as Hsame.
  { intros key t Ht. unfold afterRestart.
    assert (file (startCounters now f) = f) as ->.
    { unfold startCounters, loadPersistedDailyCounts. cbn [file].
      destruct f as [[d m]|]; [|done]. by destruct (bool_decide _). }
    unfold startCounters, loadPersistedDailyCounts. cbn [file]. by rewrite Ht. }
  assert (lastResetDate (startCounters now f) = utcDateStamp now ∧
    callsSincePersist (startCounters now f) = 0 ∧ counts_ok (dailyCounts (startCounters now f)))
    as (Hd & Hs & Hc).
  { unfold startCounters, loadPersistedDailyCounts. cbn [file].
    destruct f as [[d m]|]; [destruct (bool_decide _)|]; (split; [done|]); (split; [done|]);
      [by apply (counts_ok_load m), counts_ok_empty|apply counts_ok_empty..]. }
  split; [done|rewrite Hs; done|]. intros t key Ht. rewrite Hd in Ht. rewrite Hsame by done. lia.
Qed.

Lemma maybeReset_ok now c : counters_ok c → counters_ok (maybeReset now true c).
Proof.
  intros [Hc Hs Hdr]. unfold maybeReset. destruct (bool_decide_reflect (utcDateStamp now = lastResetDate c)); [by split|].
  split; [apply counts_ok_empty|done|]. intros t key Ht. simpl in Ht.
  unfold persistDailyCounts. cbn [dailyCounts lastResetDate callsSincePersist file].
  rewrite afterRestart_persisted; [|apply counts_ok_empty|done]. unfold countOf. simpl. lia.
Qed.

Lemma recordCall_ok now source c : counters_ok c → counters_ok (recordCall now true source c).
Proof.
  intros Hok%(maybeReset_ok now). unfold recordCall. set (c1 := maybeReset now true c) in *.
  clearbody c1.
  destruct Hok as [Hc Hs Hdr].
  assert (0 <= countOf (toLowerCase source) c1).
  { unfold countOf. destruct (jm_get _ _) as [v|] eqn:E; simpl; [|lia].
    apply jm_get_elem in E. by apply (co_lower _ Hc) in E as [_ ?]. }
  assert (counts_ok (jm_set (toLowerCase source) (countOf (toLowerCase source) c1 + 1) (dailyCounts c1)))
    as Hc'. { apply counts_ok_set; [apply toLowerCase_idemp|lia|done]. }
  destruct (Z.leb_spec PERSIST_EVERY_CALLS (callsSincePersist c1 + 1)) as [Hge|Hlt].
  - split; [done|done|]. intros t key Ht. simpl in Ht.
    unfold persistDailyCounts. cbn [dailyCounts lastResetDate callsSincePersist file].
    rewrite afterRestart_persisted by done. unfold countOf. cbn [dailyCounts]. lia.
  - split; [done|simpl; lia|]. intros t key Ht. simpl in Ht. specialize (Hdr t key Ht).
    unfold afterRestart in *. cbn [file callsSincePersist]. unfold countOf at 1. cbn [dailyCounts].
    destruct (decide (key = toLowerCase source)) as [->|Hne].
    + rewrite jm_get_set_eq. simpl. lia.
    + rewrite jm_get_set_ne by done. fold (countOf key c1). lia.
Qed.

Definition recordCalls (calls : list (Z * string)) (c : counters) : counters :=
  fold_left (λ c call, recordCall call.1 true call.2 c) calls c.

Lemma fold_left_inv {A B} (I : A → Prop) (f : A → B → A) l a :
  (∀ a b, I a → I (f a b)) → I a → I (fold_left f l a).
Proof. intros Hf. revert a. induction l as [|b l IH]; intros a Ha; simpl; auto. Qed.

Lemma recordCalls_ok calls c : counters_ok c → counters_ok (recordCalls calls c).
Proof. unfold recordCalls. apply fold_left_inv. intros c' call. apply recordCall_ok. Qed.

(** as long as the writes succeed, a process killed at any moment loses fewer
    than ten recorded calls of the day for any provider. *)
Theorem crash_loses_few start f calls now key :
  let c := recordCalls calls (startCounters start f) in
  utcDateStamp now = lastResetDate c →
  countOf key c - afterRestart now key c < PERSIST_EVERY_CALLS.
Proof.
  intros c Hd. assert (counters_ok c) as Hok by apply recordCalls_ok, startCounters_ok.
  clearbody c. pose proof (ct_drift _ Hok now key Hd). pose proof (ct_since _ Hok). lia.
Qed.

(** ** Concrete runs *)

Definition noon : Z := 1700049600000.
Definition tiny_budget : jsmap string double := [("band", double_of_Z 2)].
Definition burst : list (Z * bool * string) :=
  [(noon, true, "band"); (noon + 1, true, "Band"); (noon + 2, false, "band"); (noon + 3, true, "redstone")].

Lemma budget_respected_witness :
  snd (tryCalls tiny_budget burst (startCounters noon None)) =
    [("band", true); ("band", true); ("band", false); ("redstone", true)] ∧
  chargedToday "2023-11-15" "band" (startCounters noon None) +
    callsMade "band" (snd (tryCalls tiny_budget burst (startCounters noon None))) <= 2.
Proof.
  split; [vm_compute; reflexivity|].
  apply (budget_respected tiny_budget "band" 2 "2023-11-15" burst (startCounters noon None)).
  - reflexivity.
  - reflexivity.
  - repeat constructor; vm_compute; reflexivity.
  - vm_compute. discriminate.
Defined.

Lemma zero_budget_unlimited_witness :
  snd (isBudgetBlocked [("band", double_0)] noon true "band"
         (mkCounters [("band", 1000000)] "2023-11-15" 0 None)) = false.
Proof. apply (zero_budget_unlimited [("band", double_0)]). reflexivity. Defined.

Definition fourteen_calls : list (Z * string) := replicate 14 (noon, "band").

Lemma crash_loses_few_witness :
  let c := recordCalls fourteen_calls (startCounters noon None) in
  countOf "band" c = 14 ∧ afterRestart noon "band" c = 10 ∧
  countOf "band" c - afterRestart noon "band" c < PERSIST_EVERY_CALLS.
Proof.
  split; [vm_compute; reflexivity|]. split; [vm_compute; reflexivity|].
  apply (crash_loses_few noon None fourteen_calls noon "band"). vm_compute. reflexivity.
Defined.
