(* ===== verification/SourceFetch.v ===== *)
(** * Oracle source adapters

    Models [services/aggregator/src/oracle-sources/]: the validation of provider
    payloads ([response-validation.ts], [decimals.ts]), the classification of
    transport errors ([provider-errors.ts]), the capability registry
    ([capabilities.ts]) and the fetch path every adapter shares ([base.ts] and
    the four adapters), with the breaker of the file SourceBreaker and the
    budgets of the file Budget it consults.

    A payload is a JSON value; the schemas, written in the source with the
    package [zod], are the functions that accept and read it, and the texts of
    the schema errors are an argument.  The provider's answer to every attempt
    is an input, as are the instants at which an attempt starts and ends: the
    clock reads inside one synchronous stretch of code give the same instant.
    Metrics, log lines, the evidence archive and the alerter are left out. *)

From Stdlib Require Import ZArith QArith Qabs Qround Qpower Lia Lqa.
From Stdlib Require Import SpecFloat.
From stdpp Require Import base tactics decidable numbers pretty list sets strings.
From S2P Require Import Prelude JsMap JsNum Json Median CircuitBreaker SourceBreaker Anomaly Aggregator Budget.

Local Open Scope Z_scope.

(** ** Payloads *)

(** A quoted price: a text or a number. *)
Inductive price_value : Type := PText (s : string) | PNum (n : number).

Inductive ProviderFetchResult : Type :=
| FOk (price : price_value) (decimals : Z) (observedAt : option Z)
| FNoPrice (reason : string)
| FInvalid (reason issues : string).

Definition MIN_DECIMALS : Z := 0.
Definition MAX_DECIMALS : Z := 18.

(** The integer a number is, if it is one. *)
Definition int_of (n : number) : option Z :=
  match n with
  | NFin q => if Qeq_bool q (inject_Z (Qfloor q)) then Some (Qfloor q) else None
  | _ => None
  end.

(** ** [decimals.ts] *)

Inductive DecimalsReason : Type := decimals_missing | decimals_malformed | decimals_out_of_range.
Inductive DecimalsPolicy : Type := reported | fixed (value : number).

Definition SOURCE_DECIMALS (source : OracleSourceName) : DecimalsPolicy :=
  match source with chainlink => fixed (NInt 8) | _ => reported end.

Definition assertInRange (decimals : number) : result DecimalsReason Z :=
  match int_of decimals with
  | None => Throw decimals_malformed
  | Some d => if (d <? MIN_DECIMALS) || (MAX_DECIMALS <? d) then Throw decimals_out_of_range
              else Ok d
  end.

(** [resolveDecimals]; [None] for an absent field. *)
Definition resolveDecimals (source : OracleSourceName) (value : option json)
    : result DecimalsReason Z :=
  match SOURCE_DECIMALS source with
  | fixed v => assertInRange v
  | reported =>
      match value with
      | None | Some JNull => Throw decimals_missing
      | Some (JNum n) => assertInRange n
      | Some _ => Throw decimals_malformed
      end
  end.

(** ** The schemas of [response-validation.ts] *)

(** What a schema keeps of a quote. *)
Record quote : Type := mkQuote {
  qt_price : price_value;
  qt_decimals : option Z;
  qt_time : option Z;
}.

Inductive envelope : Type :=
| EPrice (price : price_value)
| EData (data : option quote)
| EMap (prices : option (jsmap string (option quote))).

Section validation.
Variable toNum : string → number.                          (* Number(text) *)
Variable numToString : number → string.                     (* String(number) *)
Variable schema_issues : OracleSourceName → json → string.  (* the issues zod reports *)

Definition priceField (j : json) : option price_value :=
  match j with
  | JNum n => if is_finite n then Some (PNum n) else None
  | JStr s => if negb (is_blank s) && is_finite (toNum s) then Some (PText s) else None
  | _ => None
  end.

Definition decimalsField (j : json) : option Z :=
  match j with
  | JNum n => match int_of n with
              | Some d => if (MIN_DECIMALS <=? d) && (d <=? MAX_DECIMALS) then Some d else None
              | None => None
              end
  | _ => None
  end.

Definition timestampSeconds (j : json) : option Z :=
  match j with
  | JNum n => match int_of n with
              | Some t => if 0 <=? t then Some t else None
              | None => None
              end
  | _ => None
  end.

(** [schema.optional()] on a field that may be absent. *)
Definition optionalField (schema : json → option Z) (j : option json) : option (option Z) :=
  match j with
  | None => Some None
  | Some j => match schema j with Some v => Some (Some v) | None => None end
  end.

(** An object schema with a price, an optional scale and an optional time. *)
Definition quoteObject (price : string) (time : option string) (j : json) : option quote :=
  match j with
  | JObj fs =>
      match jm_get price fs ≫= priceField,
            optionalField decimalsField (jm_get "decimals" fs),
            match time with
            | Some f => optionalField timestampSeconds (jm_get f fs)
            | None => Some None
            end with
      | Some p, Some d, Some t => Some (mkQuote p d t)
      | _, _, _ => None
      end
  | _ => None
  end.

(** [schema.nullable()] *)
Definition nullable (schema : json → option quote) (j : json) : option (option quote) :=
  match j with JNull => Some None | _ => Some <$> schema j end.

(** [z.record(z.string(), schema)] *)
Fixpoint recordOf (schema : json → option (option quote)) (fs : jsmap string json)
    : option (jsmap string (option quote)) :=
  match fs with
  | [] => Some []
  | (k, j) :: fs' =>
      match schema j, recordOf schema fs' with
      | Some v, Some rest => Some ((k, v) :: rest)
      | _, _ => None
      end
  end.

Definition quoteMap (schema : json → option quote) (j : json) : option envelope :=
  match j with
  | JNull => Some (EMap None)
  | JObj fs => (λ m, EMap (Some m)) <$> recordOf (nullable schema) fs
  | _ => None
  end.

Definition SCHEMAS (schema : OracleSourceName) (payload : json) : option envelope :=
  match schema with
  | chainlink =>
      match payload with
      | JObj fs => match jm_get "USD" fs with
                   | Some (JObj usd) => EPrice <$> (jm_get "PRICE" usd ≫= priceField)
                   | _ => None
                   end
      | _ => None
      end
  | redstone => quoteMap (quoteObject "value" None) payload
  | band =>
      match payload with
      | JObj fs => match jm_get "data" fs with
                   | Some d => EData <$> nullable (quoteObject "price" (Some "updated_at")) d
                   | None => None
                   end
      | _ => None
      end
  | reflector =>
      match payload with
      | JObj fs => jm_get "prices" fs ≫= quoteMap (quoteObject "price" (Some "timestamp"))
      | _ => None
      end
  end.

Definition toFiniteNumber (v : price_value) : option number :=
  let parsed := match v with PNum n => n | PText s => toNum s end in
  if is_finite parsed then Some parsed else None.

Definition priceText (v : price_value) : string :=
  match v with PText s => s | PNum n => numToString n end.

(** The tail every schema shares: a price that cannot be used is an invalid
    payload, another is returned with its scale and time. *)
Definition usable (schema : OracleSourceName) (asset label : string) (v : price_value)
    (decimals : Z) (observedAt : option Z) : ProviderFetchResult :=
  let bad := FInvalid (source_name schema +:+ " returned a non-positive or non-finite price for "
                         +:+ asset) (label +:+ "=" +:+ priceText v) in
  match toFiniteNumber v with
  | None => bad
  | Some n => if num_leb n (NInt 0) then bad else FOk v decimals observedAt
  end.

(** The entry of an asset in a map of quotes; [None] when it is absent or null. *)
Definition entryOf (key : string) (m : jsmap string (option quote)) : option quote :=
  match jm_get key m with Some (Some q) => Some q | _ => None end.

Definition parseProviderResponse (schema : OracleSourceName) (payload : json) (asset : string)
    : ProviderFetchResult :=
  match SCHEMAS schema payload with
  | None => FInvalid (source_name schema +:+ " response failed schema validation")
              (schema_issues schema payload)
  | Some (EPrice p) => usable schema asset "PRICE" p 8 None
  | Some (EMap None) =>
      FNoPrice (match schema with redstone => "empty prices envelope" | _ => "no prices envelope" end)
  | Some (EMap (Some m)) =>
      let key := match schema with
                 | redstone => toUpperCase asset
                 | _ => "Crypto." +:+ toUpperCase asset +:+ "/USD"
                 end in
      match entryOf key m with
      | None => FNoPrice ("asset " +:+ asset +:+ " not present in prices map")
      | Some q => usable schema asset (match schema with redstone => "value" | _ => "price" end)
                    (qt_price q) (default 8 (qt_decimals q)) (qt_time q)
      end
  | Some (EData None) => FNoPrice ("no feed data for " +:+ asset)
  | Some (EData (Some q)) =>
      usable schema asset "price" (qt_price q) (default 9 (qt_decimals q)) (qt_time q)
  end.
End validation.

(** ** Scaling *)

(** What the code takes from bignumber.js here: the constructor on a quoted
    price, powers, and [BigInt(b.toFixed(0))]. *)
Class BigNumberRead (BN : Type) : Type := {
  bn_ofPrice : price_value → BN;
  bn_pow : BN → Z → BN;
  bn_toFixed0 : BN → Z;
}.

(** The documented behaviour: integer powers are exact, [toFixed(0)] rounds half
    up. *)
Class BigNumberReadSpec (BN : Type) `{!BigNumberOps BN, !BigNumberSpec BN, !BigNumberRead BN}
    : Type := {
  bn_pow_val b n : 0 <= n → (bn_val (bn_pow b n) == Qpower (bn_val b) n)%Q;
  bn_toFixed0_val b : bn_toFixed0 b = round_half_up (bn_val b);
}.

Section scaling.
Context {BN : Type} `{!BigNumberOps BN, !BigNumberText BN, !BigNumberRead BN}.
Variable numToString : number → string.

(** [scaleValidatedPrice]; the decimals are an integer, so only the range is
    tested. *)
Definition scaleValidatedPrice (price : price_value) (decimals : Z) : result string Z :=
  if (decimals <? MIN_DECIMALS) || (MAX_DECIMALS <? decimals)
  then Throw ("decimals " +:+ pretty decimals +:+ " outside [0, 18]")
  else
    let bn : BN := bn_ofPrice price in
    if negb (bn_isFinite bn) || bn_lte0 bn
    then Throw ("price " +:+ priceText numToString price +:+ " is not a positive finite number")
    else
      let scaled := bn_multipliedBy bn (bn_pow (bn_of_bigint 10) decimals) in
      if negb (bn_isFinite scaled)
      then Throw ("price " +:+ priceText numToString price +:+ " overflows at " +:+ pretty decimals
                    +:+ " decimals")
      else
        let scaledInt := bn_toFixed0 scaled in
        if scaledInt <=? 0 then Throw "scaled price rounded to zero" else Ok scaledInt.
End scaling.

(** ** Transport errors: [provider-errors.ts] *)

Inductive ProviderErrorCategory : Type :=
| authentication | rate_limited | timed_out | unavailable | invalid_payload | no_price
| budget_exhausted_error | circuit_open | policy_blocked | unknown_error.
#[export] Instance ProviderErrorCategory_eq_dec : EqDecision ProviderErrorCategory.
Proof. solve_decision. Defined.

Record ProviderFailure : Type := mkFailure {
  category : ProviderErrorCategory;
  retryable : bool;
}.

Definition providerFailure (c : ProviderErrorCategory) : ProviderFailure :=
  mkFailure c (bool_decide (c ∈ [rate_limited; timed_out; unavailable])).

(** What an error carries of the fields the classification reads. *)
Record transport_error : Type := mkError {
  er_code : option string;
  er_name : option string;
  er_status : option Z;
}.

Definition classifyProviderError (e : transport_error) : ProviderFailure :=
  let name_is n := bool_decide (er_name e = Some n) in
  let code_is c := bool_decide (er_code e = Some c) in
  let status_is z := bool_decide (er_status e = Some z) in
  if name_is "SsrfError" || name_is "SandboxCredentialError" then providerFailure policy_blocked
  else if status_is 401 || status_is 403 then providerFailure authentication
  else if status_is 429 then providerFailure rate_limited
  else if status_is 404 then providerFailure no_price
  else if code_is "ECONNABORTED" || code_is "ETIMEDOUT" || status_is 408 || status_is 504
  then providerFailure timed_out
  else if match er_status e with Some z => 500 <=? z | None => false end ||
          code_is "ECONNRESET" || code_is "ECONNREFUSED" || code_is "ENOTFOUND" || code_is "EAI_AGAIN"
  then providerFailure unavailable
  else providerFailure unknown_error.

(** ** Capabilities: [capabilities.ts] *)

Definition registry : Type := jsmap OracleSourceName (list string).  (* supportedAssets *)

Definition supportsAsset (r : registry) (source : OracleSourceName) (asset : string) : bool :=
  match jm_get source r with
  | Some assets => bool_decide (asset ∈ assets)
  | None => false
  end.

Inductive CompatibilityOutcome : Type := compatible | incompatible (reason : string).

Definition isAssignmentCompatible (r : registry) (source : OracleSourceName) (asset : string)
    : CompatibilityOutcome :=
  match jm_get source r with
  | None => incompatible ("no capability profile registered for source " +:+ source_name source)
  | Some assets =>
      if bool_decide (asset ∈ assets) then compatible
      else incompatible ("source " +:+ source_name source +:+ " does not carry asset " +:+ asset)
  end.

(** [FeedAssignmentValidator.validate] *)
Fixpoint validateAssignments (r : registry) (assignments : list (OracleSourceName * string))
    : list (OracleSourceName * string) * list (OracleSourceName * string * string) :=
  match assignments with
  | [] => ([], [])
  | (source, asset) :: rest =>
      let '(valid, rejected) := validateAssignments r rest in
      match isAssignmentCompatible r source asset with
      | compatible => ((source, asset) :: valid, rejected)
      | incompatible reason => (valid, (source, asset, reason) :: rejected)
      end
  end.

Definition WATCHED_ASSETS : list string := ["XLM"; "USDC"; "BTC"; "ETH"; "USDT"].
Definition DEFAULT_CAPABILITIES : registry :=
  [(chainlink, WATCHED_ASSETS); (redstone, WATCHED_ASSETS); (band, WATCHED_ASSETS);
   (reflector, WATCHED_ASSETS)].

(** ** Labels: [observability/cardinality.ts] *)

Definition KNOWN_SOURCES : list string := ["chainlink"; "redstone"; "band"; "reflector"].

(** [sanitizeSourceLabel] against the allowed sources. *)
Definition sanitizeSourceLabel (allowed : list string) (source : string) : string :=
  if bool_decide (source = "") then "other"
  else
    let norm := toLowerCase (trim source) in
    if bool_decide (norm ∈ allowed) then norm else "other".

(** ** The fetch path: [base.ts] *)

Record SourceHealthStatus : Type := mkHealth {
  hl_healthy : bool;
  hl_lastSuccess : option Z;
  hl_lastFailure : option Z;
  hl_consecutiveFailures : Z;
  hl_totalRequests : Z;
  hl_totalFailures : Z;
  hl_uptimePercent : number;
}.

Definition newHealth : SourceHealthStatus := mkHealth true None None 0 0 0 (NInt 100).

(** A source with the two process-wide components it consults. *)
Record source_world : Type := mkWorld {
  sw_health : SourceHealthStatus;
  sw_lastInvalidPayloadAt : option Z;
  sw_startedAt : Z;
  sw_breaker : states;
  sw_budget : counters;
  (** the requests that went out to the provider: instant and asset *)
  sw_sent : list (Z * string);
}.

Definition with_health (h : SourceHealthStatus) (w : source_world) : source_world :=
  mkWorld h (sw_lastInvalidPayloadAt w) (sw_startedAt w) (sw_breaker w) (sw_budget w) (sw_sent w).
Definition with_cb (b : states) (w : source_world) : source_world :=
  mkWorld (sw_health w) (sw_lastInvalidPayloadAt w) (sw_startedAt w) b (sw_budget w) (sw_sent w).
Definition with_budget (c : counters) (w : source_world) : source_world :=
  mkWorld (sw_health w) (sw_lastInvalidPayloadAt w) (sw_startedAt w) (sw_breaker w) c (sw_sent w).
Definition with_invalidAt (t : Z) (w : source_world) : source_world :=
  mkWorld (sw_health w) (Some t) (sw_startedAt w) (sw_breaker w) (sw_budget w) (sw_sent w).

(** What the provider answers to one attempt. *)
Inductive response : Type := RPayload (payload : json) | RError (e : transport_error).

(** An attempt: the instants before and after the request, whether a write of
    the counters succeeds, and the answer. *)
Record attempt_env : Type := mkAttempt {
  at_start : Z;
  at_end : Z;
  at_wr : bool;
  at_response : response;
}.

Inductive SourceFailureKind : Type := transport_failure | payload_failure | no_price_failure.

Record SourceFetchOutcome : Type := mkOutcome {
  fo_price : option NormalizedPrice;
  fo_failureKind : option SourceFailureKind;
  fo_failure : option ProviderFailure;
}.

Definition failedOutcome (k : SourceFailureKind) (f : ProviderFailure) : SourceFetchOutcome :=
  mkOutcome None (Some k) (Some f).

(** [Math.round] *)
Definition num_round (n : number) : number :=
  match n with NFin q => NInt (Qfloor (q + (1#2))) | _ => n end.

Definition calcUptime (now startedAt : Z) (h : SourceHealthStatus) : number :=
  if now - startedAt =? 0 then NInt 100
  else
    let failureRatio := double_div (double_of_Z (hl_totalFailures h))
                          (double_of_Z (Z.max (hl_totalRequests h) 1)) in
    num_round (num_of_double (double_mul (double_sub (double_of_Z 1) failureRatio) (double_of_Z 100))).

(** The health after a failed attempt, on either path. *)
Definition failedHealth (now startedAt : Z) (h : SourceHealthStatus) : SourceHealthStatus :=
  let consecutive := hl_consecutiveFailures h + 1 in
  let h1 := mkHealth (hl_healthy h) (hl_lastSuccess h) (Some (now / 1000)) consecutive
              (hl_totalRequests h) (hl_totalFailures h + 1) (hl_uptimePercent h) in
  mkHealth (if 3 <=? consecutive then false else hl_healthy h) (hl_lastSuccess h) (Some (now / 1000))
    consecutive (hl_totalRequests h) (hl_totalFailures h + 1) (calcUptime now startedAt h1).

(** The invalid-payload path sets [healthy] from the counter alone. *)
Definition invalidHealth (now startedAt : Z) (h : SourceHealthStatus) : SourceHealthStatus :=
  let h1 := failedHealth now startedAt h in
  mkHealth (hl_consecutiveFailures h1 <? 3) (hl_lastSuccess h1) (hl_lastFailure h1)
    (hl_consecutiveFailures h1) (hl_totalRequests h1) (hl_totalFailures h1) (hl_uptimePercent h1).

Definition succeededHealth (now : Z) (h : SourceHealthStatus) : SourceHealthStatus :=
  mkHealth true (Some (now / 1000)) (hl_lastFailure h) 0 (hl_totalRequests h) (hl_totalFailures h)
    (hl_uptimePercent h).

Definition countRequest (h : SourceHealthStatus) : SourceHealthStatus :=
  mkHealth (hl_healthy h) (hl_lastSuccess h) (hl_lastFailure h) (hl_consecutiveFailures h)
    (hl_totalRequests h + 1) (hl_totalFailures h) (hl_uptimePercent h).

Section fetch.
Context {BN : Type} `{!BigNumberOps BN, !BigNumberText BN, !BigNumberRead BN}.
Variable toNum : string → number.
Variable numToString : number → string.
Variable schema_issues : OracleSourceName → json → string.
Variable cb : SourceCBConfig.
Variable budgets : jsmap string double.
Variable caps : registry.
Variable allowed : list string.

(** [normalizeValidated]: [None] when the price is refused, which the caller
    records as an invalid payload. *)
Definition normalizeValidated (source : OracleSourceName) (now : Z) (asset : string)
    (price : price_value) (decimals : Z) (observedAt : option Z) : option NormalizedPrice :=
  match scaleValidatedPrice (BN := BN) numToString price decimals with
  | Throw _ => None
  | Ok scaled =>
      let fetchedAt := now / 1000 in
      Some (mkPrice (toUpperCase asset) scaled decimals source (default fetchedAt observedAt)
              observedAt (Some fetchedAt))
  end.

(** [fetchPrice] of the four adapters on a payload: the price, and whether
    [recordInvalidPayload] was called. *)
Definition fetchPrice (source : OracleSourceName) (now : Z) (asset : string) (payload : json)
    : option NormalizedPrice * bool :=
  let parsedAsset := match source with redstone => toUpperCase asset | _ => asset end in
  match parseProviderResponse toNum numToString schema_issues source payload parsedAsset with
  | FNoPrice _ => (None, false)
  | FInvalid _ _ => (None, true)
  | FOk price decimals observedAt =>
      match normalizeValidated source now asset price decimals observedAt with
      | Some p => (Some p, false)
      | None => (None, true)
      end
  end.

(** The checks before a request: budget, breaker, capabilities.  The last
    component is the outcome when one of them stops the fetch. *)
Definition admitFetch (source : OracleSourceName) (a : attempt_env) (asset : string) (w : source_world)
    : source_world * option SourceFetchOutcome :=
  let name := source_name source in
  let '(c, blocked) := isBudgetBlocked budgets (at_start a) (at_wr a) name (sw_budget w) in
  let w1 := with_budget c w in
  if blocked then (w1, Some (failedOutcome transport_failure (providerFailure budget_exhausted_error)))
  else
    let '(m, ok) := isAllowed cb (at_start a) (at_start a) name (sw_breaker w1) in
    let w2 := with_cb m w1 in
    if negb ok then (w2, Some (failedOutcome transport_failure (providerFailure circuit_open)))
    else if negb (supportsAsset caps source asset)
    then (w2, Some (failedOutcome no_price_failure (providerFailure no_price)))
    else (w2, None).

(** The request is counted: the daily counter and the number of requests. *)
Definition chargeCall (source : OracleSourceName) (a : attempt_env) (w : source_world) : source_world :=
  let label := sanitizeSourceLabel allowed (source_name source) in
  let c := recordCall (at_start a) (at_wr a) label (sw_budget w) in
  let '(c', _) := getBudgetStatus budgets (at_start a) (at_wr a) label c in
  with_health (countRequest (sw_health w)) (with_budget c' w).

(** The call of [fetchPrice]: the request leaves for the provider. *)
Definition sendRequest (a : attempt_env) (asset : string) (w : source_world) : source_world :=
  mkWorld (sw_health w) (sw_lastInvalidPayloadAt w) (sw_startedAt w) (sw_breaker w) (sw_budget w)
    (sw_sent w ++ [(at_start a, asset)]).

Definition failCall (source : OracleSourceName) (now : Z) (invalid : bool) (w : source_world)
    : source_world :=
  let h := if invalid then invalidHealth now (sw_startedAt w) (sw_health w)
           else failedHealth now (sw_startedAt w) (sw_health w) in
  with_cb (recordFailure cb now now now (source_name source) (sw_breaker w)) (with_health h w).

Definition succeedCall (source : OracleSourceName) (now : Z) (w : source_world) : source_world :=
  with_cb (recordSuccess cb now now (source_name source) (sw_breaker w))
    (with_health (succeededHealth now (sw_health w)) w).

Definition maxAttempts : Z := 3.

(** [fetchWithOutcome(asset, attempt)]; [left] is [maxAttempts - attempt], the
    number of retries that remain. *)
Fixpoint fetchWithOutcome (source : OracleSourceName) (env : Z → attempt_env) (asset : string)
    (left : nat) (attempt : Z) (w0 : source_world) : source_world * SourceFetchOutcome :=
  let a := env attempt in
  let '(w1, stopped) := admitFetch source a asset w0 in
  match stopped with
  | Some o => (w1, o)
  | None =>
      let w2 := sendRequest a asset (chargeCall source a w1) in
      let now := at_end a in
      match at_response a with
      | RPayload payload =>
          match fetchPrice source now asset payload with
          | (Some p, _) => (succeedCall source now w2, mkOutcome (Some p) None None)
          | (None, true) =>
              (failCall source now true (with_invalidAt (now / 1000) w2),
               failedOutcome payload_failure (providerFailure invalid_payload))
          | (None, false) => (w2, failedOutcome no_price_failure (providerFailure no_price))
          end
      | RError e =>
          let w3 := failCall source now false w2 in
          let failure := classifyProviderError e in
          match left with
          | S left' => if retryable failure
                       then fetchWithOutcome source env asset left' (attempt + 1) w3
                       else (w3, failedOutcome transport_failure failure)
          | O => (w3, failedOutcome transport_failure failure)
          end
      end
  end.

(** [fetchWithBackoff(asset)] *)
Definition fetchWithBackoff (source : OracleSourceName) (env : Z → attempt_env) (asset : string)
    (w : source_world) : source_world * option NormalizedPrice :=
  let '(w', o) := fetchWithOutcome source env asset 2 1 w in (w', fo_price o).

(** [fetchAll(assets)]; the [i]-th asset is fetched in the environment [envs i]. *)
Fixpoint fetchAll (source : OracleSourceName) (envs : nat → Z → attempt_env) (i : nat)
    (assets : list string) (w : source_world) : source_world * list NormalizedPrice :=
  match assets with
  | [] => (w, [])
  | asset :: rest =>
      let '(w1, p) := fetchWithBackoff source (envs i) asset w in
      let '(w2, ps) := fetchAll source envs (S i) rest w1 in
      (w2, match p with Some p => p :: ps | None => ps end)
  end.
End fetch.

(** ** Rounding *)

Lemma round_half_up_error q : (Qabs (inject_Z (round_half_up q) - q) <= 1 # 2)%Q.
Proof.
  apply Qabs_case; intros _; unfold round_half_up; destruct (Qle_bool 0 q).
  - pose proof (Qfloor_le (q + (1#2))). lra.
  - pose proof (Qlt_floor (- q + (1#2))) as H. rewrite inject_Z_plus in H.
    rewrite inject_Z_opp. change (inject_Z 1) with 1%Q in H. lra.
  - pose proof (Qlt_floor (q + (1#2))) as H. rewrite inject_Z_plus in H.
    change (inject_Z 1) with 1%Q in H. lra.
  - pose proof (Qfloor_le (- q + (1#2))). rewrite inject_Z_opp. lra.
Qed.

(** ** Validated payloads *)

Section payload_facts.
Variable toNum : string → number.
Variable numToString : number → string.
Variable schema_issues : OracleSourceName → json → string.

Definition decimals_ok (d : Z) : Prop := MIN_DECIMALS <= d <= MAX_DECIMALS.

Definition quote_ok (q : quote) : Prop :=
  (∀ d, qt_decimals q = Some d → decimals_ok d) ∧ (∀ t, qt_time q = Some t → 0 <= t).

Lemma decimalsField_ok j d : decimalsField j = Some d → decimals_ok d.
Proof.
  unfold decimalsField. destruct j; try done. destruct (int_of n) as [z|]; [|done].
  destruct (_ && _) eqn:E; [|done]. intros [= <-]. to_prop. split; done.
Qed.

Lemma timestampSeconds_ok j t : timestampSeconds j = Some t → 0 <= t.
Proof.
  unfold timestampSeconds. destruct j; try done. destruct (int_of n) as [z|]; [|done].
  destruct (Z.leb_spec 0 z); [|done]. by intros [= <-].
Qed.

Lemma optionalField_ok (P : Z → Prop) schema o v z :
  (∀ j z, schema j = Some z → P z) → optionalField schema o = Some v → v = Some z → P z.
Proof.
  intros HP. unfold optionalField. destruct o as [j|]; [|by intros [= <-]].
  destruct (schema j) as [x|] eqn:E; [|done]. intros [= <-] [= <-]. eauto.
Qed.

Lemma quoteObject_ok price time j q : quoteObject toNum price time j = Some q → quote_ok q.
Proof.
  unfold quoteObject. destruct j as [| | | | |fs]; try done.
  destruct (jm_get price fs ≫= priceField toNum) as [p|]; [|done].
  destruct (optionalField decimalsField _) as [d|] eqn:Hd; [|done].
  destruct time as [f|].
  - destruct (optionalField timestampSeconds _) as [t|] eqn:Ht; [|done]. intros [= <-].
    split; simpl; intros z Hz.
    + by eapply (optionalField_ok decimals_ok); [apply decimalsField_ok|..].
    + by eapply (optionalField_ok (λ z, 0 <= z)); [apply timestampSeconds_ok|..].
  - intros [= <-]. split; simpl; [|done]. intros z Hz.
    by eapply (optionalField_ok decimals_ok); [apply decimalsField_ok|..].
Qed.

Lemma nullable_ok schema j q :
  (∀ j q, schema j = Some q → quote_ok q) → nullable schema j = Some (Some q) → quote_ok q.
Proof.
  intros Hs. unfold nullable. destruct j; try done;
    intros [q' [Hq [= ->]]]%fmap_Some; eauto.
Qed.

Lemma recordOf_ok schema fs m k v :
  recordOf schema fs = Some m → jm_get k m = Some v → ∃ j, schema j = Some v.
Proof.
  revert m. induction fs as [|[k0 j] fs IH]; intros m; simpl; [by intros [= <-]|].
  destruct (schema j) as [v0|] eqn:E; [|done]. destruct (recordOf schema fs) as [rest|]; [|done].
  intros [= <-]. simpl. case_decide; [intros [= <-]; eauto|eauto].
Qed.

(** What a schema guarantees of the envelope it accepts. *)
Definition envelope_ok (e : envelope) : Prop :=
  match e with
  | EPrice _ => True
  | EData o => ∀ q, o = Some q → quote_ok q
  | EMap o => ∀ m k q, o = Some m → entryOf k m = Some q → quote_ok q
  end.

Lemma quoteMap_ok schema j e :
  (∀ j q, schema j = Some q → quote_ok q) → quoteMap schema j = Some e → envelope_ok e.
Proof.
  intros Hs. unfold quoteMap. destruct j as [| | | | |fs]; try done; [by intros [= <-]|].
  intros [m [Hm ->]]%fmap_Some m' k q [= <-]. unfold entryOf.
  destruct (jm_get k m) as [[q'|]|] eqn:E; try done. intros [= <-].
  destruct (recordOf_ok _ _ _ _ _ Hm E) as [j Hj]. by eapply nullable_ok.
Qed.

Lemma SCHEMAS_ok schema payload e : SCHEMAS toNum schema payload = Some e → envelope_ok e.
Proof.
  destruct schema; simpl.
  - destruct payload as [| | | | |fs]; try done. destruct (jm_get "USD" fs) as [[]|]; try done.
    by intros [p [_ ->]]%fmap_Some.
  - apply quoteMap_ok. apply quoteObject_ok.
  - destruct payload as [| | | | |fs]; try done. destruct (jm_get "data" fs) as [d|]; [|done].
    intros [o [Ho ->]]%fmap_Some q ->. eapply nullable_ok; [apply quoteObject_ok|done].
  - destruct payload as [| | | | |fs]; try done. intros [p [_ Hp]]%bind_Some.
    by eapply quoteMap_ok; [apply quoteObject_ok|].
Qed.

(** A price the adapters hand on: finite and positive as a number. *)
Definition usable_price (v : price_value) : Prop :=
  ∃ n, toFiniteNumber toNum v = Some n ∧ num_leb n (NInt 0) = false.

Lemma usable_ok schema asset label v d o v' d' o' :
  usable toNum numToString schema asset label v d o = FOk v' d' o' →
  v' = v ∧ d' = d ∧ o' = o ∧ usable_price v.
Proof.
  unfold usable. destruct (toFiniteNumber toNum v) as [n|] eqn:E; [|done].
  destruct (num_leb n (NInt 0)) eqn:Hn; [done|]. intros [= <- <- <-].
  split_and!; try done. by exists n.
Qed.

(** a payload is accepted only with a finite positive price, a scale inside the
    range the contract accepts and an observation time that is not negative. *)
Lemma accepted_payload schema payload asset v d o :
  parseProviderResponse toNum numToString schema_issues schema payload asset = FOk v d o →
  usable_price v ∧ decimals_ok d ∧ ∀ t, o = Some t → 0 <= t.
Proof.
  unfold parseProviderResponse.
  destruct (SCHEMAS toNum schema payload) as [e|] eqn:E; [|done]. apply SCHEMAS_ok in E.
  assert (∀ q dflt, quote_ok q → decimals_ok dflt → decimals_ok (default dflt (qt_decimals q))) as Hdec.
  { intros q dflt [Hd _] Hdf. destruct (qt_decimals q); simpl; eauto. }
  destruct e as [p|[q|]|[m|]]; try done.
  - intros (-> & -> & -> & ?)%usable_ok. split_and!; done.
  - intros (-> & -> & -> & ?)%usable_ok. specialize (E q eq_refl).
    split_and!; [done|by apply Hdec|]. apply E.
  - destruct (entryOf _ m) as [q|] eqn:Eq; [|done]. intros (-> & -> & -> & ?)%usable_ok.
    specialize (E m _ q eq_refl Eq). split_and!; [done|by apply Hdec|]. apply E.
Qed.
End payload_facts.

(** A payload without a scale is read with the default scale of its schema,
    although [decimals.ts] makes a missing scale of these providers an error. *)
Example missing_decimals_defaulted toNum numToString issues :
  parseProviderResponse toNum numToString issues band
    (JObj [("data", JObj [("price", JNum (NInt 2))])]) "XLM" = FOk (PNum (NInt 2)) 9 None ∧
  resolveDecimals band None = Throw decimals_missing.
Proof. split; reflexivity. Qed.

(** ** Scaled prices *)

Section scaling_facts.
Context {BN : Type} `{!BigNumberOps BN, !BigNumberSpec BN, !BigNumberText BN, !BigNumberRead BN,
  !BigNumberReadSpec BN}.

(** The quoted price at the scale [d], exactly. *)
Definition exactly (v : price_value) (d : Z) : Q :=
  (bn_val (bn_ofPrice v : BN) * Qpower (inject_Z 10) d)%Q.

Lemma scaled_exact numToString v d z :
  scaleValidatedPrice (BN := BN) numToString v d = Ok z →
  decimals_ok d ∧ 0 < z ∧ (Qabs (inject_Z z - exactly v d) <= 1 # 2)%Q.
Proof.
  unfold scaleValidatedPrice. destruct (_ || _) eqn:Hd; [done|].
  destruct (negb _ || _); [done|]. destruct (negb _); [done|].
  destruct (Z.leb_spec (bn_toFixed0 (bn_multipliedBy (bn_ofPrice v : BN)
    (bn_pow (bn_of_bigint 10) d))) 0) as [|Hpos]; [done|]. intros [= <-].
  apply orb_false_iff in Hd as [H1%Z.ltb_ge H2%Z.ltb_ge].
  split; [done|]. split; [done|]. rewrite bn_toFixed0_val.
  assert (bn_val (bn_multipliedBy (bn_ofPrice v : BN) (bn_pow (bn_of_bigint 10) d)) == exactly v d)%Q
    as <-.
  { unfold exactly. rewrite bn_multipliedBy_val, bn_pow_val, bn_of_bigint_val; [reflexivity|].
    unfold MIN_DECIMALS in H1. lia. }
  apply round_half_up_error.
Qed.
End scaling_facts.

(** ** The fetch path *)

Section fetch_facts.
Context {BN : Type} `{!BigNumberOps BN, !BigNumberSpec BN, !BigNumberText BN, !BigNumberRead BN,
  !BigNumberReadSpec BN}.
Variable toNum : string → number.
Variable numToString : number → string.
Variable schema_issues : OracleSourceName → json → string.
Variable cb : SourceCBConfig.
Variable budgets : jsmap string double.
Variable caps : registry.
Variable allowed : list string.

Let fetch := fetchWithOutcome (BN := BN) toNum numToString schema_issues cb budgets caps allowed.
Let parse := parseProviderResponse toNum numToString schema_issues.

(** A price as the aggregator may receive it: normalised asset, positive
    amount, scale in range, and within half a unit of what was quoted. *)
Definition price_faithful (source : OracleSourceName) (asset : string) (payload : json)
    (p : NormalizedPrice) : Prop :=
  np_asset p = toUpperCase asset ∧ np_source p = source ∧ 0 < np_price p ∧
  decimals_ok (np_decimals p) ∧
  ∃ v a, toUpperCase a = toUpperCase asset ∧
    parse source payload a = FOk v (np_decimals p) (np_observedAt p) ∧
    (Qabs (inject_Z (np_price p) - exactly (BN := BN) v (np_decimals p)) <= 1 # 2)%Q.

Lemma fetchPrice_faithful source now asset payload p b :
  fetchPrice (BN := BN) toNum numToString schema_issues source now asset payload = (Some p, b) →
  price_faithful source asset payload p.
Proof.
  unfold fetchPrice, normalizeValidated.
  set (a := match source with redstone => toUpperCase asset | _ => asset end).
  destruct (parseProviderResponse _ _ _ _ _ _) as [v d o| |] eqn:E; try done.
  destruct (scaleValidatedPrice numToString v d) as [z|] eqn:Ez; [|done]. intros [= <- <-].
  apply scaled_exact in Ez as (Hd & Hz & Herr). split_and!; try done.
  exists v, a. split_and!; try done. subst a. by destruct source; rewrite ?toUpperCase_idemp.
Qed.

(** C4: a price that leaves the adapter was quoted, in a payload the schema accepts,
    by one of at most three answers of the provider, and its amount is positive,
    at a scale the contract accepts and within half a unit of the quotation. *)
Theorem fetched_price_faithful source env asset w w' o p :
  fetch source env asset 2 1 w = (w', o) → fo_price o = Some p →
  ∃ k payload, 1 <= k <= maxAttempts ∧ at_response (env k) = RPayload payload ∧
    price_faithful source asset payload p.
Proof.
  unfold fetch. change maxAttempts with (1 + Z.of_nat 2).
  generalize 1 at 1 2 3 as k0. generalize 2%nat as left. intros left.
  revert w. induction left as [|left IH]; intros w k0; cbn [fetchWithOutcome];
    destruct (admitFetch _ _ _ _ _ _ w) as [w1 [o1|]] eqn:Ha.
  1, 3: intros [= <- <-] Hp; exfalso; revert Ha Hp; unfold admitFetch;
    destruct (isBudgetBlocked _ _ _ _ _) as [c []]; [by intros [= <- <-]|];
    destruct (isAllowed _ _ _ _ _) as [m []]; simpl; [|by intros [= <- <-]];
    destruct (supportsAsset _ _ _); by intros [= <- <-].
  all: destruct (at_response (env k0)) as [payload|e] eqn:Hr.
  1, 3: destruct (fetchPrice _ _ _ _ _ _ _) as [[p'|] inv] eqn:Ef;
    [|by destruct inv; intros [= <- <-]]; intros [= <- <-] [= ->];
    exists k0, payload; split; [lia|]; split; [done|]; by eapply fetchPrice_faithful.
  - by intros [= <- <-].
  - destruct (retryable _); [|by intros [= <- <-]]. intros Hf Hp.
    destruct (IH _ (k0 + 1) Hf Hp) as (k & payload & Hk & Hrest). exists k, payload.
    split; [lia|done].
Qed.

(** ** Invariants of the fetch path *)

(** The stages of an attempt, for a property [I] between attempts and a
    property [J] while a request is outstanding. *)
Record stages (A : attempt_env → Prop) (source : OracleSourceName) (I J : source_world → Prop) : Prop := {
  sg_admit a asset w : A a → I w → I (fst (admitFetch cb budgets caps source a asset w));
  sg_count a asset w w1 : A a → I w → admitFetch cb budgets caps source a asset w = (w1, None) →
    J (sendRequest a asset (chargeCall budgets allowed source a w1));
  sg_idle w : J w → I w;
  sg_fail now w : J w → I (failCall cb source now false w);
  sg_invalid now t w : J w → I (failCall cb source now true (with_invalidAt t w));
  sg_succeed now w : J w → I (succeedCall cb source now w);
}.

Lemma fetch_stages A source I J env asset left k w :
  stages A source I J → (∀ k, A (env k)) → I w → I (fst (fetch source env asset left k w)).
Proof.
  intros Hs HA. revert k w. induction left as [|left IH]; intros k w Hw; unfold fetch;
    cbn [fetchWithOutcome]; pose proof (sg_admit _ _ _ _ Hs (env k) asset w (HA k) Hw) as Hw1;
    destruct (admitFetch _ _ _ _ _ _ w) as [w1 [o|]] eqn:Ha; try exact Hw1;
    pose proof (sg_count _ _ _ _ Hs (env k) asset w w1 (HA k) Hw Ha) as HJ;
    destruct (at_response (env k)) as [payload|e].
  1, 3: destruct (fetchPrice _ _ _ _ _ _ _) as [[p|] []]; cbn [fst];
    first [by apply (sg_succeed _ _ _ _ Hs)|by apply (sg_invalid _ _ _ _ Hs)|by apply (sg_idle _ _ _ _ Hs)].
  - by apply (sg_fail _ _ _ _ Hs).
  - destruct (retryable _); [|by apply (sg_fail _ _ _ _ Hs)].
    apply IH. by apply (sg_fail _ _ _ _ Hs).
Qed.

(** *** Health *)

Definition health_ok (h : SourceHealthStatus) : Prop :=
  hl_healthy h = (hl_consecutiveFailures h <? 3) ∧
  0 <= hl_consecutiveFailures h <= hl_totalFailures h ∧ hl_totalFailures h <= hl_totalRequests h.

Definition requested (h : SourceHealthStatus) : Prop :=
  health_ok h ∧ hl_totalFailures h < hl_totalRequests h.

Lemma admit_health source a asset w :
  sw_health (fst (admitFetch cb budgets caps source a asset w)) = sw_health w.
Proof.
  unfold admitFetch. destruct (isBudgetBlocked _ _ _ _ _) as [c []]; [done|].
  destruct (isAllowed _ _ _ _ _) as [m []]; simpl; [|done]. by destruct (supportsAsset _ _ _).
Qed.

Lemma chargeCall_health source a asset w :
  sw_health (sendRequest a asset (chargeCall budgets allowed source a w)) = countRequest (sw_health w).
Proof. unfold chargeCall. by destruct (getBudgetStatus _ _ _ _ _). Qed.

Lemma failedHealth_ok now t h :
  requested h → health_ok (failedHealth now t h).
Proof.
  intros [(Hh & Hc & Hf) Hr]. unfold failedHealth, health_ok.
  cbn [hl_healthy hl_consecutiveFailures hl_totalFailures hl_totalRequests]. rewrite Hh.
  split_and!; try lia.
  destruct (Z.leb_spec 3 (hl_consecutiveFailures h + 1)); symmetry; [apply Z.ltb_ge; lia|].
  rewrite (proj2 (Z.ltb_lt (hl_consecutiveFailures h) 3)) by lia. apply Z.ltb_lt. lia.
Qed.

Lemma health_stages source :
  stages (λ _, True) source (λ w, health_ok (sw_health w)) (λ w, requested (sw_health w)).
Proof.
  split.
  - intros a asset w _. by rewrite admit_health.
  - intros a asset w w1 _ Hw Ha.
    pose proof (admit_health source a asset w) as Hh. rewrite Ha in Hh. cbn [fst] in Hh.
    rewrite chargeCall_health, Hh. destruct Hw as (? & ? & ?).
    unfold requested, health_ok, countRequest. simpl. split_and!; done || lia.
  - by intros w [? _].
  - intros now w Hw. by apply failedHealth_ok.
  - intros now t w Hw%(failedHealth_ok now (sw_startedAt w)). destruct Hw as (_ & Hc & Hf).
    split; [reflexivity|]. split; [exact Hc|exact Hf].
  - intros now w [(? & ? & ?) ?]. unfold succeedCall, succeededHealth, health_ok. simpl. lia.
Qed.

(** The number of requests a fetch makes. *)
Lemma fetch_requests source env asset left k w :
  0 <= hl_totalRequests (sw_health (fst (fetch source env asset left k w))) -
    hl_totalRequests (sw_health w) <= Z.of_nat left + 1.
Proof.
  revert k w. induction left as [|left IH]; intros k w; unfold fetch; cbn [fetchWithOutcome];
    pose proof (admit_health source (env k) asset w) as Hh;
    destruct (admitFetch _ _ _ _ _ _ w) as [w1 [o|]]; cbn [fst] in Hh; try (cbn [fst]; rewrite Hh; lia);
    pose proof (chargeCall_health source (env k) asset w1) as Hc; rewrite Hh in Hc;
    set (w2 := sendRequest _ _ (chargeCall _ _ _ _ w1)) in *; clearbody w2;
    apply (f_equal hl_totalRequests) in Hc; cbn [countRequest hl_totalRequests] in Hc;
    destruct (at_response (env k)) as [payload|e].
  1, 3: destruct (fetchPrice _ _ _ _ _ _ _) as [[p|] []];
    cbn [fst succeedCall failCall with_cb with_health with_invalidAt sw_health invalidHealth
      failedHealth succeededHealth hl_totalRequests]; lia.
  - cbn [fst failCall with_cb with_health sw_health failedHealth hl_totalRequests]. lia.
  - destruct (retryable _); [|cbn [fst failCall with_cb with_health sw_health failedHealth
      hl_totalRequests]; lia].
    specialize (IH (k + 1) (failCall cb source (at_end (env k)) false w2)). unfold fetch in IH.
    cbn [failCall with_cb with_health sw_health failedHealth hl_totalRequests] in IH.
    unfold failCall in *. lia.
Qed.

(** One source polled again and again. *)
Definition poll (source : OracleSourceName) (fetches : list ((Z → attempt_env) * string))
    (w : source_world) : source_world :=
  fold_left (λ w f, fst (fetch source f.1 f.2 2 1 w)) fetches w.

Lemma poll_inv A source I J fetches w :
  stages A source I J → Forall (λ f, ∀ k, A (f.1 k)) fetches → I w → I (poll source fetches w).
Proof.
  intros Hs HA. unfold poll. revert w. induction HA as [|f fetches Hf HA IH]; intros w Hw; [done|].
  cbn [fold_left]. apply IH. by eapply fetch_stages.
Qed.

Lemma poll_requests source fetches w :
  0 <= hl_totalRequests (sw_health (poll source fetches w)) - hl_totalRequests (sw_health w)
    <= 3 * Z.of_nat (length fetches).
Proof.
  unfold poll. revert w. induction fetches as [|f fetches IH]; intros w; [cbn; lia|].
  cbn [fold_left length]. pose proof (fetch_requests source f.1 f.2 2 1 w) as H1.
  set (w1 := fst (fetch source f.1 f.2 2 1 w)) in *. clearbody w1. specialize (IH w1). lia.
Qed.

(** the health a source reports is the count of what happened to it: at most
    three requests per fetch, no more failures than requests, and healthy
    exactly while fewer than three failures in a row are on record. *)
Theorem source_health_exact source fetches w :
  sw_health w = newHealth →
  let h := sw_health (poll source fetches w) in
  hl_healthy h = (hl_consecutiveFailures h <? 3) ∧
  0 <= hl_consecutiveFailures h <= hl_totalFailures h ∧
  hl_totalFailures h <= hl_totalRequests h <= 3 * Z.of_nat (length fetches).
Proof.
  intros Hw h. assert (health_ok h) as (? & ? & ?).
  { apply (poll_inv (λ _, True) source (λ w, health_ok (sw_health w)) (λ w, requested (sw_health w)));
      [apply health_stages|by apply Forall_true|]. by rewrite Hw. }
  pose proof (poll_requests source fetches w) as Hr. rewrite Hw in Hr. simpl in Hr.
  fold h in Hr. split_and!; done || lia.
Qed.

(** *** Budget *)

Lemma source_label source : toLowerCase (source_name source) = source_name source.
Proof. by destruct source. Qed.

Lemma sanitize_known source :
  source_name source ∈ allowed → sanitizeSourceLabel allowed (source_name source) = source_name source.
Proof.
  intros Hin. unfold sanitizeSourceLabel.
  assert (trim (source_name source) = source_name source) as Ht by (by destruct source).
  rewrite Ht, source_label, (bool_decide_true (source_name source ∈ allowed)) by done.
  by destruct source.
Qed.

Lemma charged_same today key c c' :
  lastResetDate c = today → lastResetDate c' = today → countOf key c = countOf key c' →
  chargedToday today key c = chargedToday today key c'.
Proof. intros H1 H2 H3. unfold chargedToday. by rewrite H1, H2, H3. Qed.

(** What [admitFetch] leaves in the counters, and what it implies when it lets the
    request through. *)
Lemma admit_counts source a asset w today key :
  utcDateStamp (at_start a) = today →
  let out := admitFetch cb budgets caps source a asset w in
  chargedToday today key (sw_budget (fst out)) = chargedToday today key (sw_budget w) ∧
  lastResetDate (sw_budget (fst out)) = today ∧
  (snd out = None → bs_state (budgetStatus budgets (source_name source) (sw_budget (fst out)))
     ≠ budget_exhausted).
Proof.
  intros Hday. cbn zeta. unfold admitFetch, isBudgetBlocked, getBudgetStatus.
  destruct (maybeReset_charged (at_start a) (at_wr a) (sw_budget w) key) as [Hd Hk].
  rewrite Hday in Hd, Hk. set (c := maybeReset _ _ _) in *. clearbody c.
  assert (chargedToday today key c = chargedToday today key (sw_budget w)) as Hc.
  { unfold chargedToday at 1. by rewrite Hd, bool_decide_true, Hk. }
  destruct (bool_decide_reflect (bs_state (budgetStatus budgets (source_name source) c)
    = budget_exhausted)) as [He|He]; [by split_and!|].
  destruct (isAllowed _ _ _ _ _) as [m []]; cbn [negb]; [|by split_and!].
  destruct (supportsAsset _ _ _); by split_and!.
Qed.

Lemma chargeCall_budget source a w today key :
  utcDateStamp (at_start a) = today → source_name source ∈ allowed →
  lastResetDate (sw_budget w) = today →
  chargedToday today key (sw_budget (chargeCall budgets allowed source a w)) =
    chargedToday today key (sw_budget w) + (if bool_decide (key = source_name source) then 1 else 0).
Proof.
  intros Hday Hin Hd. unfold chargeCall, getBudgetStatus. rewrite sanitize_known by done.
  destruct (recordCall_counts (at_start a) (at_wr a) (source_name source) (sw_budget w) key)
    as [Hd1 Hk1]. set (c := recordCall _ _ _ _) in *. clearbody c. rewrite source_label, Hday in *.
  destruct (maybeReset_charged (at_start a) (at_wr a) c key) as [Hd2 Hk2].
  set (c2 := maybeReset _ _ c) in *. clearbody c2. rewrite Hday in *. cbn [with_health with_budget sw_budget].
  rewrite (charged_same today key c2 c); [|done|done|].
  - unfold chargedToday at 1. by rewrite Hd1, bool_decide_true, Hk1.
  - rewrite Hk2. unfold chargedToday. by rewrite Hd1, bool_decide_true.
Qed.

Lemma admit_sent source a asset w :
  sw_sent (fst (admitFetch cb budgets caps source a asset w)) = sw_sent w.
Proof.
  unfold admitFetch. destruct (isBudgetBlocked _ _ _ _ _) as [c []]; [done|].
  destruct (isAllowed _ _ _ _ _) as [m []]; simpl; [|done]. by destruct (supportsAsset _ _ _).
Qed.

Lemma chargeCall_sent source a w : sw_sent (chargeCall budgets allowed source a w) = sw_sent w.
Proof. unfold chargeCall. by destruct (getBudgetStatus _ _ _ _ _). Qed.

(** Between [w0] and [w] every request sent was charged to the day, within [b]. *)
Definition charged_since (key : string) (b : Z) (today : string) (w0 w : source_world) : Prop :=
  ∃ sent, sw_sent w = sw_sent w0 ++ sent ∧ Forall (λ q, utcDateStamp q.1 = today) sent ∧
    chargedToday today key (sw_budget w) = chargedToday today key (sw_budget w0) + Z.of_nat (length sent) ∧
    chargedToday today key (sw_budget w) <= b.

Lemma budget_stages source b today w0 :
  jm_get (source_name source) budgets = Some (double_of_Z b) →
  double_pos_finite (double_of_Z b) = true → source_name source ∈ allowed →
  let I := charged_since (source_name source) b today w0 in
  stages (λ a, utcDateStamp (at_start a) = today) source I I.
Proof.
  intros Hb Hpos Hin I. split; try done.
  - intros a asset w Ha Hw. unfold I, charged_since. rewrite admit_sent.
    by destruct (admit_counts source a asset w today (source_name source) Ha) as (-> & _ & _).
  - intros a asset w w1 Ha (sent & Hs & Hdays & Hn & Hw) Hadm.
    destruct (admit_counts source a asset w today (source_name source) Ha) as (Hc & Hd & Hex).
    pose proof (admit_sent source a asset w) as Hs1.
    rewrite Hadm in Hc, Hd, Hex, Hs1. cbn [fst snd] in *. specialize (Hex eq_refl).
    exists (sent ++ [(at_start a, asset)]). cbn [sendRequest sw_sent sw_budget].
    rewrite chargeCall_sent, chargeCall_budget, bool_decide_true, Hc, Hs1, Hs, length_app, <- app_assoc by done.
    split_and!; [done|by apply Forall_app; repeat constructor|simpl; lia|].
    destruct (decide (chargedToday today (source_name source) (sw_budget w) = b)) as [Heq|]; [|lia].
    exfalso. apply Hex. apply (exhausted_at_budget budgets (source_name source) b); [done..| |].
    + apply source_label.
    + rewrite <- Heq, <- Hc. unfold chargedToday. by rewrite Hd, bool_decide_true.
Qed.


(** *** The breaker *)

(** An entry no request was ever acquired on. *)
Definition unacquired (e : CBEntry) : Prop :=
  inFlight e = 0 ∧ requestsInWindow e = 0 ∧ costInWindow e = double_0.

Definition all_unacquired (m : states) : Prop :=
  ∀ name e, jm_get name m = Some e → unacquired e.

Lemma getOrCreate_unacquired tc name m m' e :
  all_unacquired m → getOrCreate tc name m = (m', e) → all_unacquired m' ∧ unacquired e.
Proof.
  intros Hm. unfold getOrCreate. destruct (jm_get name m) as [e0|] eqn:E; intros [= <- <-]; [eauto|].
  split; [|done]. intros n x. destruct (decide (n = name)) as [->|Hne].
  - rewrite jm_get_set_eq. by intros [= <-].
  - rewrite jm_get_set_ne by done. apply Hm.
Qed.

Lemma set_unacquired name e m : all_unacquired m → unacquired e → all_unacquired (jm_set name e m).
Proof.
  intros Hm He n x. destruct (decide (n = name)) as [->|Hne].
  - rewrite jm_get_set_eq. by intros [= <-].
  - rewrite jm_get_set_ne by done. apply Hm.
Qed.

Lemma halfOpenDecision_unacquired now e : unacquired e → unacquired (fst (halfOpenDecision cb now e)).
Proof.
  intros He. unfold halfOpenDecision, alertSurge.
  repeat (case_match; try exact He).
Qed.

Lemma evaluateEntry_unacquired now e : unacquired e → unacquired (fst (evaluateEntry cb now e)).
Proof.
  intros He. unfold evaluateEntry, SourceBreaker.rollWindow.
  assert (unacquired (if sc_windowMs (cfg_surge cb) <=? now - SourceBreaker.windowStart e
    then resetWindow now e else e)) as Hr by (by destruct (_ <=? _); [destruct He|]).
  set (e1 := if _ <=? _ then _ else e) in *. clearbody e1.
  destruct (state e1); [done| |by apply halfOpenDecision_unacquired].
  destruct (_ <=? _); [|done]. by apply halfOpenDecision_unacquired.
Qed.

Lemma isAllowed_unacquired now name m :
  all_unacquired m → all_unacquired (fst (isAllowed cb now now name m)).
Proof.
  intros Hm. unfold isAllowed, evaluateSurge.
  destruct (getOrCreate now name m) as [m1 e] eqn:E.
  apply getOrCreate_unacquired in E as [Hm1 He]; [|done].
  apply (evaluateEntry_unacquired now) in He. destruct (evaluateEntry cb now e) as [e' d].
  by apply set_unacquired.
Qed.

Lemma recordFailure_unacquired now name m :
  all_unacquired m → all_unacquired (recordFailure cb now now now name m).
Proof.
  intros Hm. unfold recordFailure. destruct (getOrCreate now name m) as [m1 e] eqn:E.
  apply getOrCreate_unacquired in E as [Hm1 He]; [|done]. by apply set_unacquired.
Qed.

Lemma recordSuccess_unacquired now name m :
  all_unacquired m → all_unacquired (recordSuccess cb now now name m).
Proof.
  intros Hm. unfold recordSuccess. destruct (getOrCreate now name m) as [m1 e] eqn:E.
  apply getOrCreate_unacquired in E as [Hm1 He]; [|done]. apply set_unacquired; [done|].
  unfold successEntry. destruct (state e); [done|done|]. by destruct (_ <=? _).
Qed.

Lemma admit_breaker source a asset w :
  sw_breaker (fst (admitFetch cb budgets caps source a asset w)) = sw_breaker w ∨
  sw_breaker (fst (admitFetch cb budgets caps source a asset w)) =
    fst (isAllowed cb (at_start a) (at_start a) (source_name source) (sw_breaker w)).
Proof.
  unfold admitFetch. destruct (isBudgetBlocked _ _ _ _ _) as [c []]; [by left|]. right.
  cbn [with_budget sw_breaker].
  destruct (isAllowed _ _ _ _ _) as [m []]; cbn [negb]; [|done]. by destruct (supportsAsset _ _ _).
Qed.

Lemma breaker_stages source :
  let I w := all_unacquired (sw_breaker w) in stages (λ _, True) source I I.
Proof.
  intros I.
  assert (∀ a asset w, I w → I (fst (admitFetch cb budgets caps source a asset w))) as Hadm.
  { intros a asset w Hw. unfold I in *. destruct (admit_breaker source a asset w) as [-> | ->];
      [done|by apply isAllowed_unacquired]. }
  split; try done.
  - intros a asset w _. apply Hadm.
  - intros a asset w w1 _ Hw Ha. apply (Hadm a asset) in Hw. rewrite Ha in Hw. cbn [fst] in Hw.
    unfold I, chargeCall in *. by destruct (getBudgetStatus _ _ _ _ _).
  - intros now w. apply recordFailure_unacquired.
  - intros now t w. apply recordFailure_unacquired.
  - intros now w. apply recordSuccess_unacquired.
Qed.

(** Limits under which a first request is let through. *)
Definition limits_positive (c : SurgeConfig) : bool :=
  (0 <? maxConcurrentHalfOpen c) && negb (num_leb (effectiveRateCap c) (NInt 0)) &&
  negb (num_ltb (num_of_double (maxCostPerWindow c))
          (num_of_double (double_add double_0 (costPerRequest c)))).

(** A source that may be probed: half open, or open after its cooldown. *)
Definition probing (now : Z) (e : CBEntry) : bool :=
  match state e with
  | HALF_OPEN => true
  | OPEN => cooldownMs cb <=? now - default 0 (lastFailureTime e)
  | CLOSED => false
  end.

Lemma unacquired_allowed now e :
  limits_positive (cfg_surge cb) = true → unacquired e → probing now e = true →
  snd (evaluateEntry cb now e) = ALLOW.
Proof.
  intros Hl He Hp. unfold evaluateEntry, SourceBreaker.rollWindow.
  assert (∀ x, unacquired x → snd (halfOpenDecision cb now x) = ALLOW) as Hh.
  { intros x (H1 & H2 & H3). unfold halfOpenDecision. rewrite H1, H2, H3.
    unfold limits_positive in Hl. rewrite !andb_true_iff, !negb_true_iff in Hl.
    destruct Hl as [[Hc%Z.ltb_lt ->] ->]. by rewrite (proj2 (Z.leb_gt _ 0)) by done. }
  set (e1 := if _ <=? _ then _ else e).
  assert (unacquired e1 ∧ state e1 = state e ∧ lastFailureTime e1 = lastFailureTime e) as (He1 & Hs & Hf).
  { subst e1. destruct He as (? & ? & ?). destruct (_ <=? _); by repeat split. }
  clearbody e1. unfold probing in Hp. rewrite Hs, Hf. destruct (state e); [done| |by apply Hh].
  rewrite Hp. by apply Hh.
Qed.

(** the limits on a recovering provider never bind on the fetch path: the
    adapters ask [isAllowed] and never acquire a slot, so after any sequence of
    fetches a half-open provider is allowed every further request. *)
Theorem recovery_limits_inert source fetches w name e now tc :
  limits_positive (cfg_surge cb) = true → sw_breaker w = jm_empty →
  jm_get name (sw_breaker (poll source fetches w)) = Some e → probing now e = true →
  snd (isAllowed cb tc now name (sw_breaker (poll source fetches w))) = true.
Proof.
  intros Hl Hw He Hp.
  assert (all_unacquired (sw_breaker (poll source fetches w))) as Hall.
  { apply (poll_inv (λ _, True) source (λ w, all_unacquired (sw_breaker w))
      (λ w, all_unacquired (sw_breaker w))); [apply breaker_stages|by apply Forall_true|].
    by rewrite Hw. }
  pose proof (unacquired_allowed now e Hl (Hall _ _ He) Hp) as Ha.
  unfold isAllowed, evaluateSurge, getOrCreate. rewrite He.
  destruct (evaluateEntry cb now e) as [e' d]. simpl in Ha. subst d. done.
Qed.

(** While the breaker is open and cooling down, a fetch makes no request, spends
    no budget and reports the open circuit. *)
Theorem open_circuit_fails_fast source env asset w e :
  jm_get (source_name source) (sw_breaker w) = Some e → state e = OPEN →
  at_start (env 1) - default 0 (lastFailureTime e) < cooldownMs cb →
  snd (isBudgetBlocked budgets (at_start (env 1)) (at_wr (env 1)) (source_name source) (sw_budget w)) = false →
  let out := fetch source env asset 2 1 w in
  sw_health (fst out) = sw_health w ∧ fo_price (snd out) = None ∧
  fo_failure (snd out) = Some (providerFailure circuit_open).
Proof.
  intros He Hs Hcool Hblock. cbn zeta. unfold fetch. cbn [fetchWithOutcome].
  assert (∃ w1, admitFetch cb budgets caps source (env 1) asset w =
    (w1, Some (failedOutcome transport_failure (providerFailure circuit_open))) ∧
    sw_health w1 = sw_health w) as (w1 & -> & Hh); [|done].
  unfold admitFetch. destruct (isBudgetBlocked _ _ _ _ _) as [c blocked]. simpl in Hblock. subst blocked.
  cbn [with_budget sw_breaker]. unfold isAllowed, evaluateSurge, getOrCreate. rewrite He.
  unfold evaluateEntry, SourceBreaker.rollWindow. set (e1 := if _ <=? _ then _ else e).
  assert (state e1 = OPEN ∧ lastFailureTime e1 = lastFailureTime e) as [-> ->].
  { subst e1. by destruct (_ <=? _). }
  rewrite (proj2 (Z.leb_gt _ _) Hcool). eauto.
Qed.
End fetch_facts.

(** ** The interface can be met, and concrete runs *)

#[export] Instance Q_read : BigNumberRead Q := {
  bn_ofPrice v := match v with PNum (NFin q) => q | _ => 0%Q end;
  bn_pow := Qpower;
  bn_toFixed0 := round_half_up;
}.

#[export] Instance Q_read_spec : BigNumberReadSpec Q.
Proof. by split. Defined.

Definition no_number (_ : string) : number := NNaN.
Definition no_numtext (_ : number) : string := "".
Definition no_issues (_ : OracleSourceName) (_ : json) : string := "".

Definition demo_cb : SourceCBConfig := mkSourceConfig 3 30000 2 DEFAULT_SURGE.
Definition demo_budgets : jsmap string double := [("redstone", double_of_Z 3)].

Definition good_payload : json :=
  JObj [("XLM", JObj [("value", JNum (NFin (11 # 100))); ("decimals", JNum (NInt 8))])].
Definition unavailable_error : transport_error := mkError None None (Some 503).

(** The first attempt fails, the second is answered. *)
Definition demo_env (k : Z) : attempt_env :=
  mkAttempt noon (noon + 100) true (if k =? 1 then RError unavailable_error else RPayload good_payload).
(** Every attempt fails. *)
Definition failing_env (k : Z) : attempt_env := mkAttempt noon (noon + 100) true (RError unavailable_error).

Definition demo_world : source_world := mkWorld newHealth None 0 jm_empty (startCounters noon None) [].

Definition demo_fetch (env : Z → attempt_env) :=
  fetchWithOutcome (BN := Q) no_number no_numtext no_issues demo_cb demo_budgets
    DEFAULT_CAPABILITIES KNOWN_SOURCES redstone env "XLM" 2 1 demo_world.
Definition demo_poll (envs : list (Z → attempt_env)) : source_world :=
  poll (BN := Q) no_number no_numtext no_issues demo_cb demo_budgets DEFAULT_CAPABILITIES
    KNOWN_SOURCES redstone ((λ e, (e, "XLM")) <$> envs) demo_world.

Definition demo_price : NormalizedPrice :=
  mkPrice "XLM" 11000000 8 redstone 1700049600 None (Some 1700049600).

Lemma fetched_price_faithful_witness :
  ∃ k payload, 1 <= k <= maxAttempts ∧ at_response (demo_env k) = RPayload payload ∧
    price_faithful (BN := Q) no_number no_numtext no_issues redstone "XLM" payload demo_price.
Proof.
  apply (fetched_price_faithful no_number no_numtext no_issues demo_cb demo_budgets
    DEFAULT_CAPABILITIES KNOWN_SOURCES redstone demo_env "XLM" demo_world
    (fst (demo_fetch demo_env)) (snd (demo_fetch demo_env)) demo_price).
  - apply surjective_pairing.
  - vm_compute. reflexivity.
Defined.

Lemma source_health_exact_witness :
  let h := sw_health (demo_poll [failing_env; demo_env]) in
  hl_totalRequests h = 3 ∧ hl_healthy h = (hl_consecutiveFailures h <? 3).
Proof.
  split; [vm_compute; reflexivity|].
  apply (source_health_exact (BN := Q) no_number no_numtext no_issues demo_cb demo_budgets
    DEFAULT_CAPABILITIES KNOWN_SOURCES redstone ((λ e, (e, "XLM")) <$> [failing_env; demo_env]) demo_world).
  reflexivity.
Defined.


(** The breaker has tripped and its cooldown is over. *)
Definition tripped_entry : CBEntry :=
  default (newEntry 0) (jm_get "redstone" (sw_breaker (demo_poll [failing_env]))).

Lemma recovery_limits_inert_witness :
  state tripped_entry = OPEN ∧
  snd (isAllowed demo_cb 0 (noon + 60000) "redstone" (sw_breaker (demo_poll [failing_env]))) = true.
Proof.
  split; [vm_compute; reflexivity|].
  apply (recovery_limits_inert (BN := Q) no_number no_numtext no_issues demo_cb demo_budgets
    DEFAULT_CAPABILITIES KNOWN_SOURCES redstone ((λ e, (e, "XLM")) <$> [failing_env]) demo_world
    "redstone" tripped_entry (noon + 60000) 0).
  - vm_compute. reflexivity.
  - reflexivity.
  - vm_compute. reflexivity.
  - vm_compute. reflexivity.
Defined.

Lemma open_circuit_fails_fast_witness :
  let w := mkWorld newHealth None 0 (sw_breaker (demo_poll [failing_env])) (startCounters noon None) [] in
  fo_failure (snd (fetchWithOutcome (BN := Q) no_number no_numtext no_issues demo_cb demo_budgets
    DEFAULT_CAPABILITIES KNOWN_SOURCES redstone demo_env "XLM" 2 1 w)) =
    Some (providerFailure circuit_open).
Proof.
  apply (open_circuit_fails_fast (BN := Q) no_number no_numtext no_issues demo_cb demo_budgets
    DEFAULT_CAPABILITIES KNOWN_SOURCES redstone demo_env "XLM"
    (mkWorld newHealth None 0 (sw_breaker (demo_poll [failing_env])) (startCounters noon None) [])
    tripped_entry).
  - vm_compute. reflexivity.
  - vm_compute. reflexivity.
  - vm_compute. reflexivity.
  - vm_compute. reflexivity.
Defined.

Definition ok_env (k : Z) : attempt_env := mkAttempt noon (noon + 100) true (RPayload good_payload).

(** A success leaves the uptime figure of the last failure in place: one failed
    request out of four is reported as an uptime of 0 percent. *)
Example uptime_stale :
  let h := sw_health (poll (BN := Q) no_number no_numtext no_issues demo_cb
    [("redstone", double_of_Z 100)] DEFAULT_CAPABILITIES KNOWN_SOURCES redstone
    [(demo_env, "XLM"); (ok_env, "XLM"); (ok_env, "XLM")] demo_world) in
  hl_totalRequests h = 4 ∧ hl_totalFailures h = 1 ∧ hl_healthy h = true ∧
  num_eqb (hl_uptimePercent h) (NInt 0) = true.
Proof. vm_compute. done. Qed.
