(* ===== verification/Merkle.v ===== *)
(** * Merkle batches

    Models [services/aggregator/src/infrastructure/merkle.ts]: the canonical leaf
    encoding, the tree with promotion of the last node of an odd level, proof
    generation and proof verification.  A [Buffer] is a list of byte values
    (integers 0..255); a string is a sequence of UTF-16 code units, encoded as
    [Buffer.from] does, lone surrogates becoming U+FFFD; decimals, timestamps and
    indices are integers.  The hash is the platform's SHA-256, a parameter of the
    model; the theorems use only that its digests are 32 bytes long, and
    soundness is stated as a reduction: an accepted proof of a value that was
    not committed exhibits a collision of the hash.

    Loops over tree levels run on fuel; [levels_complete] and
    [verifyLoop_complete] show that the fuel given (the number of leaves) is enough. *)

From Stdlib Require Import ZArith Lia.
From stdpp Require Import base tactics decidable list sets strings.
From S2P Require Import Prelude.

Local Open Scope Z_scope.

Abbreviation Buffer := (list Z).

(** A JavaScript string is a sequence of 16-bit code units. *)
Record code_unit : Type := mkUnit { cu_high : Byte.byte; cu_low : Byte.byte }.

Abbreviation js_string := (list code_unit).

(** The string of a literal whose characters are below U+0100. *)
Fixpoint lit (s : string) : js_string :=
  match s with
  | EmptyString => []
  | String c s' => mkUnit Byte.x00 (Ascii.byte_of_ascii c) :: lit s'
  end.

Record BatchPriceEntry : Type := mkBatchEntry {
  be_asset : js_string;
  be_price : Z;
  be_decimals : Z;
  be_timestamp : Z;
  be_source : js_string;
}.

Record MerkleProof : Type := mkProof {
  leafIndex : Z;
  siblings : list Buffer;
}.

(** What [Buffer.write*] throws on a value outside the width written. *)
Inductive merkle_error : Type := RangeError | EmptyEntryList | IndexOutOfRange.

Definition MAX_PROOF_SIBLINGS : nat := 64.
Definition LEAF_DOMAIN_TAG : Buffer := [0].
Definition NODE_DOMAIN_TAG : Buffer := [1].

(** ** Encoding *)

(** The value of a UTF-16 code unit, 0 to 65535. *)
Definition unitValue (u : code_unit) : Z :=
  256 * Z.of_N (Byte.to_N (cu_high u)) + Z.of_N (Byte.to_N (cu_low u)).

Definition isLead (u : Z) : bool := (55296 <=? u) && (u <=? 56319).
Definition isTrail (u : Z) : bool := (56320 <=? u) && (u <=? 57343).

(** The code points of a string as an encoder reads them: a lead surrogate
    followed by a trail surrogate is one code point above U+FFFF, a surrogate
    standing alone is replaced by U+FFFD. *)
Fixpoint codePoints (us : list Z) : list Z :=
  match us with
  | [] => []
  | u :: rest =>
      if isLead u then
        match rest with
        | v :: rest' => if isTrail v then (65536 + (u - 55296) * 1024 + (v - 56320)) :: codePoints rest'
                        else 65533 :: codePoints rest
        | [] => [65533]
        end
      else (if isTrail u then 65533 else u) :: codePoints rest
  end.

Definition points (s : js_string) : list Z := codePoints (map unitValue s).

Definition utf8_point (c : Z) : Buffer :=
  if c <? 128 then [c]
  else if c <? 2048 then [192 + c / 64; 128 + c mod 64]
  else if c <? 65536 then [224 + c / 4096; 128 + c / 64 mod 64; 128 + c mod 64]
  else [240 + c / 262144; 128 + c / 4096 mod 64; 128 + c / 64 mod 64; 128 + c mod 64].

(** [Buffer.from(s, 'utf8')] *)
Definition utf8 (s : js_string) : Buffer := concat (map utf8_point (points s)).

(** The low [n] bytes of [z], most significant first. *)
Fixpoint be_bytes (n : nat) (z : Z) : Buffer :=
  match n with
  | O => []
  | S n' => be_bytes n' (z / 256) ++ [z mod 256]
  end.

(** [BigInt.asUintN(64, z)] and [BigInt.asIntN(128, z)] *)
Definition asUint64 (z : Z) : Z := z mod 2 ^ 64.
Definition asInt128 (z : Z) : Z := (z + 2 ^ 127) mod 2 ^ 128 - 2 ^ 127.

(** The bytes hashed into a leaf, or the [RangeError] of a [Buffer] write. *)
Definition leafBytes (e : BatchPriceEntry) : result merkle_error Buffer :=
  let price := asInt128 (be_price e) in
  let high := asUint64 (Z.shiftr price 64) in
  let low := asUint64 (Z.land price 18446744073709551615) in
  if negb ((0 <=? be_decimals e) && (be_decimals e <? 2 ^ 32)) then Throw RangeError
  else if negb ((0 <=? be_timestamp e) && (be_timestamp e <? 2 ^ 64)) then Throw RangeError
  else Ok (LEAF_DOMAIN_TAG ++ utf8 (be_asset e) ++ [0] ++ (be_bytes 8 high ++ be_bytes 8 low)
             ++ be_bytes 4 (be_decimals e) ++ be_bytes 8 (be_timestamp e) ++ utf8 (be_source e)).

Section tree.
Context (sha256 : Buffer → Buffer).

Definition hashLeaf (e : BatchPriceEntry) : result merkle_error Buffer :=
  match leafBytes e with Ok bs => Ok (sha256 bs) | Throw err => Throw err end.

Definition hashPair (left right : Buffer) : Buffer :=
  sha256 (NODE_DOMAIN_TAG ++ left ++ right).

(** One round of the constructor's loop. *)
Fixpoint nextLevel (current : list Buffer) : list Buffer :=
  match current with
  | l :: r :: rest => hashPair l r :: nextLevel rest
  | [l] => [l]
  | [] => []
  end.

Fixpoint buildLevels (fuel : nat) (current : list Buffer) : list (list Buffer) :=
  current ::
  match fuel with
  | O => []
  | S fuel' => if (1 <? length current)%nat then buildLevels fuel' (nextLevel current) else []
  end.

Record MerkleTree : Type := mkTree {
  leaves : list Buffer;
  levels : list (list Buffer);
}.

Fixpoint hashLeaves (entries : list BatchPriceEntry) : result merkle_error (list Buffer) :=
  match entries with
  | [] => Ok []
  | e :: rest =>
      match hashLeaf e with
      | Throw err => Throw err
      | Ok h => match hashLeaves rest with Throw err => Throw err | Ok hs => Ok (h :: hs) end
      end
  end.

(** [new MerkleTree(entries)] *)
Definition newTree (entries : list BatchPriceEntry) : result merkle_error MerkleTree :=
  match entries with
  | [] => Throw EmptyEntryList
  | _ => match hashLeaves entries with
         | Throw err => Throw err
         | Ok ls => Ok (mkTree ls (buildLevels (length ls) ls))
         end
  end.

Definition root (t : MerkleTree) : Buffer :=
  default [] (head (default [] (last (levels t)))).

Definition size (t : MerkleTree) : nat := length (leaves t).

(** The loop of [getProof] over all levels but the last. *)
Fixpoint proofSiblings (lvls : list (list Buffer)) (index : nat) : list Buffer :=
  match lvls with
  | [] | [_] => []
  | nodes :: rest =>
      let isLast := (index =? length nodes - 1)%nat in
      let isOddLevel := (length nodes mod 2 =? 1)%nat in
      let here := if isLast && isOddLevel then []
                  else [default [] (nodes !! (if (index mod 2 =? 0)%nat
                                              then (index + 1)%nat else (index - 1)%nat))] in
      here ++ proofSiblings rest (index / 2)%nat
  end.

Definition getProof (t : MerkleTree) (i : Z) : result merkle_error MerkleProof :=
  if (i <? 0) || (Z.of_nat (length (leaves t)) <=? i) then Throw IndexOutOfRange
  else Ok (mkProof i (proofSiblings (levels t) (Z.to_nat i))).

(** The loop of [verifyProof]: [None] when the siblings run out. *)
Fixpoint verifyLoop (fuel : nat) (current : Buffer) (index levelSize : Z) (sibs : list Buffer)
    : option Buffer :=
  if (1 <? levelSize) then
    match fuel with
    | O => None
    | S fuel' =>
        let isLast := index =? levelSize - 1 in
        let isOddLevel := levelSize mod 2 =? 1 in
        if isLast && isOddLevel
        then verifyLoop fuel' current (index / 2) ((levelSize + 1) / 2) sibs
        else match sibs with
             | [] => None
             | s :: sibs' =>
                 let current' := if Z.rem index 2 =? 0 then hashPair current s
                                 else hashPair s current in
                 verifyLoop fuel' current' (index / 2) ((levelSize + 1) / 2) sibs'
             end
    end
  else Some current.

Definition verifyProof (t : MerkleTree) (e : BatchPriceEntry) (proof : MerkleProof)
    : result merkle_error bool :=
  if (MAX_PROOF_SIBLINGS <? length (siblings proof))%nat then Ok false
  else match hashLeaf e with
       | Throw err => Throw err
       | Ok h =>
           match verifyLoop (length (leaves t)) h (leafIndex proof)
                   (Z.of_nat (length (leaves t))) (siblings proof) with
           | None => Ok false
           | Some h' => Ok (bool_decide (h' = root t))
           end
       end.

Record MerkleBatch : Type := mkBatch {
  mb_root : Buffer; mb_batchSize : nat;
  mb_entries : list BatchPriceEntry; mb_proofs : list MerkleProof }.

(** [entries.map((_, i) => tree.getProof(i))] from index [i] on *)
Fixpoint getProofs (t : MerkleTree) (i : Z) (entries : list BatchPriceEntry)
    : result merkle_error (list MerkleProof) :=
  match entries with
  | [] => Ok []
  | _ :: rest =>
      match getProof t i with
      | Throw err => Throw err
      | Ok p => match getProofs t (i + 1) rest with
                | Throw err => Throw err
                | Ok ps => Ok (p :: ps)
                end
      end
  end.

(** [MerkleTree.build] *)
Definition build (entries : list BatchPriceEntry) : result merkle_error MerkleBatch :=
  match newTree entries with
  | Throw err => Throw err
  | Ok t => match getProofs t 0 entries with
            | Throw err => Throw err
            | Ok proofs => Ok (mkBatch (root t) (size t) entries proofs)
            end
  end.
End tree.

(** ** What the leaf bytes determine *)

Definition no_nul (s : js_string) : bool := forallb (λ u, negb (unitValue u =? 0)) s.

(** [String.prototype.isWellFormed]: no surrogate stands alone. *)
Fixpoint wellFormed (us : list Z) : bool :=
  match us with
  | [] => true
  | u :: rest =>
      if isLead u then match rest with v :: rest' => isTrail v && wellFormed rest' | [] => false end
      else negb (isTrail u) && wellFormed rest
  end.

(** What a leaf commits to: the code points of the two strings, the price
    modulo 2^128, and the two numbers. *)
Definition canonical (e : BatchPriceEntry) : list Z * Z * Z * Z * list Z :=
  (points (be_asset e), asInt128 (be_price e), be_decimals e, be_timestamp e, points (be_source e)).

(** The units of a code point, the inverse of [codePoints] on well-formed strings. *)
Definition pointUnits (c : Z) : list Z :=
  if c <? 65536 then [c] else [55296 + (c - 65536) / 1024; 56320 + (c - 65536) mod 1024].

Lemma unitValue_bound u : 0 ≤ unitValue u < 65536.
Proof.
  unfold unitValue. destruct u as [h l]. cbn [cu_high cu_low].
  pose proof (Byte.to_N_bounded h). pose proof (Byte.to_N_bounded l). lia.
Qed.

Lemma to_N_inj b1 b2 : Byte.to_N b1 = Byte.to_N b2 → b1 = b2.
Proof.
  intros Heq. apply (f_equal Byte.of_N) in Heq. rewrite !Byte.of_to_N in Heq. congruence.
Qed.

#[local] Instance unitValue_inj : Inj (=) (=) unitValue.
Proof.
  intros [h1 l1] [h2 l2]. unfold unitValue. cbn [cu_high cu_low].
  pose proof (Byte.to_N_bounded l1). pose proof (Byte.to_N_bounded l2). intros Heq.
  f_equal; apply to_N_inj; lia.
Qed.

(** Induction on a string the way [codePoints] reads it. *)
Lemma units_ind (P : list Z → Prop) :
  P [] →
  (∀ u v us, isLead u = true → isTrail v = true → P us → P (u :: v :: us)) →
  (∀ u us, isLead u = true → codePoints (u :: us) = 65533 :: codePoints us →
     wellFormed (u :: us) = false → P us → P (u :: us)) →
  (∀ u us, isLead u = false → P us → P (u :: us)) →
  ∀ us, P us.
Proof.
  intros H0 Hpair Hlone Hbmp us. enough (P us ∧ ∀ u, P (u :: us)) by tauto.
  assert (∀ u l, P l → (∀ v l', l = v :: l' → isTrail v = true → P l') → P (u :: l)) as Hone.
  { intros u l Hl Htail. destruct (isLead u) eqn:Hu; [|by apply Hbmp].
    destruct l as [|v l']; [apply Hlone; [done|cbn; by rewrite Hu|cbn; by rewrite Hu|done]|].
    destruct (isTrail v) eqn:Hv; [apply Hpair; eauto|].
    apply Hlone; [done|cbn [codePoints]; by rewrite Hu, Hv|cbn [wellFormed]; by rewrite Hu, Hv|done]. }
  induction us as [|v us [IH1 IH2]]; split; auto.
  - intros u. by apply Hone.
  - intros u. apply Hone; [auto|]. by intros v' l' [= -> ->] _.
Qed.

Ltac surrogates := unfold isLead, isTrail in *; to_prop.

Lemma codePoints_bound us :
  Forall (λ u, 0 ≤ u < 65536) us → Forall (λ c, 0 ≤ c < 1114112) (codePoints us).
Proof.
  induction us as [|u v us Hu Hv IH|u us Hu Hcp _ IH|u us Hu IH] using units_ind; intros Hus.
  - constructor.
  - apply Forall_cons in Hus as [_ [_ Hus]%Forall_cons]. cbn [codePoints]. rewrite Hu, Hv.
    constructor; [surrogates; lia|auto].
  - apply Forall_cons in Hus as [_ Hus]. rewrite Hcp. constructor; [lia|auto].
  - apply Forall_cons in Hus as [? Hus]. cbn [codePoints]. rewrite Hu.
    constructor; [case_match; lia|auto].
Qed.

Lemma codePoints_nonzero us : 0 ∉ us → Forall (λ u, 0 ≤ u < 65536) us → 0 ∉ codePoints us.
Proof.
  induction us as [|u v us Hu Hv IH|u us Hu Hcp _ IH|u us Hu IH] using units_ind; intros H0 Hus.
  - done.
  - apply Forall_cons in Hus as [_ [_ Hus]%Forall_cons]. cbn [codePoints]. rewrite Hu, Hv.
    apply not_elem_of_cons. split; [surrogates; lia|]. apply IH; [set_solver|done].
  - apply Forall_cons in Hus as [_ Hus]. rewrite Hcp. apply not_elem_of_cons.
    split; [lia|]. apply IH; [set_solver|done].
  - apply Forall_cons in Hus as [_ Hus]. cbn [codePoints]. rewrite Hu.
    apply not_elem_of_cons in H0 as [? H0]. apply not_elem_of_cons.
    split; [case_match; lia|by apply IH].
Qed.

(** On well-formed strings the code points give the units back. *)
Lemma pointUnits_codePoints us :
  wellFormed us = true → Forall (λ u, 0 ≤ u < 65536) us →
  concat (map pointUnits (codePoints us)) = us.
Proof.
  induction us as [|u v us Hu Hv IH|u us Hu _ Hwf IH|u us Hu IH] using units_ind; intros Hw Hus.
  - done.
  - apply Forall_cons in Hus as [_ [_ Hus]%Forall_cons]. cbn [wellFormed] in Hw.
    rewrite Hu, Hv in Hw. cbn [codePoints]. rewrite Hu, Hv. cbn [map concat].
    rewrite IH by done. unfold pointUnits. surrogates. rewrite (proj2 (Z.ltb_ge _ _)) by lia.
    replace (65536 + (u - 55296) * 1024 + (v - 56320) - 65536) with ((v - 56320) + (u - 55296) * 1024) by lia.
    rewrite Z.div_add, Z.mod_add, Z.div_small, Z.mod_small by lia. cbn [app]. do 2 f_equal; lia.
  - congruence.
  - apply Forall_cons in Hus as [Hb Hus]. cbn [wellFormed] in Hw. rewrite Hu in Hw.
    apply andb_true_iff in Hw as [Ht%negb_true_iff Hw]. cbn [codePoints]. rewrite Hu, Ht. cbn [map concat].
    rewrite IH by done. unfold pointUnits. by rewrite (proj2 (Z.ltb_lt _ _)) by lia.
Qed.

Lemma units_bound s : Forall (λ u, 0 ≤ u < 65536) (map unitValue s).
Proof. induction s; simpl; constructor; auto using unitValue_bound. Qed.

Lemma points_inj s1 s2 :
  wellFormed (map unitValue s1) = true → wellFormed (map unitValue s2) = true →
  points s1 = points s2 → s1 = s2.
Proof.
  unfold points. intros H1 H2 Heq. apply (f_equal (λ l, concat (map pointUnits l))) in Heq.
  rewrite !pointUnits_codePoints in Heq by (done || apply units_bound).
  by apply (inj (fmap unitValue)) in Heq.
Qed.

(** UTF-8 is a prefix code. *)
Lemma utf8_point_app_inj c1 c2 r1 r2 :
  0 ≤ c1 < 1114112 → 0 ≤ c2 < 1114112 →
  utf8_point c1 ++ r1 = utf8_point c2 ++ r2 → c1 = c2 ∧ r1 = r2.
Proof.
  intros H1 H2. unfold utf8_point.
  repeat match goal with |- context [Z.ltb ?a ?b] => destruct (Z.ltb_spec a b) end;
    cbn [app]; intros Heq; simplify_eq; (split; [|done]) || exfalso;
    Z.to_euclidean_division_equations; lia.
Qed.

Lemma utf8_points_inj l1 l2 :
  Forall (λ c, 0 ≤ c < 1114112) l1 → Forall (λ c, 0 ≤ c < 1114112) l2 →
  concat (map utf8_point l1) = concat (map utf8_point l2) → l1 = l2.
Proof.
  assert (∀ c r, utf8_point c ++ r ≠ []) as Hne
    by (intros c r; unfold utf8_point; repeat case_match; done).
  intros H1. revert l2. induction H1 as [|c1 l1 Hc1 _ IH]; intros [|c2 l2] H2; simpl; intros Heq.
  - done.
  - by destruct (Hne c2 (concat (map utf8_point l2))).
  - by destruct (Hne c1 (concat (map utf8_point l1))).
  - apply Forall_cons in H2 as [Hc2 H2]. apply utf8_point_app_inj in Heq as [-> Heq]; [|done..].
    f_equal. by apply IH.
Qed.

Lemma utf8_inj s1 s2 : utf8 s1 = utf8 s2 → points s1 = points s2.
Proof. apply utf8_points_inj; apply codePoints_bound, units_bound. Qed.

Lemma utf8_point_no_zero c : 0 < c → 0 ∉ utf8_point c.
Proof.
  intros Hc Hin. unfold utf8_point in Hin.
  repeat match type of Hin with context [Z.ltb ?a ?b] => destruct (Z.ltb_spec a b) end;
    repeat (apply elem_of_cons in Hin as [Hin|Hin];
      [Z.to_euclidean_division_equations; lia|]); by apply not_elem_of_nil in Hin.
Qed.

Lemma utf8_no_zero s : no_nul s = true → 0 ∉ utf8 s.
Proof.
  intros Hs. assert (0 ∉ points s) as H0.
  { apply codePoints_nonzero; [|apply units_bound].
    intros (u & Hu & Hin)%list_elem_of_fmap. apply list_elem_of_In in Hin.
    apply (proj1 (forallb_forall _ _) Hs) in Hin. to_prop. lia. }
  pose proof (codePoints_bound _ (units_bound s)) as Hb. fold (points s) in Hb. unfold utf8.
  revert H0 Hb. generalize (points s). intros l. induction l as [|c l IH]; simpl; [set_solver|].
  intros [Hc H0]%not_elem_of_cons [Hcb Hb]%Forall_cons [Hin|Hin]%elem_of_app; [|by apply IH].
  by apply utf8_point_no_zero in Hin; [|lia].
Qed.

Lemma be_bytes_length n z : length (be_bytes n z) = n.
Proof. revert z. induction n as [|n IH]; intros z; simpl; [done|]. rewrite length_app, IH. simpl. lia. Qed.

Lemma be_bytes_inj n z1 z2 :
  be_bytes n z1 = be_bytes n z2 → z1 mod 256 ^ Z.of_nat n = z2 mod 256 ^ Z.of_nat n.
Proof.
  revert z1 z2. induction n as [|n IH]; intros z1 z2; simpl be_bytes.
  { by rewrite !Z.mod_1_r. }
  intros [H1 H2]%app_inj_tail. apply IH in H1.
  rewrite Nat2Z.inj_succ, Z.pow_succ_r by lia.
  rewrite !Z.rem_mul_r by lia. by rewrite H1, H2.
Qed.

Lemma be_bytes_inj_small n z1 z2 :
  0 ≤ z1 < 256 ^ Z.of_nat n → 0 ≤ z2 < 256 ^ Z.of_nat n →
  be_bytes n z1 = be_bytes n z2 → z1 = z2.
Proof. intros H1 H2 Heq%be_bytes_inj. by rewrite !Z.mod_small in Heq. Qed.

Lemma asInt128_id z : - 2 ^ 127 ≤ z < 2 ^ 127 → asInt128 z = z.
Proof. intros Hz. unfold asInt128. rewrite Z.mod_small; lia. Qed.

Lemma split128_inj p1 p2 :
  - 2 ^ 127 ≤ p1 < 2 ^ 127 → - 2 ^ 127 ≤ p2 < 2 ^ 127 →
  asUint64 (Z.shiftr p1 64) = asUint64 (Z.shiftr p2 64) →
  asUint64 (Z.land p1 18446744073709551615) = asUint64 (Z.land p2 18446744073709551615) →
  p1 = p2.
Proof.
  unfold asUint64. intros Hr1 Hr2. change 18446744073709551615 with (Z.ones 64).
  rewrite !Z.shiftr_div_pow2, !Z.land_ones, !Z.mod_mod by lia. intros Hh Hl.
  rewrite (Z.div_mod p1 (2 ^ 64)), (Z.div_mod p2 (2 ^ 64)), Hl by lia. do 2 f_equal.
  assert (∀ p, - 2 ^ 127 ≤ p < 2 ^ 127 → - 2 ^ 63 ≤ p / 2 ^ 64 < 2 ^ 63) as Hb.
  { intros p Hp. assert (2 ^ 127 = 2 ^ 64 * 2 ^ 63) as Hc by reflexivity.
    rewrite Hc in Hp. split; [apply Z.div_le_lower_bound; lia|apply Z.div_lt_upper_bound; lia]. }
  pose proof (Hb p1 Hr1). pose proof (Hb p2 Hr2).
  pose proof (Z.div_mod (p1 / 2 ^ 64) (2 ^ 64)). pose proof (Z.div_mod (p2 / 2 ^ 64) (2 ^ 64)).
  lia.
Qed.

Lemma asInt128_bound z : - 2 ^ 127 ≤ asInt128 z < 2 ^ 127.
Proof. unfold asInt128. pose proof (Z.mod_pos_bound (z + 2 ^ 127) (2 ^ 128)). lia. Qed.

#[local] Arguments be_bytes : simpl never.

Lemma leafBytes_ok e bs :
  leafBytes e = Ok bs →
  0 ≤ be_decimals e < 2 ^ 32 ∧ 0 ≤ be_timestamp e < 2 ^ 64 ∧
  bs = 0 :: utf8 (be_asset e) ++ 0 :: be_bytes 8 (asUint64 (Z.shiftr (asInt128 (be_price e)) 64)) ++
         be_bytes 8 (asUint64 (Z.land (asInt128 (be_price e)) 18446744073709551615)) ++
         be_bytes 4 (be_decimals e) ++ be_bytes 8 (be_timestamp e) ++ utf8 (be_source e).
Proof.
  unfold leafBytes.
  destruct ((0 <=? be_decimals e) && (be_decimals e <? 2 ^ 32)) eqn:Hd; [|done].
  destruct ((0 <=? be_timestamp e) && (be_timestamp e <? 2 ^ 64)) eqn:Ht; [|done].
  cbn [negb]. intros <-%(inj Ok). to_prop. by rewrite <- (app_assoc (be_bytes 8 _)).
Qed.

(** Equal leaf bytes mean equal canonical entries. *)
Lemma leafBytes_canonical e1 e2 bs :
  no_nul (be_asset e1) = true → no_nul (be_asset e2) = true →
  leafBytes e1 = Ok bs → leafBytes e2 = Ok bs → canonical e1 = canonical e2.
Proof.
  intros Ha1 Ha2 (Hd1 & Ht1 & H1)%leafBytes_ok (Hd2 & Ht2 & H2)%leafBytes_ok.
  subst bs. apply (f_equal tail) in H2. cbn [tail] in H2.
  apply not_elem_of_app_cons_inv_l in H2 as (Ha & _ & Hrest); [|by apply utf8_no_zero..].
  apply utf8_inj in Ha.
  apply app_inj_1 in Hrest as [Hhigh Hrest]; [|by rewrite !be_bytes_length].
  apply app_inj_1 in Hrest as [Hlow Hrest]; [|by rewrite !be_bytes_length].
  apply app_inj_1 in Hrest as [Hd Hrest]; [|by rewrite !be_bytes_length].
  apply app_inj_1 in Hrest as [Ht Hs]; [|by rewrite !be_bytes_length].
  apply utf8_inj in Hs.
  apply be_bytes_inj_small in Hd; [|done..]. apply be_bytes_inj_small in Ht; [|done..].
  apply be_bytes_inj_small in Hhigh; [|by apply Z.mod_pos_bound..].
  apply be_bytes_inj_small in Hlow; [|by apply Z.mod_pos_bound..].
  assert (asInt128 (be_price e1) = asInt128 (be_price e2))
    by (apply split128_inj; auto using asInt128_bound).
  unfold canonical. congruence.
Qed.

(** The bytes are a function of the canonical entry. *)
Lemma canonical_leafBytes e1 e2 : canonical e1 = canonical e2 → leafBytes e1 = leafBytes e2.
Proof. unfold canonical. intros [= Ha Hp Hd Ht Hs]. unfold leafBytes, utf8. by rewrite Ha, Hp, Hd, Ht, Hs. Qed.

(** Entries on which the canonical form loses nothing. *)
Definition entry_ok (e : BatchPriceEntry) : Prop :=
  wellFormed (map unitValue (be_asset e)) = true ∧ wellFormed (map unitValue (be_source e)) = true ∧
  - 2 ^ 127 ≤ be_price e < 2 ^ 127.

Lemma canonical_inj e1 e2 : entry_ok e1 → entry_ok e2 → canonical e1 = canonical e2 → e1 = e2.
Proof.
  intros (Ha1 & Hs1 & Hp1) (Ha2 & Hs2 & Hp2). unfold canonical.
  rewrite !asInt128_id by done. intros [= Ha%points_inj Hp Hd Ht Hs%points_inj]; [|done..].
  destruct e1, e2; simpl in *; congruence.
Qed.

(** C7: what a leaf commits to. Two encodable entries whose assets contain no
    NUL character have the same leaf bytes exactly when they have the same
    code points in asset and source, the same decimals and timestamp, and
    prices equal modulo 2^128; where the strings have no lone surrogate and the
    prices fit an [i128], the same bytes mean the same entry. *)
Theorem leaf_encoding_injective e1 e2 b1 b2 :
  no_nul (be_asset e1) = true → no_nul (be_asset e2) = true →
  leafBytes e1 = Ok b1 → leafBytes e2 = Ok b2 →
  (b1 = b2 ↔ canonical e1 = canonical e2) ∧
  (entry_ok e1 → entry_ok e2 → b1 = b2 → e1 = e2).
Proof.
  intros Ha1 Ha2 H1 H2.
  assert (b1 = b2 → canonical e1 = canonical e2) as Hinj
    by (intros <-; by eapply leafBytes_canonical).
  split; [split; [done|]|].
  - intros Hc%canonical_leafBytes. congruence.
  - intros Hok1 Hok2 Heq. by apply canonical_inj; [| |apply Hinj].
Qed.

Definition xlm_entry (price : Z) : BatchPriceEntry :=
  mkBatchEntry (lit "XLM") price 8 1700000000 (lit "chainlink").

Definition leaf_of (e : BatchPriceEntry) : Buffer :=
  match leafBytes e with Ok b => b | Throw _ => [] end.

(** A price and its negative do not encode alike; prices 2^128 apart do. *)
Lemma leaf_encoding_injective_witness :
  leaf_of (xlm_entry 11000000) ≠ leaf_of (xlm_entry (-11000000)) ∧
  leaf_of (xlm_entry 11000000) = leaf_of (xlm_entry (11000000 + 2 ^ 128)).
Proof.
  split.
  - intros Heq.
    apply (proj1 (proj1 (leaf_encoding_injective (xlm_entry 11000000) (xlm_entry (-11000000)) _ _
      eq_refl eq_refl eq_refl eq_refl))) in Heq. vm_compute in Heq. discriminate.
  - apply (proj1 (leaf_encoding_injective (xlm_entry 11000000) (xlm_entry (11000000 + 2 ^ 128)) _ _
      eq_refl eq_refl eq_refl eq_refl)). vm_compute. reflexivity.
Defined.

(** The three ways in which different entries share a leaf: prices that differ
    by 2^128, lone surrogates, and a NUL in the asset, which moves the boundary
    between the fields. *)
Example price_wraps : leafBytes (xlm_entry 7) = leafBytes (xlm_entry (7 + 2 ^ 128)).
Proof. vm_compute. reflexivity. Qed.

Example lone_surrogates_collide :
  let e u := mkBatchEntry [u] 7 8 1700000000 (lit "band") in
  leafBytes (e (mkUnit Byte.xd8 Byte.x00)) = leafBytes (e (mkUnit Byte.xdf Byte.xff)).
Proof. vm_compute. reflexivity. Qed.

Example nul_moves_boundary :
  let nul := mkUnit Byte.x00 Byte.x00 in
  leafBytes (mkBatchEntry [nul] 2816000000 0 1700000000 (lit "band")) =
  leafBytes (mkBatchEntry [] 11000000 0 6640625 (nul :: lit "band")).
Proof. vm_compute. reflexivity. Qed.

(** ** Levels of the tree *)

Lemma list_pair_ind {A} (P : list A → Prop) :
  P [] → (∀ x, P [x]) → (∀ x y l, P l → P (x :: y :: l)) → ∀ l, P l.
Proof.
  intros H0 H1 H2 l. enough (P l ∧ ∀ x, P (x :: l)) by tauto.
  induction l as [|x l [IH1 IH2]]; split; auto.
Qed.

Section tree_facts.
Context (sha256 : Buffer → Buffer).
Implicit Types (l : list Buffer).


Lemma nextLevel_length l : length (nextLevel sha256 l) = ((length l + 1) / 2)%nat.
Proof.
  induction l as [|x|x y l IH] using list_pair_ind; [done|done|].
  cbn [nextLevel length]. rewrite IH.
  replace (S (S (length l)) + 1)%nat with (length l + 1 + 1 * 2)%nat by lia.
  rewrite Nat.div_add by lia. lia.
Qed.

(** An inner pair. *)
Lemma nextLevel_pair l j a b :
  l !! (2 * j)%nat = Some a → l !! (2 * j + 1)%nat = Some b →
  nextLevel sha256 l !! j = Some (hashPair sha256 a b).
Proof.
  revert j. induction l as [|x|x y l IH] using list_pair_ind; intros j Ha Hb; [done| |].
  { by destruct j. }
  destruct j as [|j]; cbn [nextLevel]; [by simplify_eq/=|].
  replace (2 * S j)%nat with (S (S (2 * j))) in Ha by lia.
  replace (2 * S j + 1)%nat with (S (S (2 * j + 1))) in Hb by lia. by apply IH.
Qed.

(** The promoted last node of an odd level. *)
Lemma nextLevel_promoted l j :
  length l = (2 * j + 1)%nat → nextLevel sha256 l !! j = l !! (2 * j)%nat.
Proof.
  revert j. induction l as [|x|x y l IH] using list_pair_ind; intros j Hl; simpl in Hl; [lia| |].
  { by assert (j = 0)%nat as -> by lia. }
  destruct j as [|j]; [lia|]. cbn [nextLevel].
  replace (2 * S j)%nat with (S (S (2 * j))) by lia. apply IH. lia.
Qed.

Lemma half_lt n : (1 < n)%nat → ((n + 1) / 2 < n)%nat.
Proof. intros Hn. apply Nat.Div0.div_lt_upper_bound; lia. Qed.
Lemma half_pos n : (0 < n)%nat → (0 < (n + 1) / 2)%nat.
Proof. intros Hn. apply Nat.div_str_pos. lia. Qed.

(** The root a list of nodes reduces to. *)
Definition reduce (fuel : nat) l : Buffer :=
  default [] (head (default [] (last (buildLevels sha256 fuel l)))).

Lemma buildLevels_cons fuel l : ∃ rest, buildLevels sha256 fuel l = l :: rest.
Proof. destruct fuel; simpl; eauto. Qed.

Lemma reduce_step fuel l :
  (1 < length l)%nat → reduce (S fuel) l = reduce fuel (nextLevel sha256 l).
Proof.
  intros Hl. unfold reduce. cbn [buildLevels]. rewrite (proj2 (Nat.ltb_lt _ _) Hl).
  destruct (buildLevels_cons fuel (nextLevel sha256 l)) as [rest ->]. done.
Qed.

Lemma reduce_done fuel x : reduce fuel [x] = x.
Proof. by destruct fuel. Qed.

(** The last level is a single node: the fuel is enough. *)
Lemma levels_complete fuel l :
  (0 < length l ≤ fuel)%nat → ∃ r, last (buildLevels sha256 fuel l) = Some [r].
Proof.
  revert l. induction fuel as [|fuel IH]; intros l Hl; [lia|].
  cbn [buildLevels]. destruct (Nat.ltb_spec 1 (length l)) as [H1|H1].
  - destruct (IH (nextLevel sha256 l)) as [r Hr].
    { rewrite nextLevel_length. pose proof (half_lt _ H1). pose proof (half_pos (length l)). lia. }
    exists r. destruct (buildLevels_cons fuel (nextLevel sha256 l)) as [rest Hb].
    rewrite Hb in *. done.
  - destruct l as [|x [|]]; simpl in *; [lia|eauto|lia].
Qed.

Lemma levels_count k fuel l :
  (length l ≤ 2 ^ k)%nat → (length (buildLevels sha256 fuel l) ≤ S k)%nat.
Proof.
  revert k l. induction fuel as [|fuel IH]; intros k l Hl; simpl; [lia|].
  destruct (Nat.ltb_spec 1 (length l)) as [H1|H1]; simpl; [|lia].
  destruct k as [|k]; [simpl in Hl; lia|]. enough (length (buildLevels sha256 fuel (nextLevel sha256 l)) ≤ S k)%nat by lia.
  apply IH. rewrite nextLevel_length. rewrite Nat.pow_succ_r' in Hl.
  apply Nat.lt_succ_r, Nat.Div0.div_lt_upper_bound; lia.
Qed.

(** The sibling a level contributes to a proof. *)
Definition siblingAt l (i : nat) : list Buffer :=
  if (i =? length l - 1)%nat && (length l mod 2 =? 1)%nat then []
  else [default [] (l !! (if (i mod 2 =? 0)%nat then (i + 1)%nat else (i - 1)%nat))].

Lemma proofSiblings_cons l l' rest i :
  proofSiblings (l :: l' :: rest) i = siblingAt l i ++ proofSiblings (l' :: rest) (i / 2).
Proof. done. Qed.

Lemma proofSiblings_length lvls i : (length (proofSiblings lvls i) ≤ length lvls - 1)%nat.
Proof.
  revert i. induction lvls as [|l [|l' rest] IH]; intros i; [simpl; lia..|].
  rewrite proofSiblings_cons, length_app. specialize (IH (i / 2)%nat).
  assert (length (siblingAt l i) ≤ 1)%nat by (unfold siblingAt; case_match; simpl; lia).
  cbn [length] in *. lia.
Qed.

Lemma Z_half_index i : Z.of_nat i / 2 = Z.of_nat (i / 2).
Proof. by rewrite Nat2Z.inj_div. Qed.
Lemma Z_half_size n : (Z.of_nat n + 1) / 2 = Z.of_nat ((n + 1) / 2).
Proof. rewrite Nat2Z.inj_div. f_equal. lia. Qed.
Lemma Z_even_index i : (Z.rem (Z.of_nat i) 2 =? 0) = (i mod 2 =? 0)%nat.
Proof.
  rewrite Z.rem_mod_nonneg by lia. change 2 with (Z.of_nat 2). rewrite <- Nat2Z.inj_mod.
  destruct (Nat.eqb_spec (i mod 2) 0) as [->|Hne]; [done|]. apply Z.eqb_neq. lia.
Qed.
Lemma Z_last_index i n :
  (0 < n)%nat → (Z.of_nat i =? Z.of_nat n - 1) = (i =? n - 1)%nat.
Proof.
  intros Hn. destruct (Nat.eqb_spec i (n - 1)) as [->|Hne]; [apply Z.eqb_eq|apply Z.eqb_neq]; lia.
Qed.
Lemma Z_odd_size n : (Z.of_nat n mod 2 =? 1) = (n mod 2 =? 1)%nat.
Proof.
  change 2 with (Z.of_nat 2). rewrite <- Nat2Z.inj_mod.
  destruct (Nat.eqb_spec (n mod 2) 1) as [->|Hne]; [done|]. apply Z.eqb_neq. lia.
Qed.

(** One unfolding of the verification loop, on natural-number positions. *)
Lemma verifyLoop_step fuel cur i n sibs :
  (1 < n)%nat →
  verifyLoop sha256 (S fuel) cur (Z.of_nat i) (Z.of_nat n) sibs =
    if (i =? n - 1)%nat && (n mod 2 =? 1)%nat
    then verifyLoop sha256 fuel cur (Z.of_nat (i / 2)) (Z.of_nat ((n + 1) / 2)) sibs
    else match sibs with
         | [] => None
         | s :: sibs' =>
             verifyLoop sha256 fuel (if (i mod 2 =? 0)%nat then hashPair sha256 cur s else hashPair sha256 s cur)
               (Z.of_nat (i / 2)) (Z.of_nat ((n + 1) / 2)) sibs'
         end.
Proof.
  intros Hn. cbn [verifyLoop]. rewrite (proj2 (Z.ltb_lt 1 (Z.of_nat n))) by lia.
  by rewrite Z_last_index, Z_odd_size, Z_half_index, Z_half_size, Z_even_index by lia.
Qed.

Lemma verifyLoop_done fuel cur i n sibs :
  (n ≤ 1)%nat → verifyLoop sha256 fuel cur i (Z.of_nat n) sibs = Some cur.
Proof. intros Hn. destruct fuel; simpl; by rewrite (proj2 (Z.ltb_ge 1 (Z.of_nat n))) by lia. Qed.

(** ** Completeness *)

Lemma even_odd_cases i : i = (2 * (i / 2))%nat ∧ (i mod 2 = 0)%nat ∨
  i = (2 * (i / 2) + 1)%nat ∧ (i mod 2 = 1)%nat.
Proof. pose proof (Nat.div_mod_eq i 2). pose proof (Nat.mod_upper_bound i 2). lia. Qed.

(** The node above position [i] and how the verifier computes it. *)
Lemma level_step l i cur :
  (1 < length l)%nat → l !! i = Some cur →
  if (i =? length l - 1)%nat && (length l mod 2 =? 1)%nat
  then nextLevel sha256 l !! (i / 2)%nat = Some cur
  else ∃ s, siblingAt l i = [s] ∧ s ∈ l ∧
    nextLevel sha256 l !! (i / 2)%nat =
      Some (if (i mod 2 =? 0)%nat then hashPair sha256 cur s else hashPair sha256 s cur).
Proof.
  intros Hl Hi. pose proof (lookup_lt_Some _ _ _ Hi) as Hlt. unfold siblingAt.
  destruct (even_odd_cases (length l)) as [[Hn Hm]|[Hn Hm]], (even_odd_cases i) as [[Hj Hk]|[Hj Hk]];
    rewrite Hm, Hk; cbn [Nat.eqb]; rewrite ?andb_false_r, ?andb_true_r.
  - destruct (lookup_lt_is_Some_2 l (i + 1)) as [s Hs]; [lia|].
    exists s. rewrite Hs. split_and!; [done|by eapply list_elem_of_lookup_2|].
    apply nextLevel_pair; [by rewrite <- Hj|by rewrite <- Hj].
  - destruct (lookup_lt_is_Some_2 l (i - 1)) as [s Hs]; [lia|].
    exists s. rewrite Hs. split_and!; [done|by eapply list_elem_of_lookup_2|].
    apply nextLevel_pair; [by replace (2 * (i / 2))%nat with (i - 1)%nat by lia|by rewrite <- Hj].
  - destruct (Nat.eqb_spec i (length l - 1)).
    + rewrite nextLevel_promoted by lia. by rewrite <- Hj.
    + destruct (lookup_lt_is_Some_2 l (i + 1)) as [s Hs]; [lia|].
      exists s. rewrite Hs. split_and!; [done|by eapply list_elem_of_lookup_2|].
      apply nextLevel_pair; [by rewrite <- Hj|by rewrite <- Hj].
  - destruct (Nat.eqb_spec i (length l - 1)); [lia|].
    destruct (lookup_lt_is_Some_2 l (i - 1)) as [s Hs]; [lia|].
    exists s. rewrite Hs. split_and!; [done|by eapply list_elem_of_lookup_2|].
    apply nextLevel_pair; [by replace (2 * (i / 2))%nat with (i - 1)%nat by lia|by rewrite <- Hj].
Qed.

Lemma nextLevel_fuel fuel l :
  (1 < length l)%nat → (length l ≤ S fuel)%nat → (length (nextLevel sha256 l) ≤ fuel)%nat.
Proof. intros H1 Hf. rewrite nextLevel_length. pose proof (half_lt _ H1). lia. Qed.

Lemma verifyLoop_complete fuel l i cur extra :
  (length l ≤ fuel)%nat → l !! i = Some cur →
  verifyLoop sha256 fuel cur (Z.of_nat i) (Z.of_nat (length l))
    (proofSiblings (buildLevels sha256 fuel l) i ++ extra) = Some (reduce fuel l).
Proof.
  revert l i cur. induction fuel as [|fuel IH]; intros l i cur Hf Hi.
  { apply lookup_lt_Some in Hi. lia. }
  destruct (decide (1 < length l)%nat) as [H1|H1].
  - rewrite verifyLoop_step, reduce_step by done.
    pose proof (level_step l i cur H1 Hi) as Hstep.
    pose proof (nextLevel_fuel fuel l H1 Hf) as Hf'. rewrite <- nextLevel_length.
    cbn [buildLevels]. rewrite (proj2 (Nat.ltb_lt _ _) H1).
    destruct (buildLevels_cons fuel (nextLevel sha256 l)) as [rest Hb]. rewrite Hb, proofSiblings_cons, <- Hb.
    destruct ((i =? length l - 1)%nat && (length l mod 2 =? 1)%nat) eqn:Hc.
    + assert (siblingAt l i = []) as -> by (unfold siblingAt; by rewrite Hc). by apply IH.
    + destruct Hstep as (s & -> & _ & Hup). by apply IH.
  - apply lookup_lt_Some in Hi as Hlt. destruct l as [|x [|]]; simpl in *; try lia.
    assert (i = 0)%nat as -> by lia. simplify_eq/=. done.
Qed.

(** ** Soundness *)

Definition collision : Prop := ∃ x y, x ≠ y ∧ sha256 x = sha256 y.

Context (digest_length : ∀ x, length (sha256 x) = 32%nat).

Lemma hashPair_inj a b a' b' :
  hashPair sha256 a b = hashPair sha256 a' b' → (a ++ b = a' ++ b') ∨ collision.
Proof.
  intros Heq. destruct (decide (a ++ b = a' ++ b')) as [|Hne]; [by left|right].
  exists (NODE_DOMAIN_TAG ++ a ++ b), (NODE_DOMAIN_TAG ++ a' ++ b'). split; [|done].
  intros [=]. done.
Qed.

Definition digests l : Prop := ∀ x, x ∈ l → length x = 32%nat.

Lemma nextLevel_digests l : digests l → digests (nextLevel sha256 l).
Proof.
  unfold digests. induction l as [|x|x y l IH] using list_pair_ind; [done|done|].
  cbn [nextLevel]. intros Hl z [->|Hz]%elem_of_cons; [apply digest_length|].
  apply IH; [|done]. set_solver.
Qed.

Lemma hashPair_digest (b : bool) cur s s' cur' :
  length cur = 32%nat → length cur' = 32%nat → length s' = 32%nat →
  (if b then hashPair sha256 cur s else hashPair sha256 s cur) =
    (if b then hashPair sha256 cur' s' else hashPair sha256 s' cur') → cur = cur' ∨ collision.
Proof.
  intros Hc Hc' Hs'. destruct b; intros [Heq|?]%hashPair_inj; auto; left.
  - apply app_inj_1 in Heq; [tauto|congruence].
  - apply app_inj_2 in Heq; [tauto|congruence].
Qed.

Lemma verifyLoop_sound fuel l i cur sibs :
  (length l ≤ fuel)%nat → (i < length l)%nat → digests l → length cur = 32%nat →
  verifyLoop sha256 fuel cur (Z.of_nat i) (Z.of_nat (length l)) sibs = Some (reduce fuel l) →
  l !! i = Some cur ∨ collision.
Proof.
  revert l i cur sibs. induction fuel as [|fuel IH]; intros l i cur sibs Hf Hi Hd Hc; [lia|].
  destruct (decide (1 < length l)%nat) as [H1|H1].
  - rewrite verifyLoop_step, reduce_step by done. rewrite <- nextLevel_length.
    destruct (lookup_lt_is_Some_2 l i Hi) as [cur' Hi'].
    assert (length cur' = 32%nat) as Hc' by (eapply Hd, list_elem_of_lookup_2, Hi').
    pose proof (level_step l i cur' H1 Hi') as Hstep.
    pose proof (nextLevel_fuel fuel l H1 Hf) as Hf'. pose proof (nextLevel_digests l Hd) as Hd'.
    assert (i / 2 < length (nextLevel sha256 l))%nat as Hi2.
    { rewrite nextLevel_length. destruct (even_odd_cases i), (even_odd_cases (length l + 1)); lia. }
    destruct ((i =? length l - 1)%nat && (length l mod 2 =? 1)%nat).
    + intros [Heq|?]%IH; try done; [|by right]. left. congruence.
    + destruct sibs as [|s sibs]; [done|]. destruct Hstep as (s' & _ & Hs' & Hup).
      intros [Heq|?]%IH; try done; [|by right|].
      * rewrite Hup in Heq. simplify_eq. rewrite Hi'.
        destruct (hashPair_digest (i mod 2 =? 0)%nat cur s s' cur') as [->|?]; auto.
      * case_match; apply digest_length.
  - rewrite verifyLoop_done by lia. destruct l as [|x [|]]; simpl in *; try lia.
    assert (i = 0)%nat as -> by lia. rewrite reduce_done. intros [= ->]. by left.
Qed.
End tree_facts.

(** ** Trees built from entries *)

Section batches.
Context (sha256 : Buffer → Buffer).
Implicit Types (entries : list BatchPriceEntry) (t : MerkleTree).

Lemma hashLeaves_lookup entries ls i e :
  hashLeaves sha256 entries = Ok ls → entries !! i = Some e →
  ∃ h, hashLeaf sha256 e = Ok h ∧ ls !! i = Some h.
Proof.
  revert ls i. induction entries as [|e0 entries IH]; intros ls i Hls Hi; [done|].
  cbn [hashLeaves] in Hls. destruct (hashLeaf sha256 e0) as [h0|] eqn:H0; [|done].
  destruct (hashLeaves sha256 entries) as [hs|] eqn:Hs; [|done]. apply (inj Ok) in Hls as <-.
  destruct i as [|i]; simplify_eq/=; eauto.
Qed.

Lemma hashLeaves_length entries ls :
  hashLeaves sha256 entries = Ok ls → length ls = length entries.
Proof.
  revert ls. induction entries as [|e0 entries IH]; intros ls Hls; cbn [hashLeaves] in Hls;
    [by apply (inj Ok) in Hls as <-|].
  destruct (hashLeaf sha256 e0) as [h0|]; [|done].
  destruct (hashLeaves sha256 entries) as [hs|]; [|done]. apply (inj Ok) in Hls as <-.
  simpl. f_equal. by apply IH.
Qed.

Lemma newTree_ok entries t :
  newTree sha256 entries = Ok t →
  hashLeaves sha256 entries = Ok (leaves t) ∧
  levels t = buildLevels sha256 (length (leaves t)) (leaves t) ∧
  root t = reduce sha256 (length (leaves t)) (leaves t) ∧
  (0 < length (leaves t))%nat.
Proof.
  unfold newTree. destruct entries as [|e0 es]; [done|]. intros Ht.
  destruct (hashLeaves sha256 (e0 :: es)) as [ls|] eqn:Hls; [|done].
  apply (inj Ok) in Ht as <-. pose proof (hashLeaves_length _ _ Hls) as Hl.
  split_and!; [done..|]. simpl in *. lia.
Qed.

(** C6: every entry of a batch of at most 2^64 entries has a proof, and the
    proof the tree generates for it is accepted. *)
Theorem generated_proofs_verify entries t i e :
  newTree sha256 entries = Ok t → Z.of_nat (length entries) ≤ 2 ^ 64 →
  entries !! i = Some e →
  ∃ proof, getProof t (Z.of_nat i) = Ok proof ∧ verifyProof sha256 t e proof = Ok true.
Proof.
  intros (Hls & Hlv & Hr & Hpos)%newTree_ok Hsize Hi.
  pose proof (hashLeaves_length _ _ Hls) as Hlen.
  destruct (hashLeaves_lookup _ _ _ _ Hls Hi) as (h & Hh & Hlook).
  apply lookup_lt_Some in Hi as Hlt.
  exists (mkProof (Z.of_nat i) (proofSiblings (levels t) i)). split.
  - unfold getProof. rewrite (proj2 (Z.ltb_ge _ _)), (proj2 (Z.leb_gt _ _)) by lia.
    by rewrite Nat2Z.id.
  - unfold verifyProof. cbn [siblings leafIndex].
    assert (length (proofSiblings (levels t) i) ≤ MAX_PROOF_SIBLINGS)%nat as Hmax.
    { pose proof (proofSiblings_length (levels t) i) as H1.
      assert (length (levels t) ≤ 65)%nat; [|unfold MAX_PROOF_SIBLINGS; lia].
      rewrite Hlv. apply (levels_count sha256 64). apply Nat2Z.inj_le.
      rewrite Nat2Z.inj_pow. rewrite Hlen. exact Hsize. }
    rewrite (proj2 (Nat.ltb_ge _ _) Hmax), Hh.
    pose proof (verifyLoop_complete sha256 (length (leaves t)) (leaves t) i h [] ltac:(lia) Hlook) as Hv.
    rewrite app_nil_r, <- Hlv in Hv. rewrite Hv, Hr. by rewrite bool_decide_eq_true_2.
Qed.

(** C5: soundness by reduction. If the verifier accepts an entry at a position
    of the batch (assets without NUL characters), then the entry committed at
    that position has the same canonical form (code points of asset and source,
    price modulo 2^128, decimals, timestamp), or a collision of the hash
    function has been exhibited. *)
Theorem accepted_entry_committed entries t e proof i :
  (∀ x, length (sha256 x) = 32%nat) →
  newTree sha256 entries = Ok t →
  (∀ e', e' ∈ e :: entries → no_nul (be_asset e') = true) →
  leafIndex proof = Z.of_nat i → (i < length entries)%nat →
  verifyProof sha256 t e proof = Ok true →
  (∃ e', entries !! i = Some e' ∧ canonical e' = canonical e) ∨ collision sha256.
Proof.
  intros Hdig (Hls & _ & Hr & _)%newTree_ok Hok Hidx Hi.
  pose proof (hashLeaves_length _ _ Hls) as Hlen. unfold verifyProof. rewrite Hidx.
  case_match; [done|]. destruct (hashLeaf sha256 e) as [h|] eqn:Hh; [|done].
  destruct (verifyLoop _ _ _ _ _ _) as [h'|] eqn:Hv; [|done].
  intros Heq%(inj Ok)%bool_decide_eq_true. subst h'. rewrite Hr in Hv.
  destruct (lookup_lt_is_Some_2 entries i Hi) as [e' He'].
  destruct (hashLeaves_lookup _ _ _ _ Hls He') as (h0 & Hh0 & Hlook).
  assert (∀ e h, hashLeaf sha256 e = Ok h → length h = 32%nat) as Hd.
  { intros e1 h1. unfold hashLeaf. destruct (leafBytes e1); [|done]. by intros <-%(inj Ok). }
  destruct (verifyLoop_sound sha256 Hdig (length (leaves t)) (leaves t) i h (siblings proof))
    as [Hl|?]; [lia|lia| |by eapply Hd|done| |by right].
  { intros x (j & Hj)%list_elem_of_lookup.
    destruct (lookup_lt_is_Some_2 entries j) as [ej Hej];
      [apply lookup_lt_Some in Hj; lia|].
    destruct (hashLeaves_lookup _ _ _ _ Hls Hej) as (hj & Hhj & Hlj). simplify_eq. by eapply Hd. }
  rewrite Hl in Hlook. simplify_eq. unfold hashLeaf in Hh, Hh0.
  destruct (leafBytes e) as [b|] eqn:Hb; [|done]. destruct (leafBytes e') as [b'|] eqn:Hb'; [|done].
  apply (inj Ok) in Hh, Hh0. destruct (decide (b = b')) as [<-|Hne].
  - left. exists e'. split; [done|]. eapply leafBytes_canonical; [| |exact Hb'|exact Hb];
      apply Hok; [right; by eapply list_elem_of_lookup_2|by left].
  - right. exists b, b'. split; [done|congruence].
Qed.

(** the verifier does not bound the claimed index: in a batch of one
    entry a proof is accepted for every index whatsoever (the contract's
    [verify_proof] refuses an index outside the batch). *)
Theorem single_leaf_index_unchecked e t i sibs :
  newTree sha256 [e] = Ok t → (length sibs ≤ MAX_PROOF_SIBLINGS)%nat →
  verifyProof sha256 t e (mkProof i sibs) = Ok true.
Proof.
  intros (Hls & _ & Hr & _)%newTree_ok Hs. pose proof (hashLeaves_length _ _ Hls) as Hlen.
  destruct (hashLeaves_lookup _ _ 0 e Hls eq_refl) as (h & Hh & Hlook).
  unfold verifyProof. cbn [siblings leafIndex]. rewrite (proj2 (Nat.ltb_ge _ _) Hs), Hh, Hr.
  rewrite verifyLoop_done by (simpl in Hlen; lia).
  destruct (leaves t) as [|x [|]]; simplify_eq/=. by rewrite bool_decide_eq_true_2.
Qed.
End batches.

(** A toy digest of 32 bytes, enough to run the definitions. *)
Definition toy_hash (x : Buffer) : Buffer :=
  take 32 (((fold_left (λ a b, (a * 31 + b) mod 251) x 7) :: x) ++ replicate 32 0).

Lemma toy_hash_length x : length (toy_hash x) = 32%nat.
Proof. unfold toy_hash. rewrite length_take, length_app, length_replicate. lia. Qed.

Definition example_batch : list BatchPriceEntry :=
  [ mkBatchEntry (lit "XLM") 11000000 8 1700000000 (lit "chainlink");
    mkBatchEntry (lit "BTC") 6500000000000 8 1700000000 (lit "redstone");
    mkBatchEntry (lit "ETH") (-1) 8 1700000000 (lit "band") ].

Definition example_tree : MerkleTree :=
  match newTree toy_hash example_batch with Ok t => t | Throw _ => mkTree [] [] end.

Definition btc_entry : BatchPriceEntry := mkBatchEntry (lit "BTC") 6500000000000 8 1700000000 (lit "redstone").

Lemma generated_proofs_verify_witness :
  ∃ proof, getProof example_tree 1 = Ok proof ∧ verifyProof toy_hash example_tree btc_entry proof = Ok true.
Proof.
  apply (generated_proofs_verify toy_hash example_batch example_tree 1 btc_entry);
    [vm_compute; reflexivity|vm_compute; discriminate|reflexivity].
Defined.

Definition btc_proof : MerkleProof :=
  match getProof example_tree 1 with Ok p => p | Throw _ => mkProof 1 [] end.

(** An entry of another price that the batch does not contain, with the
    canonical form of the committed one: it is accepted. *)
Definition btc_alias : BatchPriceEntry :=
  mkBatchEntry (lit "BTC") (6500000000000 - 2 ^ 128) 8 1700000000 (lit "redstone").

Lemma accepted_entry_committed_witness :
  verifyProof toy_hash example_tree btc_alias btc_proof = Ok true ∧
  ((∃ e', example_batch !! 1%nat = Some e' ∧ canonical e' = canonical btc_alias) ∨ collision toy_hash).
Proof.
  split; [vm_compute; reflexivity|].
  apply (accepted_entry_committed toy_hash example_batch example_tree btc_alias btc_proof 1);
    [apply toy_hash_length|vm_compute; reflexivity
    |intros e' He'; repeat (apply elem_of_cons in He' as [->|He']; [vm_compute; reflexivity|]);
       by apply not_elem_of_nil in He'
    |reflexivity|vm_compute; lia|vm_compute; reflexivity].
Defined.

Definition single_tree : MerkleTree :=
  match newTree toy_hash [btc_entry] with Ok t => t | Throw _ => mkTree [] [] end.

Lemma single_leaf_index_unchecked_witness :
  verifyProof toy_hash single_tree btc_entry (mkProof 57 []) = Ok true.
Proof.
  apply (single_leaf_index_unchecked toy_hash btc_entry single_tree 57 []);
    [vm_compute; reflexivity|vm_compute; lia].
Defined.
