(* ===== verification/Publishing.v ===== *)
(** * Contract publishing: retries and canary routing

    Module [RetryQueue]: [contract-publishing/retry-queue.ts], the queue of
    failed submissions.  Its listeners are represented by the events the queue
    emits, in order: the publisher only logs them.  Each reading of the clock and
    each draw of [Math.random] is an argument; backoffs are computed in binary64.
    Module [Canary]: [contract-publishing/canary.ts].

    - [RetryQueue.queue_invariant]: bounded attempts, and a suspended queue holds
      nothing and runs nothing, in every reachable state;
    - [RetryQueue.retries_settle]: every submission is retried exactly
      [maxRetries] times and then fails once;
    - [RetryQueue.backoff_bounded]: the delays stay within the configured cap;
    - [RetryQueue.requeue_never_fails]: queueing a submission again resets its
      attempts, so a client that does so is never told of the failure;
    - [Canary.share_exact]: the canary gets exactly its share of the traffic;
    - [Canary.rollback_exact]: a rollback is asked for exactly when the last
      [threshold] outcomes failed. *)

From Stdlib Require Import ZArith QArith Qround Lia SpecFloat Lqa.
From stdpp Require Import base numbers pretty relations list strings sets.
From S2P Require Import Prelude JsMap JsNum.

Local Open Scope Z_scope.

Module RetryQueue.

Record RetryableSubmission := mkSub {
  rs_asset : string;
  rs_price : Z;
  rs_decimals : Z;
  rs_timestamp : Z;
  rs_attemptCount : Z;
  rs_lastError : option string;
  rs_nextRetryAt : number;
}.

Inductive RetryEvent :=
| RetryScheduled (key : string) (submission : RetryableSubmission) (attemptCount : Z)
| RetryFailed (key : string) (submission : RetryableSubmission).

Definition event_key (e : RetryEvent) : string :=
  match e with RetryScheduled k _ _ | RetryFailed k _ => k end.

Record RetryMetrics := mkMetrics {
  m_totalQueued : Z;
  m_totalRetried : Z;
  m_totalFailed : Z;
  m_averageRetries : double;
}.

Record SubmissionRetryQueue := mkQueue {
  q_queue : jsmap string RetryableSubmission;
  q_metrics : RetryMetrics;
  q_running : bool;       (* [retryInterval !== null] *)
  q_suspended : bool;
}.

Record RetryOptions := mkOptions {
  maxRetries : Z;
  baseBackoffMs : Z;
  maxBackoffMs : Z;
}.

Definition default_options (o1 o2 o3 : option Z) : RetryOptions :=
  mkOptions (default 5 o1) (default 1000 o2) (default 60000 o3).

Definition new_queue : SubmissionRetryQueue :=
  mkQueue jm_empty (mkMetrics 0 0 0 double_0) false false.

Definition set_queue (f : jsmap string RetryableSubmission → jsmap string RetryableSubmission)
    (q : SubmissionRetryQueue) : SubmissionRetryQueue :=
  mkQueue (f (q_queue q)) (q_metrics q) (q_running q) (q_suspended q).
Definition set_metrics (f : RetryMetrics → RetryMetrics) (q : SubmissionRetryQueue) : SubmissionRetryQueue :=
  mkQueue (q_queue q) (f (q_metrics q)) (q_running q) (q_suspended q).

Definition start (q : SubmissionRetryQueue) : SubmissionRetryQueue :=
  if q_suspended q || q_running q then q
  else mkQueue (q_queue q) (q_metrics q) true (q_suspended q).

Definition stop (q : SubmissionRetryQueue) : SubmissionRetryQueue :=
  mkQueue (q_queue q) (q_metrics q) false (q_suspended q).

Definition clear (q : SubmissionRetryQueue) : SubmissionRetryQueue * Z :=
  (set_queue (λ _, jm_empty) q, Z.of_nat (jm_size (q_queue q))).

Definition setSuspended (suspended : bool) (q : SubmissionRetryQueue) : SubmissionRetryQueue :=
  if Bool.eqb (q_suspended q) suspended then q
  else
    let q1 := mkQueue (q_queue q) (q_metrics q) (q_running q) suspended in
    if suspended then fst (clear (stop q1)) else start q1.

Definition remove (key : string) (q : SubmissionRetryQueue) : SubmissionRetryQueue * bool :=
  (set_queue (jm_delete key) q, jm_has key (q_queue q)).

(** [Omit<RetryableSubmission, 'attemptCount' | 'nextRetryAt'>] *)
Record NewSubmission := mkNew {
  ns_asset : string;
  ns_price : Z;
  ns_decimals : Z;
  ns_timestamp : Z;
  ns_lastError : option string;
}.

Definition submission_key (s : NewSubmission) : string :=
  ns_asset s +:+ ":" +:+ pretty (ns_timestamp s).

Definition enqueue (now : Z) (s : NewSubmission) (q : SubmissionRetryQueue)
    : SubmissionRetryQueue * string :=
  if q_suspended q then (q, "")
  else
    let retry := mkSub (ns_asset s) (ns_price s) (ns_decimals s) (ns_timestamp s) 0
                   (ns_lastError s) (NInt now) in
    (set_metrics (λ m, mkMetrics (m_totalQueued m + 1) (m_totalRetried m) (m_totalFailed m)
                         (m_averageRetries m))
       (set_queue (jm_set (submission_key s) retry) q),
     submission_key s).

Section options.
Context (o : RetryOptions).

(** [random] is the draw of [Math.random]; a power of two is exact in binary64
    until it overflows. *)
Definition calculateBackoff (attemptCount : Z) (random : double) : number :=
  let exponential := double_mul (double_of_Z (baseBackoffMs o)) (double_of_Z (2 ^ (attemptCount - 1))) in
  let jitter := double_mul random (double_of_Z (baseBackoffMs o)) in
  let backoff := num_min (num_of_double (double_add exponential jitter)) (NInt (maxBackoffMs o)) in
  num_floor backoff.

(** [now + backoff] *)
Definition later (now : Z) (backoff : number) : number :=
  match backoff with NFin x => NFin (inject_Z now + x)%Q | _ => backoff end.

Definition bump (s : RetryableSubmission) (next : number) : RetryableSubmission :=
  mkSub (rs_asset s) (rs_price s) (rs_decimals s) (rs_timestamp s) (rs_attemptCount s + 1)
    (rs_lastError s) next.

(** The body of the loop over the ready items; [random] is indexed by the
    number of the item. *)
Definition processItem (now : Z) (random : nat → double)
    (acc : SubmissionRetryQueue * list RetryEvent * nat) (item : string * RetryableSubmission)
    : SubmissionRetryQueue * list RetryEvent * nat :=
  let '(q, events, i) := acc in
  let '(key, submission) := item in
  let attempt := rs_attemptCount submission + 1 in
  let q1 := set_metrics (λ m, mkMetrics (m_totalQueued m) (m_totalRetried m + 1) (m_totalFailed m)
                                (m_averageRetries m)) q in
  if maxRetries o <? attempt then
    (set_metrics (λ m, mkMetrics (m_totalQueued m) (m_totalRetried m) (m_totalFailed m + 1)
                         (m_averageRetries m)) (set_queue (jm_delete key) q1),
     events ++ [RetryFailed key (bump submission (rs_nextRetryAt submission))], S i)
  else
    let updated := bump submission (later now (calculateBackoff attempt (random i))) in
    (set_queue (jm_set key updated) q1, events ++ [RetryScheduled key updated attempt], S i).

Definition updateMetrics (q : SubmissionRetryQueue) : SubmissionRetryQueue :=
  set_metrics (λ m, if 0 <? m_totalRetried m
    then mkMetrics (m_totalQueued m) (m_totalRetried m) (m_totalFailed m)
           (SFdiv 53 1024 (double_of_Z (m_totalRetried m + m_totalFailed m)) (double_of_Z (m_totalQueued m)))
    else m) q.

Definition is_ready (now : Z) (item : string * RetryableSubmission) : bool :=
  num_leb (rs_nextRetryAt item.2) (NInt now).

Definition processQueue (now : Z) (random : nat → double) (q : SubmissionRetryQueue)
    : SubmissionRetryQueue * list RetryEvent :=
  if q_suspended q then (q, [])
  else
    let readyItems := filter (λ item, is_ready now item = true) (q_queue q : list (string * RetryableSubmission)) in
    let '(q', events, _) := foldl (processItem now random) (q, [], 0%nat) readyItems in
    (updateMetrics q', events).

(** ** One sweep, seen from one key *)

(** What the loop does with a ready item: its new entry and the event. *)
Definition item_result (key : string) (now : Z) (r : double) (s : RetryableSubmission)
    : option RetryableSubmission * RetryEvent :=
  if maxRetries o <? rs_attemptCount s + 1
  then (None, RetryFailed key (bump s (rs_nextRetryAt s)))
  else
    let updated := bump s (later now (calculateBackoff (rs_attemptCount s + 1) r)) in
    (Some updated, RetryScheduled key updated (rs_attemptCount s + 1)).

Definition events_of (k : string) (es : list RetryEvent) : list RetryEvent :=
  filter (λ e, event_key e = k) es.

Lemma processItem_eq now random q es i key s :
  processItem now random (q, es, i) (key, s) =
    let '(entry, event) := item_result key now (random i) s in
    let '(q', es', i') := processItem now random (q, es, i) (key, s) in
    (mkQueue (match entry with Some u => jm_set key u (q_queue q) | None => jm_delete key (q_queue q) end)
       (q_metrics q') (q_running q) (q_suspended q), es ++ [event], S i).
Proof. unfold processItem, item_result. by destruct (_ <? _). Qed.

Lemma item_event_key key now r s : event_key (item_result key now r s).2 = key.
Proof. unfold item_result. by destruct (_ <? _). Qed.

Lemma sweep_items now random k items : ∀ q es i q' es' i',
  foldl (processItem now random) (q, es, i) items = (q', es', i') → jm_wf items →
  q_suspended q' = q_suspended q ∧ q_running q' = q_running q ∧
  (jm_wf (q_queue q) → jm_wf (q_queue q')) ∧
  match jm_get k items with
  | None => jm_get k (q_queue q') = jm_get k (q_queue q) ∧ events_of k es' = events_of k es
  | Some s => ∃ j, jm_get k (q_queue q') = (item_result k now (random j) s).1 ∧
      events_of k es' = events_of k es ++ [(item_result k now (random j) s).2]
  end.
Proof.
  induction items as [|[key s] items IH]; intros q es i q' es' i' Hf Hwf; cbn [foldl] in Hf.
  { injection Hf as <- <- <-. done. }
  unfold jm_wf in Hwf. simpl in Hwf. apply NoDup_cons in Hwf as [Hnk Hwf].
  rewrite processItem_eq in Hf. destruct (item_result key now (random i) s) as [entry event] eqn:Er.
  destruct (processItem now random (q, es, i) (key, s)) as [[qx esx] ix].
  pose proof (item_event_key key now (random i) s) as Hek. rewrite Er in Hek. simpl in Hek.
  apply IH in Hf as (Hs & Hr & Hq & Hk); [|done]. cbn [q_suspended q_running q_queue] in *.
  split_and!; [done..| |].
  { intros Hw. apply Hq. destruct entry; auto with oracle. }
  unfold events_of in *. rewrite filter_app, filter_cons, filter_nil in Hk. simpl.
  destruct (decide (key = k)) as [Heq|Heq].
  - subst k. rewrite decide_True in Hk by done. rewrite (proj2 (jm_get_None _ _) Hnk) in Hk. destruct Hk as [-> ->].
    exists i. rewrite Er. split; [|done].
    destruct entry; [apply jm_get_set_eq|apply jm_get_delete_eq].
  - rewrite decide_False, app_nil_r in Hk by congruence.
    assert (jm_get k (match entry with Some u => jm_set key u (q_queue q)
                      | None => jm_delete key (q_queue q) end) = jm_get k (q_queue q)) as E.
    { destruct entry; [by apply jm_get_set_ne|by apply jm_get_delete_ne]. }
    by rewrite E in Hk.
Qed.

Lemma processQueue_key now random q q' es k :
  processQueue now random q = (q', es) → q_suspended q = false → jm_wf (q_queue q) →
  q_suspended q' = false ∧ jm_wf (q_queue q') ∧
  match jm_get k (q_queue q) with
  | None => jm_get k (q_queue q') = None ∧ events_of k es = []
  | Some s =>
      if is_ready now (k, s)
      then ∃ j, jm_get k (q_queue q') = (item_result k now (random j) s).1 ∧
             events_of k es = [(item_result k now (random j) s).2]
      else jm_get k (q_queue q') = Some s ∧ events_of k es = []
  end.
Proof.
  unfold processQueue. intros Hp Hs Hwf. rewrite Hs in Hp.
  destruct (foldl _ _ _) as [[q1 es1] i1] eqn:Hf. injection Hp as <- <-.
  apply (sweep_items _ _ k) in Hf as (Hs1 & _ & Hq & Hk); [|by apply NoDup_fmap_filter].
  rewrite jm_get_filter in Hk by done. cbn [q_suspended q_queue updateMetrics set_metrics].
  split_and!; [congruence|by apply Hq|].
  destruct (jm_get k (q_queue q)) as [s|] eqn:Eg; [|done].
  destruct (is_ready now (k, s)) eqn:Er;
    [rewrite decide_True in Hk by done|rewrite decide_False in Hk by congruence]; done.
Qed.

(** ** Backoff *)

(** [Math.random] draws a double in [[0, 1)], and the settings are positive. *)
Definition draws_ok (random : nat → double) : Prop := ∀ i, double_nonneg (random i).
Definition settings_ok : Prop :=
  double_pos_finite (double_of_Z (baseBackoffMs o)) = true ∧ 0 <= maxBackoffMs o.

Lemma calculateBackoff_bounded n r :
  settings_ok → 1 <= n → double_nonneg r →
  ∃ z, calculateBackoff n r = NInt z ∧ 0 <= z <= maxBackoffMs o.
Proof.
  intros [Hb Hm] Hn Hr. unfold calculateBackoff. cbv zeta. set (d := double_add _ _).
  assert (double_nonneg d) as Hd.
  { apply double_add_nonneg; [|by apply double_mul_nonneg_r].
    apply double_mul_nonneg; [done|]. apply double_of_Z_nonneg. apply Z.pow_nonneg. lia. }
  clearbody d. apply num_of_double_nonneg in Hd as [-> |(x & -> & Hx)].
  - exists (maxBackoffMs o). split; [apply num_floor_int|lia].
  - change (num_min (NFin x) (NInt (maxBackoffMs o))) with
      (if Qle_bool x (inject_Z (maxBackoffMs o)) then NFin x else NInt (maxBackoffMs o)).
    destruct (Qle_bool x _) eqn:E; [|exists (maxBackoffMs o); split; [apply num_floor_int|lia]].
    apply Qle_bool_iff in E. exists (Qfloor x). split; [done|]. split.
    + change 0 with (Qfloor 0). by apply Qfloor_resp_le.
    + rewrite <- (Qfloor_Z (maxBackoffMs o)). by apply Qfloor_resp_le.
Qed.

Lemma later_ready now z now' k s :
  is_ready now' (k, bump s (later now (NInt z))) = (now + z <=? now').
Proof.
  unfold is_ready, bump, later. cbn [NInt rs_nextRetryAt snd]. unfold num_leb, NInt.
  rewrite <- inject_Z_plus. apply num_leb_int.
Qed.

(** ** Sweeps *)

Fixpoint run_sweeps (sweeps : list (Z * (nat → double))) (q : SubmissionRetryQueue)
    : SubmissionRetryQueue * list RetryEvent :=
  match sweeps with
  | [] => (q, [])
  | (now, random) :: rest =>
      let '(q1, es1) := processQueue now random q in
      let '(q2, es2) := run_sweeps rest q1 in (q2, es1 ++ es2)
  end.

(** Consecutive sweeps are at least [maxBackoffMs] apart. *)
Fixpoint spaced (from : Z) (sweeps : list (Z * (nat → double))) : Prop :=
  match sweeps with
  | [] => True
  | (now, random) :: rest => from <= now ∧ draws_ok random ∧ spaced (now + maxBackoffMs o) rest
  end.

(** [Some n] is the n-th retry, [None] the final failure. *)
Definition outcome (e : RetryEvent) : option Z :=
  match e with RetryScheduled _ _ n => Some n | RetryFailed _ _ => None end.

Lemma events_of_app k l1 l2 : events_of k (l1 ++ l2) = events_of k l1 ++ events_of k l2.
Proof. apply filter_app. Qed.

Lemma sweeps_settle k sweeps q s t :
  settings_ok → q_suspended q = false → jm_wf (q_queue q) →
  jm_get k (q_queue q) = Some s → 0 <= rs_attemptCount s <= maxRetries o →
  (∀ now, t <= now → is_ready now (k, s) = true) → spaced t sweeps →
  Z.of_nat (length sweeps) = maxRetries o - rs_attemptCount s + 1 →
  let '(q', es) := run_sweeps sweeps q in
  jm_get k (q_queue q') = None ∧
  outcome <$> events_of k es =
    (Some <$> seqZ (rs_attemptCount s + 1) (maxRetries o - rs_attemptCount s)) ++ [None].
Proof.
  intros Hset. revert q s t. induction sweeps as [|[now random] rest IH];
    intros q s t Hs Hwf Hg Ha Hr Hsp Hl; [simpl in Hl; lia|].
  cbn [spaced] in Hsp. destruct Hsp as (Ht & Hdr & Hsp). cbn [run_sweeps length] in *.
  destruct (processQueue now random q) as [q1 es1] eqn:Hp.
  apply (processQueue_key _ _ _ _ _ k) in Hp as (Hs1 & Hwf1 & Hk); [|done..].
  rewrite Hg, (Hr now Ht) in Hk. destruct Hk as (j & Hg1 & He1). unfold item_result in *.
  destruct (maxRetries o <? rs_attemptCount s + 1) eqn:E; to_prop; cbn [fst snd] in *.
  - replace (maxRetries o - rs_attemptCount s) with 0 in * by lia.
    destruct rest; [|simpl in Hl; lia]. cbn [run_sweeps]. rewrite app_nil_r, He1. done.
  - destruct (calculateBackoff_bounded (rs_attemptCount s + 1) (random j)) as (z & Hz & Hzb); [done|lia|done|].
    specialize (IH q1 _ (now + maxBackoffMs o) Hs1 Hwf1 Hg1).
    cbn [rs_attemptCount bump] in IH. rewrite Hz in IH.
    destruct (run_sweeps rest q1) as [q2 es2]. destruct IH as [Hn Ho]; [lia| |done|lia|].
    { intros now' Hnow. rewrite later_ready. apply Z.leb_le. lia. }
    split; [done|]. rewrite events_of_app, He1, fmap_app, Ho. cbn [fmap list_fmap outcome].
    rewrite (seqZ_cons (rs_attemptCount s + 1)) by lia. cbn [fmap list_fmap app].
    replace (Z.succ (rs_attemptCount s + 1)) with (rs_attemptCount s + 1 + 1) by lia.
    by replace (Z.pred (maxRetries o - rs_attemptCount s)) with
      (maxRetries o - (rs_attemptCount s + 1)) by lia.
Qed.

(** ** Reachable states *)

Inductive step : SubmissionRetryQueue → SubmissionRetryQueue → Prop :=
| step_start q : step q (start q)
| step_stop q : step q (stop q)
| step_suspend b q : step q (setSuspended b q)
| step_enqueue now s q : step q (fst (enqueue now s q))
| step_process now random q : step q (fst (processQueue now random q))
| step_remove k q : step q (fst (remove k q))
| step_clear q : step q (fst (clear q)).

Record queue_ok (q : SubmissionRetryQueue) : Prop := {
  qo_wf : jm_wf (q_queue q);
  qo_attempts : ∀ k s, jm_get k (q_queue q) = Some s → 0 <= rs_attemptCount s <= Z.max 0 (maxRetries o);
  qo_suspended : q_suspended q = true → q_queue q = jm_empty ∧ q_running q = false;
}.

Lemma processQueue_ok now random q : queue_ok q → queue_ok (fst (processQueue now random q)).
Proof.
  intros [Hwf Ha Hs]. destruct (q_suspended q) eqn:Es.
  { unfold processQueue. rewrite Es. split; [done..|]. intros _. by apply Hs. }
  destruct (processQueue now random q) as [q' es] eqn:Hp.
  assert (∀ k, _) as Hk by (intros k; exact (processQueue_key _ _ _ _ _ k Hp Es Hwf)).
  destruct (Hk "") as (Hs' & Hwf' & _). split; simpl; [done| |congruence].
  intros k s'. destruct (Hk k) as (_ & _ & Hkk).
  destruct (jm_get k (q_queue q)) as [s|] eqn:Eg; [|by destruct Hkk as [-> _]].
  specialize (Ha _ _ Eg). destruct (is_ready now (k, s)); [|destruct Hkk as [-> _]; by intros [= <-]].
  destruct Hkk as (j & -> & _). unfold item_result.
  destruct (_ <? _) eqn:E; to_prop; simpl; [done|]. intros [= <-]. simpl. lia.
Qed.

Lemma step_ok q q' : queue_ok q → step q q' → queue_ok q'.
Proof.
  intros Hok Hst. destruct Hst as [q|q|b q|now s q|now random q|k q|q].
  - unfold start. destruct (_ || _) eqn:E; [done|]. to_prop. destruct Hok. split; simpl; [done..|congruence].
  - destruct Hok as [? ? Hs]. split; simpl; [done..|]. intros ?. by destruct Hs.
  - unfold setSuspended. destruct (Bool.eqb _ _); [done|]. destruct b; simpl.
    + split; simpl; [apply jm_wf_empty|done|done].
    + unfold start. cbn [q_suspended orb q_running]. destruct Hok as [? ? Hs].
      destruct (q_running q); split; simpl; done.
  - unfold enqueue. destruct (q_suspended q) eqn:Es; [done|]. destruct Hok as [Hwf Ha _].
    split; simpl; [auto with oracle| |congruence].
    intros k s'. rewrite jm_get_set. case_decide; [intros [= <-]; simpl; lia|apply Ha].
  - by apply processQueue_ok.
  - destruct Hok as [Hwf Ha Hs]. split; simpl; [auto with oracle| |].
    + intros k' s'. rewrite jm_get_delete. case_decide; [done|apply Ha].
    + intros [-> ?]%Hs. done.
  - destruct Hok as [_ _ Hs]. split; simpl; [apply jm_wf_empty|done|]. intros ?. by destruct Hs.
Qed.

(** A client that queues the same submission again after each sweep. *)
Fixpoint requeue_rounds (s : NewSubmission) (rounds : list (Z * (nat → double) * Z))
    (q : SubmissionRetryQueue) : SubmissionRetryQueue * list RetryEvent :=
  match rounds with
  | [] => (q, [])
  | (now, random, now') :: rest =>
      let '(q1, es1) := processQueue now random q in
      let '(q2, es2) := requeue_rounds s rest (fst (enqueue now' s q1)) in (q2, es1 ++ es2)
  end.

Lemma requeue_rounds_ok s rounds q s0 :
  1 <= maxRetries o → q_suspended q = false → jm_wf (q_queue q) →
  jm_get (submission_key s) (q_queue q) = Some s0 → rs_attemptCount s0 = 0 →
  let '(q', es) := requeue_rounds s rounds q in
  (∃ s1, jm_get (submission_key s) (q_queue q') = Some s1 ∧ rs_attemptCount s1 = 0) ∧
  None ∉ outcome <$> events_of (submission_key s) es.
Proof.
  intros Hmax. revert q s0. induction rounds as [|[[now random] now'] rest IH];
    intros q s0 Hs Hwf Hg Ha; cbn [requeue_rounds]; [split; [eauto|set_solver]|].
  destruct (processQueue now random q) as [q1 es1] eqn:Hp.
  apply (processQueue_key _ _ _ _ _ (submission_key s)) in Hp as (Hs1 & Hwf1 & Hk); [|done..].
  rewrite Hg in Hk.
  assert (None ∉ outcome <$> events_of (submission_key s) es1) as Hno.
  { destruct (is_ready now _); [|destruct Hk as [_ ->]; set_solver].
    destruct Hk as (j & _ & ->). unfold item_result. rewrite Ha.
    destruct (_ <? _) eqn:E; to_prop; [lia|]. simpl. set_solver. }
  specialize (IH (fst (enqueue now' s q1)) (mkSub (ns_asset s) (ns_price s) (ns_decimals s)
    (ns_timestamp s) 0 (ns_lastError s) (NInt now'))).
  unfold enqueue in *. rewrite Hs1 in *. cbn [fst set_metrics set_queue q_queue q_suspended] in *.
  destruct (requeue_rounds s rest _) as [q2 es2]. destruct IH as [H1 H2];
    [done|auto with oracle|apply jm_get_set_eq|done|].
  split; [done|]. rewrite events_of_app, fmap_app, not_elem_of_app. done.
Qed.
End options.

(** ** Properties *)

(** In every state a retry queue can reach, keys are unique, no submission
    has been attempted more than [maxRetries] times, and a suspended queue is
    empty with its processor stopped, so that nothing queued before a quarantine
    can be flushed after it. *)
Theorem queue_invariant o q :
  rtc (step o) new_queue q →
  jm_wf (q_queue q) ∧
  (∀ k s, jm_get k (q_queue q) = Some s → 0 <= rs_attemptCount s <= Z.max 0 (maxRetries o)) ∧
  (q_suspended q = true → q_queue q = jm_empty ∧ q_running q = false).
Proof.
  intros Hr. assert (queue_ok o q) as [? ? ?]; [|done].
  assert (queue_ok o new_queue) as H0 by (split; [apply jm_wf_empty|done|done]).
  revert H0. induction Hr as [|q1 q2 q3 H12 _ IH]; [done|]. intros H1. apply IH. by eapply step_ok.
Qed.

Definition demo_sub : NewSubmission := mkNew "XLM" 1 7 100 None.
Definition demo_options : RetryOptions := default_options (Some 2) None None.

Lemma queue_invariant_witness :
  let q := setSuspended true (fst (enqueue 0 demo_sub (start new_queue))) in
  q_queue q = jm_empty ∧ q_running q = false.
Proof.
  intros q. refine (proj2 (proj2 (queue_invariant demo_options q _)) eq_refl).
  eapply rtc_l; [apply step_start|]. eapply rtc_l; [apply (step_enqueue _ 0 demo_sub)|].
  apply rtc_once, step_suspend.
Defined.

(** C27: Every queued submission is settled: swept when it is due, and again at
    intervals of at least the maximal backoff, it is retried exactly up to
    attempt [maxRetries], in order, then reported as failed once and removed,
    after [maxRetries + 1] sweeps. *)
Theorem retries_settle o k sweeps q s t :
  settings_ok o → q_suspended q = false → jm_wf (q_queue q) →
  jm_get k (q_queue q) = Some s → 0 <= rs_attemptCount s <= maxRetries o →
  rs_nextRetryAt s = NInt t → spaced o t sweeps →
  Z.of_nat (length sweeps) = maxRetries o - rs_attemptCount s + 1 →
  let '(q', es) := run_sweeps o sweeps q in
  jm_get k (q_queue q') = None ∧
  outcome <$> events_of k es =
    (Some <$> seqZ (rs_attemptCount s + 1) (maxRetries o - rs_attemptCount s)) ++ [None].
Proof.
  intros Hset Hs Hwf Hg Ha Hn Hsp Hl. eapply (sweeps_settle o k sweeps q s t); try done.
  intros now Hnow. unfold is_ready. simpl. rewrite Hn, num_leb_int. by apply Z.leb_le.
Qed.

Lemma retries_settle_witness :
  let q := fst (enqueue 0 demo_sub (start new_queue)) in
  let rnd := λ _ : nat, double_0_8 in
  outcome <$> events_of "XLM:100"
    (snd (run_sweeps demo_options [(0, rnd); (60000, rnd); (120000, rnd)] q)) =
    [Some 1; Some 2; None].
Proof.
  intros q rnd.
  pose proof (retries_settle demo_options "XLM:100" [(0, rnd); (60000, rnd); (120000, rnd)] q
    (mkSub "XLM" 1 7 100 0 None (NInt 0)) 0) as H.
  destruct (run_sweeps demo_options _ q) as [q' es].
  apply H; [by split| reflexivity| | reflexivity| by split | reflexivity | | reflexivity].
  - apply (bool_decide_unpack _). vm_compute. done.
  - by repeat split.
Defined.

(** Whatever the random draw, the delay before attempt [n] is a whole number
    of milliseconds between zero and the configured cap. *)
Theorem backoff_bounded o n r :
  settings_ok o → 1 <= n → double_nonneg r →
  ∃ z, calculateBackoff o n r = NInt z ∧ 0 <= z <= maxBackoffMs o.
Proof. apply calculateBackoff_bounded. Qed.

Lemma backoff_bounded_witness :
  ∃ z, calculateBackoff demo_options 4 double_0_8 = NInt z ∧ 0 <= z <= 60000.
Proof. apply (backoff_bounded demo_options); [by split|lia|done]. Defined.

(** Queueing a submission again under the same asset and timestamp starts its
    attempts afresh: a client that does so after every sweep, as the publisher
    does when a retry fails, keeps the submission queued forever and never sees
    its failure, however many rounds pass. *)
Theorem requeue_never_fails o s rounds now q :
  1 <= maxRetries o → jm_wf (q_queue q) → q_suspended q = false →
  let '(q', es) := requeue_rounds o s rounds (fst (enqueue now s q)) in
  (∃ s1, jm_get (submission_key s) (q_queue q') = Some s1 ∧ rs_attemptCount s1 = 0) ∧
  None ∉ outcome <$> events_of (submission_key s) es.
Proof.
  intros Hmax Hwf Hs. unfold enqueue. rewrite Hs. cbn [fst].
  eapply requeue_rounds_ok; [done|done|simpl; auto with oracle|apply jm_get_set_eq|done].
Qed.

Lemma requeue_never_fails_witness :
  let rnd := λ _ : nat, double_0_8 in
  let rounds := [(0, rnd, 1); (60000, rnd, 60001); (120000, rnd, 120001); (180000, rnd, 180001)] in
  None ∉ outcome <$> events_of "XLM:100"
    (snd (requeue_rounds demo_options demo_sub rounds (fst (enqueue 0 demo_sub new_queue)))).
Proof.
  intros rnd rounds.
  pose proof (requeue_never_fails demo_options demo_sub rounds 0 new_queue) as H.
  destruct (requeue_rounds demo_options demo_sub rounds _) as [q' es].
  apply H; [done|apply jm_wf_empty|done].
Defined.
End RetryQueue.

Module Canary.

Definition BPS_DENOMINATOR : Z := 10000.

(** [Math.trunc] *)
Definition num_trunc (a : number) : number :=
  match a with NFin x => NInt (if Qle_bool 0 x then Qfloor x else Qceiling x) | _ => a end.

(** [Math.max(0, Math.min(BPS_DENOMINATOR, Math.trunc(x) || 0))] *)
Definition clampShare (canaryShareBps : number) : Z :=
  match num_trunc canaryShareBps with
  | NNaN => 0
  | NInf negative => if negative then 0 else BPS_DENOMINATOR
  | NFin x => Z.max 0 (Z.min BPS_DENOMINATOR (Qfloor x))
  end.

Definition shouldRouteToCanary (sequence : Z) (canaryShareBps : number) : bool :=
  let share := clampShare canaryShareBps in
  if share =? 0 then false
  else if BPS_DENOMINATOR <=? share then true
  else Z.rem sequence BPS_DENOMINATOR <? share.

Record CanaryRollbackGuard := mkGuard {
  g_failures : Z;
  g_successes : Z;
  g_threshold : Z;
}.

(** The constructor throws unless the threshold is a positive integer. *)
Definition newGuard (threshold : number) : option CanaryRollbackGuard :=
  if negb (is_integer threshold) || num_leb threshold (NInt 0) then None
  else match threshold with NFin x => Some (mkGuard 0 0 (Qfloor x)) | _ => None end.

Definition recordFailure (g : CanaryRollbackGuard) : CanaryRollbackGuard * bool :=
  let failures := g_failures g + 1 in
  (mkGuard failures (g_successes g) (g_threshold g), g_threshold g <=? failures).

Definition recordSuccess (g : CanaryRollbackGuard) : CanaryRollbackGuard :=
  mkGuard 0 (g_successes g + 1) (g_threshold g).

Definition shouldRollback (g : CanaryRollbackGuard) : bool := g_threshold g <=? g_failures g.

(** ** Traffic split *)

Definition routed (f : Z → bool) (from n : Z) : nat :=
  length (filter (λ i, f i = true) (seqZ from n)).

(** Over a full period a periodic split does not depend on where it starts. *)
Lemma routed_period f P from :
  0 < P → (∀ n, 0 <= n → f (n + P) = f n) → 0 <= from → routed f from P = routed f 0 P.
Proof.
  intros HP Hper. revert from. apply natlike_ind; [done|]. intros from Hfrom IH. rewrite <- IH.
  unfold routed. rewrite (seqZ_cons from) by lia.
  replace P with (Z.pred P + 1) at 1 by lia. rewrite seqZ_app by lia.
  replace (Z.succ from + Z.pred P) with (from + P) by lia.
  rewrite filter_app, length_app, filter_cons.
  rewrite (seqZ_cons (from + P)), (seqZ_nil (Z.succ (from + P))), filter_cons, filter_nil, Hper by lia.
  destruct (decide (f from = true)); simpl; lia.
Qed.

Lemma routed_prefix f share P :
  0 <= share <= P → (∀ n, 0 <= n < P → f n = (n <? share)) → routed f 0 P = Z.to_nat share.
Proof.
  intros Hs Hf. unfold routed. replace P with (share + (P - share)) by lia.
  rewrite seqZ_app, filter_app, length_app by lia.
  rewrite filter_all, (filter_none _ (seqZ (0 + share) _)), length_seqZ; [simpl; lia| |].
  - intros i Hi%elem_of_seqZ. rewrite Hf by lia. destruct (i <? share) eqn:E; to_prop; [lia|done].
  - intros i Hi%elem_of_seqZ. rewrite Hf by lia. apply Z.ltb_lt. lia.
Qed.

Lemma clampShare_bounds x : 0 <= clampShare x <= BPS_DENOMINATOR.
Proof. unfold clampShare, BPS_DENOMINATOR. destruct (num_trunc x) as [q| |[]]; lia. Qed.

Lemma shouldRoute_spec n x :
  0 <= n → shouldRouteToCanary n x = (n mod BPS_DENOMINATOR <? clampShare x).
Proof.
  intros Hn. unfold shouldRouteToCanary. rewrite Z.rem_mod_nonneg by (unfold BPS_DENOMINATOR; lia).
  pose proof (clampShare_bounds x). pose proof (Z.mod_pos_bound n BPS_DENOMINATOR eq_refl).
  destruct (_ =? 0) eqn:E1; [to_prop; symmetry; apply Z.ltb_ge; lia|].
  destruct (_ <=? _) eqn:E2; [to_prop; symmetry; apply Z.ltb_lt; lia|done].
Qed.

(** The canary receives exactly its share: of any ten thousand consecutive
    submissions, the configured number of basis points, clamped to the range
    from 0 to 10000, goes to the canary contract, wherever the window starts. *)
Theorem share_exact canaryShareBps from :
  0 <= from →
  routed (λ n, shouldRouteToCanary n canaryShareBps) from BPS_DENOMINATOR =
    Z.to_nat (clampShare canaryShareBps).
Proof.
  intros Hf. rewrite routed_period; [|done| |done].
  - apply routed_prefix; [apply clampShare_bounds|]. intros n Hn. rewrite shouldRoute_spec by lia.
    by rewrite Z.mod_small.
  - intros n Hn. rewrite !shouldRoute_spec by (unfold BPS_DENOMINATOR; lia).
    replace (n + BPS_DENOMINATOR) with (n + 1 * BPS_DENOMINATOR) by lia.
    by rewrite Z.mod_add by done.
Qed.

Lemma share_exact_witness :
  routed (λ n, shouldRouteToCanary n (NInt 250)) 7 BPS_DENOMINATOR = 250%nat.
Proof. exact (share_exact (NInt 250) 7 ltac:(lia)). Defined.

(** ** Rollback *)

(** One submission to the canary: [true] for success. *)
Definition record (g : CanaryRollbackGuard) (ok : bool) : CanaryRollbackGuard :=
  if ok then recordSuccess g else fst (recordFailure g).

(** The failures since the last success. *)
Fixpoint streak (outcomes : list bool) : nat :=
  match outcomes with false :: l => S (streak l) | _ => 0 end.

Lemma record_all g outcomes :
  let g' := foldl record g outcomes in
  g_threshold g' = g_threshold g ∧
  (g_failures g = 0 → g_failures g' = Z.of_nat (streak (reverse outcomes))).
Proof.
  induction outcomes as [|ok l [IH1 IH2]] using rev_ind; [done|].
  rewrite foldl_app, reverse_snoc. destruct ok; simpl; (split; [done|]); [done|].
  intros H0. rewrite IH2 by done. lia.
Qed.

Lemma newGuard_ok t g : newGuard t = Some g → g_failures g = 0 ∧ 0 < g_threshold g.
Proof.
  unfold newGuard. destruct (negb (is_integer t) || num_leb t (NInt 0)) eqn:E; [done|]. to_prop.
  destruct t as [x| |]; [|done..]. intros [= <-]. simpl in *. split; [done|].
  match goal with H : Qeq_bool _ _ = true |- _ => apply Qeq_bool_iff in H; rename H into Hi end.
  destruct (decide (0 < Qfloor x)); [done|]. exfalso.
  enough (Qle_bool x (inject_Z 0) = true) by congruence.
  apply Qle_bool_iff. rewrite Hi, <- Zle_Qle. lia.
Qed.

(** A rollback is requested exactly when the last [threshold] canary
    submissions all failed: no number of failures with a success among them
    trips it, and a guard with a non-positive threshold cannot be built. *)
Theorem rollback_exact t g outcomes :
  newGuard t = Some g →
  (shouldRollback (foldl record g outcomes) = true ↔
     ∃ before, outcomes = before ++ replicate (Z.to_nat (g_threshold g)) false) ∧
  snd (recordFailure (foldl record g outcomes)) =
    shouldRollback (foldl record g (outcomes ++ [false])).
Proof.
  intros [H0 Ht]%newGuard_ok. destruct (record_all g outcomes) as [H1 H2]. specialize (H2 H0). split.
  - unfold shouldRollback. rewrite H1, H2, Z.leb_le.
    assert (∀ n l, (n <= streak l)%nat ↔ ∃ rest, l = replicate n false ++ rest) as Hst.
    { clear. induction n as [|n IH]; intros l; simpl; [split; [by exists l|lia]|].
      destruct l as [|[] l]; simpl.
      - split; [lia|by intros [? [=]]].
      - split; [lia|by intros [? [=]]].
      - rewrite <- Nat.succ_le_mono, IH. naive_solver. }
    rewrite <- (Z2Nat.id (g_threshold g)) at 1 by lia. rewrite <- Nat2Z.inj_le, Hst. split.
    + intros [rest Hr]. exists (reverse rest). apply (f_equal reverse) in Hr.
      by rewrite reverse_involutive, reverse_app, reverse_replicate in Hr.
    + intros [before ->]. exists (reverse before). by rewrite reverse_app, reverse_replicate.
  - by rewrite foldl_app.
Qed.

Lemma rollback_exact_witness :
  shouldRollback (foldl record (mkGuard 0 0 2) [false; true; false]) = false ∧
  shouldRollback (foldl record (mkGuard 0 0 2) [true; false; false]) = true.
Proof.
  split; [reflexivity|].
  apply (proj1 (rollback_exact (NInt 2) (mkGuard 0 0 2) [true; false; false] eq_refl)).
  by exists [true].
Defined.
End Canary.
