(* ===== verification/Shutdown.v ===== *)
(** * Graceful shutdown

    Models [services/aggregator/src/infrastructure/shutdown.ts]: the sequence
    the aggregator runs on a termination signal.  A hook that returns a promise
    is described by how long it takes and how it ends, or by [Hangs]; the
    synchronous hooks either return or throw.  A run is the list of hooks called,
    the time that has passed when it ends, and its outcome; a run that waits for
    a hook that hangs does not end.

    The theorems: readiness is always flipped first and the servers are closed
    last; contract submissions are drained only after the running cycle has
    finished; the drain phase never exceeds its deadline; and whatever the hooks
    do, the process exits, at the latest when the force-exit timer fires. *)

From Stdlib Require Import ZArith Lia.
From stdpp Require Import base tactics decidable numbers list.
From S2P Require Import Prelude.

Local Open Scope Z_scope.

(** A promise: it settles after some milliseconds, or never. *)
Inductive promise (A : Type) : Type :=
| Settles (after : Z) (value : option A)       (* [None] for a rejection *)
| Hangs.
Arguments Settles {A} after value.
Arguments Hangs {A}.

Record ShutdownHooks : Type := mkHooks {
  hk_flipReadiness : bool;                     (* whether it returns *)
  hk_stopScheduledWork : bool;
  hk_waitForInFlightCycle : promise bool;
  hk_drainRetryQueue : promise unit;
  hk_closeServers : promise unit;
  hk_disconnectDatabase : option (promise unit);
}.

Record ShutdownOptions : Type := mkShutdownOptions {
  drainDeadlineMs : Z;
  forceExitMs : Z;
}.

Inductive ShutdownOutcome : Type := drained | deadline_exceeded.
Definition exitCode (x : ShutdownOutcome) : Z := match x with drained => 0 | deadline_exceeded => 1 end.

(** The hooks in the order they are called. *)
Inductive hook : Type := FlipReadiness | StopScheduledWork | WaitForCycle | DrainQueue | CloseServers | DisconnectDatabase.
#[export] Instance hook_eq_dec : EqDecision hook.
Proof. solve_decision. Defined.

(** [withDeadline(promise, budgetMs, what)]: what the race gives, [None] for a
    rejection, and how long it takes.  The hook itself has been called before. *)
Definition withDeadline {A} (p : promise A) (budgetMs : Z) : option A * Z :=
  if budgetMs <=? 0 then (None, 0)
  else match p with
       | Settles d v => if d <? budgetMs then (v, d) else (None, budgetMs)
       | Hangs => (None, budgetMs)
       end.

(** How a run ends: an outcome, an exception, or not at all. *)
Inductive run_end : Type := Finished (x : ShutdownOutcome) | Failed | Stuck.

Record shutdown_run : Type := mkRun {
  run_hooks : list hook;
  run_elapsed : Z;                    (* when it ended, or got stuck *)
  run_end_ : run_end;
}.

Definition DB_BUDGET : Z := 5000.

(** [closeQuietly]: the hooks called, the time taken, and whether it ends. *)
Definition closeQuietly (h : ShutdownHooks) : list hook * Z * bool :=
  match hk_closeServers h with
  | Hangs => ([CloseServers], 0, false)
  | Settles d _ =>
      match hk_disconnectDatabase h with
      | None => ([CloseServers], d, true)
      | Some db => ([CloseServers; DisconnectDatabase], d + snd (withDeadline db DB_BUDGET), true)
      end
  end.

(** The end of [run]: the servers are closed, then the outcome is returned. *)
Definition finish (h : ShutdownHooks) (called : list hook) (elapsed : Z) (x : ShutdownOutcome)
    : shutdown_run :=
  let '(hs, d, ends) := closeQuietly h in
  mkRun (called ++ hs) (elapsed + d) (if ends then Finished x else Stuck).

Definition run (h : ShutdownHooks) (o : ShutdownOptions) : shutdown_run :=
  if negb (hk_flipReadiness h) then mkRun [FlipReadiness] 0 Failed
  else if negb (hk_stopScheduledWork h) then mkRun [FlipReadiness; StopScheduledWork] 0 Failed
  else
    let '(cycle, waited) := withDeadline (hk_waitForInFlightCycle h) (Z.max 0 (drainDeadlineMs o)) in
    let called := [FlipReadiness; StopScheduledWork; WaitForCycle] in
    if negb (default false cycle) then finish h called waited deadline_exceeded
    else
      let '(_, spent) := withDeadline (hk_drainRetryQueue h) (Z.max 0 (drainDeadlineMs o - waited)) in
      finish h (called ++ [DrainQueue]) (waited + spent) drained.

(** The process after a signal: whether a shutdown is under way. *)
Record exit_ : Type := mkExit { ex_code : Z; ex_at : Z }.

(** [handleSignal]: [None] when a shutdown is already running and the signal is
    ignored; otherwise how and when the process exits. *)
Definition handleSignal (h : ShutdownHooks) (o : ShutdownOptions) (triggered : bool)
    : bool * option exit_ :=
  if triggered then (true, None)
  else
    let r := run h o in
    let forced := mkExit 1 (forceExitMs o) in
    (true, Some (match run_end_ r with
                 | Stuck => forced
                 | Finished x => if run_elapsed r <? forceExitMs o
                                 then mkExit (exitCode x) (run_elapsed r) else forced
                 | Failed => if run_elapsed r <? forceExitMs o then mkExit 1 (run_elapsed r) else forced
                 end)).

(** ** Facts *)

Lemma withDeadline_bound {A} (p : promise A) b :
  (∀ d v, p = Settles d v → 0 <= d) → 0 <= snd (withDeadline p b) <= Z.max 0 b.
Proof.
  intros Hp. unfold withDeadline. destruct (Z.leb_spec b 0); [simpl; lia|].
  destruct p as [d v|]; simpl; [|lia]. specialize (Hp d v eq_refl).
  destruct (Z.ltb_spec d b); simpl; lia.
Qed.

Lemma finish_hooks h called t x :
  run_hooks (finish h called t x) = called ++ fst (fst (closeQuietly h)) ∧
  run_end_ (finish h called t x) = (if snd (closeQuietly h) then Finished x else Stuck) ∧
  run_elapsed (finish h called t x) = t + snd (fst (closeQuietly h)).
Proof. unfold finish. by destruct (closeQuietly h) as [[hs d] ends]. Qed.

(** The cycle ended, and well, before the deadline. *)
Definition cycle_completed (h : ShutdownHooks) (o : ShutdownOptions) : bool :=
  match hk_waitForInFlightCycle h with
  | Settles d (Some true) => (0 <? drainDeadlineMs o) && (d <? drainDeadlineMs o)
  | _ => false
  end.

Lemma cycle_completed_spec h o :
  default false (fst (withDeadline (hk_waitForInFlightCycle h) (Z.max 0 (drainDeadlineMs o)))) =
    cycle_completed h o.
Proof.
  unfold withDeadline, cycle_completed.
  destruct (Z.leb_spec (Z.max 0 (drainDeadlineMs o)) 0).
  - rewrite (proj2 (Z.ltb_ge 0 (drainDeadlineMs o))) by lia.
    by destruct (hk_waitForInFlightCycle h) as [d [[]|]|].
  - rewrite Z.max_r by lia. rewrite (proj2 (Z.ltb_lt 0 (drainDeadlineMs o))) by lia.
    destruct (hk_waitForInFlightCycle h) as [d v|]; [|done].
    destruct (Z.ltb_spec d (drainDeadlineMs o)); simpl; by destruct v as [[]|].
Qed.

(** the sequence is fixed: readiness is flipped before anything else and work is
    stopped next; the retry queue is drained exactly when the running cycle
    completed before the deadline, which is also exactly when a run that ends
    reports success; the servers are closed after all of it. *)
Theorem shutdown_sequence h o :
  hk_flipReadiness h = true → hk_stopScheduledWork h = true →
  run_hooks (run h o) =
    [FlipReadiness; StopScheduledWork; WaitForCycle] ++
    (if cycle_completed h o then [DrainQueue] else []) ++ fst (fst (closeQuietly h)) ∧
  run_end_ (run h o) =
    (if snd (closeQuietly h)
     then Finished (if cycle_completed h o then drained else deadline_exceeded) else Stuck).
Proof.
  intros H1 H2. unfold run. rewrite H1, H2. cbn [negb].
  pose proof (cycle_completed_spec h o) as Hc.
  destruct (withDeadline (hk_waitForInFlightCycle h) _) as [cycle waited]. cbn [fst] in Hc.
  rewrite Hc. destruct (cycle_completed h o); cbn [negb].
  - destruct (withDeadline (hk_drainRetryQueue h) _) as [q spent].
    destruct (finish_hooks h ([FlipReadiness; StopScheduledWork; WaitForCycle] ++ [DrainQueue])
      (waited + spent) drained) as (-> & -> & _). by rewrite <- app_assoc.
  - destruct (finish_hooks h [FlipReadiness; StopScheduledWork; WaitForCycle] waited deadline_exceeded)
      as (-> & -> & _). done.
Qed.

(** No hook settles before it is called. *)
Definition hooks_ok (h : ShutdownHooks) : Prop :=
  (∀ d v, hk_waitForInFlightCycle h = Settles d v → 0 <= d) ∧
  (∀ d v, hk_drainRetryQueue h = Settles d v → 0 <= d) ∧
  (∀ d v, hk_closeServers h = Settles d v → 0 <= d) ∧
  (∀ p d v, hk_disconnectDatabase h = Some p → p = Settles d v → 0 <= d).

(** the time up to the closing of the servers is within the drain deadline, and
    the whole run within that plus the closing itself and five seconds for the
    database. *)
Theorem shutdown_time h o :
  hooks_ok h →
  0 <= run_elapsed (run h o) <=
    Z.max 0 (drainDeadlineMs o) + DB_BUDGET +
    match hk_closeServers h with Settles d _ => d | Hangs => 0 end.
Proof.
  intros (Hw & Hq & Hc & Hd). unfold run.
  assert (0 <= snd (fst (closeQuietly h)) <=
    DB_BUDGET + match hk_closeServers h with Settles d _ => d | Hangs => 0 end) as Hclose.
  { unfold closeQuietly. destruct (hk_closeServers h) as [d v|]; simpl; [|done].
    specialize (Hc d v eq_refl). destruct (hk_disconnectDatabase h) as [db|]; simpl.
    - pose proof (withDeadline_bound db DB_BUDGET (λ d v, Hd db d v eq_refl)). unfold DB_BUDGET in *. lia.
    - unfold DB_BUDGET. lia. }
  assert (0 <= match hk_closeServers h with Settles d _ => d | Hangs => 0 end) as Hc0.
  { destruct (hk_closeServers h) as [d v|]; [by eapply Hc|done]. }
  destruct (negb _); [cbn [run_elapsed]; unfold DB_BUDGET; lia|].
  destruct (negb _); [cbn [run_elapsed]; unfold DB_BUDGET; lia|].
  pose proof (withDeadline_bound (hk_waitForInFlightCycle h) (Z.max 0 (drainDeadlineMs o)) Hw) as B1.
  destruct (withDeadline (hk_waitForInFlightCycle h) _) as [cycle waited]. cbn [snd] in B1.
  destruct (negb _).
  - destruct (finish_hooks h [FlipReadiness; StopScheduledWork; WaitForCycle] waited deadline_exceeded)
      as (_ & _ & ->). lia.
  - pose proof (withDeadline_bound (hk_drainRetryQueue h) (Z.max 0 (drainDeadlineMs o - waited)) Hq) as B2.
    destruct (withDeadline (hk_drainRetryQueue h) _) as [q spent]. cbn [snd] in B2.
    destruct (finish_hooks h ([FlipReadiness; StopScheduledWork; WaitForCycle] ++ [DrainQueue])
      (waited + spent) drained) as (_ & _ & ->). lia.
Qed.

(** the first signal always ends the process, at the latest when the force-exit
    timer fires and then with code 1; code 0 means that the cycle in flight had
    completed.  A second signal changes nothing. *)
Theorem process_exits h o :
  hooks_ok h → 0 < forceExitMs o →
  (∃ e, handleSignal h o false = (true, Some e) ∧ 0 <= ex_at e <= forceExitMs o ∧
    (ex_code e = 0 → cycle_completed h o = true)) ∧
  handleSignal h o true = (true, None).
Proof.
  intros Hok Hf. split; [|done]. unfold handleSignal. eexists. split; [done|].
  pose proof (shutdown_time h o Hok) as [Ht _].
  destruct (run_end_ (run h o)) as [x| |] eqn:Er; [| |simpl; lia].
  - destruct (Z.ltb_spec (run_elapsed (run h o)) (forceExitMs o)); cbn [ex_at ex_code]; [|lia].
    split; [lia|]. destruct x; [|done]. intros _. revert Er. unfold run.
    destruct (negb _); [done|]. destruct (negb _); [done|].
    pose proof (cycle_completed_spec h o) as Hc.
    destruct (withDeadline (hk_waitForInFlightCycle h) _) as [cycle waited]. cbn [fst] in Hc.
    rewrite Hc. destruct (cycle_completed h o); [done|]. cbn [negb].
    destruct (finish_hooks h [FlipReadiness; StopScheduledWork; WaitForCycle] waited deadline_exceeded)
      as (_ & -> & _). by destruct (snd (closeQuietly h)).
  - destruct (Z.ltb_spec (run_elapsed (run h o)) (forceExitMs o)); cbn [ex_at ex_code]; lia.
Qed.

(** ** Concrete runs *)

Definition demo_hooks : ShutdownHooks :=
  mkHooks true true (Settles 800 (Some true)) Hangs (Settles 50 (Some tt)) (Some Hangs).
Definition demo_shutdown : ShutdownOptions := mkShutdownOptions 20000 30000.

Lemma demo_hooks_ok : hooks_ok demo_hooks.
Proof. repeat split; intros; simplify_eq/=; lia. Qed.

(** The retry queue hangs: it is cut off at the drain deadline, the database
    after five seconds, and the run still reports that it drained. *)
Lemma shutdown_sequence_witness :
  run_hooks (run demo_hooks demo_shutdown) =
    [FlipReadiness; StopScheduledWork; WaitForCycle; DrainQueue; CloseServers; DisconnectDatabase] ∧
  run_end_ (run demo_hooks demo_shutdown) = Finished drained.
Proof. apply (shutdown_sequence demo_hooks demo_shutdown); reflexivity. Defined.

Lemma shutdown_time_witness : run_elapsed (run demo_hooks demo_shutdown) <= 20000 + 5000 + 50.
Proof. apply (shutdown_time demo_hooks demo_shutdown demo_hooks_ok). Defined.

Lemma process_exits_witness :
  ∃ e, handleSignal demo_hooks demo_shutdown false = (true, Some e) ∧ ex_at e <= 30000.
Proof.
  destruct (process_exits demo_hooks demo_shutdown demo_hooks_ok) as [(e & He & Ht & _) _]; [simpl; lia|].
  exists e. split; [exact He|apply Ht].
Defined.

(** Success is reported although the retry queue was not drained. *)
Example drained_without_draining :
  hk_drainRetryQueue demo_hooks = Hangs ∧
  snd (handleSignal demo_hooks demo_shutdown false) = Some (mkExit 0 25050).
Proof. split; reflexivity. Qed.
