(* ===== verification/Ssrf.v ===== *)
(** * Outbound request guard

    [packages/ssrf-guard/src]: the address ranges outbound requests must not
    reach ([ranges.ts]), URL and deployment policies, destination pinning and
    redirect chains ([policy.ts]) and the DNS lookup handed to sockets
    ([lookup.ts]).

    [net.isIP] is modelled on the grammar Node uses.  The WHATWG URL parser, the
    DNS resolver and the HTTP client are arguments.  Bitwise operators act on
    32-bit two's complement integers as in ECMAScript.

    - [ipv4_blocked_exact]: the masked comparisons block exactly the intended
      ranges of IPv4 addresses;
    - [lookup_confined]: which addresses a socket can receive;
    - [redirects_confined]: every hop of a redirect chain is within the
      deployment policy, and the chain is bounded;
    - [mapped_literal_passes]: an IPv4-mapped address in the spelling the URL
      parser produces is not recognised. *)

From stdpp Require Import base list strings sets pretty.
From S2P Require Import Prelude.

Local Open Scope Z_scope.

(** ** Text *)

Definition dot : Ascii.ascii := Ascii.ascii_of_nat 46.
Definition percent : Ascii.ascii := Ascii.ascii_of_nat 37.

Definition is_digit (ch : Ascii.ascii) : bool := char_between 48 57 ch.
Definition is_hex (ch : Ascii.ascii) : bool :=
  is_digit ch || char_between 97 102 ch || char_between 65 70 ch.

(** [parseInt(text, 10)] on a text of digits. *)
Definition parse_decimal (l : list Ascii.ascii) : Z :=
  foldl (λ n ch, n * 10 + (Z.of_nat (Ascii.nat_of_ascii ch) - 48)) 0 l.

Definition starts_with (prefix s : string) : bool :=
  bool_decide (chars prefix `prefix_of` chars s).
Definition ends_with (suffix s : string) : bool :=
  bool_decide (chars suffix `suffix_of` chars s).

(** [s.replace(/\.$/, '')] *)
Definition strip_dot (s : string) : string :=
  match reverse (chars s) with
  | ch :: rest => if decide (ch = dot) then String.string_of_list_ascii (reverse rest) else s
  | [] => s
  end.

(** The square brackets around a text are removed, as the source does with a
    regular expression. *)
Definition strip_brackets (s : string) : string :=
  match chars s with
  | ch :: rest =>
      match reverse rest with
      | ch' :: mid =>
          if bool_decide (Ascii.nat_of_ascii ch = 91%nat) && bool_decide (Ascii.nat_of_ascii ch' = 93%nat)
          then String.string_of_list_ascii (reverse mid) else s
      | [] => s
      end
  | [] => s
  end.

(** ** [net.isIP] *)

(** [25[0-5]|2[0-4]\d|1\d\d|[1-9]\d|\d] *)
Definition v4_seg (l : list Ascii.ascii) : bool :=
  forallb is_digit l && (parse_decimal l <=? 255) &&
  match l with
  | [_] => true
  | ch :: _ => (length l <=? 3)%nat && negb (bool_decide (Ascii.nat_of_ascii ch = 48%nat))
  | [] => false
  end.

Definition v4_text (l : list Ascii.ascii) : bool :=
  let segs := split_on dot l in (length segs =? 4)%nat && forallb v4_seg segs.

Definition v6_seg (l : list Ascii.ascii) : bool :=
  (1 <=? length l)%nat && (length l <=? 4)%nat && forallb is_hex l.

(** The number of 16-bit groups of a colon-separated list; a trailing IPv4
    address counts for two. *)
Fixpoint v6_groups (segs : list (list Ascii.ascii)) : option nat :=
  match segs with
  | [] => Some 0%nat
  | [seg] => if v6_seg seg then Some 1%nat else if v4_text seg then Some 2%nat else None
  | seg :: segs' => if v6_seg seg then S <$> v6_groups segs' else None
  end.

Definition v6_part (l : list Ascii.ascii) : option nat :=
  match l with [] => Some 0%nat | _ => v6_groups (split_on colon l) end.

(** The text before and after the first double colon. *)
Fixpoint split_double (l : list Ascii.ascii) : option (list Ascii.ascii * list Ascii.ascii) :=
  match l with
  | [] => None
  | ch :: l' =>
      match l' with
      | ch' :: rest =>
          if bool_decide (ch = colon) && bool_decide (ch' = colon) then Some ([], rest)
          else (λ '(a, b), (ch :: a, b)) <$> split_double l'
      | [] => None
      end
  end.

Definition v6_text (l : list Ascii.ascii) : bool :=
  match split_double l with
  | None => bool_decide (v6_groups (split_on colon l) = Some 8%nat)
  | Some (before, after) =>
      forallb v6_seg (match before with [] => [] | _ => split_on colon before end) &&
      match v6_part before, v6_part after with
      | Some n, Some k => (n + k <=? 7)%nat
      | _, _ => false
      end
  end.

(** An optional zone: [%[0-9a-zA-Z-.:]\{1,\}] *)
Definition zone_char (ch : Ascii.ascii) : bool :=
  is_digit ch || char_between 97 122 ch || char_between 65 90 ch ||
  bool_decide (Ascii.nat_of_ascii ch ∈ [45%nat; 46%nat; 58%nat]).

Fixpoint split_zone (l : list Ascii.ascii) : list Ascii.ascii * option (list Ascii.ascii) :=
  match l with
  | [] => ([], None)
  | ch :: l' => if decide (ch = percent) then ([], Some l')
                else let '(a, z) := split_zone l' in (ch :: a, z)
  end.

Definition isIP (ip : string) : Z :=
  if v4_text (chars ip) then 4
  else let '(addr, zone) := split_zone (chars ip) in
       if v6_text addr &&
          match zone with None => true | Some z => (1 <=? length z)%nat && forallb zone_char z end
       then 6 else 0.

(** ** Address ranges *)

Definition to_int32 (z : Z) : Z := (z + 2 ^ 31) mod 2 ^ 32 - 2 ^ 31.
(** [a << n], [a & b] and [a >>> 0] *)
Definition js_shl (a n : Z) : Z := to_int32 (Z.shiftl (to_int32 a) n).
Definition js_and (a b : Z) : Z := Z.land (to_int32 a) (to_int32 b).
Definition js_unsigned (a : Z) : Z := a mod 2 ^ 32.

Definition BLOCKED_V4_RANGES : list (string * Z) :=
  [("0.0.0.0", 8); ("10.0.0.0", 8); ("100.64.0.0", 10); ("127.0.0.0", 8); ("169.254.0.0", 16);
   ("172.16.0.0", 12); ("192.0.0.0", 24); ("192.0.2.0", 24); ("192.168.0.0", 16);
   ("198.18.0.0", 15); ("198.51.100.0", 24); ("203.0.113.0", 24); ("224.0.0.0", 4);
   ("240.0.0.0", 4)]%string.

(** Applied to dotted quads only. *)
Definition ipv4ToLong (ip : string) : Z :=
  js_unsigned (foldl (λ acc octet, js_shl acc 8 + parse_decimal octet) 0 (split_on dot (chars ip))).

Definition inV4Range (ip range : string) (bits : Z) : bool :=
  let mask := if bits =? 0 then 0 else js_unsigned (js_shl (-1) (32 - bits)) in
  js_and (ipv4ToLong ip) mask =? js_and (ipv4ToLong range) mask.

(** [normalized.match(/^::ffff:(\d+\.\d+\.\d+\.\d+)$/)] *)
Definition mapped_v4 (s : string) : option string :=
  if starts_with "::ffff:" s then
    let rest := drop 7 (chars s) in
    let segs := split_on dot rest in
    if (length segs =? 4)%nat && forallb (λ l, (1 <=? length l)%nat && forallb is_digit l) segs
    then Some (String.string_of_list_ascii rest) else None
  else None.

(** The recursive call is on a text without colons, so two levels suffice. *)
Fixpoint isPrivateIp_from (fuel : nat) (ip : string) : bool :=
  let family := isIP ip in
  if family =? 4 then existsb (λ '(range, bits), inV4Range ip range bits) BLOCKED_V4_RANGES
  else if family =? 6 then
    let normalized := toLowerCase ip in
    match mapped_v4 normalized with
    | Some v4 => match fuel with S fuel' => isPrivateIp_from fuel' v4 | O => true end
    | None =>
        bool_decide (normalized = "::1"%string) || bool_decide (normalized = "::"%string) ||
        starts_with "fc" normalized || starts_with "fd" normalized ||
        starts_with "fe80" normalized || starts_with "ff" normalized
    end
  else true.

Definition isPrivateIp (ip : string) : bool := isPrivateIp_from 1 ip.

(** ** Policies *)

Inductive SsrfReason :=
  MalformedUrl | Protocol | HttpsRequired | Allowlist | ForbiddenHost | PrivateIp | DnsRebinding
| PolicyMissing | PolicyMalformed | DeploymentAllowlist | DnsEmpty | RedirectLimit
| Rejected.               (* the rejection of an awaited resolver or request *)

Record SsrfPolicy := mkPolicy {
  sp_requireHttps : option bool;
  sp_allowedHosts : option (list string);
  sp_allowPrivateIps : option bool;
  sp_allowLocalHostnames : option bool;
}.

Record DeploymentPolicy := mkDeployment {
  dp_environment : string;
  dp_allowedHosts : list string;
  dp_allowedSuffixes : option (list string);
  dp_requireHttps : option bool;
  dp_allowPrivateIps : option bool;
  dp_allowLocalHostnames : option bool;
  dp_maxRedirects : option Z;
}.

(** What the guard reads of a parsed URL. *)
Record URL := mkURL {
  u_protocol : string;
  u_hostname : string;
  u_port : string;
}.

Definition FORBIDDEN_HOSTNAMES : list string :=
  ["localhost"; "metadata"; "metadata.google.internal"; "kubernetes"; "kubernetes.default";
   "kubernetes.default.svc"; "ip6-localhost"; "ip6-loopback"; "host.docker.internal";
   "host.containers.internal"]%string.

Definition FORBIDDEN_SUFFIXES : list string :=
  [".localhost"; ".local"; ".localdomain"; ".internal"; ".intranet"; ".lan"; ".home.arpa";
   ".cluster.local"; ".svc"]%string.

Definition normalizeHost (s : string) : string := strip_dot (toLowerCase s).

Definition isForbiddenHostname (hostname : string) : bool :=
  let host := normalizeHost hostname in
  bool_decide (host ∈ FORBIDDEN_HOSTNAMES) || existsb (λ suffix, ends_with suffix host) FORBIDDEN_SUFFIXES.

Definition normalizeHosts (hosts : option (list string)) : list string :=
  match hosts with Some l => normalizeHost <$> l | None => [] end.

Definition normalizeSuffixes (suffixes : option (list string)) : list string :=
  match suffixes with
  | None => []
  | Some l =>
      omap (λ s, let normalized := normalizeHost s in
                 if bool_decide (normalized = ""%string) then None
                 else Some (if starts_with "." normalized then normalized else "." +:+ normalized)) l
  end.

Definition truthy_opt (b : option bool) : bool := default false b.

(** A raw configuration entry, by the tests [loadDeploymentPolicy] makes. *)
Inductive raw_policy :=
| RawMissing                                    (* undefined or null *)
| RawScalar                                     (* not an object *)
| RawObject (allowedHosts allowedSuffixes : option (list string))   (* [None]: not an array *)
    (requireHttps : option bool) (allowPrivateIps allowLocalHostnames : bool)
    (maxRedirects : option Z).

Definition loadDeploymentPolicy (environment : string) (config : string → raw_policy)
    : result SsrfReason DeploymentPolicy :=
  match config environment with
  | RawMissing => Throw PolicyMissing
  | RawScalar => Throw PolicyMalformed
  | RawObject None _ _ _ _ _ => Throw PolicyMalformed
  | RawObject (Some hosts) suffixes https priv loc redirects =>
      Ok (mkDeployment environment (normalizeHost <$> hosts) suffixes
            (Some (default true https)) (Some priv) (Some loc) redirects)
  end.

Definition toSsrfPolicy (p : DeploymentPolicy) : SsrfPolicy :=
  mkPolicy (Some (default true (dp_requireHttps p))) (Some (dp_allowedHosts p))
    (Some (truthy_opt (dp_allowPrivateIps p))) (Some (truthy_opt (dp_allowLocalHostnames p))).

Definition without_hosts (p : SsrfPolicy) : SsrfPolicy :=
  mkPolicy (sp_requireHttps p) None (sp_allowPrivateIps p) (sp_allowLocalHostnames p).

Record PinnedDestination := mkPinned {
  pd_hostname : string;
  pd_address : string;
  pd_family : Z;
  pd_port : Z;
}.

Record LookupAddress := mkAddress {
  la_address : string;
  la_family : Z;
}.

Section policy.
(** [new URL(raw)]; [None] when it throws. *)
Context (parseURL : string → option URL).
(** The DNS resolver and the request that reports a redirect; [None] is a
    rejected promise.  The request may answer differently at each hop. *)
Context (resolver : string → option (list LookupAddress)).
Context (fetchRedirect : nat → string → option (option string)).

Definition validateOutboundUrl (rawUrl : string) (policy : SsrfPolicy) : result SsrfReason URL :=
  match parseURL rawUrl with
  | None => Throw MalformedUrl
  | Some parsed =>
      if negb (bool_decide (u_protocol parsed = "http:"%string)) &&
         negb (bool_decide (u_protocol parsed = "https:"%string)) then Throw Protocol
      else if truthy_opt (sp_requireHttps policy) &&
              negb (bool_decide (u_protocol parsed = "https:"%string)) then Throw HttpsRequired
      else
        let host := normalizeHost (u_hostname parsed) in
        let ipLiteral := strip_brackets host in
        let allow := normalizeHosts (sp_allowedHosts policy) in
        if negb (bool_decide (allow = [])) && negb (bool_decide (host ∈ allow)) then Throw Allowlist
        else
          let allowLocalHostnames :=
            match sp_allowLocalHostnames policy with
            | Some b => b
            | None => truthy_opt (sp_allowPrivateIps policy)
            end in
          if negb allowLocalHostnames && isForbiddenHostname host then Throw ForbiddenHost
          else if negb (isIP ipLiteral =? 0) && negb (truthy_opt (sp_allowPrivateIps policy)) &&
                  isPrivateIp ipLiteral then Throw PrivateIp
          else Ok parsed
  end.

(** [suffixes.some((suffix) => host === suffix.slice(1) || host.endsWith(suffix))] *)
Definition suffixMatch (host : string) (suffixes : list string) : bool :=
  existsb (λ suffix, bool_decide (chars host = drop 1 (chars suffix)) || ends_with suffix host) suffixes.

Definition validateAgainstDeployment (rawUrl : string) (policy : DeploymentPolicy)
    : result SsrfReason URL :=
  match validateOutboundUrl rawUrl (without_hosts (toSsrfPolicy policy)) with
  | Throw e => Throw e
  | Ok parsed =>
      let host := normalizeHost (u_hostname parsed) in
      if negb (bool_decide (host ∈ normalizeHosts (Some (dp_allowedHosts policy)))) &&
         negb (suffixMatch host (normalizeSuffixes (dp_allowedSuffixes policy)))
      then Throw DeploymentAllowlist
      else Ok parsed
  end.

Definition pinDestination (hostname : string) (port : Z) (policy : SsrfPolicy)
    : result SsrfReason PinnedDestination :=
  let host := normalizeHost hostname in
  let ipLiteral := strip_brackets host in
  let allowPrivate := truthy_opt (sp_allowPrivateIps policy) in
  if negb (isIP ipLiteral =? 0) then
    if negb allowPrivate && isPrivateIp ipLiteral then Throw PrivateIp
    else Ok (mkPinned host ipLiteral (isIP ipLiteral) port)
  else
    match resolver host with
    | None => Throw Rejected
    | Some [] => Throw DnsEmpty
    | Some (chosen :: others) =>
        if negb allowPrivate && existsb (λ a, isPrivateIp (la_address a)) (chosen :: others)
        then Throw PrivateIp
        else Ok (mkPinned host (la_address chosen) (if la_family chosen =? 6 then 6 else 4) port)
    end.

Definition portOf (u : URL) : Z :=
  if bool_decide (u_port u = ""%string)
  then (if bool_decide (u_protocol u = "https:"%string) then 443 else 80)
  else parse_decimal (chars (u_port u)).

(** The [for] loop, with the number of hops that are left. *)
Fixpoint followRedirects (hops : nat) (hop : nat) (policy : DeploymentPolicy) (current : string)
    : result SsrfReason (URL * PinnedDestination) :=
  match hops with
  | O => Throw RedirectLimit
  | S hops' =>
      match validateAgainstDeployment current policy with
      | Throw e => Throw e
      | Ok parsed =>
          match pinDestination (u_hostname parsed) (portOf parsed) (toSsrfPolicy policy) with
          | Throw e => Throw e
          | Ok destination =>
              match fetchRedirect hop current with
              | None => Throw Rejected
              | Some None => Ok (parsed, destination)
              | Some (Some next) => followRedirects hops' (S hop) policy next
              end
          end
      end
  end.

Definition validateRedirectChain (startUrl : string) (policy : DeploymentPolicy)
    : result SsrfReason (URL * PinnedDestination) :=
  followRedirects (Z.to_nat (default 5 (dp_maxRedirects policy) + 1)) 0 policy startUrl.
End policy.

(** ** The socket lookup *)

(** The arguments the socket's callback receives. *)
Inductive lookup_result :=
| LookupError (reason : SsrfReason)
| LookupAll (addresses : list LookupAddress)
| LookupOne (address : string) (family : Z).

(** [if (lookupOptions?.all) callback(null, results, 0); else callback(null,
    results[0].address, results[0].family)]; reading [results[0]] of an empty
    array throws. *)
Definition giveResults (all : bool) (results : list LookupAddress) : lookup_result :=
  if all then LookupAll results
  else match results with
       | a :: _ => LookupOne (la_address a) (la_family a)
       | [] => LookupError Rejected
       end.

(** The answer of [dns.lookup(..., \{ all: true \})] is an argument ([None] is an
    error), and so is the pin of the hostname. *)
Definition secureLookup (policy : SsrfPolicy) (pinned : option (list string)) (all : bool)
    (answer : option (list LookupAddress)) : lookup_result :=
  match answer with
  | None => LookupError Rejected
  | Some answers =>
      let safe := if truthy_opt (sp_allowPrivateIps policy) then answers
                  else filter (λ a, isPrivateIp (la_address a) = false) answers in
      match safe with
      | [] => LookupError DnsRebinding
      | _ =>
          match pinned with
          | Some ((_ :: _) as pins) =>
              match filter (λ a, la_address a ∉ pins) safe with
              | _ :: _ => LookupError DnsRebinding
              | [] => giveResults all (filter (λ a, la_address a ∈ pins) safe)
              end
          | _ => giveResults all safe
          end
      end
  end.

(** ** IPv4 ranges *)

Lemma to_int32_shift z : ∃ k, to_int32 z = z + k * 2 ^ 32.
Proof.
  unfold to_int32. exists (- ((z + 2 ^ 31) / 2 ^ 32)).
  pose proof (Z.div_mod (z + 2 ^ 31) (2 ^ 32)). lia.
Qed.

Lemma to_int32_id z : - 2 ^ 31 ≤ z < 2 ^ 31 → to_int32 z = z.
Proof. intros H. unfold to_int32. rewrite Z.mod_small; lia. Qed.

Lemma to_int32_high z : 2 ^ 31 ≤ z < 2 ^ 32 → to_int32 z = z - 2 ^ 32.
Proof.
  intros H. unfold to_int32.
  replace (z + 2 ^ 31) with (z - 2 ^ 31 + 1 * 2 ^ 32) by lia. rewrite Z.mod_add by lia.
  rewrite Z.mod_small; lia.
Qed.

Lemma js_shl_8 z : ∃ k, js_shl z 8 = z * 256 + k * 2 ^ 32.
Proof.
  unfold js_shl. destruct (to_int32_shift z) as [k1 ->]. rewrite Z.shiftl_mul_pow2 by lia.
  destruct (to_int32_shift ((z + k1 * 2 ^ 32) * 2 ^ 8)) as [k2 ->].
  exists (k1 * 256 + k2). lia.
Qed.

(** The dotted-quad text of four octets. *)
Definition dotted (a b c d : Z) : string :=
  pretty a +:+ "." +:+ pretty b +:+ "." +:+ pretty c +:+ "." +:+ pretty d.

Definition octet (a : Z) : Prop := 0 ≤ a < 256.

Definition octet_text_ok (a : Z) : bool :=
  let t := chars (pretty a) in
  v4_seg t && (parse_decimal t =? a) && negb (bool_decide (dot ∈ t)).

Lemma octet_text a :
  octet a →
  v4_seg (chars (pretty a)) = true ∧ parse_decimal (chars (pretty a)) = a ∧ dot ∉ chars (pretty a).
Proof.
  intros Ha. assert (forallb octet_text_ok (seqZ 0 256) = true) as Hall by (vm_compute; reflexivity).
  rewrite forallb_elem in Hall. specialize (Hall a). unfold octet_text_ok in Hall.
  assert (a ∈ seqZ 0 256) as Hin by (apply elem_of_seqZ; unfold octet in Ha; lia).
  specialize (Hall Hin). to_prop. done.
Qed.

Lemma dotted_split a b c d :
  octet a → octet b → octet c → octet d →
  split_on dot (chars (dotted a b c d)) =
    [chars (pretty a); chars (pretty b); chars (pretty c); chars (pretty d)].
Proof.
  intros (_ & _ & Ha)%octet_text (_ & _ & Hb)%octet_text (_ & _ & Hc)%octet_text (_ & _ & Hd)%octet_text.
  unfold dotted. rewrite !chars_app. change (chars ".") with [dot]. cbn [app].
  by rewrite !split_on_app, split_on_single by done.
Qed.

Lemma isIP_dotted a b c d :
  octet a → octet b → octet c → octet d → isIP (dotted a b c d) = 4.
Proof.
  intros Ha Hb Hc Hd. unfold isIP, v4_text. rewrite dotted_split by done. simpl.
  destruct (octet_text a Ha) as (-> & _), (octet_text b Hb) as (-> & _),
    (octet_text c Hc) as (-> & _), (octet_text d Hd) as (-> & _). done.
Qed.

Lemma ipv4ToLong_dotted a b c d :
  octet a → octet b → octet c → octet d →
  ipv4ToLong (dotted a b c d) = a * 2 ^ 24 + b * 2 ^ 16 + c * 2 ^ 8 + d.
Proof.
  intros Ha Hb Hc Hd. unfold ipv4ToLong. rewrite dotted_split by done. cbn [foldl].
  destruct (octet_text a Ha) as (_ & -> & _), (octet_text b Hb) as (_ & -> & _),
    (octet_text c Hc) as (_ & -> & _), (octet_text d Hd) as (_ & -> & _).
  destruct (js_shl_8 0) as [k1 ->].
  destruct (js_shl_8 (0 * 256 + k1 * 2 ^ 32 + a)) as [k2 ->].
  destruct (js_shl_8 ((0 * 256 + k1 * 2 ^ 32 + a) * 256 + k2 * 2 ^ 32 + b)) as [k3 ->].
  match goal with |- js_unsigned (js_shl ?z 8 + d) = _ => destruct (js_shl_8 z) as [k4 ->] end.
  unfold js_unsigned. symmetry.
  apply (Z.mod_unique _ _ (k1 * 2 ^ 24 + k2 * 2 ^ 16 + k3 * 2 ^ 8 + k4)); [|lia].
  left. unfold octet in *. lia.
Qed.

Lemma land_mask z n : 0 ≤ n → Z.land z (- 2 ^ n) = z / 2 ^ n * 2 ^ n.
Proof.
  intros Hn. replace (- 2 ^ n) with (Z.lnot (Z.ones n)) by (rewrite Z.ones_equiv; unfold Z.lnot; lia).
  rewrite <- Z.ldiff_land, Z.ldiff_ones_r, Z.shiftl_mul_pow2, Z.shiftr_div_pow2 by done. done.
Qed.

(** The mask of the top [32 - n] bits, read back as a signed integer. *)
Lemma js_mask n : 0 ≤ n ≤ 31 → to_int32 (js_unsigned (js_shl (-1) n)) = - 2 ^ n.
Proof.
  intros Hn. assert (1 ≤ 2 ^ n ≤ 2 ^ 31) as Hp.
  { split; [|apply Z.pow_le_mono_r; lia]. pose proof (Z.pow_pos_nonneg 2 n ltac:(lia) ltac:(lia)). lia. }
  unfold js_shl. rewrite (to_int32_id (-1)) by lia. rewrite Z.shiftl_mul_pow2 by lia.
  replace (-1 * 2 ^ n) with (- 2 ^ n) by lia. rewrite (to_int32_id (- 2 ^ n)) by lia.
  unfold js_unsigned. replace (- 2 ^ n) with (2 ^ 32 - 2 ^ n + (-1) * 2 ^ 32) by lia.
  rewrite Z.mod_add, Z.mod_small by lia. rewrite to_int32_high by lia. lia.
Qed.

Lemma to_int32_div z n :
  0 ≤ z < 2 ^ 32 → 0 ≤ n ≤ 31 →
  to_int32 z / 2 ^ n = z / 2 ^ n - (if 2 ^ (31 - n) <=? z / 2 ^ n then 2 ^ (32 - n) else 0).
Proof.
  intros Hz Hn. pose proof (Z.pow_pos_nonneg 2 n ltac:(lia) ltac:(lia)).
  assert (2 ^ 31 = 2 ^ (31 - n) * 2 ^ n) as H31 by (rewrite <- Z.pow_add_r by lia; f_equal; lia).
  destruct (2 ^ (31 - n) <=? z / 2 ^ n) eqn:E; to_prop.
  - pose proof (Z.mul_div_le z (2 ^ n) ltac:(lia)). rewrite to_int32_high by nia.
    replace (z - 2 ^ 32) with (z + (- 2 ^ (32 - n)) * 2 ^ n); [rewrite Z.div_add by lia; lia|].
    rewrite Z.mul_opp_l, <- Z.pow_add_r by lia. replace (32 - n + n) with 32 by lia. lia.
  - pose proof (Z.mul_succ_div_gt z (2 ^ n) ltac:(lia)). rewrite to_int32_id by nia. lia.
Qed.

(** The signed masked comparison compares network prefixes. *)
Lemma masked_compare x r n :
  0 ≤ n ≤ 31 → 0 ≤ x < 2 ^ 32 → 0 ≤ r < 2 ^ 32 →
  (js_and x (js_unsigned (js_shl (-1) n)) =? js_and r (js_unsigned (js_shl (-1) n))) =
    (x / 2 ^ n =? r / 2 ^ n).
Proof.
  intros Hn Hx Hr. pose proof (Z.pow_pos_nonneg 2 n ltac:(lia) ltac:(lia)).
  assert (∀ z, 0 ≤ z < 2 ^ 32 → 0 ≤ z / 2 ^ n < 2 * 2 ^ (31 - n)) as Htop.
  { intros z Hz. split; [apply Z.div_pos; lia|]. apply Z.div_lt_upper_bound; [lia|].
    replace (2 ^ n * (2 * 2 ^ (31 - n))) with (2 * (2 ^ n * 2 ^ (31 - n))) by ring.
    rewrite <- Z.pow_add_r by lia. replace (n + (31 - n)) with 31 by lia. lia. }
  assert (2 ^ (32 - n) = 2 * 2 ^ (31 - n)) as H32.
  { replace (32 - n) with (1 + (31 - n)) by lia. rewrite Z.pow_add_r by lia. lia. }
  pose proof (Htop x Hx). pose proof (Htop r Hr).
  unfold js_and. rewrite js_mask, !land_mask, !to_int32_div, H32 by lia.
  apply eq_true_iff_eq. rewrite !Z.eqb_eq, Z.mul_cancel_r by lia.
  destruct (_ <=? x / _) eqn:Ex, (_ <=? r / _) eqn:Er; to_prop; lia.
Qed.

Lemma inV4Range_prefix ip range bits :
  1 ≤ bits ≤ 32 → 0 ≤ ipv4ToLong ip < 2 ^ 32 → 0 ≤ ipv4ToLong range < 2 ^ 32 →
  inV4Range ip range bits =
    (ipv4ToLong ip / 2 ^ (32 - bits) =? ipv4ToLong range / 2 ^ (32 - bits)).
Proof.
  intros Hb Hx Hr. unfold inV4Range. rewrite (proj2 (Z.eqb_neq bits 0)) by lia.
  apply masked_compare; [lia|done..].
Qed.

(** The loopback, private, link-local, carrier, test, multicast and reserved
    ranges, by octets. *)
Definition nonpublic (a b c : Z) : Prop :=
  a = 0 ∨ a = 10 ∨ a = 127 ∨ 224 ≤ a ∨
  a = 100 ∧ 64 ≤ b ≤ 127 ∨ a = 169 ∧ b = 254 ∨ a = 172 ∧ 16 ≤ b ≤ 31 ∨
  a = 192 ∧ (b = 168 ∨ b = 0 ∧ (c = 0 ∨ c = 2)) ∨
  a = 198 ∧ (b = 18 ∨ b = 19 ∨ b = 51 ∧ c = 100) ∨ a = 203 ∧ b = 0 ∧ c = 113.

Lemma isPrivateIp_v4 ip :
  isIP ip = 4 →
  isPrivateIp ip = existsb (λ '(range, bits), inV4Range ip range bits) BLOCKED_V4_RANGES.
Proof. intros H. unfold isPrivateIp. simpl. by rewrite H. Qed.

Lemma div_interval x m q : 0 < m → x / m = q ↔ q * m ≤ x < q * m + m.
Proof.
  intros Hm. pose proof (Z.div_mod x m ltac:(lia)). pose proof (Z.mod_pos_bound x m Hm). split; nia.
Qed.

(** The blocked IPv4 addresses are exactly the non-public ranges: for every four
    octets, the dotted address is refused precisely when it lies in one of
    them; neither the sign of 32-bit integers nor the order of the table lets
    an address slip through. *)
Theorem ipv4_blocked_exact a b c d :
  octet a → octet b → octet c → octet d →
  isPrivateIp (dotted a b c d) = true ↔ nonpublic a b c.
Proof.
  intros Ha Hb Hc Hd. rewrite isPrivateIp_v4 by (by apply isIP_dotted).
  pose proof (ipv4ToLong_dotted a b c d Ha Hb Hc Hd) as Hx. unfold octet in *.
  assert (∀ range bits r lo n, ipv4ToLong range = r → r / 2 ^ (32 - bits) * 2 ^ (32 - bits) = lo →
    2 ^ (32 - bits) = n → 1 ≤ bits ≤ 32 → 0 ≤ r < 2 ^ 32 →
    inV4Range (dotted a b c d) range bits = true ↔
      lo ≤ a * 16777216 + b * 65536 + c * 256 + d < lo + n) as Hr.
  { intros range bits r lo n <- <- <- Hbits Hrange.
    rewrite inV4Range_prefix by (done || (rewrite Hx; lia)). rewrite Z.eqb_eq, Hx.
    apply div_interval. apply Z.pow_pos_nonneg; lia. }
  unfold BLOCKED_V4_RANGES. cbn [existsb]. rewrite !orb_true_iff.
  repeat match goal with |- context [inV4Range _ ?range ?bits] =>
    let r := eval vm_compute in (ipv4ToLong range) in
    let n := eval vm_compute in (2 ^ (32 - bits)) in
    let lo := eval vm_compute in (r / n * n) in
    rewrite (Hr range bits r lo n) by (first [vm_compute; reflexivity|lia]) end.
  clear Hr Hx. set (x := a * 16777216 + b * 65536 + c * 256 + d).
  assert (0 ≤ x < 0 + 16777216 ↔ a = 0) as -> by (unfold x; lia).
  assert (167772160 ≤ x < 167772160 + 16777216 ↔ a = 10) as -> by (unfold x; lia).
  assert (1681915904 ≤ x < 1681915904 + 4194304 ↔ a = 100 ∧ 64 ≤ b ≤ 127) as -> by (unfold x; lia).
  assert (2130706432 ≤ x < 2130706432 + 16777216 ↔ a = 127) as -> by (unfold x; lia).
  assert (2851995648 ≤ x < 2851995648 + 65536 ↔ a = 169 ∧ b = 254) as -> by (unfold x; lia).
  assert (2886729728 ≤ x < 2886729728 + 1048576 ↔ a = 172 ∧ 16 ≤ b ≤ 31) as -> by (unfold x; lia).
  assert (3221225472 ≤ x < 3221225472 + 256 ↔ a = 192 ∧ b = 0 ∧ c = 0) as -> by (unfold x; lia).
  assert (3221225984 ≤ x < 3221225984 + 256 ↔ a = 192 ∧ b = 0 ∧ c = 2) as -> by (unfold x; lia).
  assert (3232235520 ≤ x < 3232235520 + 65536 ↔ a = 192 ∧ b = 168) as -> by (unfold x; lia).
  assert (3323068416 ≤ x < 3323068416 + 131072 ↔ a = 198 ∧ 18 ≤ b ≤ 19) as -> by (unfold x; lia).
  assert (3325256704 ≤ x < 3325256704 + 256 ↔ a = 198 ∧ b = 51 ∧ c = 100) as -> by (unfold x; lia).
  assert (3405803776 ≤ x < 3405803776 + 256 ↔ a = 203 ∧ b = 0 ∧ c = 113) as -> by (unfold x; lia).
  assert (3758096384 ≤ x < 3758096384 + 268435456 ↔ 224 ≤ a < 240) as -> by (unfold x; lia).
  assert (4026531840 ≤ x < 4026531840 + 268435456 ↔ 240 ≤ a) as -> by (unfold x; lia).
  clear x. unfold nonpublic. assert (224 ≤ a ↔ 224 ≤ a < 240 ∨ 240 ≤ a) as -> by lia.
  assert (18 ≤ b ≤ 19 ↔ b = 18 ∨ b = 19) as -> by lia. clear. intuition discriminate.
Qed.

Lemma ipv4_blocked_exact_witness :
  isPrivateIp (dotted 169 254 169 254) = true ↔ nonpublic 169 254 169.
Proof. apply ipv4_blocked_exact; unfold octet; lia. Defined.

(** ** Every IPv4 text is the dotted text of four octets *)

Definition digit_chars : list Ascii.ascii := Ascii.ascii_of_nat <$> seq 48 10.

Definition short_digits : list (list Ascii.ascii) :=
  (x ← digit_chars; [[x]]) ++
  (x ← digit_chars; y ← digit_chars; [[x; y]]) ++
  (x ← digit_chars; y ← digit_chars; z ← digit_chars; [[x; y; z]]).

Lemma is_digit_chars ch : is_digit ch = true → ch ∈ digit_chars.
Proof.
  unfold is_digit, char_between. intros [H1%Nat.leb_le H2%Nat.leb_le]%andb_true_iff. apply list_elem_of_fmap.
  exists (Ascii.nat_of_ascii ch). split; [by rewrite Ascii.ascii_nat_embedding|].
  apply elem_of_seq. lia.
Qed.

Lemma v4_seg_short l : v4_seg l = true → l ∈ short_digits.
Proof.
  unfold v4_seg, short_digits. intros H.
  apply andb_true_iff in H as [[Hd _]%andb_true_iff Hs].
  rewrite !elem_of_app. setoid_rewrite list_elem_of_bind. setoid_rewrite list_elem_of_bind.
  setoid_rewrite list_elem_of_bind.
  destruct l as [|x [|y [|z [|w l]]]]; cbn [forallb length] in *; try done.
  - left. exists x. split; [set_solver|]. apply is_digit_chars. to_prop. tauto.
  - right. left. to_prop. exists x. split; [|by apply is_digit_chars]. exists y.
    split; [set_solver|by apply is_digit_chars].
  - right. right. to_prop. exists x. split; [|by apply is_digit_chars]. exists y.
    split; [|by apply is_digit_chars]. exists z. split; [set_solver|by apply is_digit_chars].
Qed.

Lemma v4_seg_octet l : v4_seg l = true → ∃ a, octet a ∧ l = chars (pretty a).
Proof.
  intros Hl. pose proof (v4_seg_short l Hl) as Hin.
  assert (forallb (λ l, negb (v4_seg l) || (bool_decide (l = chars (pretty (parse_decimal l))) &&
    (0 <=? parse_decimal l) && (parse_decimal l <? 256))) short_digits = true) as Hall
    by (vm_compute; reflexivity).
  rewrite forallb_elem in Hall. specialize (Hall l Hin). rewrite Hl in Hall. cbn [negb orb] in Hall.
  exists (parse_decimal l). to_prop. split; [unfold octet; lia|done].
Qed.

(** The pieces of a split text, joined again, give the text. *)
Lemma split_on_four sep l a b c d :
  split_on sep l = [a; b; c; d] → l = a ++ sep :: b ++ sep :: c ++ sep :: d.
Proof.
  assert (∀ l p ps, split_on sep l = p :: ps →
    l = p ++ concat (map (λ q, sep :: q) ps)) as Hjoin.
  { clear. induction l as [|ch l IH]; intros p ps; simpl; [by intros [= <- <-]|].
    case_decide as Hc.
    - intros [= <- <-]. subst ch. destruct (split_on sep l) as [|q qs] eqn:E.
      + by pose proof (split_on_nonempty sep l).
      + simpl. f_equal. by apply IH.
    - destruct (split_on sep l) as [|q qs] eqn:E; intros [= <- <-]; simpl; f_equal; [|by apply IH].
      by pose proof (split_on_nonempty sep l). }
  intros H%Hjoin. rewrite H. simpl. by rewrite app_nil_r.
Qed.

Lemma isIP_4_dotted ip :
  isIP ip = 4 → ∃ a b c d, octet a ∧ octet b ∧ octet c ∧ octet d ∧ ip = dotted a b c d.
Proof.
  unfold isIP. destruct (v4_text (chars ip)) eqn:E.
  2: { destruct (split_zone (chars ip)). by destruct (_ && _). }
  intros _. unfold v4_text in E. apply andb_true_iff in E as [Hl Hs]. apply Nat.eqb_eq in Hl.
  destruct (split_on dot (chars ip)) as [|s1 [|s2 [|s3 [|s4 [|s5 ss]]]]] eqn:Es; try done.
  cbn [forallb] in Hs. rewrite !andb_true_iff in Hs. destruct Hs as (H1 & H2 & H3 & H4 & _).
  apply v4_seg_octet in H1 as (a & Ha & ->), H2 as (b & Hb & ->), H3 as (c & Hc & ->), H4 as (d & Hd & ->).
  exists a, b, c, d. split_and!; [done..|]. apply split_on_four in Es.
  apply chars_inj. rewrite Es. unfold dotted. by rewrite !chars_app.
Qed.

(** *** What the guard keeps out *)

(** An address text outside every range the guard lists: for IPv4 the
    non-public ranges by octets, for IPv6 the unspecified and loopback
    addresses in their shortest spelling, the texts that begin with [fc], [fd],
    [fe80] and [ff], and the mapped IPv4 addresses in dotted spelling. *)
Definition outside_blocked (ip : string) : Prop :=
  (∃ a b c d, octet a ∧ octet b ∧ octet c ∧ octet d ∧ ip = dotted a b c d ∧ ¬ nonpublic a b c) ∨
  (isIP ip = 6 ∧
   let n := toLowerCase ip in
   (n ∉ ["::1"%string; "::"%string]) ∧
   (∀ prefix, prefix ∈ ["fc"; "fd"; "fe80"; "ff"]%string → starts_with prefix n = false) ∧
   ∀ a b c d, octet a → octet b → octet c → octet d →
     n = "::ffff:"%string +:+ dotted a b c d → ¬ nonpublic a b c).

Lemma mapped_dotted a b c d :
  octet a → octet b → octet c → octet d →
  mapped_v4 ("::ffff:"%string +:+ dotted a b c d) = Some (dotted a b c d).
Proof.
  intros Ha Hb Hc Hd. unfold mapped_v4, starts_with. rewrite chars_app.
  rewrite bool_decide_true by (by exists (chars (dotted a b c d))).
  change (drop 7 (chars "::ffff:" ++ chars (dotted a b c d))) with (chars (dotted a b c d)).
  rewrite dotted_split by done.
  assert (∀ x, octet x → ((1 <=? length (chars (pretty x)))%nat && forallb is_digit (chars (pretty x)) = true)) as Hx.
  { intros x (Hs & _ & _)%octet_text. unfold v4_seg in Hs.
    apply andb_true_iff in Hs as [[Hdig _]%andb_true_iff Hlen]. rewrite Hdig, andb_true_r.
    by destruct (chars (pretty x)). }
  cbn [length forallb Nat.eqb andb]. rewrite !Hx by done. cbn [andb]. by rewrite String.string_of_list_ascii_of_string.
Qed.

Lemma admitted_outside ip : isPrivateIp ip = false → outside_blocked ip.
Proof.
  intros Hp. destruct (decide (isIP ip = 4)) as [H4|H4].
  { left. destruct (isIP_4_dotted ip H4) as (a & b & c & d & Ha & Hb & Hc & Hd & ->).
    exists a, b, c, d. split_and!; [done..|]. intros Hn%(ipv4_blocked_exact a b c d); [|done..]. congruence. }
  right. revert Hp. unfold isPrivateIp. cbn [isPrivateIp_from].
  rewrite (proj2 (Z.eqb_neq _ _) H4). destruct (Z.eqb_spec (isIP ip) 6) as [H6|]; [|done].
  intros Hp. split; [done|]. cbv zeta. destruct (mapped_v4 (toLowerCase ip)) as [v4|] eqn:Em.
  - assert (starts_with "::ffff:" (toLowerCase ip) = true) as [rest Hrest]%bool_decide_eq_true
      by (unfold mapped_v4 in Em; by destruct (starts_with "::ffff:" (toLowerCase ip))).
    split_and!.
    + intros [E|[E|[]%elem_of_nil]%elem_of_cons]%elem_of_cons; by rewrite E in Hrest.
    + intros prefix Hpre. unfold starts_with. rewrite Hrest. apply bool_decide_eq_false.
      repeat (apply elem_of_cons in Hpre as [->|Hpre]; [by intros [k Hk]|]). by apply elem_of_nil in Hpre.
    + intros a b c d Ha Hb Hc Hd En Hn. rewrite En, mapped_dotted in Em by done. injection Em as <-.
      rewrite isIP_dotted in Hp by done. cbn [Z.eqb Pos.eqb] in Hp.
      apply (ipv4_blocked_exact a b c d) in Hn; [|done..].
      rewrite isPrivateIp_v4 in Hn by (by apply isIP_dotted). congruence.
  - rewrite !orb_false_iff, !bool_decide_eq_false in Hp.
    destruct Hp as (((((H1 & H2) & Hfc) & Hfd) & Hfe) & Hff). split_and!.
    + set_solver.
    + intros prefix Hpre. repeat (apply elem_of_cons in Hpre as [->|Hpre]; [done|]). by apply elem_of_nil in Hpre.
    + intros a b c d Ha Hb Hc Hd En. rewrite En, mapped_dotted in Em by done. done.
Qed.

(** ** The socket lookup *)

(** The addresses a socket may be given. *)
Definition usable (pinned : option (list string)) (answers : list LookupAddress) (a : LookupAddress) : Prop :=
  a ∈ answers ∧ isPrivateIp (la_address a) = false ∧
  match pinned with Some ((_ :: _) as pins) => la_address a ∈ pins | _ => True end.

(** What the lookup promises to the socket. *)
Definition lookup_spec (pinned : option (list string)) (all : bool)
    (answer : option (list LookupAddress)) (r : lookup_result) : Prop :=
  match r with
  | LookupAll l => all = true ∧ l ≠ [] ∧ ∃ answers, answer = Some answers ∧ ∀ a, a ∈ l ↔ usable pinned answers a
  | LookupOne address family =>
      all = false ∧ ∃ answers a, answer = Some answers ∧ usable pinned answers a ∧
        address = la_address a ∧ family = la_family a
  | LookupError _ =>
      match answer with
      | None => True
      | Some answers =>
          (∀ a, a ∈ answers → isPrivateIp (la_address a) = true) ∨
          ∃ a, a ∈ answers ∧ isPrivateIp (la_address a) = false ∧ ¬ usable pinned answers a
      end
  end.

Lemma giveResults_usable pinned all answers results :
  results ≠ [] → (∀ a, a ∈ results ↔ usable pinned answers a) →
  lookup_spec pinned all (Some answers) (giveResults all results).
Proof.
  intros Hne Hall. unfold giveResults. destruct all; [simpl; eauto|].
  destruct results as [|r results]; [done|]. split; [done|]. exists answers, r.
  split_and!; [done|apply Hall; set_solver|done..].
Qed.

(** The addresses a result hands to the socket. *)
Definition handed (r : lookup_result) : list string :=
  match r with
  | LookupError _ => []
  | LookupAll l => la_address <$> l
  | LookupOne address _ => [address]
  end.

Lemma lookup_exact policy pinned all answer :
  truthy_opt (sp_allowPrivateIps policy) = false →
  lookup_spec pinned all answer (secureLookup policy pinned all answer).
Proof.
  intros Hpriv. unfold secureLookup. destruct answer as [answers|]; [|done]. rewrite Hpriv.
  set (safe := filter (λ a, isPrivateIp (la_address a) = false) answers).
  assert (∀ a, a ∈ safe ↔ a ∈ answers ∧ isPrivateIp (la_address a) = false) as Hsafe.
  { intros a. unfold safe. rewrite list_elem_of_filter. tauto. }
  clearbody safe. destruct safe as [|s0 safe].
  { left. intros a Ha. destruct (isPrivateIp (la_address a)) eqn:E; [done|].
    assert (a ∈ []) as []%elem_of_nil. by apply Hsafe. }
  destruct pinned as [[|p0 pins]|]; cycle 1.
  - set (safe' := s0 :: safe) in *. set (pins' := p0 :: pins) in *.
    destruct (filter (λ a, la_address a ∉ pins') safe') as [|drift drifted] eqn:Ed.
    + assert (∀ a, a ∈ safe' → la_address a ∈ pins') as Hin.
      { intros a Ha. destruct (decide (la_address a ∈ pins')) as [|Hn]; [done|].
        assert (a ∈ []) as []%elem_of_nil. rewrite <- Ed. by apply list_elem_of_filter. }
      rewrite (filter_all _ safe') by exact Hin. apply giveResults_usable; [done|].
      intros a. rewrite Hsafe. unfold usable. split; [|tauto]. intros Ha. split_and!; [tauto..|].
      apply Hin. by apply Hsafe.
    + right. assert (drift ∈ drift :: drifted) as Hd by set_solver. rewrite <- Ed in Hd.
      apply list_elem_of_filter in Hd as [Hni Hd]. apply Hsafe in Hd as [Hd1 Hd2].
      exists drift. split_and!; [done..|]. unfold usable. tauto.
  - apply giveResults_usable; [done|]. intros a. rewrite Hsafe. unfold usable. tauto.
  - apply giveResults_usable; [done|]. intros a. rewrite Hsafe. unfold usable. tauto.
Qed.

Lemma handed_outside pinned all answer r address :
  lookup_spec pinned all answer r → address ∈ handed r → outside_blocked address.
Proof.
  destruct r as [|l|x f]; simpl.
  - intros _ []%elem_of_nil.
  - intros (_ & _ & answers & _ & Hall) (a & -> & Ha)%list_elem_of_fmap.
    apply admitted_outside. by apply Hall in Ha as (_ & ? & _).
  - intros (_ & answers & a & _ & (_ & Hp & _) & -> & _) ->%list_elem_of_singleton. by apply admitted_outside.
Qed.

(** C40: What a socket can receive.  Unless the policy permits private addresses,
    every address the lookup hands to the socket is outside the blocked ranges:
    an IPv4 address outside 0/8, 10/8, 100.64/10, 127/8, 169.254/16, 172.16/12,
    192.0.0/24, 192.0.2/24, 192.168/16, 198.18/15, 198.51.100/24, 203.0.113/24
    and 224/3, or an IPv6 text that is not [::], [::1], one beginning with fc,
    fd, fe80 or ff, or such an IPv4 address mapped in dotted spelling.  (IPv6
    spelled otherwise passes: see [mapped_literal_passes] and
    [link_local_passes].)  The addresses are those of the DNS answer that the
    range check admits, all of them when the socket asks for all, and belong to
    the pin if the host is pinned; the lookup fails only when DNS fails, when
    the check refuses every address, or when an admitted address is outside the
    pin. *)
Theorem lookup_confined policy pinned all answer :
  truthy_opt (sp_allowPrivateIps policy) = false →
  let r := secureLookup policy pinned all answer in
  (∀ address, address ∈ handed r → outside_blocked address) ∧ lookup_spec pinned all answer r.
Proof.
  intros Hpriv r. pose proof (lookup_exact policy pinned all answer Hpriv) as Hspec.
  split; [|done]. intros address. by apply (handed_outside pinned all answer).
Qed.

Definition demo_policy : SsrfPolicy := mkPolicy (Some true) None None None.
Definition metadata_answer : list LookupAddress :=
  [mkAddress "169.254.169.254" 4; mkAddress "93.184.216.34" 4].

(** A rebinding answer is reduced to its public address. *)
Lemma lookup_confined_witness :
  secureLookup demo_policy None false (Some metadata_answer) = LookupOne "93.184.216.34" 4 ∧
  outside_blocked "93.184.216.34".
Proof.
  split; [vm_compute; reflexivity|].
  apply (proj1 (lookup_confined demo_policy None false (Some metadata_answer) eq_refl)).
  apply list_elem_of_In. vm_compute. left. reflexivity.
Defined.

(** ** Redirect chains *)

Section chain_facts.
Context (parseURL : string → option URL) (resolver : string → option (list LookupAddress)).
Context (fetchRedirect : nat → string → option (option string)).
Implicit Types (policy : DeploymentPolicy).

(** The destinations a deployment policy permits. *)
Definition permitted policy (u : URL) : Prop :=
  let host := normalizeHost (u_hostname u) in
  (u_protocol u = "https:"%string ∨ u_protocol u = "http:"%string ∧ default true (dp_requireHttps policy) = false) ∧
  (host ∈ normalizeHosts (Some (dp_allowedHosts policy)) ∨
   suffixMatch host (normalizeSuffixes (dp_allowedSuffixes policy)) = true) ∧
  (truthy_opt (dp_allowLocalHostnames policy) = true ∨ isForbiddenHostname host = false) ∧
  (truthy_opt (dp_allowPrivateIps policy) = true ∨ isIP (strip_brackets host) = 0 ∨
   isPrivateIp (strip_brackets host) = false).

Lemma guard_ok {E A} (g : bool) (e : E) (r : result E A) (u : A) :
  (if g then Throw e else r) = Ok u ↔ g = false ∧ r = Ok u.
Proof. destruct g; naive_solver. Qed.

Lemma validateOutboundUrl_ok raw policy u :
  validateOutboundUrl parseURL raw (without_hosts (toSsrfPolicy policy)) = Ok u ↔
  parseURL raw = Some u ∧
  (let host := normalizeHost (u_hostname u) in
   (u_protocol u = "https:"%string ∨
    u_protocol u = "http:"%string ∧ default true (dp_requireHttps policy) = false) ∧
   (truthy_opt (dp_allowLocalHostnames policy) = true ∨ isForbiddenHostname host = false) ∧
   (truthy_opt (dp_allowPrivateIps policy) = true ∨ isIP (strip_brackets host) = 0 ∨
    isPrivateIp (strip_brackets host) = false)).
Proof.
  unfold validateOutboundUrl. destruct (parseURL raw) as [v|]; [|naive_solver].
  cbn [sp_requireHttps sp_allowedHosts sp_allowPrivateIps sp_allowLocalHostnames without_hosts
    toSsrfPolicy normalizeHosts truthy_opt default].
  rewrite !guard_ok, !andb_false_iff, !negb_false_iff, !bool_decide_eq_true, Z.eqb_eq.
  assert (∀ x y : URL, Ok (E:=SsrfReason) x = Ok y ↔ Some x = Some y) as -> by naive_solver.
  destruct (default true (dp_requireHttps policy)); naive_solver.
Qed.

Lemma validateAgainstDeployment_ok raw policy u :
  validateAgainstDeployment parseURL raw policy = Ok u ↔ parseURL raw = Some u ∧ permitted policy u.
Proof.
  unfold validateAgainstDeployment, permitted.
  pose proof (λ v, validateOutboundUrl_ok raw policy v) as Hv.
  destruct (validateOutboundUrl parseURL raw _) as [v|e].
  - rewrite guard_ok, andb_false_iff, !negb_false_iff, bool_decide_eq_true.
    destruct (proj1 (Hv v) eq_refl) as (Hp & H1 & H2 & H3). rewrite Hp.
    split; [intros [? [= <-]]; tauto|]. intros [[= <-] ?]. tauto.
  - split; [done|]. intros (Hp & H1 & H2 & H3 & H4).
    discriminate (proj2 (Hv u) (conj Hp (conj H1 (conj H3 H4)))).
Qed.

(** A pinned destination is what the guard approved. *)
Lemma pinDestination_public hostname port policy d :
  pinDestination resolver hostname port (toSsrfPolicy policy) = Ok d →
  truthy_opt (dp_allowPrivateIps policy) = false →
  isPrivateIp (pd_address d) = false ∧ pd_port d = port ∧
  (pd_address d = strip_brackets (normalizeHost hostname) ∨
   ∃ l, resolver (normalizeHost hostname) = Some l ∧ pd_address d ∈ la_address <$> l ∧
        ∀ a, a ∈ l → isPrivateIp (la_address a) = false).
Proof.
  unfold pinDestination. cbn [sp_allowPrivateIps toSsrfPolicy truthy_opt default].
  intros H Hp. unfold truthy_opt in *. rewrite Hp in H. cbn [negb andb id] in H.
  destruct (negb (isIP _ =? 0)).
  - apply guard_ok in H as [Hpub [= <-]]. eauto.
  - destruct (resolver (normalizeHost hostname)) as [[|c l]|] eqn:Er; [done| |done].
    apply guard_ok in H as [Hpub [= <-]]. cbn [pd_address pd_port].
    assert (∀ a, a ∈ c :: l → isPrivateIp (la_address a) = false) as Hall.
    { intros a Ha. destruct (isPrivateIp (la_address a)) eqn:E; [|done].
      assert (existsb (λ a, isPrivateIp (la_address a)) (c :: l) = true); [|congruence].
      apply existsb_elem. eauto. }
    split_and!; [apply Hall; set_solver|done|]. right. exists (c :: l). split_and!; [done| |done].
    apply list_elem_of_fmap. exists c. split; [done|set_solver].
Qed.

(** The chain of URLs that was followed from hop [hop]. *)
Inductive followed : nat → list string → Prop :=
| followed_last hop url :
    fetchRedirect hop url = Some None → followed hop [url]
| followed_more hop url next urls :
    fetchRedirect hop url = Some (Some next) → followed (S hop) (next :: urls) →
    followed hop (url :: next :: urls).

Lemma followRedirects_ok hops hop policy url u d :
  followRedirects parseURL resolver fetchRedirect hops hop policy url = Ok (u, d) →
  ∃ urls, followed hop (url :: urls) ∧ (length (url :: urls) ≤ hops)%nat ∧
    (∀ x, x ∈ url :: urls → ∃ p d', parseURL x = Some p ∧ permitted policy p ∧
       pinDestination resolver (u_hostname p) (portOf p) (toSsrfPolicy policy) = Ok d') ∧
    (∃ x, last (url :: urls) = Some x ∧ parseURL x = Some u ∧ permitted policy u ∧
       pinDestination resolver (u_hostname u) (portOf u) (toSsrfPolicy policy) = Ok d).
Proof.
  revert hop url. induction hops as [|hops IH]; intros hop url; cbn [followRedirects]; [done|].
  destruct (validateAgainstDeployment parseURL url policy) as [p|e] eqn:Ev; [|done].
  apply validateAgainstDeployment_ok in Ev as [Hp Hok].
  destruct (pinDestination resolver (u_hostname p) _ _) as [d'|e] eqn:Ed; [|done].
  destruct (fetchRedirect hop url) as [[next|]|] eqn:Ef; [|intros [= <- <-]|done].
  - intros H. destruct (IH _ _ H) as (urls & Hf & Hl & Hall & x & Hx & Hlast).
    exists (next :: urls). split_and!; [by constructor|simpl in *; lia| |].
    + intros y [->|Hy]%elem_of_cons; [eauto|by apply Hall].
    + exists x. split; [|done]. rewrite <- Hx. by rewrite last_cons_cons.
  - exists []. split_and!; [by constructor|simpl; lia| |by exists url].
    intros y [->|[]%elem_of_nil]%elem_of_cons. eauto.
Qed.

(** Redirects cannot leave the egress policy: when a chain is accepted, it is
    the chain of redirects the servers answered, with at most [maxRedirects]
    redirects; every URL on it has a permitted protocol and host; and, unless
    the policy permits private addresses, every hop was pinned to a public
    address, the final one being the destination that is returned. *)
Theorem redirects_confined startUrl policy u d :
  validateRedirectChain parseURL resolver fetchRedirect startUrl policy = Ok (u, d) →
  ∃ urls, followed 0 (startUrl :: urls) ∧
    Z.of_nat (length urls) ≤ default 5 (dp_maxRedirects policy) ∧
    (∀ x, x ∈ startUrl :: urls → ∃ p d', parseURL x = Some p ∧ permitted policy p ∧
       pinDestination resolver (u_hostname p) (portOf p) (toSsrfPolicy policy) = Ok d' ∧
       (truthy_opt (dp_allowPrivateIps policy) = false → isPrivateIp (pd_address d') = false)) ∧
    permitted policy u ∧ (truthy_opt (dp_allowPrivateIps policy) = false → isPrivateIp (pd_address d) = false).
Proof.
  unfold validateRedirectChain. intros H.
  destruct (followRedirects_ok _ _ _ _ _ _ H) as (urls & Hf & Hl & Hall & x & _ & _ & Hu & Hd).
  exists urls. split_and!; [done|simpl in Hl; lia| |done|].
  - intros y Hy. destruct (Hall y Hy) as (p & d' & Hp & Hok & Hpin). exists p, d'. split_and!; [done..|].
    intros Hpriv. by apply (pinDestination_public _ _ _ _ Hpin).
  - intros Hpriv. by apply (pinDestination_public _ _ _ _ Hd).
Qed.
End chain_facts.

(** *** Concrete runs *)

Definition demo_parse (raw : string) : option URL :=
  if bool_decide (raw = "https://feeds.example.com/a"%string)
  then Some (mkURL "https:" "feeds.example.com" "") else
  if bool_decide (raw = "https://api.example.com/b"%string)
  then Some (mkURL "https:" "api.example.com" "") else None.
Definition demo_resolve (_ : string) : option (list LookupAddress) :=
  Some [mkAddress "93.184.216.34" 4].
Definition demo_fetch (hop : nat) (_ : string) : option (option string) :=
  match hop with O => Some (Some "https://api.example.com/b"%string) | _ => Some None end.
Definition demo_deployment : DeploymentPolicy :=
  mkDeployment "production" ["feeds.example.com"%string] (Some ["example.com"%string])
    (Some true) (Some false) (Some false) (Some 1).

Lemma redirects_confined_witness :
  ∃ urls, followed demo_fetch 0 ("https://feeds.example.com/a"%string :: urls) ∧
    Z.of_nat (length urls) ≤ 1.
Proof.
  destruct (redirects_confined demo_parse demo_resolve demo_fetch "https://feeds.example.com/a" demo_deployment
    (mkURL "https:" "api.example.com" "") (mkPinned "api.example.com" "93.184.216.34" 4 443))
    as (urls & Hf & Hl & _); [vm_compute; reflexivity|].
  exists urls. split; [exact Hf|exact Hl].
Defined.

(** The loopback address in IPv4-mapped form: the dotted spelling is blocked, the
    hexadecimal spelling the URL parser normalises it to is not. *)
Example mapped_literal_passes :
  isPrivateIp "::ffff:127.0.0.1" = true ∧ isPrivateIp "::ffff:7f00:1" = false.
Proof. split; vm_compute; reflexivity. Qed.

(** Link-local IPv6 is [fe80::/10]; only the first of its prefixes is blocked. *)
Example link_local_passes : isPrivateIp "fe80::1" = true ∧ isPrivateIp "fe90::1" = false.
Proof. split; vm_compute; reflexivity. Qed.
