(* ===== verification/WsGuard.v ===== *)
(** * WebSocket upgrade guard

    [packages/ws-guard/src/index.ts], the guard core both services share, and the
    aggregator's wrapper [services/aggregator/src/infrastructure/ws-guard.ts].

    Module [Address]: IPv4/IPv6 texts and CIDR ranges.  Module [Origin]: allowlist
    entries with wildcard subdomains.  Module [Guard]: the class [WsGuardCore] (its
    state is a record, each method a function on it), client identity from
    forwarded headers, and [verifyClient].  Regular expressions are written out as
    functions on characters.

    - [Address.cidr_exact]: range membership by octets, groups and masks is equality
      of the leading bits;
    - [Origin.wildcard_exact]: what a wildcard entry matches;
    - [Guard.identity_unforgeable]: which address counts as the client: the hop the
      proxies recorded in the header the guard reads, up to the number of hops it
      keeps ([Guard.forwarded_forges]: not if they write another header);
    - [Guard.upgrades_bounded]: how many upgrades one identity gets in any window;
    - [Guard.origin_fail_closed]: an empty allowlist refuses everyone in production. *)

From stdpp Require Import base numbers pretty list strings sets.
From S2P Require Import Prelude JsMap Ssrf.

Local Open Scope Z_scope.

(** ** Text *)

Abbreviation text := (list Ascii.ascii).
Abbreviation of_chars := String.string_of_list_ascii.

Definition slash : Ascii.ascii := Ascii.ascii_of_nat 47.
Definition comma : Ascii.ascii := Ascii.ascii_of_nat 44.
Definition semicolon : Ascii.ascii := Ascii.ascii_of_nat 59.
Definition equals : Ascii.ascii := Ascii.ascii_of_nat 61.
Definition quote : Ascii.ascii := Ascii.ascii_of_nat 34.
Definition open_bracket : Ascii.ascii := Ascii.ascii_of_nat 91.
Definition close_bracket : Ascii.ascii := Ascii.ascii_of_nat 93.

(** A non-empty run of characters of one class. *)
Definition run_of (p : Ascii.ascii → bool) (l : text) : bool := (1 <=? length l)%nat && forallb p l.

(** The text before and after the first [sep]. *)
Fixpoint cut (sep : Ascii.ascii) (l : text) : option (text * text) :=
  match l with
  | [] => None
  | ch :: l' => if decide (ch = sep) then Some ([], l') else (λ '(a, b), (ch :: a, b)) <$> cut sep l'
  end.

Fixpoint digit_prefix (l : text) : text :=
  match l with ch :: l' => if is_digit ch then ch :: digit_prefix l' else [] | [] => [] end.

(** [parseInt(s, 10)]; [None] is [NaN]. *)
Definition parseInt10 (s : string) : option Z :=
  let signed (f : Z → Z) l := match digit_prefix l with [] => None | ds => Some (f (parse_decimal ds)) end in
  match chars (trim_start s) with
  | ch :: l =>
      if (Ascii.nat_of_ascii ch =? 45)%nat then signed Z.opp l
      else if (Ascii.nat_of_ascii ch =? 43)%nat then signed id l
      else signed id (ch :: l)
  | [] => None
  end.

Module Address.

Fixpoint octets (acc : Z) (parts : list text) : option Z :=
  match parts with
  | [] => Some acc
  | part :: rest =>
      if negb ((1 <=? length part)%nat && (length part <=? 3)%nat && forallb is_digit part) then None
      else let value := parse_decimal part in
           if 255 <? value then None else octets (acc * 256 + value) rest
  end.

Definition ipv4ToLong (ip : text) : option Z :=
  let parts := split_on dot ip in
  if negb (length parts =? 4)%nat then None
  else js_unsigned <$> octets 0 parts.

(** [ip.split('::')]; [ip.match(/::/g)] has one entry fewer than its parts. *)
Fixpoint split_dcolon (l : text) : list text :=
  match l with
  | ch :: l' =>
      match l' with
      | ch' :: rest =>
          if bool_decide (ch = colon) && bool_decide (ch' = colon) then [] :: split_dcolon rest
          else match split_dcolon l' with p :: ps => (ch :: p) :: ps | [] => [[ch]] end
      | [] => [[ch]]
      end
  | [] => [[]]
  end.

(** The embedded IPv4 suffix becomes two groups, written in decimal. *)
Definition embedIpv4 (groups : list text) : option (list text) :=
  match last groups with
  | Some g =>
      if bool_decide (dot ∈ g) then
        match ipv4ToLong g with
        | None => None
        | Some long =>
            Some (removelast groups ++
                    [chars (pretty (js_and (Z.shiftr long 16) 65535)); chars (pretty (js_and long 65535))])
        end
      else Some groups
  | None => Some groups
  end.

Definition hex_value (ch : Ascii.ascii) : Z :=
  let n := Z.of_nat (Ascii.nat_of_ascii ch) in
  if is_digit ch then n - 48 else if char_between 97 102 ch then n - 87 else n - 55.

Definition parse_hex (l : text) : Z := foldl (λ n ch, n * 16 + hex_value ch) 0 l.

Fixpoint hexGroups (groups : list text) : option (list Z) :=
  match groups with
  | [] => Some []
  | g :: rest =>
      if (1 <=? length g)%nat && (length g <=? 4)%nat && forallb is_hex g
      then (λ gs, parse_hex g :: gs) <$> hexGroups rest else None
  end.

Definition colon_parts (l : text) : list text := match l with [] => [] | _ => split_on colon l end.

Definition ipv6ToGroups (ip0 : text) : option (list Z) :=
  if negb (bool_decide (colon ∈ ip0)) then None
  else
    let ip1 := if bool_decide (percent ∈ ip0) then default [] (head (split_on percent ip0)) else ip0 in
    let ip2 := if bool_decide ([colon; colon] `prefix_of` ip1) then chars "0" ++ ip1 else ip1 in
    let ip := if bool_decide ([colon; colon] `suffix_of` ip2) then ip2 ++ chars "0" else ip2 in
    let parts := split_dcolon ip in
    let doubleColonCount := (length parts - 1)%nat in
    if (1 <? doubleColonCount)%nat then None
    else
      let '(head, tail) :=
        match parts with
        | [before; after] => (colon_parts before, colon_parts after)
        | _ => (split_on colon ip, [])
        end in
      match embedIpv4 head, embedIpv4 tail with
      | Some head, Some tail =>
          let missing := 8 - Z.of_nat (length head) - Z.of_nat (length tail) in
          if if (doubleColonCount =? 1)%nat then missing <? 0 else negb (missing =? 0) then None
          else
            match hexGroups (head ++ replicate (Z.to_nat (Z.max missing 0)) (chars "0") ++ tail) with
            | Some groups => if (length groups =? 8)%nat then Some groups else None
            | None => None
            end
      | _, _ => None
      end.

Inductive family := V4 | V6.

Record Cidr := mkCidr { c_family : family; c_address : string; c_prefix : Z }.

Definition parseCidr (cidr : string) : option Cidr :=
  match js_split slash (trim cidr) with
  | [] => None
  | addressPart :: rest =>
      if bool_decide (addressPart = "") then None
      else
        let prefixOf (full : Z) : option Z :=
          match head rest with
          | None => Some full
          | Some p => if bool_decide (p = "") then Some full else parseInt10 p
          end in
        let bounded (full : Z) (fam : family) : option Cidr :=
          match prefixOf full with
          | Some prefix => if (prefix <? 0) || (full <? prefix) then None
                           else Some (mkCidr fam addressPart prefix)
          | None => None
          end in
        if bool_decide (dot ∈ chars addressPart) then
          match ipv4ToLong (chars addressPart) with None => None | Some _ => bounded 32 V4 end
        else
          match ipv6ToGroups (chars addressPart) with None => None | Some _ => bounded 128 V6 end
  end.

(** [/^::ffff:(\d+\.\d+\.\d+\.\d+)$/i] selects the embedded address; the two
    [normalize] helpers of the source are the same function. *)
Definition normalizeIpv4 (ip : string) : string :=
  match mapped_v4 (toLowerCase ip) with Some v4 => v4 | None => ip end.

Definition matchV4 (ipLong netLong prefix : Z) : bool :=
  if prefix =? 0 then true
  else
    let mask := if prefix =? 32 then 4294967295 else js_unsigned (js_shl 4294967295 (32 - prefix)) in
    js_and ipLong mask =? js_and netLong mask.

Definition matchV6 (ipGroups netGroups : list Z) (prefix : Z) : bool :=
  let fullGroups := Z.to_nat (prefix / 16) in
  let remainderBits := prefix mod 16 in
  if negb (forallb (λ i, bool_decide (ipGroups !! i = netGroups !! i)) (seq 0 fullGroups)) then false
  else if 0 <? remainderBits then
    let mask := js_and (js_shl 65535 (16 - remainderBits)) 65535 in
    js_and (default 0 (ipGroups !! fullGroups)) mask =? js_and (default 0 (netGroups !! fullGroups)) mask
  else true.

Definition ipMatchesCidr (ip cidr : string) : bool :=
  match parseCidr cidr with
  | None => false
  | Some parsed =>
      match c_family parsed with
      | V4 =>
          match ipv4ToLong (chars (normalizeIpv4 ip)), ipv4ToLong (chars (c_address parsed)) with
          | Some ipLong, Some netLong => matchV4 ipLong netLong (c_prefix parsed)
          | _, _ => false
          end
      | V6 =>
          match ipv6ToGroups (chars (normalizeIpv4 ip)), ipv6ToGroups (chars (c_address parsed)) with
          | Some ipGroups, Some netGroups => matchV6 ipGroups netGroups (c_prefix parsed)
          | _, _ => false
          end
      end
  end.

Definition isIpInAnyCidr (ip : string) (cidrs : list string) : bool :=
  existsb (λ cidr, ipMatchesCidr ip cidr) cidrs.

(** ** Ranges by leading bits *)

Lemma parse_decimal_nonneg l : forallb is_digit l = true → 0 ≤ parse_decimal l.
Proof.
  intros Hl. unfold parse_decimal. assert (∀ acc, 0 ≤ acc →
    0 ≤ foldl (λ n ch, n * 10 + (Z.of_nat (Ascii.nat_of_ascii ch) - 48)) acc l) as H; [|by apply H].
  revert Hl. induction l as [|ch l IH]; simpl; intros Hl acc Hacc; [done|].
  apply andb_true_iff in Hl as [Hc Hl]. apply IH; [done|].
  unfold is_digit, char_between in Hc. apply andb_true_iff in Hc as [Hc _]. apply Nat.leb_le in Hc. lia.
Qed.

Lemma octets_bound parts acc v :
  octets acc parts = Some v → 0 ≤ acc →
  0 ≤ v < (acc + 1) * 256 ^ Z.of_nat (length parts).
Proof.
  revert acc. induction parts as [|part parts IH]; simpl; intros acc; [intros [= <-]; lia|].
  destruct (negb _) eqn:E; [done|]. to_prop. destruct (255 <? _) eqn:El; [done|]. to_prop.
  intros Hv Hacc. pose proof (parse_decimal_nonneg part ltac:(done)) as Hp.
  apply IH in Hv; [|lia]. split; [lia|]. rewrite Nat2Z.inj_succ, Z.pow_succ_r by lia.
  pose proof (Z.pow_pos_nonneg 256 (Z.of_nat (length parts)) ltac:(lia) ltac:(lia)). nia.
Qed.

Lemma ipv4ToLong_bound ip v : ipv4ToLong ip = Some v → 0 ≤ v < 2 ^ 32.
Proof.
  unfold ipv4ToLong. destruct (negb _); [done|]. destruct (octets _ _); [|done]. simpl.
  intros [= <-]. apply Z.mod_pos_bound. lia.
Qed.

Lemma matchV4_prefix x y p :
  0 ≤ x < 2 ^ 32 → 0 ≤ y < 2 ^ 32 → 0 ≤ p ≤ 32 →
  matchV4 x y p = (x / 2 ^ (32 - p) =? y / 2 ^ (32 - p)).
Proof.
  intros Hx Hy Hp. unfold matchV4. destruct (p =? 0) eqn:E; to_prop.
  { subst p. rewrite !Z.div_small by (simpl; lia). done. }
  rewrite <- masked_compare by lia. destruct (p =? 32) eqn:E'; to_prop; [by subst p|].
  done.
Qed.

(** The integer eight groups write, most significant first. *)
Fixpoint groups_value (groups : list Z) : Z :=
  match groups with [] => 0 | g :: rest => g * 2 ^ (16 * Z.of_nat (length rest)) + groups_value rest end.

Definition groups_ok : list Z → Prop := Forall (λ g, 0 ≤ g < 2 ^ 16).

Lemma groups_value_bound l : groups_ok l → 0 ≤ groups_value l < 2 ^ (16 * Z.of_nat (length l)).
Proof.
  induction 1 as [|g l Hg Hl IH]; [done|]. cbn [groups_value length].
  rewrite Nat2Z.inj_succ, <- Z.add_1_r, Z.mul_add_distr_l, Z.pow_add_r by lia.
  change (2 ^ (16 * 1)) with (2 ^ 16). nia.
Qed.

Lemma group_mask n x :
  0 < n < 16 → 0 ≤ x < 2 ^ 16 →
  js_and x (js_and (js_shl 65535 n) 65535) = x / 2 ^ n * 2 ^ n.
Proof.
  intros Hn Hx.
  assert (js_and (js_shl 65535 n) 65535 = Z.land (Z.ones 16) (- 2 ^ n)) as ->.
  { assert (forallb (λ n, js_and (js_shl 65535 n) 65535 =? Z.land (Z.ones 16) (- 2 ^ n)) (seqZ 0 16) = true)
      as Hall by (vm_compute; reflexivity).
    rewrite forallb_elem in Hall. apply Z.eqb_eq, Hall, elem_of_seqZ. lia. }
  assert (0 ≤ Z.land (Z.ones 16) (- 2 ^ n) < 2 ^ 16) as Hm.
  { rewrite Z.land_comm, Z.land_ones by lia. apply Z.mod_pos_bound. lia. }
  unfold js_and. rewrite !to_int32_id by lia. rewrite Z.land_assoc, (Z.land_ones x), Z.mod_small by lia.
  apply land_mask. lia.
Qed.

Lemma forallb_seq_S (f : nat → bool) n : forallb f (seq 1 n) = forallb (λ i, f (S i)) (seq 0 n).
Proof. rewrite <- seq_shift. induction (seq 0 n) as [|i l IH]; simpl; [done|]. by rewrite IH. Qed.

Lemma matchV6_cons x a y b p :
  0 ≤ p → matchV6 (x :: a) (y :: b) (p + 16) = (x =? y) && matchV6 a b p.
Proof.
  intros Hp. unfold matchV6. replace (p + 16) with (p + 1 * 16) by lia.
  rewrite Z.div_add, Z.mod_add by lia. rewrite Z2Nat.inj_add by (try apply Z.div_pos; lia).
  change (Z.to_nat 1) with 1%nat. rewrite Nat.add_1_r. cbn [seq forallb].
  change ((x :: a) !! 0%nat) with (Some x). change ((y :: b) !! 0%nat) with (Some y).
  rewrite forallb_seq_S.
  cbn [lookup list_lookup]. destruct (x =? y) eqn:E; to_prop.
  - subst y. by rewrite bool_decide_true.
  - rewrite bool_decide_false by congruence. done.
Qed.

Lemma matchV6_prefix a b p :
  groups_ok a → groups_ok b → length a = length b → 0 ≤ p ≤ 16 * Z.of_nat (length a) →
  let k := 16 * Z.of_nat (length a) - p in
  matchV6 a b p = (groups_value a / 2 ^ k =? groups_value b / 2 ^ k).
Proof.
  intros Ha. revert b p. induction Ha as [|x a Hx Ha IH]; intros b p Hb Hl Hp.
  { destruct b; [|done]. simpl in Hp. replace p with 0 by lia. done. }
  destruct b as [|y b]; [done|]. apply Forall_cons in Hb as [Hy Hb]. injection Hl as Hl.
  pose proof (groups_value_bound a Ha) as Hva. pose proof (groups_value_bound b Hb) as Hvb.
  cbn [length groups_value]. rewrite <- Hl in *. cbn [length] in Hp.
  set (w := 16 * Z.of_nat (length a)) in *. assert (0 ≤ w) as Hw by lia.
  pose proof (Z.pow_pos_nonneg 2 w ltac:(lia) Hw) as Hpw.
  destruct (decide (16 ≤ p)) as [Hge|Hlt].
  - replace p with (p - 16 + 16) by lia. rewrite matchV6_cons, IH by (done || lia).
    replace (16 * Z.of_nat (S (length a)) - (p - 16 + 16)) with (w - (p - 16)) by lia.
    set (q := p - 16) in *. assert (2 ^ w = 2 ^ q * 2 ^ (w - q)) as Hpow.
    { rewrite <- Z.pow_add_r by lia. f_equal. lia. }
    pose proof (Z.pow_pos_nonneg 2 (w - q) ltac:(lia) ltac:(lia)) as Hpq.
    rewrite Hpow in *. rewrite !Z.mul_assoc, !(Z.add_comm (_ * _ * _)), !Z.div_add by lia.
    assert (∀ v, 0 ≤ v < 2 ^ q * 2 ^ (w - q) → 0 ≤ v / 2 ^ (w - q) < 2 ^ q) as Hdiv.
    { intros v Hv. split; [apply Z.div_pos; lia|apply Z.div_lt_upper_bound; lia]. }
    pose proof (Hdiv _ Hva). pose proof (Hdiv _ Hvb).
    apply eq_true_iff_eq. rewrite andb_true_iff, !Z.eqb_eq. split; [intros [-> ->]; done|].
    intros Heq. apply (Z.div_mod_unique (2 ^ q)); [left; done|left; done|lia].
  - assert (16 * Z.of_nat (S (length a)) - p = w + (16 - p)) as -> by lia.
    rewrite Z.pow_add_r, <- !Z.div_div by (try apply Z.pow_nonzero; try apply Z.pow_pos_nonneg; lia).
    rewrite !(Z.add_comm (_ * _)), !Z.div_add, !(Z.div_small (groups_value _)) by lia.
    unfold matchV6. rewrite (Z.div_small p), (Z.mod_small p) by lia. simpl.
    destruct (0 <? p) eqn:E; to_prop.
    + rewrite !group_mask by lia. apply eq_true_iff_eq. rewrite !Z.eqb_eq.
      rewrite Z.mul_cancel_r by (apply Z.pow_nonzero; lia). done.
    + replace p with 0 by lia. rewrite !Z.div_small by (simpl; lia). done.
Qed.

Lemma hex_value_bound ch : is_hex ch = true → 0 ≤ hex_value ch < 16.
Proof.
  unfold is_hex, hex_value, is_digit, char_between. intros H.
  repeat match goal with |- context [if ?b then _ else _] => destruct b eqn:?E end;
    rewrite ?orb_true_iff, ?andb_true_iff, ?Nat.leb_le in *; simpl in *;
    try discriminate; lia.
Qed.

Lemma parse_hex_bound l : forallb is_hex l = true → 0 ≤ parse_hex l < 16 ^ Z.of_nat (length l).
Proof.
  unfold parse_hex. assert (∀ acc, 0 ≤ acc → forallb is_hex l = true →
    0 ≤ foldl (λ n ch, n * 16 + hex_value ch) acc l < (acc + 1) * 16 ^ Z.of_nat (length l)) as H.
  { induction l as [|ch l IH]; simpl; intros acc Ha Hl; [lia|].
    apply andb_true_iff in Hl as [Hc%hex_value_bound Hl]. specialize (IH (acc * 16 + hex_value ch) ltac:(lia) Hl).
    rewrite Nat2Z.inj_succ, Z.pow_succ_r by lia.
    pose proof (Z.pow_pos_nonneg 16 (Z.of_nat (length l)) ltac:(lia) ltac:(lia)). nia. }
  intros Hl. specialize (H 0 ltac:(lia) Hl). lia.
Qed.

Lemma hexGroups_ok gs l : hexGroups gs = Some l → groups_ok l.
Proof.
  revert l. induction gs as [|g gs IH]; intros l; simpl; [intros [= <-]; constructor|].
  destruct (_ && _) eqn:E; [|done]. to_prop. destruct (hexGroups gs) as [l'|]; [|done].
  intros [= <-]. constructor; [|by apply IH]. pose proof (parse_hex_bound g ltac:(done)) as Hb.
  assert (16 ^ Z.of_nat (length g) ≤ 16 ^ 4); [|lia].
  match goal with H : (_ <=? 4)%nat = true |- _ => apply Nat.leb_le in H end.
  apply Z.pow_le_mono_r; lia.
Qed.

Lemma ipv6ToGroups_ok ip l : ipv6ToGroups ip = Some l → groups_ok l ∧ length l = 8%nat.
Proof.
  unfold ipv6ToGroups. intros H. repeat (case_match; try discriminate); simplify_eq;
    (split; [by eapply hexGroups_ok|by apply Nat.eqb_eq]).
Qed.

Definition width (f : family) : Z := match f with V4 => 32 | V6 => 128 end.

(** The address a text writes, as an integer of [width f] bits. *)
Definition address_bits (f : family) (s : string) : option Z :=
  match f with V4 => ipv4ToLong (chars s) | V6 => groups_value <$> ipv6ToGroups (chars s) end.

Lemma parseCidr_ok cidr c :
  parseCidr cidr = Some c →
  0 ≤ c_prefix c ≤ width (c_family c) ∧ is_Some (address_bits (c_family c) (c_address c)).
Proof.
  unfold parseCidr. destruct (js_split _ _) as [|a rest]; [done|]. case_bool_decide; [done|].
  case_bool_decide.
  - destruct (ipv4ToLong (chars a)) eqn:E; [|done]. destruct (match head rest with Some _ => _ | _ => _ end); [|done].
    destruct (_ || _) eqn:Eb; [done|]. to_prop. intros [= <-]. simpl. rewrite E. split; [lia|eauto].
  - destruct (ipv6ToGroups (chars a)) eqn:E; [|done]. destruct (match head rest with Some _ => _ | _ => _ end); [|done].
    destruct (_ || _) eqn:Eb; [done|]. to_prop. intros [= <-]. simpl. rewrite E. split; [lia|eauto].
Qed.

(** Membership in a CIDR range is equality of the leading bits.  For a range the
    parser accepts, the prefix length is within the family's width, and an address
    matches precisely when its text (an IPv4-mapped one reduced to its IPv4 part)
    is an address of that family whose first [prefix] bits are those of the range:
    the signed 32-bit masks and the comparison of groups with a partial mask agree
    with division of the whole 32- or 128-bit integer. *)
Theorem cidr_exact ip cidr c :
  parseCidr cidr = Some c →
  let k := width (c_family c) - c_prefix c in
  0 ≤ k ≤ width (c_family c) ∧
  (ipMatchesCidr ip cidr = true ↔
     ∃ x y, address_bits (c_family c) (normalizeIpv4 ip) = Some x ∧
       address_bits (c_family c) (c_address c) = Some y ∧ x / 2 ^ k = y / 2 ^ k).
Proof.
  intros H. pose proof (parseCidr_ok cidr c H) as [Hp _]. split; [lia|]. unfold ipMatchesCidr. rewrite H.
  destruct (c_family c); cbn [width address_bits] in *.
  - destruct (ipv4ToLong (chars (normalizeIpv4 ip))) as [x|] eqn:Ex; [|naive_solver].
    destruct (ipv4ToLong (chars (c_address c))) as [y|] eqn:Ey; [|naive_solver].
    apply ipv4ToLong_bound in Ex, Ey. rewrite matchV4_prefix, Z.eqb_eq by done. naive_solver.
  - destruct (ipv6ToGroups (chars (normalizeIpv4 ip))) as [x|] eqn:Ex; [|naive_solver].
    destruct (ipv6ToGroups (chars (c_address c))) as [y|] eqn:Ey; [|naive_solver].
    apply ipv6ToGroups_ok in Ex as [Ox Lx], Ey as [Oy Ly].
    rewrite matchV6_prefix, Z.eqb_eq, Lx by (done || rewrite ?Lx, ?Ly; done || lia).
    change (16 * Z.of_nat 8) with 128. naive_solver.
Qed.

Lemma cidr_exact_witness :
  ipMatchesCidr "2001:db8:1::7" "2001:db8::/33" = true ∧
  ipMatchesCidr "::ffff:172.31.0.9" "172.16.0.0/12" = true.
Proof.
  split.
  - apply (cidr_exact "2001:db8:1::7" "2001:db8::/33" (mkCidr V6 "2001:db8::" 33) eq_refl).
    eexists _, _. split_and!; reflexivity.
  - apply (cidr_exact "::ffff:172.31.0.9" "172.16.0.0/12" (mkCidr V4 "172.16.0.0" 12) eq_refl).
    eexists _, _. split_and!; reflexivity.
Defined.

(** The embedded IPv4 part is written in decimal and read back as hexadecimal, so a
    tunnelled address stands for another one. *)
Example embedded_misread :
  ipv6ToGroups (chars "::ffff:0.10.0.1") = Some [0; 0; 0; 0; 0; 65535; 16; 1] ∧
  ipv6ToGroups (chars "::ffff:192.168.0.1") = None.
Proof. done. Qed.
End Address.

Module Origin.

(** [[a-z0-9-]] and [[a-z0-9.-]], on lower-cased text. *)
Definition label_char (ch : Ascii.ascii) : bool :=
  char_between 97 122 ch || is_digit ch || (Ascii.nat_of_ascii ch =? 45)%nat.
Definition host_char (ch : Ascii.ascii) : bool := label_char ch || bool_decide (ch = dot).

(** [([a-z0-9.-]+(?::\d+)?)] *)
Definition host_port (l : text) : bool :=
  match split_on colon l with
  | [host] => run_of host_char host
  | [host; port] => run_of host_char host && run_of is_digit port
  | _ => false
  end.

Definition strip_prefix (p l : text) : option text :=
  if bool_decide (p `prefix_of` l) then Some (drop (length p) l) else None.
Definition strip_suffix (p l : text) : option text :=
  if bool_decide (p `suffix_of` l) then Some (take (length l - length p) l) else None.

(** [/^(https?):\/\/\*\.([a-z0-9.-]+(?::\d+)?)$/i]: the scheme and the suffix, in
    lower case since both are only matched without regard to case. *)
Definition parseWildcard (trimmed : string) : option (text * text) :=
  let l := chars (toLowerCase trimmed) in
  let entry scheme :=
    match strip_prefix (chars (scheme +:+ "://*.")) l with
    | Some suffix => if host_port suffix then Some (chars scheme, suffix) else None
    | None => None
    end in
  match entry "https" with Some w => Some w | None => entry "http" end.

(** [[a-z0-9-]+(\.[a-z0-9-]+)*] *)
Definition labels (l : text) : bool := forallb (run_of label_char) (split_on dot l).

(** The regular expression built from a wildcard entry; the suffix is escaped, so
    it is matched literally. *)
Definition matchWildcard (scheme suffix : text) (origin : string) : bool :=
  match strip_prefix (scheme ++ chars "://") (chars (toLowerCase origin)) with
  | Some rest =>
      match strip_suffix (dot :: suffix) rest with Some sub => labels sub | None => false end
  | None => false
  end.

Definition originMatches (origin pattern : string) : bool :=
  let trimmed := trim pattern in
  if bool_decide (trimmed = "*") then true
  else if bool_decide (origin = trimmed) then true
  else match parseWildcard trimmed with
       | Some (scheme, suffix) => matchWildcard scheme suffix origin
       | None => false
       end.

Lemma strip_prefix_spec p l r : strip_prefix p l = Some r ↔ l = p ++ r.
Proof.
  unfold strip_prefix. case_bool_decide as H; split.
  - destruct H as [k ->]. by rewrite drop_app_length; intros [= ->].
  - intros ->. by rewrite drop_app_length.
  - done.
  - intros ->. destruct H. by eexists.
Qed.

Lemma strip_suffix_spec p l r : strip_suffix p l = Some r ↔ l = r ++ p.
Proof.
  unfold strip_suffix. assert (∀ k : text, take (length (k ++ p) - length p) (k ++ p) = k) as Ht.
  { intros k. rewrite length_app, Nat.add_sub. apply take_app_length. }
  case_bool_decide as H; split.
  - destruct H as [k ->]. by rewrite Ht; intros [= ->].
  - intros ->. by rewrite Ht.
  - done.
  - intros ->. destruct H. by eexists.
Qed.

Lemma matchWildcard_spec scheme suffix origin :
  matchWildcard scheme suffix origin = true ↔
  ∃ sub, labels sub = true ∧
    chars (toLowerCase origin) = scheme ++ chars "://" ++ sub ++ dot :: suffix.
Proof.
  unfold matchWildcard. split.
  - destruct (strip_prefix _ _) as [r|] eqn:E; [|done]. destruct (strip_suffix _ r) as [sub|] eqn:E'; [|done].
    apply strip_prefix_spec in E. apply strip_suffix_spec in E'. subst r. rewrite E. intros Hs.
    exists sub. by rewrite <- app_assoc.
  - intros (sub & Hs & Hl). rewrite (proj2 (strip_prefix_spec _ _ (sub ++ dot :: suffix))).
    + by rewrite (proj2 (strip_suffix_spec _ _ sub)).
    + by rewrite Hl, <- app_assoc.
Qed.

Definition plain_char (ch : Ascii.ascii) : bool :=
  negb (is_space ch) && bool_decide (lower_char ch = ch) && negb (bool_decide (ch = colon)).

Lemma host_char_plain ch : host_char ch = true → plain_char ch = true.
Proof. by destruct ch as [[] [] [] [] [] [] [] []]. Qed.

Lemma toLowerCase_fix s : Forall (λ ch, lower_char ch = ch) (chars s) → toLowerCase s = s.
Proof.
  unfold toLowerCase. induction s as [|c s IH]; simpl; [done|]. intros [-> H]%Forall_cons. by rewrite IH.
Qed.

Lemma toLowerCase_app s t : toLowerCase (s +:+ t) = toLowerCase s +:+ toLowerCase t.
Proof. unfold toLowerCase. induction s as [|c s IH]; simpl; [done|]. by rewrite IH. Qed.

(** A host of an allowlist entry: letters, digits, dots and hyphens. *)
Definition plain_host (d : string) : Prop := run_of host_char (chars d) = true.

Lemma plain_host_facts d :
  plain_host d →
  Forall (λ ch, is_space ch = false) (chars d) ∧ toLowerCase d = d ∧ (colon ∉ chars d) ∧ d ≠ "".
Proof.
  unfold plain_host, run_of. intros [Hn Hd]%andb_true_iff.
  assert (Forall (λ ch, plain_char ch = true) (chars d)) as Hp.
  { apply Forall_forall. intros ch Hc. rewrite forallb_elem in Hd. by apply host_char_plain, Hd. }
  unfold plain_char in Hp. split_and!.
  - eapply Forall_impl; [exact Hp|]. intros ch Hc. simpl in Hc. to_prop. done.
  - apply toLowerCase_fix. eapply Forall_impl; [exact Hp|]. intros ch Hc. simpl in Hc. to_prop. done.
  - intros Hc. rewrite Forall_forall in Hp. specialize (Hp _ Hc). by to_prop.
  - by intros ->.
Qed.
Lemma wildcard_chars d :
  chars ("https://*." +:+ d) = chars "https://*." ++ chars d.
Proof. apply chars_app. Qed.

Lemma parse_wildcard_https d :
  plain_host d →
  trim ("https://*." +:+ d) = "https://*." +:+ d ∧
  parseWildcard ("https://*." +:+ d) = Some (chars "https", chars d).
Proof.
  intros Hd. destruct (plain_host_facts d Hd) as (Hs & Hl & Hc & _). split.
  - apply trim_nospace. rewrite wildcard_chars. apply Forall_app. split; [|done]. by repeat constructor.
  - unfold parseWildcard. rewrite toLowerCase_app, Hl. change (toLowerCase "https://*.") with "https://*.".
    rewrite wildcard_chars, (proj2 (strip_prefix_spec _ _ (chars d))) by done.
    unfold host_port. rewrite split_on_single by done. by rewrite Hd.
Qed.

(** What a wildcard allowlist entry matches.  For a host [d] the entry
    [https://*.d] matches an origin precisely when, letter case aside, the origin is
    [https://], one or more labels, a dot and [d] (or is the entry's own text):
    neither a host that merely ends in the same letters nor [https://d] itself. *)
Theorem wildcard_exact d origin :
  plain_host d →
  let pattern := "https://*." +:+ d in
  (originMatches origin pattern = true ↔
     origin = pattern ∨
     ∃ sub, labels (chars sub) = true ∧ toLowerCase origin = "https://" +:+ sub +:+ "." +:+ d) ∧
  originMatches ("https://" +:+ d) pattern = false.
Proof.
  intros Hd pattern. destruct (parse_wildcard_https d Hd) as [Ht Hp].
  assert (∀ o, originMatches o pattern = true ↔ o = pattern ∨
    ∃ sub, labels (chars sub) = true ∧ toLowerCase o = "https://" +:+ sub +:+ "." +:+ d) as Hm.
  { intros o. unfold originMatches, pattern. rewrite Ht, Hp. rewrite bool_decide_false by done.
    case_bool_decide; [naive_solver|]. rewrite matchWildcard_spec. split.
    - intros (sub & Hs & Hl). right. exists (of_chars sub). rewrite chars_of_list. split; [done|].
      apply chars_inj. rewrite Hl, !chars_app, chars_of_list. done.
    - intros [?|(sub & Hs & Hl)]; [done|]. exists (chars sub). split; [done|].
      rewrite Hl, !chars_app. done. }
  split; [apply Hm|]. apply not_true_iff_false. rewrite Hm. destruct (plain_host_facts d Hd) as (_ & Hlow & _ & _).
  intros [H|(sub & _ & H)]; apply (f_equal (length ∘ chars)) in H; revert H; unfold pattern, compose.
  - rewrite !chars_app, !length_app. simpl. lia.
  - rewrite toLowerCase_app, Hlow, !chars_app, !length_app. simpl. lia.
Qed.

Lemma wildcard_exact_witness :
  originMatches "https://Api.example.com" "https://*.example.com" = true ∧
  originMatches "https://example.com" "https://*.example.com" = false.
Proof.
  split.
  - apply (wildcard_exact "example.com" "https://Api.example.com" eq_refl). right. by exists "api".
  - apply (wildcard_exact "example.com" "" eq_refl).
Defined.
End Origin.

Module Guard.
Import Address Origin.

Record WsGuardConfig := mkConfig {
  g_allowedOrigins : list string;
  g_requireOrigin : bool;
  g_allowAllOrigins : bool;
  g_isProduction : bool;
  g_trustedProxyCidrs : list string;
  g_maxForwardedHops : Z;
  g_rateLimitMax : Z;
  g_rateLimitWindowMs : Z;
}.

Record RateBucket := mkBucket { b_count : Z; b_resetAt : Z }.

Record WsGuardCore := mkCore {
  config : WsGuardConfig;
  buckets : jsmap string RateBucket;
  connectionCounts : jsmap string Z;
  rejectionCounts : list (string * Z);
  rejectionIndex : jsmap string nat;
}.

Definition newCore (c : WsGuardConfig) : WsGuardCore := mkCore c [] [] [] [].

(** [Partial<WsGuardConfig>] *)
Record config_patch := mkPatch {
  p_allowedOrigins : option (list string);
  p_requireOrigin : option bool;
  p_allowAllOrigins : option bool;
  p_isProduction : option bool;
  p_trustedProxyCidrs : option (list string);
  p_maxForwardedHops : option Z;
  p_rateLimitMax : option Z;
  p_rateLimitWindowMs : option Z;
}.

Definition updateConfig (p : config_patch) (core : WsGuardCore) : WsGuardCore :=
  let c := config core in
  mkCore
    (mkConfig (default (g_allowedOrigins c) (p_allowedOrigins p)) (default (g_requireOrigin c) (p_requireOrigin p))
       (default (g_allowAllOrigins c) (p_allowAllOrigins p)) (default (g_isProduction c) (p_isProduction p))
       (default (g_trustedProxyCidrs c) (p_trustedProxyCidrs p))
       (default (g_maxForwardedHops c) (p_maxForwardedHops p))
       (default (g_rateLimitMax c) (p_rateLimitMax p)) (default (g_rateLimitWindowMs c) (p_rateLimitWindowMs p)))
    (buckets core) (connectionCounts core) (rejectionCounts core) (rejectionIndex core).

(** A header as Node delivers it. *)
Inductive header := HAbsent | HText (s : string) | HList (l : list string).

Record IncomingMessage := mkMessage {
  m_remoteAddress : option string;
  m_xForwardedFor : header;
  m_forwarded : header;
}.

(** ** Forwarded headers *)

Definition trim_chars (l : text) : text := chars (trim (of_chars l)).

(** [x.startsWith('"') && x.endsWith('"')] and [x.slice(1, -1)] *)
Definition quoted (l : text) : bool :=
  bool_decide (head l = Some quote) && bool_decide (last l = Some quote).
Definition unquote (l : text) : text := removelast (tail l).

(** The value of [entry['for']] once every parameter is read; a later one wins. *)
Definition forParam (current : text) (part : text) : text :=
  match cut equals part with
  | None => current
  | Some (k, v) =>
      let key := toLowerCase (trim (of_chars k)) in
      let paramValue := trim_chars v in
      let paramValue := if quoted paramValue then unquote paramValue else paramValue in
      if bool_decide (key = "for") then paramValue else current
  end.

Definition parseForwardedHeader (value : string) : list text :=
  filter (λ hop : text, hop ≠ [])
    ((λ element, foldl forParam [] (split_on semicolon (trim_chars element))) <$>
       split_on comma (chars value)).

(** [value.slice(1, value.indexOf(']'))] when the text opens with a bracket. *)
Definition bracketed (l : text) : option text :=
  if bool_decide (head l = Some open_bracket)
  then (λ '(inside, _), tail inside) <$> cut close_bracket l else None.

(** [/^[0-9.]+:\d+$/]: the part before the only colon. *)
Definition stripPort (l : text) : text :=
  match split_on colon l with
  | [host; port] =>
      if run_of (λ ch, is_digit ch || bool_decide (ch = dot)) host && run_of is_digit port
      then host else l
  | _ => l
  end.

Definition unwrapForwardedHost (host : text) : text :=
  let value := trim_chars host in
  match bracketed value with
  | Some inside => inside
  | None =>
      if quoted value then
        let value := unquote value in
        match bracketed value with Some inside => inside | None => stripPort value end
      else stripPort value
  end.

(** [hops.slice(0, maxHops)] *)
Definition slice0 {A} (maxHops : Z) (hops : list A) : list A :=
  take (Z.to_nat (if maxHops <? 0 then Z.of_nat (length hops) + maxHops else maxHops)) hops.

Definition xffChain (xff : string) : list string :=
  (λ hop, of_chars (unwrapForwardedHost hop)) <$> split_on comma (chars xff).

Fixpoint join_commas (l : list string) : string :=
  match l with [] => "" | [s] => s | s :: rest => s +:+ "," +:+ join_commas rest end.

Definition chainOf (maxHops : Z) (req : IncomingMessage) : list string :=
  let byXff :=
    match m_xForwardedFor req with
    | HText xff => if bool_decide (xff = "") then [] else slice0 maxHops (xffChain xff)
    | HList xff => if bool_decide (xff = []) then [] else slice0 maxHops (xffChain (join_commas xff))
    | HAbsent => []
    end in
  match m_forwarded req with
  | HText f =>
      if bool_decide (f = "") then byXff
      else slice0 maxHops ((λ hop, of_chars (unwrapForwardedHost hop)) <$> parseForwardedHeader f)
  | _ => byXff
  end.

(** The loop over the chain, last hop first. *)
Fixpoint lastUntrusted (trusted : list string) (hops : list string) : option string :=
  match hops with
  | [] => None
  | hop :: rest => if negb (isIpInAnyCidr hop trusted) then Some hop else lastUntrusted trusted rest
  end.

Definition peerOf (req : IncomingMessage) : string :=
  match m_remoteAddress req with
  | Some a => if bool_decide (a = "") then "unknown" else a
  | None => "unknown"
  end.

Definition resolveClientIp (c : WsGuardConfig) (req : IncomingMessage) : string :=
  let peer := peerOf req in
  let trusted := g_trustedProxyCidrs c in
  if bool_decide (trusted = []) || bool_decide (peer = "unknown") || negb (isIpInAnyCidr peer trusted)
  then peer
  else
    let chain := chainOf (g_maxForwardedHops c) req in
    match lastUntrusted trusted (reverse chain) with
    | Some hop => hop
    | None => default peer (head chain)
    end.

(** ** Origins *)

Inductive origin_reason := ROrigin | ROriginRequired.

Definition checkOrigin (c : WsGuardConfig) (origin : option string) : bool * option origin_reason :=
  match origin with
  | None | Some "" =>
      if g_requireOrigin c then (false, Some ROriginRequired)
      else if negb (bool_decide (g_allowedOrigins c = [])) || g_allowAllOrigins c || negb (g_isProduction c)
      then (true, None) else (false, Some ROrigin)
  | Some origin =>
      if bool_decide (g_allowedOrigins c = [])
      then (negb (g_isProduction c) || g_allowAllOrigins c, Some ROrigin)
      else if existsb (originMatches origin) (g_allowedOrigins c) then (true, None)
      else (false, Some ROrigin)
  end.

(** ** Counters *)

Definition setBuckets (core : WsGuardCore) (b : jsmap string RateBucket) : WsGuardCore :=
  mkCore (config core) b (connectionCounts core) (rejectionCounts core) (rejectionIndex core).

Definition checkRateLimit (ip : string) (now : Z) (core : WsGuardCore) : WsGuardCore * bool :=
  let fresh := (setBuckets core
    (jm_set ip (mkBucket 1 (now + g_rateLimitWindowMs (config core))) (buckets core)), true) in
  match jm_get ip (buckets core) with
  | None => fresh
  | Some bucket =>
      if b_resetAt bucket <=? now then fresh
      else
        let count := b_count bucket + 1 in
        (setBuckets core (jm_set ip (mkBucket count (b_resetAt bucket)) (buckets core)),
         count <=? g_rateLimitMax (config core))
  end.

Definition setConnections (core : WsGuardCore) (m : jsmap string Z) : WsGuardCore :=
  mkCore (config core) (buckets core) m (rejectionCounts core) (rejectionIndex core).

Definition getConnectionCount (core : WsGuardCore) (ip : string) : Z :=
  default 0 (jm_get ip (connectionCounts core)).

Definition onConnect (ip : string) (core : WsGuardCore) : WsGuardCore :=
  setConnections core (jm_set ip (getConnectionCount core ip + 1) (connectionCounts core)).

Definition onDisconnect (ip : string) (core : WsGuardCore) : WsGuardCore :=
  let count := getConnectionCount core ip in
  if count <=? 1 then setConnections core (jm_delete ip (connectionCounts core))
  else setConnections core (jm_set ip (count - 1) (connectionCounts core)).

Definition setConnectionCount (ip : string) (count : Z) (core : WsGuardCore) : WsGuardCore :=
  if count <=? 0 then setConnections core (jm_delete ip (connectionCounts core))
  else setConnections core (jm_set ip count (connectionCounts core)).

Definition incrementRejection (reason : string) (core : WsGuardCore) : WsGuardCore :=
  match jm_get reason (rejectionIndex core) with
  | None =>
      mkCore (config core) (buckets core) (connectionCounts core)
        (rejectionCounts core ++ [(reason, 1)])
        (jm_set reason (length (rejectionCounts core)) (rejectionIndex core))
  | Some index =>
      mkCore (config core) (buckets core) (connectionCounts core)
        (alter (λ '(r, n), (r, n + 1)) index (rejectionCounts core)) (rejectionIndex core)
  end.

Definition resetRejectionCounts (core : WsGuardCore) : WsGuardCore :=
  mkCore (config core) (buckets core) (connectionCounts core) [] [].

Definition sweep (now : Z) (core : WsGuardCore) : WsGuardCore :=
  setBuckets core
    (filter (λ e : string * RateBucket, ¬ b_resetAt e.2 ≤ now) (buckets core : list _)).

(** ** The aggregator's guard *)

Inductive verdict := Accept | Refuse (reason : string) (code : Z).

Definition reason_text (r : origin_reason) : string :=
  match r with ROrigin => "origin" | ROriginRequired => "origin-required" end.

Definition rejectWith (reason : string) (code : Z) (core : WsGuardCore) : WsGuardCore * verdict :=
  (incrementRejection reason core, Refuse reason code).

Definition verifyClient (now : Z) (req : IncomingMessage) (origin : option string) (core : WsGuardCore)
    : WsGuardCore * verdict :=
  let ip := resolveClientIp (config core) req in
  let '(core, within) := checkRateLimit ip now core in
  if negb within then rejectWith "rate-limit" 429 core
  else
    let '(allowed, reason) := checkOrigin (config core) origin in
    if negb allowed then rejectWith (reason_text (default ROrigin reason)) 403 core
    else (core, Accept).

(** ** Client identity *)

Lemma split_on_app_sep sep l r : split_on sep (l ++ sep :: r) = split_on sep l ++ split_on sep r.
Proof.
  induction l as [|ch l IH]; simpl; [by rewrite decide_True|].
  case_decide; [by rewrite IH|]. rewrite IH. pose proof (split_on_nonempty sep l).
  by destruct (split_on sep l) as [|p ps].
Qed.

Lemma xffChain_app a b : xffChain (a +:+ "," +:+ b) = xffChain a ++ xffChain b.
Proof.
  unfold xffChain. rewrite !chars_app. change (chars ",") with [comma].
  rewrite <- fmap_app. f_equal. apply split_on_app_sep.
Qed.

Lemma lastUntrusted_skip trusted proxies rest :
  Forall (λ hop, isIpInAnyCidr hop trusted = true) proxies →
  lastUntrusted trusted (proxies ++ rest) = lastUntrusted trusted rest.
Proof. induction 1 as [|hop proxies Hh _ IH]; simpl; [done|]. by rewrite Hh. Qed.

Lemma unknown_untrusted trusted : isIpInAnyCidr "unknown" trusted = false.
Proof.
  unfold isIpInAnyCidr. induction trusted as [|cidr trusted IH]; simpl; [done|].
  rewrite IH, orb_false_r. unfold ipMatchesCidr. destruct (parseCidr cidr) as [[[] a p]|]; done.
Qed.

Lemma resolveClientIp_cases c req :
  resolveClientIp c req =
    if isIpInAnyCidr (peerOf req) (g_trustedProxyCidrs c) then
      let chain := chainOf (g_maxForwardedHops c) req in
      match lastUntrusted (g_trustedProxyCidrs c) (reverse chain) with
      | Some hop => hop
      | None => default (peerOf req) (head chain)
      end
    else peerOf req.
Proof.
  unfold resolveClientIp. destruct (isIpInAnyCidr (peerOf req) _) eqn:E; [|by rewrite orb_true_r].
  rewrite orb_false_r, !bool_decide_false; [done| |].
  - intros Hu. by rewrite Hu, unknown_untrusted in E.
  - intros Ht. by rewrite Ht in E.
Qed.

Lemma slice0_all {A} n (l : list A) : Z.of_nat (length l) ≤ n → slice0 n l = l.
Proof.
  intros Hl. unfold slice0. rewrite (proj2 (Z.ltb_ge n 0)) by lia. apply take_ge. lia.
Qed.

(** The header the guard reads the hops from. *)
Inductive hop_header := ForwardedHeader | XffHeader.

(** [Forwarded] if it is a non-empty text, else [X-Forwarded-For], with the text. *)
Definition consulted (req : IncomingMessage) : option (hop_header * string) :=
  match m_forwarded req with
  | HText (String _ _ as f) => Some (ForwardedHeader, f)
  | _ =>
      match m_xForwardedFor req with
      | HText (String _ _ as xff) => Some (XffHeader, xff)
      | HList (x :: xs) => Some (XffHeader, join_commas (x :: xs))
      | _ => None
      end
  end.

Definition hopsOf (h : hop_header) (value : string) : list string :=
  match h with
  | ForwardedHeader => (λ hop, of_chars (unwrapForwardedHost hop)) <$> parseForwardedHeader value
  | XffHeader => xffChain value
  end.

Lemma hopsOf_app h a b : hopsOf h (a +:+ "," +:+ b) = hopsOf h a ++ hopsOf h b.
Proof.
  destruct h; [|apply xffChain_app]. unfold hopsOf, parseForwardedHeader.
  rewrite !chars_app. change (chars ",") with [comma]. cbn [app].
  by rewrite split_on_app_sep, fmap_app, filter_app, fmap_app.
Qed.

Lemma chainOf_consulted n req :
  chainOf n req = match consulted req with Some (h, v) => slice0 n (hopsOf h v) | None => [] end.
Proof.
  unfold chainOf, consulted.
  destruct (m_forwarded req) as [|[|]|], (m_xForwardedFor req) as [|[|]|[|]]; done.
Qed.

(** The right-most untrusted hop of a chain that ends in trusted proxies. *)
Lemma lastUntrusted_client trusted front client proxies :
  isIpInAnyCidr client trusted = false →
  Forall (λ hop, isIpInAnyCidr hop trusted = true) proxies →
  lastUntrusted trusted (reverse (front ++ client :: proxies)) = Some client.
Proof.
  intros Hc Hp. rewrite reverse_app, reverse_cons, <- app_assoc.
  rewrite lastUntrusted_skip by (by apply Forall_reverse). simpl. by rewrite Hc.
Qed.

(** C36: Who counts as the client.  When the peer is not a trusted proxy the
    identity is the peer's address, whatever the headers say.  When it is, let
    [value] be the text of the header the guard reads ([Forwarded] if present,
    else [X-Forwarded-For]) and suppose the proxies wrote the end of it,
    [genuine]: its first hop is an untrusted address and the others are trusted
    proxies.  Then the identity is that first hop, whatever text the client put
    before it, provided the header holds no more hops than the guard keeps.
    If [Forwarded] is present, [X-Forwarded-For] is not consulted: proxies that
    only write the latter leave the choice to the client (see
    [forwarded_forges]). *)
Theorem identity_unforgeable c req :
  let trusted := g_trustedProxyCidrs c in
  (isIpInAnyCidr (peerOf req) trusted = false → resolveClientIp c req = peerOf req) ∧
  (∀ h value genuine client proxies,
     isIpInAnyCidr (peerOf req) trusted = true →
     consulted req = Some (h, value) →
     value = genuine ∨ (∃ forged, value = forged +:+ "," +:+ genuine) →
     hopsOf h genuine = client :: proxies →
     isIpInAnyCidr client trusted = false →
     Forall (λ hop, isIpInAnyCidr hop trusted = true) proxies →
     Z.of_nat (length (hopsOf h value)) ≤ g_maxForwardedHops c →
     resolveClientIp c req = client) ∧
  (∀ f xff, f ≠ "" → m_forwarded req = HText f →
     resolveClientIp c (mkMessage (m_remoteAddress req) xff (HText f)) = resolveClientIp c req).
Proof.
  intros trusted. rewrite resolveClientIp_cases. fold trusted. split_and!.
  - by intros ->.
  - intros h value genuine client proxies -> Hv Hpre Hg Hc Hp Hn. cbv zeta.
    rewrite chainOf_consulted, Hv, slice0_all by done.
    assert (∃ front, hopsOf h value = front ++ client :: proxies) as [front ->].
    { destruct Hpre as [->|[forged ->]]; [by exists []|]. exists (hopsOf h forged). by rewrite hopsOf_app, Hg. }
    by rewrite lastUntrusted_client.
  - intros f xff Hne Hf. rewrite resolveClientIp_cases. fold trusted.
    change (peerOf (mkMessage (m_remoteAddress req) xff (HText f))) with (peerOf req).
    assert (chainOf (g_maxForwardedHops c) (mkMessage (m_remoteAddress req) xff (HText f)) =
      chainOf (g_maxForwardedHops c) req) as ->; [|done].
    rewrite !chainOf_consulted. unfold consulted. cbn [m_forwarded]. rewrite Hf. by destruct f.
Qed.

Definition demo_config : WsGuardConfig :=
  mkConfig ["https://*.example.com"] true false true ["10.0.0.0/8"] 3 2 1000.
Definition proxied (xff : string) : IncomingMessage :=
  mkMessage (Some "10.0.0.9") (HText xff) HAbsent.

Lemma identity_unforgeable_witness :
  resolveClientIp demo_config (proxied "1.1.1.1,203.0.113.7:443, 10.1.2.3") = "203.0.113.7".
Proof.
  apply (proj1 (proj2 (identity_unforgeable demo_config (proxied "1.1.1.1,203.0.113.7:443, 10.1.2.3")))
    XffHeader "1.1.1.1,203.0.113.7:443, 10.1.2.3" "203.0.113.7:443, 10.1.2.3" "203.0.113.7" ["10.1.2.3"]);
    [reflexivity|reflexivity|right; exists "1.1.1.1"; reflexivity|reflexivity|reflexivity
    |by repeat constructor|vm_compute; discriminate].
Defined.

(** Behind a proxy that appends to [X-Forwarded-For] and passes [Forwarded] on, a
    client that sends a [Forwarded] header chooses its identity. *)
Example forwarded_forges :
  let behind_proxy f := mkMessage (Some "10.0.0.9") (HText "203.0.113.7") f in
  resolveClientIp demo_config (behind_proxy HAbsent) = "203.0.113.7" ∧
  resolveClientIp demo_config (behind_proxy (HText "for=9.9.9.9")) = "9.9.9.9" ∧
  resolveClientIp demo_config (behind_proxy (HText "for=9.9.9.8")) = "9.9.9.8".
Proof. done. Qed.

(** Past that bound the guard keeps the hops nearest the client, so a client that
    sends enough of them chooses its own identity. *)
Example hops_overflow_forges :
  resolveClientIp demo_config (proxied "9.9.9.9,9.9.9.9,1.2.3.4,203.0.113.7") = "1.2.3.4" ∧
  resolveClientIp demo_config (proxied "9.9.9.9,9.9.9.9,1.2.3.5,203.0.113.7") = "1.2.3.5".
Proof. done. Qed.

(** ** Rate limit *)

(** What happens to a guard, in order: upgrade requests, sweeps, connections
    opening and closing, and the counters being reset. *)
Inductive event :=
  | Upgrade (now : Z) (req : IncomingMessage) (origin : option string)
  | Sweep (now : Z)
  | Connect (ip : string)
  | Disconnect (ip : string)
  | ResetRejections.

Definition step (core : WsGuardCore) (e : event) : WsGuardCore :=
  match e with
  | Upgrade now req origin => (verifyClient now req origin core).1
  | Sweep now => sweep now core
  | Connect ip => onConnect ip core
  | Disconnect ip => onDisconnect ip core
  | ResetRejections => resetRejectionCounts core
  end.

Definition run : WsGuardCore → list event → WsGuardCore := foldl step.

(** 1 when the event is an upgrade from [ip] that is accepted. *)
Definition accepted (ip : string) (core : WsGuardCore) (e : event) : Z :=
  match e with
  | Upgrade now req origin =>
      if bool_decide (resolveClientIp (config core) req = ip)
      then match (verifyClient now req origin core).2 with Accept => 1 | Refuse _ _ => 0 end else 0
  | _ => 0
  end.

Fixpoint acceptances (ip : string) (core : WsGuardCore) (es : list event) : Z :=
  match es with [] => 0 | e :: es => accepted ip core e + acceptances ip (step core e) es end.

Definition within (a b : Z) (e : event) : Prop :=
  match e with Upgrade now _ _ | Sweep now => a ≤ now < b | _ => True end.

Lemma incrementRejection_frame reason core :
  config (incrementRejection reason core) = config core ∧ buckets (incrementRejection reason core) = buckets core.
Proof. unfold incrementRejection. by case_match. Qed.

(** An upgrade changes only the bucket of its identity, and is accepted only if the
    rate limit lets it through. *)
Lemma verifyClient_rate now req origin core :
  let out := verifyClient now req origin core in
  let limit := checkRateLimit (resolveClientIp (config core) req) now core in
  config out.1 = config core ∧ buckets out.1 = buckets limit.1 ∧ (out.2 = Accept → limit.2 = true).
Proof.
  unfold verifyClient. destruct (checkRateLimit _ now core) as [core' w] eqn:E. cbv zeta.
  assert (config core' = config core) as Hc.
  { unfold checkRateLimit in E. repeat case_match; by simplify_eq. }
  destruct w; simpl; [|destruct (incrementRejection_frame "rate-limit" core') as [-> ->]; by rewrite Hc].
  destruct (checkOrigin _ _) as [[] r]; [done|]. simpl.
  destruct (incrementRejection_frame (reason_text (default ROrigin r)) core') as [-> ->]. by rewrite Hc.
Qed.

(** The upgrades [ip] can still be granted before time [b], given that a bucket
    opened from now on outlives [b]. *)
Definition allowance (ip : string) (b : Z) (core : WsGuardCore) : Z :=
  let max := g_rateLimitMax (config core) in
  match jm_get ip (buckets core) with
  | None => Z.max 1 max
  | Some k => Z.max 0 (max - b_count k) + (if b <=? b_resetAt k then 0 else Z.max 1 max)
  end.

Lemma checkRateLimit_allowance ip now a b core :
  a ≤ now < b → b ≤ a + g_rateLimitWindowMs (config core) →
  let out := checkRateLimit ip now core in
  (if out.2 then 1 else 0) + allowance ip b out.1 ≤ allowance ip b core.
Proof.
  intros Hn Hb. unfold checkRateLimit, allowance. cbv zeta.
  destruct (jm_get ip (buckets core)) as [k|] eqn:Eg.
  - destruct (b_resetAt k <=? now) eqn:Er; to_prop; cbn [fst snd setBuckets config buckets];
      rewrite jm_get_set_eq; cbn [b_count b_resetAt].
    + rewrite (proj2 (Z.leb_le b (now + _))) by lia. rewrite (proj2 (Z.leb_gt b (b_resetAt k))) by lia. lia.
    + destruct (_ <=? g_rateLimitMax (config core)) eqn:El, (b <=? b_resetAt k); to_prop; lia.
  - cbn [fst snd setBuckets config buckets]. rewrite jm_get_set_eq. cbn [b_count b_resetAt].
    rewrite (proj2 (Z.leb_le b (now + _))) by lia. lia.
Qed.

Lemma checkRateLimit_other ip ip' now core :
  ip ≠ ip' → jm_get ip' (buckets (checkRateLimit ip now core).1) = jm_get ip' (buckets core).
Proof.
  intros Hne. unfold checkRateLimit. repeat case_match; simpl; by apply jm_get_set_ne.
Qed.

(** Counts are positive, keys distinct, and the configuration is fixed. *)
Definition core_ok (c : WsGuardConfig) (core : WsGuardCore) : Prop :=
  config core = c ∧ jm_wf (buckets core) ∧
  ∀ ip k, jm_get ip (buckets core) = Some k → 1 ≤ b_count k.

Lemma checkRateLimit_ok c ip now core : core_ok c core → core_ok c (checkRateLimit ip now core).1.
Proof.
  intros (Hc & Hw & Hk). unfold checkRateLimit.
  repeat case_match; (split_and!; simpl; [done|by apply jm_wf_set|]); intros ip' k'; rewrite jm_get_set;
    case_decide; eauto; intros [= <-]; simpl; [done| |done].
  match goal with H : jm_get ip _ = Some _ |- _ => apply Hk in H end. lia.
Qed.

Lemma step_core_ok c core e : core_ok c core → core_ok c (step core e).
Proof.
  intros Hok. pose proof Hok as (Hc & Hw & Hk). destruct e as [now req origin|now|ip|ip|]; simpl.
  - destruct (verifyClient_rate now req origin core) as (H1 & H2 & _).
    unfold core_ok. rewrite H1, H2. split; [done|].
    by apply (checkRateLimit_ok c).
  - split_and!; [done|by apply jm_wf_filter|]. intros ip k. simpl. rewrite jm_get_filter by done.
    destruct (jm_get ip (buckets core)) as [k'|] eqn:E; [|done]. case_decide; [|done].
    intros [= <-]. by eapply Hk.
  - done.
  - unfold onDisconnect. by case_match.
  - done.
Qed.

Lemma run_core_ok c core es : core_ok c core → core_ok c (run core es).
Proof. revert core. induction es as [|e es IH]; intros core H; [done|]. by apply IH, step_core_ok. Qed.

Lemma step_allowance c ip a b core e :
  core_ok c core → within a b e → b ≤ a + g_rateLimitWindowMs c →
  accepted ip core e + allowance ip b (step core e) ≤ allowance ip b core.
Proof.
  intros (Hc & Hw & Hk) He Hb. subst c.
  assert (∀ core', config core' = config core → buckets core' = buckets core →
    0 + allowance ip b core' ≤ allowance ip b core) as Hsame.
  { intros core' H1 H2. unfold allowance. rewrite H1, H2. lia. }
  destruct e as [now req origin|now|ip'|ip'|]; simpl in He |- *;
    [| |by apply Hsame|unfold onDisconnect; case_match; by apply Hsame|by apply Hsame].
  - destruct (verifyClient_rate now req origin core) as (H1 & H2 & H3).
    assert (allowance ip b (verifyClient now req origin core).1 =
            allowance ip b (checkRateLimit (resolveClientIp (config core) req) now core).1) as ->.
    { unfold allowance. rewrite H1, H2. f_equal. unfold checkRateLimit. by repeat case_match. }
    case_bool_decide as Hip.
    + rewrite Hip in *. pose proof (checkRateLimit_allowance ip now a b core He Hb) as Ha. simpl in Ha.
      destruct (verifyClient _ _ _ _).2; [rewrite H3 in Ha by done; lia|].
      destruct (checkRateLimit _ _ _).2; lia.
    + unfold allowance at 1. rewrite checkRateLimit_other by done.
      assert (config (checkRateLimit (resolveClientIp (config core) req) now core).1 = config core) as ->
        by (unfold checkRateLimit; by repeat case_match).
      unfold allowance. lia.
  - unfold allowance. simpl. rewrite jm_get_filter by done.
    destruct (jm_get ip (buckets core)) as [k|]; [|lia]. simpl. case_decide as Hr; [lia|].
    rewrite (proj2 (Z.leb_gt b (b_resetAt k))) by lia. lia.
Qed.

Lemma acceptances_allowance c ip a b core es :
  core_ok c core → Forall (within a b) es → b ≤ a + g_rateLimitWindowMs c →
  0 ≤ acceptances ip core es ≤ allowance ip b core.
Proof.
  intros Hok Hes Hb. revert core Hok. induction Hes as [|e es He Hes IH]; intros core Hok; simpl.
  { unfold allowance. case_match; [case_match|]; lia. }
  pose proof (step_allowance c ip a b core e Hok He Hb). specialize (IH _ (step_core_ok c core e Hok)).
  assert (0 ≤ accepted ip core e); [|lia]. unfold accepted. repeat case_match; lia.
Qed.

(** C37: The upgrade rate.  However upgrades, sweeps, connections and disconnections
    interleave, over any span no longer than the rate-limit window one client
    identity is accepted at most [2 * max - 1] times, where [max] is the configured
    limit or 1 if that is smaller: what is left of a bucket already open, plus one
    whole bucket.  Other identities, and forgetting expired buckets, never add to it. *)
Theorem upgrades_bounded c ip earlier es a b :
  Forall (within a b) es → b ≤ a + g_rateLimitWindowMs c →
  acceptances ip (run (newCore c) earlier) es ≤ 2 * Z.max 1 (g_rateLimitMax c) - 1.
Proof.
  intros Hes Hb. assert (core_ok c (run (newCore c) earlier)) as Hok.
  { apply run_core_ok. split_and!; [done|apply jm_wf_empty|done]. }
  pose proof (acceptances_allowance c ip a b _ es Hok Hes Hb) as [_ Ha]. destruct Hok as (Hc & _ & Hk).
  unfold allowance in Ha. rewrite Hc in Ha. destruct (jm_get ip _) as [k|] eqn:E; [|lia].
  apply Hk in E. case_match; lia.
Qed.

Definition demo_upgrade (now : Z) : event :=
  Upgrade now (proxied "203.0.113.7") (Some "https://a.example.com").

Lemma upgrades_bounded_witness :
  acceptances "203.0.113.7" (run (newCore demo_config) [demo_upgrade 0])
    [demo_upgrade 900; demo_upgrade 950; demo_upgrade 1000; Sweep 1000; demo_upgrade 1100; demo_upgrade 1200] ≤ 3.
Proof.
  apply (upgrades_bounded demo_config "203.0.113.7" [demo_upgrade 0]
    [demo_upgrade 900; demo_upgrade 950; demo_upgrade 1000; Sweep 1000; demo_upgrade 1100; demo_upgrade 1200]
    900 1900); [repeat constructor; simpl; lia|simpl; lia].
Defined.

(** The bound is reached; and a limit of zero still accepts the first upgrade. *)
Example upgrade_bound_tight :
  acceptances "203.0.113.7" (run (newCore demo_config) [demo_upgrade 0])
    [demo_upgrade 900; demo_upgrade 950; demo_upgrade 1000; demo_upgrade 1100; demo_upgrade 1200] = 3 ∧
  acceptances "203.0.113.7"
    (newCore (mkConfig ["https://*.example.com"] true false true ["10.0.0.0/8"] 3 0 1000)) [demo_upgrade 5] = 1.
Proof. by vm_compute. Qed.

(** ** Origins *)

(** The origins a deployment that did not opt in to all of them admits in production. *)
Definition admitted_origin (c : WsGuardConfig) (origin : option string) : Prop :=
  g_allowedOrigins c ≠ [] ∧
  match origin with
  | None | Some "" => g_requireOrigin c = false
  | Some o => ∃ pattern, pattern ∈ g_allowedOrigins c ∧ originMatches o pattern = true
  end.

Lemma checkOrigin_production c origin :
  g_isProduction c = true → g_allowAllOrigins c = false →
  ((checkOrigin c origin).1 = true ↔ admitted_origin c origin).
Proof.
  intros Hp Ha. unfold checkOrigin, admitted_origin. rewrite Hp, Ha. simpl.
  destruct (bool_decide (g_allowedOrigins c = [])) eqn:E; to_prop; simpl.
  { destruct origin as [[|ch o]|]; [destruct (g_requireOrigin c)|rewrite E|destruct (g_requireOrigin c)];
      simpl; naive_solver. }
  destruct origin as [[|ch o]|]; [destruct (g_requireOrigin c); naive_solver| |destruct (g_requireOrigin c); naive_solver].
  destruct (existsb _ _) eqn:Ex; simpl.
  - apply existsb_exists in Ex as (p & Hin & Hm). rewrite <- list_elem_of_In in Hin. naive_solver.
  - split; [done|]. intros (_ & p & Hin & Hm). apply not_true_iff_false in Ex. destruct Ex.
    apply existsb_exists. exists p. by rewrite <- list_elem_of_In.
Qed.

(** The guard fails closed.  In production, unless every origin was explicitly
    allowed, an upgrade is accepted precisely when the rate limit lets its identity
    through, an allowlist is configured, and the origin matches one of its entries
    (or is absent where none is required); with an empty allowlist nothing is
    accepted, whatever headers the client sends or omits. *)
Theorem origin_fail_closed now req origin core :
  g_isProduction (config core) = true → g_allowAllOrigins (config core) = false →
  ((verifyClient now req origin core).2 = Accept ↔
     (checkRateLimit (resolveClientIp (config core) req) now core).2 = true ∧
     admitted_origin (config core) origin) ∧
  (g_allowedOrigins (config core) = [] → (verifyClient now req origin core).2 ≠ Accept).
Proof.
  intros Hp Ha. assert ((verifyClient now req origin core).2 = Accept ↔
    (checkRateLimit (resolveClientIp (config core) req) now core).2 = true ∧
    admitted_origin (config core) origin) as Hiff.
  { rewrite <- checkOrigin_production by done. unfold verifyClient.
    destruct (checkRateLimit _ _ _) as [core' w] eqn:E.
    assert (config core' = config core) as -> by (unfold checkRateLimit in E; repeat case_match; by simplify_eq).
    destruct w; simpl; [|naive_solver]. destruct (checkOrigin _ _) as [[] r]; simpl; naive_solver. }
  split; [done|]. rewrite Hiff. intros He (_ & Hne & _). done.
Qed.

Lemma origin_fail_closed_witness :
  (verifyClient 5 (proxied "203.0.113.7") None
     (newCore (mkConfig [] false false true ["10.0.0.0/8"] 3 2 1000))).2 ≠ Accept.
Proof.
  by apply (origin_fail_closed 5 (proxied "203.0.113.7") None
    (newCore (mkConfig [] false false true ["10.0.0.0/8"] 3 2 1000))).
Defined.
End Guard.
