(* ===== verification/AssetIdentity.v ===== *)
(** * Canonical asset identity

    [api/src/feeds/asset-identity.ts]: the canonical text of a Stellar asset
    ([<network>:<CODE>:<ISSUER>]), its parser, and the resolution of the
    spellings consumers use.  Error messages are left out; a failure keeps its
    reason and its candidates.

    - [canonical_roundtrip]: parsing inverts formatting exactly on the
      well-formed assets, and only well-formed assets are ever parsed;
    - [resolution_canonical]: what a resolution returns, and the one input whose
      result is not a canonical id;
    - [resolution_deterministic]: neither the order of the registry nor case and
      surrounding white space matter. *)

From stdpp Require Import base list strings sets.
From S2P Require Import Prelude JsMap.

(** ** Data *)

Inductive StellarNetwork := net_public | net_testnet | net_futurenet | net_local.

#[export] Instance StellarNetwork_eq_dec : EqDecision StellarNetwork.
Proof. solve_decision. Defined.

Definition STELLAR_NETWORKS : list StellarNetwork :=
  [net_public; net_testnet; net_futurenet; net_local].

(** The string literal of each member of the type. *)
Definition network_name (n : StellarNetwork) : string :=
  match n with
  | net_public => "public"
  | net_testnet => "testnet"
  | net_futurenet => "futurenet"
  | net_local => "local"
  end.

Definition NATIVE_ASSET_CODE : string := "XLM".

Record CanonicalAsset := mkAsset {
  as_network : StellarNetwork;
  as_code : string;
  as_issuer : option string;
}.

#[export] Instance CanonicalAsset_eq_dec : EqDecision CanonicalAsset.
Proof. solve_decision. Defined.

(** [[A-Z0-9]] *)
Definition is_code_char (c : Ascii.ascii) : bool := char_between 65 90 c || char_between 48 57 c.

(** [^[A-Z0-9]\{1,12\}$] *)
Definition isValidAssetCode (code : string) : bool :=
  (1 <=? String.length code)%nat && (String.length code <=? 12)%nat &&
  forallb is_code_char (chars code).

(** [^G[A-Z0-9]\{55\}$] *)
Definition isValidIssuer (issuer : string) : bool :=
  match issuer with
  | String g rest =>
      bool_decide (g = Ascii.ascii_of_nat 71) && (String.length rest =? 55)%nat &&
      forallb is_code_char (chars rest)
  | EmptyString => false
  end.

Definition NETWORK_ALIASES : jsmap string StellarNetwork :=
  [("PUBLIC", net_public); ("MAINNET", net_public); ("PUBLIC NETWORK", net_public);
   ("TESTNET", net_testnet); ("TEST NETWORK", net_testnet); ("HORIZONTESTNET", net_testnet);
   ("FUTURENET", net_futurenet); ("FUTURE NETWORK", net_futurenet);
   ("LOCAL", net_local); ("SANDBOX", net_local)].

Definition networkFromPassphrase (passphrase : string) : option StellarNetwork :=
  let value := toLowerCase (trim passphrase) in
  if includes "public global stellar network" value then Some net_public
  else if includes "test sdf future network" value then Some net_futurenet
  else if includes "test sdf network" value then Some net_testnet
  else if includes "local" value then Some net_local
  else None.

(** [isStellarNetwork(value) ? value : null] *)
Definition isStellarNetwork (value : string) : option StellarNetwork :=
  snd <$> list_find (λ n, network_name n = value) STELLAR_NETWORKS.

Definition normalizeNetwork (value : string) : option StellarNetwork :=
  let trimmed := trim value in
  match jm_get (toUpperCase trimmed) NETWORK_ALIASES with
  | Some aliased => Some aliased
  | None => isStellarNetwork (toLowerCase trimmed)
  end.

(** ** Canonical text *)

Definition formatCanonicalAssetId (asset : CanonicalAsset) : string :=
  network_name (as_network asset) +:+ ":" +:+ as_code asset +:+ ":" +:+
  match as_issuer asset with None => "native" | Some issuer => issuer end.

Definition parseCanonicalAssetId (value : string) : option CanonicalAsset :=
  match js_split colon (trim value) with
  | [p0; p1; p2] =>
      match normalizeNetwork p0 with
      | None => None
      | Some network =>
          let code := toUpperCase (trim p1) in
          if negb (isValidAssetCode code) then None
          else
            let rawIssuer := toUpperCase (trim p2) in
            let finish (issuer : option string) :=
              match issuer with
              | None => if bool_decide (code ≠ NATIVE_ASSET_CODE) then None
                        else Some (mkAsset network code issuer)
              | Some _ => if bool_decide (code = NATIVE_ASSET_CODE) then None
                          else Some (mkAsset network code issuer)
              end in
            if bool_decide (rawIssuer = "NATIVE") then finish None
            else if isValidIssuer rawIssuer then finish (Some rawIssuer)
            else None
      end
  | _ => None
  end.

Definition isCanonicalAssetId (value : string) : bool :=
  bool_decide (is_Some (parseCanonicalAssetId value)).

(** ** Resolution *)

Record AssetAliasRegistration := mkAlias { ar_alias : string; ar_canonicalId : string }.

Inductive AssetResolutionReason := INVALID_ALIAS | NOT_FOUND | AMBIGUOUS.
Inductive resolution_kind := RCanonical | RRegistry | RNative.

Inductive AssetResolutionResult :=
| Resolved (canonicalId : string) (asset : CanonicalAsset) (matchedAlias : string)
    (resolution : resolution_kind)
| Unresolved (reason : AssetResolutionReason) (candidates : option (list string)).

Definition registryLookupByAlias (registry : list AssetAliasRegistration) (alias : string)
    : list AssetAliasRegistration :=
  let target := toUpperCase (trim alias) in
  filter (λ e, toUpperCase (trim (ar_alias e)) = target) registry.

Definition registryLookupByCode (registry : list AssetAliasRegistration) (code : string)
    : list AssetAliasRegistration :=
  let target := toUpperCase (trim code) in
  filter (λ e, as_code <$> parseCanonicalAssetId (ar_canonicalId e) = Some target) registry.

Definition resolveCanonicalOrFail (canonicalId matchedAlias : string) : AssetResolutionResult :=
  match parseCanonicalAssetId canonicalId with
  | None => Unresolved INVALID_ALIAS None
  | Some asset => Resolved (formatCanonicalAssetId asset) asset matchedAlias RRegistry
  end.

(** The [Map] from canonical ids to registrations both resolvers build. *)
Definition distinctMatches (ms : list AssetAliasRegistration) : jsmap string AssetAliasRegistration :=
  foldl (λ m e, jm_set (ar_canonicalId e) e m) jm_empty ms.

Definition resolveRegisteredAliases (ms : list AssetAliasRegistration) (alias : string)
    : AssetResolutionResult :=
  match jm_values (distinctMatches ms) with
  | [only] => resolveCanonicalOrFail (ar_canonicalId only) alias
  | [] => Unresolved INVALID_ALIAS None (* not reached: the matches are not empty *)
  | _ => Unresolved AMBIGUOUS (Some (sort_strings (jm_keys (distinctMatches ms))))
  end.

Definition resolveBareCode (code : string) (registry : list AssetAliasRegistration)
    (defaultNetwork : StellarNetwork) : AssetResolutionResult :=
  if negb (isValidAssetCode code) then Unresolved INVALID_ALIAS None
  else
    let distinct := distinctMatches (registryLookupByCode registry code) in
    match jm_values distinct with
    | [only] => resolveCanonicalOrFail (ar_canonicalId only) code
    | _ :: _ :: _ => Unresolved AMBIGUOUS (Some (sort_strings (jm_keys distinct)))
    | [] =>
        if bool_decide (code = NATIVE_ASSET_CODE) then
          let asset := mkAsset defaultNetwork code None in
          Resolved (formatCanonicalAssetId asset) asset code RNative
        else Unresolved NOT_FOUND None
    end.

(** The rules for a text of two parts that name neither a network nor an issuer,
    and for a single part: registered aliases, then the bare code. *)
Definition resolveByRegistry (upper : string) (registry : list AssetAliasRegistration)
    (defaultNetwork : StellarNetwork) : AssetResolutionResult :=
  match registryLookupByAlias registry upper with
  | [] => resolveBareCode upper registry defaultNetwork
  | registered => resolveRegisteredAliases registered upper
  end.

Definition resolveAssetAlias (input : string) (registry : list AssetAliasRegistration)
    (defaultNetwork : StellarNetwork) : AssetResolutionResult :=
  let trimmed := trim input in
  if bool_decide (trimmed = "") then Unresolved INVALID_ALIAS None
  else
    let upper := toUpperCase trimmed in
    match js_split colon upper with
    | [_; _; _] =>
        match parseCanonicalAssetId upper with
        | None => Unresolved INVALID_ALIAS None
        | Some asset => Resolved (formatCanonicalAssetId asset) asset upper RCanonical
        end
    | [first; second] =>
        let named :=
          match normalizeNetwork first with
          | Some network => Some (network, second)
          | None => (λ network, (network, first)) <$> normalizeNetwork second
          end in
        match named with
        | Some (network, text) =>
            let code := trim text in
            if negb (isValidAssetCode code) then Unresolved INVALID_ALIAS None
            else if bool_decide (code ≠ NATIVE_ASSET_CODE) then Unresolved INVALID_ALIAS None
            else
              let asset := mkAsset network code None in
              Resolved (formatCanonicalAssetId asset) asset upper RCanonical
        | None =>
            let firstIsIssuer := isValidIssuer first in
            let secondIsIssuer := isValidIssuer second in
            if firstIsIssuer && secondIsIssuer then
              Unresolved AMBIGUOUS (Some [first; second])
            else if firstIsIssuer || secondIsIssuer then
              let issuer := if firstIsIssuer then first else second in
              let code := if firstIsIssuer then second else first in
              if negb (isValidAssetCode code) then Unresolved INVALID_ALIAS None
              else
                let asset := mkAsset defaultNetwork code (Some issuer) in
                Resolved (formatCanonicalAssetId asset) asset upper RCanonical
            else resolveByRegistry upper registry defaultNetwork
        end
    | [_] => resolveByRegistry upper registry defaultNetwork
    | _ => Unresolved INVALID_ALIAS None
    end.

(** ** Well-formed assets *)

(** The assets the canonical text can denote: XLM is native and only XLM is. *)
Definition valid_asset (a : CanonicalAsset) : Prop :=
  isValidAssetCode (as_code a) = true ∧
  match as_issuer a with
  | None => as_code a = NATIVE_ASSET_CODE
  | Some issuer => as_code a ≠ NATIVE_ASSET_CODE ∧ isValidIssuer issuer = true
  end.

(** ** Lemmas *)

Lemma code_char c :
  is_code_char c = true → upper_char c = c ∧ is_space c = false ∧ c ≠ colon.
Proof. by destruct c as [[] [] [] [] [] [] [] []]. Qed.

(** Codes and issuers are upper case, without white space or colons. *)
Lemma code_text s :
  forallb is_code_char (chars s) = true →
  toUpperCase s = s ∧ Forall (λ c, is_space c = false) (chars s) ∧ colon ∉ chars s.
Proof.
  unfold toUpperCase. induction s as [|c s IH]; simpl; [intros _; split_and!; [done|done|set_solver]|].
  intros [Hc Hs]%andb_true_iff. apply code_char in Hc as (-> & ? & ?).
  destruct (IH Hs) as (-> & ? & ?). split_and!; [done|by constructor|set_solver].
Qed.

Lemma issuer_text s : isValidIssuer s = true → forallb is_code_char (chars s) = true.
Proof. destruct s as [|g s]; simpl; [done|]. intros H. to_prop. by subst. Qed.

Lemma network_text n :
  normalizeNetwork (network_name n) = Some n ∧
  Forall (λ c, is_space c = false) (chars (network_name n)) ∧ colon ∉ chars (network_name n).
Proof.
  destruct n; (split_and!; [reflexivity|by repeat constructor|]);
    apply (bool_decide_unpack _); reflexivity.
Qed.

Lemma parse_valid s a : parseCanonicalAssetId s = Some a → valid_asset a.
Proof.
  unfold parseCanonicalAssetId, valid_asset.
  destruct (js_split _ _) as [|p0 [|p1 [|p2 []]]]; try done.
  destruct (normalizeNetwork p0) as [n|]; [|done]. cbv zeta.
  destruct (isValidAssetCode _) eqn:Hc; simpl; [|done].
  destruct (bool_decide (toUpperCase (trim p2) = "NATIVE")).
  - destruct (bool_decide _) eqn:E; [done|]. intros [= <-]. simpl. split; [done|].
    apply bool_decide_eq_false in E. by destruct (decide (toUpperCase (trim p1) = NATIVE_ASSET_CODE)).
  - destruct (isValidIssuer _) eqn:Hi; [|done]. destruct (bool_decide _) eqn:E; [done|].
    intros [= <-]. simpl. by apply bool_decide_eq_false in E.
Qed.

Lemma issuer_not_native s : isValidIssuer s = true → s ≠ "NATIVE".
Proof. by intros H ->. Qed.

Lemma parse_format a : valid_asset a → parseCanonicalAssetId (formatCanonicalAssetId a) = Some a.
Proof.
  intros [Hc Hi]. destruct a as [n code iss]; simpl in *.
  destruct (network_text n) as (Hn & Hns & Hnc).
  assert (forallb is_code_char (chars code) = true) as (Hcu & Hcs & Hcc)%code_text.
  { unfold isValidAssetCode in Hc. by to_prop. }
  set (it := match iss with None => "native" | Some issuer => issuer end).
  assert (Forall (λ c, is_space c = false) (chars it) ∧ colon ∉ chars it) as [His Hic].
  { destruct iss as [i|]; [|split; [by repeat constructor|]; by apply (bool_decide_unpack _)].
    destruct Hi as [_ Hi]. by apply issuer_text, code_text in Hi as (_ & ? & ?). }
  unfold parseCanonicalAssetId, formatCanonicalAssetId. simpl. fold it.
  assert (∀ p q, Forall (λ c, is_space c = false) (chars p) → Forall (λ c, is_space c = false) (chars q) →
    Forall (λ c, is_space c = false) (chars (p +:+ ":" +:+ q))) as Hjoin.
  { intros p q Hp Hq. rewrite chars_app. apply Forall_app. split; [done|]. by constructor. }
  rewrite trim_nospace by auto.
  change (js_split colon (network_name n +:+ ":" +:+ code +:+ ":" +:+ it)) with
    (js_split colon (network_name n +:+ String colon (code +:+ String colon it))).
  rewrite (js_split_cons colon (network_name n)) by done.
  rewrite (js_split_cons colon code it), js_split_single by done.
  rewrite Hn. rewrite (trim_nospace code), Hcu, Hc by done. simpl.
  rewrite (trim_nospace it) by done. subst it. destruct iss as [i|].
  - destruct Hi as [Hne Hi]. pose proof (issuer_text _ Hi) as (-> & _)%code_text.
    rewrite bool_decide_false by (by apply issuer_not_native). rewrite Hi.
    by rewrite bool_decide_false.
  - rewrite bool_decide_true by done. by rewrite bool_decide_false by auto.
Qed.

(** The distinct matches are keyed by their canonical id, one key per id. *)
Lemma distinct_keyed ms m :
  (∀ k e, (k, e) ∈ m → ar_canonicalId e = k) → jm_wf m →
  let m' := foldl (λ m e, jm_set (ar_canonicalId e) e m) m ms in
  (∀ k e, (k, e) ∈ m' → ar_canonicalId e = k) ∧ jm_wf m' ∧
  ∀ k, k ∈ jm_keys m' ↔ k ∈ jm_keys m ∨ k ∈ ar_canonicalId <$> ms.
Proof.
  revert m. induction ms as [|e ms IH]; intros m Hk Hwf; simpl; [set_solver|].
  destruct (IH (jm_set (ar_canonicalId e) e m)) as (H1 & H2 & H3); [|auto with oracle|].
  { intros k e' [Heq|?]%jm_elem_set; [by simplify_eq|auto]. }
  split_and!; [done..|]. intros k. rewrite H3, jm_keys_set. case_decide; set_solver.
Qed.

Lemma distinctMatches_ok ms :
  (ar_canonicalId <$> jm_values (distinctMatches ms)) = jm_keys (distinctMatches ms) ∧
  NoDup (jm_keys (distinctMatches ms)) ∧
  ∀ k, k ∈ jm_keys (distinctMatches ms) ↔ k ∈ ar_canonicalId <$> ms.
Proof.
  destruct (distinct_keyed ms jm_empty) as (H1 & H2 & H3); [set_solver|apply jm_wf_empty|].
  fold (distinctMatches ms) in H1, H2, H3. split_and!; [|done|].
  - clear H2 H3. induction (distinctMatches ms) as [|[k e] m IH]; simpl; [done|].
    rewrite (H1 k e) by set_solver. f_equal. apply IH. set_solver.
  - intros k. rewrite H3. set_solver.
Qed.

(** What a resolver answers depends on the set of canonical ids it found. *)
Definition by_ids {A} (none : A) (one : string → A) (many : list string → A)
    (ids : list string) : A :=
  match ids with [] => none | [id] => one id | _ => many (sort_strings ids) end.

Lemma by_ids_perm {A} (none : A) one many l1 l2 :
  l1 ≡ₚ l2 → by_ids none one many l1 = by_ids none one many l2.
Proof.
  intros Hp. pose proof (sort_strings_perm _ _ Hp) as Hs. pose proof (Permutation_length Hp).
  destruct l1 as [|x1 [|y1 l1]], l2 as [|x2 [|y2 l2]]; try done; cbn [by_ids] in *; [|by rewrite Hs].
  by apply Permutation_singleton_inj in Hp as ->.
Qed.

Lemma by_values {A} ms (none : A) one many :
  match jm_values (distinctMatches ms) with
  | [] => none
  | [only] => one (ar_canonicalId only)
  | _ => many (sort_strings (jm_keys (distinctMatches ms)))
  end = by_ids none one many (jm_keys (distinctMatches ms)).
Proof.
  destruct (distinctMatches_ok ms) as (<- & _ & _).
  by destruct (jm_values (distinctMatches ms)) as [|e [|e' l]].
Qed.

Lemma distinct_perm ms1 ms2 :
  ms1 ≡ₚ ms2 → jm_keys (distinctMatches ms1) ≡ₚ jm_keys (distinctMatches ms2).
Proof.
  intros Hp. destruct (distinctMatches_ok ms1) as (_ & N1 & K1), (distinctMatches_ok ms2) as (_ & N2 & K2).
  apply NoDup_Permutation; [done..|]. intros k. rewrite K1, K2. by rewrite Hp.
Qed.

Lemma resolveRegisteredAliases_ids ms alias :
  resolveRegisteredAliases ms alias =
    by_ids (Unresolved INVALID_ALIAS None) (λ id, resolveCanonicalOrFail id alias)
      (λ ids, Unresolved AMBIGUOUS (Some ids)) (jm_keys (distinctMatches ms)).
Proof. rewrite <- by_values. unfold resolveRegisteredAliases. by destruct (jm_values _) as [|e [|]]. Qed.

Lemma resolveBareCode_perm code r1 r2 net :
  r1 ≡ₚ r2 → resolveBareCode code r1 net = resolveBareCode code r2 net.
Proof.
  intros Hp. unfold resolveBareCode. destruct (negb _); [done|]. cbv zeta.
  rewrite !(by_values _ _ (λ id, resolveCanonicalOrFail id code) (λ ids, Unresolved AMBIGUOUS (Some ids))).
  apply by_ids_perm, distinct_perm. unfold registryLookupByCode. by rewrite Hp.
Qed.

Lemma resolveByRegistry_perm upper r1 r2 net :
  r1 ≡ₚ r2 → resolveByRegistry upper r1 net = resolveByRegistry upper r2 net.
Proof.
  intros Hp. unfold resolveByRegistry.
  assert (registryLookupByAlias r1 upper ≡ₚ registryLookupByAlias r2 upper) as Hq.
  { unfold registryLookupByAlias. by rewrite Hp. }
  pose proof (resolveBareCode_perm upper _ _ net Hp) as Hb.
  destruct (registryLookupByAlias r1 upper) as [|e1 l1], (registryLookupByAlias r2 upper) as [|e2 l2].
  - done.
  - by apply Permutation_nil_cons in Hq.
  - symmetry in Hq. by apply Permutation_nil_cons in Hq.
  - rewrite !resolveRegisteredAliases_ids. by apply by_ids_perm, distinct_perm.
Qed.

(** What a successful resolution says about the asset, and the single way to
    obtain an asset the canonical text cannot denote. *)
Definition resolved_ok (registry : list AssetAliasRegistration) (upper : string)
    (r : AssetResolutionResult) : Prop :=
  match r with
  | Resolved id a alias kind =>
      id = formatCanonicalAssetId a ∧ alias = upper ∧
      (valid_asset a ∨
       kind = RCanonical ∧ as_code a = NATIVE_ASSET_CODE ∧
         ∃ i, as_issuer a = Some i ∧ isValidIssuer i = true) ∧
      (kind = RRegistry → ∃ e, e ∈ registry ∧ parseCanonicalAssetId (ar_canonicalId e) = Some a)
  | Unresolved _ _ => True
  end.

Lemma resolveCanonicalOrFail_ok registry e upper :
  e ∈ registry → resolved_ok registry upper (resolveCanonicalOrFail (ar_canonicalId e) upper).
Proof.
  intros He. unfold resolveCanonicalOrFail.
  destruct (parseCanonicalAssetId (ar_canonicalId e)) as [a|] eqn:E; [|done].
  split_and!; [done..|left; by eapply parse_valid|eauto].
Qed.

Lemma by_ids_ok registry upper ms none :
  (∀ e, e ∈ ms → e ∈ registry) → resolved_ok registry upper none →
  resolved_ok registry upper
    (by_ids none (λ id, resolveCanonicalOrFail id upper)
       (λ ids, Unresolved AMBIGUOUS (Some ids)) (jm_keys (distinctMatches ms))).
Proof.
  intros Hms Hn. destruct (distinctMatches_ok ms) as (_ & _ & Hk).
  destruct (jm_keys (distinctMatches ms)) as [|id [|]] eqn:E; try done.
  assert (id ∈ ar_canonicalId <$> ms) as (e & -> & He)%list_elem_of_fmap by (apply Hk; set_solver).
  by apply resolveCanonicalOrFail_ok, Hms.
Qed.

Lemma resolveByRegistry_ok registry upper net :
  resolved_ok registry upper (resolveByRegistry upper registry net).
Proof.
  unfold resolveByRegistry. destruct (registryLookupByAlias registry upper) as [|e l] eqn:E.
  - unfold resolveBareCode. destruct (isValidAssetCode upper) eqn:Hc; simpl; [|done].
    rewrite (by_values _ _ (λ id, resolveCanonicalOrFail id upper) (λ ids, Unresolved AMBIGUOUS (Some ids))).
    apply by_ids_ok.
    + intros e He. by apply list_elem_of_filter in He as [_ ?].
    + case_bool_decide; [|done]. subst. split_and!; [done..|by left|done].
  - rewrite resolveRegisteredAliases_ids. apply by_ids_ok; [|done].
    intros e' He. rewrite <- E in He. by apply list_elem_of_filter in He as [_ ?].
Qed.

Lemma resolveAssetAlias_ok input registry net :
  resolved_ok registry (toUpperCase (trim input)) (resolveAssetAlias input registry net).
Proof.
  unfold resolveAssetAlias. case_bool_decide; [done|]. set (upper := toUpperCase (trim input)).
  destruct (js_split colon upper) as [|first [|second [|third [|]]]]; try done.
  - apply resolveByRegistry_ok.
  - destruct (match normalizeNetwork first with Some _ => _ | None => _ end) as [[n text]|].
    + destruct (isValidAssetCode (trim text)) eqn:Hc; simpl; [|done]. case_bool_decide as Hx; [done|].
      split_and!; [done..| |done]. left. split; [done|]. simpl.
      by destruct (decide (trim text = NATIVE_ASSET_CODE)).
    + destruct (isValidIssuer first) eqn:H1, (isValidIssuer second) eqn:H2; simpl; [done| | |apply resolveByRegistry_ok].
      * destruct (isValidAssetCode second) eqn:Hc; simpl; [|done]. split_and!; [done..| |done].
        destruct (decide (second = NATIVE_ASSET_CODE)); [right|left]; simpl; eauto.
        by split_and!.
      * destruct (isValidAssetCode first) eqn:Hc; simpl; [|done]. split_and!; [done..| |done].
        destruct (decide (first = NATIVE_ASSET_CODE)); [right|left]; simpl; eauto.
        by split_and!.
  - destruct (parseCanonicalAssetId upper) as [a|] eqn:E; [|done].
    split_and!; [done..| |done]. left. by eapply parse_valid.
Qed.

(** ** Properties *)

(** C31: The canonical text of an asset is a faithful encoding: an asset is
    well-formed (a valid code; native exactly when the code is XLM; otherwise a
    valid issuer) if and only if its canonical text parses back to it, and the
    parser never returns anything but well-formed assets, whatever the spelling
    of its input. *)
Theorem canonical_roundtrip :
  (∀ a, valid_asset a ↔ parseCanonicalAssetId (formatCanonicalAssetId a) = Some a) ∧
  (∀ a b, valid_asset a → valid_asset b →
     formatCanonicalAssetId a = formatCanonicalAssetId b → a = b) ∧
  (∀ s a, parseCanonicalAssetId s = Some a → valid_asset a).
Proof.
  split_and!; [split; [apply parse_format|apply parse_valid]| |apply parse_valid].
  intros a b Ha%parse_format Hb%parse_format E. congruence.
Qed.

Lemma canonical_roundtrip_witness :
  parseCanonicalAssetId " mainnet:usdc:GA5ZSEJYB37JRC5AVCIA5MOP4RHTM335X2KGX3IHOJAPP5RE34K4KZVN" =
    Some (mkAsset net_public "USDC" (Some "GA5ZSEJYB37JRC5AVCIA5MOP4RHTM335X2KGX3IHOJAPP5RE34K4KZVN")) ∧
  parseCanonicalAssetId (formatCanonicalAssetId (mkAsset net_testnet "XLM" None)) =
    Some (mkAsset net_testnet "XLM" None).
Proof. split; [reflexivity|]. apply (proj1 canonical_roundtrip). by split. Defined.

(** C32: A successful resolution returns the canonical text of the asset it names
    under the upper-cased input, a registry hit is the asset of a registered
    entry, and the returned id parses back to the asset, with one exception: an
    issuer paired with the code XLM is accepted although its canonical text is
    rejected by the parser. *)
Theorem resolution_canonical input registry net id a alias kind :
  resolveAssetAlias input registry net = Resolved id a alias kind →
  id = formatCanonicalAssetId a ∧ alias = toUpperCase (trim input) ∧
  (kind = RRegistry → ∃ e, e ∈ registry ∧ parseCanonicalAssetId (ar_canonicalId e) = Some a) ∧
  (parseCanonicalAssetId id ≠ Some a ↔
     kind = RCanonical ∧ as_code a = NATIVE_ASSET_CODE ∧
       ∃ i, as_issuer a = Some i ∧ isValidIssuer i = true).
Proof.
  intros H. pose proof (resolveAssetAlias_ok input registry net) as Hok. rewrite H in Hok.
  destruct Hok as (-> & -> & Hv & Hr). split_and!; [done..|]. split.
  - intros Hp. destruct Hv as [Hv|?]; [|done]. by apply parse_format in Hv.
  - intros (_ & Hc & i & Hi & _) [_ Hn]%parse_valid. rewrite Hi in Hn. by destruct Hn.
Qed.

Definition demo_issuer : string :=
  "GA5ZSEJYB37JRC5AVCIA5MOP4RHTM335X2KGX3IHOJAPP5RE34K4KZVN".

Lemma resolution_canonical_witness :
  let a := mkAsset net_public "XLM" (Some demo_issuer) in
  parseCanonicalAssetId (formatCanonicalAssetId a) ≠ Some a.
Proof.
  refine (proj2 (proj2 (proj2 (proj2
    (resolution_canonical ("xlm:" +:+ demo_issuer) [] net_public _ _ _ RCanonical eq_refl)))) _).
  split_and!; [done|done|]. by exists demo_issuer.
Defined.

(** Resolution is deterministic: it depends neither on the case nor on the
    surrounding white space of the input, nor on the order of the registry, in
    its failures and their candidates too. *)
Theorem resolution_deterministic s1 s2 r1 r2 net :
  toUpperCase (trim s1) = toUpperCase (trim s2) → r1 ≡ₚ r2 →
  resolveAssetAlias s1 r1 net = resolveAssetAlias s2 r2 net.
Proof.
  intros Hs Hr. unfold resolveAssetAlias. rewrite Hs.
  assert (bool_decide (trim s1 = "") = bool_decide (trim s2 = "")) as ->.
  { apply bool_decide_ext. destruct (trim s1), (trim s2); naive_solver. }
  case_bool_decide; [done|]. by rewrite (resolveByRegistry_perm _ _ _ net Hr).
Qed.

Lemma resolution_deterministic_witness :
  let e1 := mkAlias "usd" ("public:USDC:" +:+ demo_issuer) in
  let e2 := mkAlias "USD" "testnet:XLM:native" in
  resolveAssetAlias " usd" [e1; e2] net_public = resolveAssetAlias "USD " [e2; e1] net_public.
Proof. apply resolution_deterministic; [reflexivity|apply Permutation_swap]. Defined.

(** A code shared by two issuers is reported as ambiguous, with both ids. *)
Example shared_code_ambiguous :
  resolveAssetAlias "XLM" [mkAlias "a" "testnet:XLM:native"; mkAlias "b" "public:xlm:NATIVE"] net_public
  = Unresolved AMBIGUOUS (Some ["public:xlm:NATIVE"; "testnet:XLM:native"]).
Proof. reflexivity. Qed.
