(* ===== verification/RateLimit.v ===== *)
(** * Tenant rate limits

    [api/src/platform/limit-model.ts], the tier table every per-key allowance is
    resolved through, and [api/src/platform/tenant-window.ts], the fixed window that
    counts requests.  The shared counter (Redis) is outside the sources: its answer is
    an argument of [consume], absent when there is none or it fails.  Without it
    [consume] has no [await] before it updates the local count, so it is one step.

    - [limit_bounded]: the effective limit is a whole number within the tier's ceiling;
    - [window_counts]: the local window numbers each identity's requests 1, 2, 3, ...
      within every window, so it admits exactly the limit. *)

From Stdlib Require Import ZArith QArith Qround Lia Sorted.
From stdpp Require Import base numbers list strings sets.
From S2P Require Import Prelude JsMap JsNum.

Local Open Scope Z_scope.

Module LimitModel.

Inductive RateTier := free | pro | enterprise | admin_tier.

Definition TIER_RATE_LIMITS (t : RateTier) : Z :=
  match t with free => 60 | pro => 500 | enterprise => 10000 | admin_tier => 100000 end.

Definition TIER_RATE_LIMIT_CEILINGS (t : RateTier) : Z :=
  match t with free => 600 | pro => 5000 | enterprise => 50000 | admin_tier => 100000 end.

Definition ceilingForTier : RateTier → Z := TIER_RATE_LIMIT_CEILINGS.

(** [None] when no number is given. *)
Definition effectiveTenantLimit (tier : RateTier) (requested : option number) : Z :=
  let tierDefault := TIER_RATE_LIMITS tier in
  match requested with
  | Some (NFin q) =>
      let floored := Qfloor q in
      if floored <? 0 then tierDefault else Z.min floored (TIER_RATE_LIMIT_CEILINGS tier)
  | _ => tierDefault
  end.

Record OverrideDecision := mkDecision {
  d_requested : number;
  d_effective : number;
  d_ceiling : Z;
  d_clamped : bool;
}.

Definition clampOverride (tier : RateTier) (requested : number) : OverrideDecision :=
  let ceiling := TIER_RATE_LIMIT_CEILINGS tier in
  let normalized := num_floor requested in
  let effective := num_min normalized (NInt ceiling) in
  mkDecision normalized effective ceiling (negb (num_eqb effective normalized)).

(** No stored or requested allowance exceeds its tier.  The effective limit lies
    between 0 and the tier's ceiling, is the tier's default when the request is
    absent, not finite or negative, and resolving it again changes nothing; a
    requested whole number within the ceiling, 0 included, is kept. *)
Theorem limit_bounded tier requested :
  let limit := effectiveTenantLimit tier requested in
  0 <= limit <= ceilingForTier tier ∧
  effectiveTenantLimit tier (Some (NInt limit)) = limit ∧
  (∀ n, requested = Some (NInt n) → 0 <= n <= ceilingForTier tier → limit = n) ∧
  (match requested with Some (NFin q) => (q < 0)%Q | _ => True end → limit = TIER_RATE_LIMITS tier).
Proof.
  assert (0 <= TIER_RATE_LIMITS tier <= TIER_RATE_LIMIT_CEILINGS tier) as Ht by (destruct tier; simpl; lia).
  assert (∀ n, 0 <= n <= ceilingForTier tier → effectiveTenantLimit tier (Some (NInt n)) = n) as Hk.
  { intros n Hn. unfold effectiveTenantLimit, NInt. rewrite Qfloor_Z. rewrite (proj2 (Z.ltb_ge n 0)) by lia.
    unfold ceilingForTier in Hn. lia. }
  assert (0 <= effectiveTenantLimit tier requested <= ceilingForTier tier) as Hb.
  { unfold effectiveTenantLimit, ceilingForTier. destruct requested as [[q| |]|]; try done.
    destruct (Qfloor q <? 0) eqn:E; to_prop; lia. }
  split_and!; [lia|lia|by apply Hk|by intros n -> Hn; apply Hk|].
  intros Hq. unfold effectiveTenantLimit. destruct requested as [[q| |]|]; try done.
  rewrite (proj2 (Z.ltb_lt (Qfloor q) 0)); [done|].
  apply Z.nle_gt. intros H0. apply (Qlt_not_le _ _ Hq). apply Qle_trans with (inject_Z (Qfloor q)).
  - change 0%Q with (inject_Z 0). by rewrite <- Zle_Qle.
  - apply Qfloor_le.
Qed.

(** The override decision takes a negative number as it is. *)
Example negative_override_kept :
  d_effective (clampOverride pro (NInt (-5))) = NInt (-5) ∧ effectiveTenantLimit pro (Some (NInt (-5))) = 500.
Proof. done. Qed.
End LimitModel.

Module TenantWindow.

Record entry := mkEntry { en_windowStart : Z; en_count : Z }.
Abbreviation local := (jsmap string entry).

Record ConsumeResult := mkResult {
  cr_allowed : bool;
  cr_limit : Z;
  cr_remaining : Z;
  cr_consumed : Z;
  cr_reset : Z;
  cr_shared : bool;
}.

Section window.
Context (windowMs : Z).

Definition windowStart (now : Z) : Z := now - now mod windowMs.

(** [Math.ceil((windowStart + windowMs) / 1000)] *)
Definition resetAt (now : Z) : Z := - (- (windowStart now + windowMs) / 1000).

Definition prune (start : Z) (l : local) : local :=
  filter (λ e : string * entry, ¬ en_windowStart e.2 ≠ start) (l : list _).

(** The local count of one request. *)
Definition countLocal (identity : string) (start : Z) (l : local) : local * Z :=
  let count :=
    match jm_get identity l with
    | Some current => if bool_decide (en_windowStart current ≠ start) then 1 else en_count current + 1
    | None => 1
    end in
  let l := jm_set identity (mkEntry start count) l in
  (if bool_decide (5000 < jm_size l)%nat then prune start l else l, count).

Definition consume (shared : option Z) (identity : string) (limit now : Z) (l : local)
    : local * ConsumeResult :=
  let start := windowStart now in
  let '(l, count) := match shared with Some n => (l, n) | None => countLocal identity start l end in
  (l, mkResult (count <=? limit) limit (Z.max 0 (limit - count)) count (resetAt now)
        (bool_decide (shared ≠ None))).

(** ** Counting *)

Record request := mkReq { rq_identity : string; rq_limit : Z; rq_now : Z }.

(** Each request with the answer it gets, without a shared store. *)
Fixpoint serve (l : local) (rs : list request) : list (request * ConsumeResult) :=
  match rs with
  | [] => []
  | r :: rs =>
      let '(l, res) := consume None (rq_identity r) (rq_limit r) (rq_now r) l in
      (r, res) :: serve l rs
  end.

Definition in_window (identity : string) (start : Z) (x : request * ConsumeResult) : Prop :=
  rq_identity x.1 = identity ∧ windowStart (rq_now x.1) = start.

#[export] Instance in_window_dec identity start x : Decision (in_window identity start x).
Proof. unfold in_window. apply _. Defined.

Context (Hwindow : 0 < windowMs).

Lemma windowStart_mono a b : a <= b → windowStart a <= windowStart b.
Proof.
  intros Hab. unfold windowStart.
  assert (∀ z, z - z mod windowMs = windowMs * (z / windowMs)) as Hz.
  { intros z. pose proof (Z.div_mod z windowMs ltac:(lia)). lia. }
  rewrite !Hz. apply Z.mul_le_mono_nonneg_l; [lia|]. by apply Z.div_le_mono.
Qed.

(** The count an identity has in the window that starts at [start]. *)
Definition countIn (identity : string) (start : Z) (l : local) : Z :=
  match jm_get identity l with
  | Some e => if bool_decide (en_windowStart e = start) then en_count e else 0
  | None => 0
  end.

Definition local_ok (l : local) (start : Z) : Prop :=
  jm_wf l ∧ ∀ i e, jm_get i l = Some e → en_windowStart e <= start.

Lemma prune_get i start l :
  jm_wf l → jm_get i (prune start l) =
    match jm_get i l with Some e => if decide (en_windowStart e = start) then Some e else None | None => None end.
Proof.
  intros Hwf. unfold prune. rewrite jm_get_filter by done. destruct (jm_get i l) as [e|]; [|done]. simpl.
  destruct (decide (en_windowStart e = start)); [rewrite decide_True|rewrite decide_False]; naive_solver.
Qed.

(** One count: its own is one more, no other count of this window changes, and the
    entries of this window survive a prune. *)
Lemma countLocal_spec identity start l l' n :
  countLocal identity start l = (l', n) → local_ok l start →
  local_ok l' start ∧ n = countIn identity start l + 1 ∧
  ∀ i, countIn i start l' = if decide (i = identity) then n else countIn i start l.
Proof.
  intros H [Hwf Hle]. unfold countLocal in H.
  set (k := match jm_get identity l with Some _ => _ | None => _ end) in H. injection H as <- <-.
  assert (k = countIn identity start l + 1) as Hk.
  { unfold k, countIn. destruct (jm_get identity l) as [e|]; [|done].
    destruct (decide (en_windowStart e = start)); [rewrite bool_decide_false, bool_decide_true|
      rewrite bool_decide_true, bool_decide_false]; naive_solver lia. }
  clearbody k. set (l1 := jm_set identity (mkEntry start k) l).
  assert (local_ok l1 start) as [Hwf1 Hle1].
  { split; [by apply jm_wf_set|]. intros i e. unfold l1. rewrite jm_get_set. case_decide; [|by apply Hle].
    intros [= <-]. done. }
  assert (∀ i, countIn i start l1 = if decide (i = identity) then k else countIn i start l) as Hc1.
  { intros i. unfold countIn, l1. rewrite jm_get_set. destruct (decide (identity = i)), (decide (i = identity));
      try congruence. by simpl; rewrite bool_decide_true. }
  destruct (bool_decide (5000 < jm_size l1)%nat); split_and!; try done.
  - split; [by apply jm_wf_filter|]. intros i e. rewrite prune_get by done.
    destruct (jm_get i l1) as [e'|]; [|done]. case_decide; [|done]. intros [= <-]. lia.
  - intros i. rewrite <- Hc1. unfold countIn. rewrite prune_get by done.
    destruct (jm_get i l1) as [e'|]; [|done].
    case_decide; [done|]. by rewrite bool_decide_false.
Qed.

Lemma local_ok_mono l s s' : local_ok l s → s <= s' → local_ok l s'.
Proof. intros [Hwf Hle] Hs. split; [done|]. intros i e He. apply Hle in He. lia. Qed.

Lemma countIn_later i l s w : local_ok l s → s < w → countIn i w l = 0.
Proof.
  intros [_ Hle] Hw. unfold countIn. destruct (jm_get i l) as [e|] eqn:E; [|done].
  apply Hle in E. rewrite bool_decide_false by lia. done.
Qed.

(** Requests in the order of their times. *)
Definition in_order (rs : list request) : Prop := StronglySorted (λ a b, rq_now a <= rq_now b) rs.

Lemma serve_requests l rs : (serve l rs).*1 = rs.
Proof.
  revert l. induction rs as [|r rs IH]; intros l; [done|]. cbn [serve].
  destruct (consume None _ _ _ l) as [l' res]. rewrite fmap_cons. by rewrite IH.
Qed.

Lemma serve_none l rs i w :
  (∀ r, r ∈ rs → w < windowStart (rq_now r)) → filter (in_window i w) (serve l rs) = [].
Proof.
  intros Hr. apply filter_none. intros x Hx [_ Hw].
  assert (x.1 ∈ rs) as Hin by (rewrite <- (serve_requests l rs); by apply list_elem_of_fmap_2).
  specialize (Hr _ Hin). lia.
Qed.

Lemma serve_counts l rs s i w :
  local_ok l s → in_order rs → (∀ r, r ∈ rs → s <= windowStart (rq_now r)) → s <= w →
  let xs := filter (in_window i w) (serve l rs) in
  cr_consumed ∘ snd <$> xs = seqZ (countIn i w l + 1) (Z.of_nat (length xs)).
Proof.
  intros Hl Ho. revert l s Hl. induction Ho as [|r rs Ho IH Hr]; intros l s Hl Hs Hw; [done|].
  assert (s <= windowStart (rq_now r)) as Hsr by (apply Hs; left).
  cbn [serve]. unfold consume. destruct (countLocal (rq_identity r) _ l) as [l' n] eqn:Ec.
  cbn zeta. pose proof (local_ok_mono l s _ Hl Hsr) as Hl1.
  destruct (countLocal_spec _ _ _ _ _ Ec Hl1) as (Hl' & Hn & Hc).
  assert (∀ r', r' ∈ rs → windowStart (rq_now r) <= windowStart (rq_now r')) as Hlater.
  { intros r' Hr'. apply windowStart_mono. rewrite Forall_forall in Hr. by apply Hr. }
  destruct (decide (w < windowStart (rq_now r))) as [Hlt|Hge].
  { rewrite filter_cons, decide_False by (intros [_ H]; simpl in H; lia).
    rewrite serve_none by (intros r' Hr'; specialize (Hlater r' Hr'); lia). done. }
  specialize (IH l' (windowStart (rq_now r)) Hl' Hlater ltac:(lia)). cbn zeta in IH.
  rewrite filter_cons. destruct (decide (in_window i w _)) as [[Hi Hwin]|Hno]; simpl in Hno || simpl in Hi, Hwin.
  - subst i w. rewrite fmap_cons. cbn [length]. rewrite IH, Hc, decide_True by done. rewrite Nat2Z.inj_succ.
    rewrite (seqZ_cons (countIn (rq_identity r) _ l + 1)) by lia.
    rewrite Hn. f_equal. f_equal; lia.
  - rewrite IH. f_equal. f_equal. destruct (decide (w = windowStart (rq_now r))) as [->|Hne].
    + rewrite Hc. case_decide; [|done]. destruct Hno. by split.
    + rewrite (countIn_later i l' (windowStart (rq_now r)) w), (countIn_later i l (windowStart (rq_now r)) w)
        by (done || lia). done.
Qed.
End window.

(** The local tenant window.  Serve any requests in order of time, of any
    identities: within each window the requests of one identity are numbered 1, 2,
    3, ... in order, neither the other identities nor pruning old entries losing a
    count; a request is allowed exactly while its number is within its limit, and is
    told how many remain. *)
Theorem window_counts windowMs rs identity start :
  0 < windowMs → in_order rs →
  let xs := filter (in_window windowMs identity start) (serve windowMs [] rs) in
  cr_consumed ∘ snd <$> xs = seqZ 1 (Z.of_nat (length xs)) ∧
  Forall (λ x, (cr_allowed x.2 = true ↔ cr_consumed x.2 <= rq_limit x.1) ∧
               cr_remaining x.2 = Z.max 0 (rq_limit x.1 - cr_consumed x.2)) (serve windowMs [] rs).
Proof.
  intros Hw Ho xs. split.
  - set (s := Z.min start (match rs with r :: _ => windowStart windowMs (rq_now r) | [] => start end)).
    apply (serve_counts windowMs Hw [] rs s); [|done| |unfold s; lia].
    + split; [apply jm_wf_empty|done].
    + intros r Hr. unfold s. destruct Ho as [|r0 rs Ho Hall]; [by apply elem_of_nil in Hr|].
      apply elem_of_cons in Hr as [->|Hr]; [lia|]. rewrite Forall_forall in Hall.
      pose proof (windowStart_mono windowMs Hw _ _ (Hall _ Hr)). lia.
  - clear. generalize ([] : local). induction rs as [|r rs IH]; intros l; [constructor|].
    cbn [serve]. unfold consume. destruct (countLocal (rq_identity r) _ l) as [l' n]. constructor; [|apply IH]. simpl.
    by rewrite Z.leb_le.
Qed.

Definition demo_requests : list request :=
  [mkReq "a" 2 1000; mkReq "b" 2 1010; mkReq "a" 2 1500; mkReq "a" 2 1900; mkReq "a" 2 2000].

Lemma window_counts_witness :
  cr_consumed ∘ snd <$> filter (in_window 1000 "a" 1000) (serve 1000 [] demo_requests) = [1; 2; 3].
Proof.
  refine (proj1 (window_counts 1000 demo_requests "a" 1000 _ _)); [done|].
  unfold demo_requests. repeat constructor; simpl; lia.
Defined.
End TenantWindow.
