(* ===== verification/Lineage.v ===== *)
(** * Price lineage

    Models [api/src/platform/lineage.ts]: the record of the steps a price went
    through, chained by hashes, its verification, its search and its anchoring.

    A [value] is any ECMAScript value a price may hold.  SHA-256, the JSON text of
    a value that is not an object or array, and [String(...)] are arguments; the
    time is an argument of every reading of the clock.  The map of the raw
    payloads, which nothing reads, and the OpenLineage event but for its time are
    left out.

    The theorems: a record that was created never verifies, before and after it is
    anchored, because its second step is not linked to its first; apart from that
    link the steps are chained and end in the root hash when the record is created;
    and the search returns exactly the records of the asset in the period. *)

From Stdlib Require Import ZArith Lia.
From stdpp Require Import base tactics decidable numbers pretty list sets strings.
From S2P Require Import Prelude JsMap JsNum.

Local Open Scope Z_scope.

(** ** Values *)

Local Unset Elimination Schemes.
Inductive value : Type :=
| VUndefined
| VNull
| VBool (b : bool)
| VNum (n : number)
| VStr (s : string)
| VArr (l : list value)
| VObj (fields : jsmap string value).
Local Set Elimination Schemes.

(** [!x] *)
Definition falsy (x : value) : bool :=
  match x with
  | VUndefined | VNull => true
  | VBool b => negb b
  | VNum n => num_eqb n (NInt 0) || match n with NNaN => true | _ => false end
  | VStr s => bool_decide (s = "")
  | VArr _ | VObj _ => false
  end.

(** [x || y] *)
Definition orValue (x y : value) : value := if falsy x then y else x.

Definition field (key : string) (fields : jsmap string value) : value :=
  default VUndefined (jm_get key fields).

(** [l.join(',')] *)
Fixpoint joinCommas (l : list string) : string :=
  match l with
  | [] => ""
  | [x] => x
  | x :: l => x +:+ "," +:+ joinCommas l
  end.

Inductive LineageStepType : Type :=
| source_poll | normalization | staleness_filter | aggregation | storage | api_response | stellar_anchor.
#[export] Instance LineageStepType_eq_dec : EqDecision LineageStepType.
Proof. solve_decision. Defined.

Definition stepTypeName (t : LineageStepType) : string :=
  match t with
  | source_poll => "source_poll"
  | normalization => "normalization"
  | staleness_filter => "staleness_filter"
  | aggregation => "aggregation"
  | storage => "storage"
  | api_response => "api_response"
  | stellar_anchor => "stellar_anchor"
  end.

Record LineageStep : Type := mkStep {
  ls_type : LineageStepType;
  ls_timestamp : string;
  ls_data : jsmap string value;
  ls_previousHash : string;
  ls_hash : string;
}.

Record lineage_anchor : Type := mkAnchor {
  la_anchored : bool;                        (* the status *)
  la_ledger : option string;
  la_tx_hash : option string;
  la_network : option string;
  la_hash : string;
}.

Record LineageRecord : Type := mkLineage {
  lr_provenance_id : string;
  lr_asset : string;
  lr_source_count : Z;
  lr_stale_sources : list string;
  lr_median_inputs : list string;
  lr_pipeline_version : string;
  lr_verification_url : string;
  lr_root_hash : string;
  lr_anchor : lineage_anchor;
  lr_eventTime : Z;
  lr_steps : list LineageStep;
}.

Definition lineage_records : Type := jsmap string LineageRecord.

Section lineage.
Variable sha256 : string → string.            (* of the text, in hex *)
Variable leafText : value → string.           (* JSON.stringify *)
Variable textOf : value → string.             (* String(...) *)
Variable pipelineVersion : string.

Fixpoint stableStringify (v : value) : string :=
  match v with
  | VArr l => "[" +:+ joinCommas (map stableStringify l) +:+ "]"
  | VObj fields =>
      let texts := map (λ '(k, x), (k, stableStringify x)) fields in
      let sorted := stable_sort (λ a b, cmp_leb String.compare a.1 b.1) texts in
      "{" +:+ joinCommas (map (λ '(k, t), leafText (VStr k) +:+ ":" +:+ t) sorted) +:+ "}"
  | _ => leafText v
  end.

(** [createHash('sha256').update(stableStringify(data)).update(previousHash)] *)
Definition hashOf (data : value) (previousHash : string) : string :=
  sha256 (stableStringify data +:+ previousHash).

Definition stepBody (t : LineageStepType) (timestamp : string) (data : jsmap string value) : value :=
  VObj [("type", VStr (stepTypeName t)); ("timestamp", VStr timestamp); ("data", VObj data)].

Definition makeStep (now : Z) (t : LineageStepType) (data : jsmap string value) (previousHash : string)
    : LineageStep :=
  let timestamp := toISOString now in
  mkStep t timestamp data previousHash (hashOf (stepBody t timestamp data) previousHash).

(** [steps.push(step(type, data, steps.at(-1)?.hash))] *)
Definition pushStep (now : Z) (t : LineageStepType) (data : jsmap string value) (steps : list LineageStep)
    : list LineageStep :=
  steps ++ [makeStep now t data (match last steps with Some s => ls_hash s | None => "" end)].

Definition sourceId (index : nat) : string := "source-" +:+ pretty (index + 1)%nat.

(** [rawSources.map((source, index) => ({ ... }))] *)
Definition sourceEntry (index : nat) (source : value) : value :=
  VObj [("id", VStr (sourceId index)); ("name", VStr (textOf source)); ("status", VStr "included");
        ("responseTimeMs", VNum (NInt 0)); ("httpStatus", VNum (NInt 200))].

Definition rawSources (price : jsmap string value) : list value :=
  match field "sources" price with
  | VArr l => l
  | _ => [orValue (field "source" price) (VStr "unknown")]
  end.

(** The steps of a price; [clock n] is the n-th reading of the clock. *)
Definition lineageSteps (clock : nat → Z) (price : jsmap string value) (baseUrl asset : string)
    : list LineageStep :=
  let raw := rawSources price in
  let sources := imap sourceEntry raw in
  let ids := imap (λ i _, sourceId i) raw in
  let values := (λ id, id +:+ ":" +:+ textOf (orValue (field "price" price) (VStr "0"))) <$> ids in
  let payloadHash := hashOf (VObj [("asset", VStr asset); ("price", VObj price); ("sources", VArr sources)]) "" in
  let steps :=
    [makeStep (clock 0%nat) source_poll
       [("sources", VArr sources); ("raw_payload_ref", VStr payloadHash)] "";
     makeStep (clock 1%nat) normalization
       [("transformations", VArr [VStr "decimal_scaling"; VStr "timestamp_conversion"]);
        ("decimals", field "decimals" price)] ""] in
  let steps := pushStep (clock 2%nat) staleness_filter
    [("excluded", VArr []); ("included", VArr (VStr <$> ids))] steps in
  let steps := pushStep (clock 3%nat) aggregation
    [("strategy", VStr "median"); ("median_inputs", VArr (VStr <$> sort_strings values))] steps in
  let steps := pushStep (clock 4%nat) storage
    [("destinations", VArr [VStr "history_json"; VStr "soroban_contract"]);
     ("content_hash", VStr payloadHash)] steps in
  let steps := pushStep (clock 5%nat) api_response
    [("endpoint", VStr (baseUrl +:+ "/prices/" +:+ asset))] steps in
  pushStep (clock 6%nat) stellar_anchor
    [("status", VStr "pending"); ("anchor_policy", VStr "periodic_batch")] steps.

Definition lineageAsset (price : jsmap string value) : string :=
  toUpperCase (textOf (orValue (field "asset" price) (VStr "UNKNOWN"))).

(** [values.sort()] sorts the array the record holds. *)
Definition medianInputs (price : jsmap string value) : list string :=
  sort_strings ((λ id, id +:+ ":" +:+ textOf (orValue (field "price" price) (VStr "0"))) <$>
                  imap (λ i _, sourceId i) (rawSources price)).

Definition createLineageForPrice (clock : nat → Z) (provenanceId : string) (price : jsmap string value)
    (baseUrl : string) (records : lineage_records) : lineage_records * LineageRecord :=
  let asset := lineageAsset price in
  let steps := lineageSteps clock price baseUrl asset in
  let rootHash := match last steps with Some s => ls_hash s | None => "" end in
  let record := mkLineage provenanceId asset (Z.of_nat (length (rawSources price))) []
    (medianInputs price) pipelineVersion (baseUrl +:+ "/lineage/verify/" +:+ provenanceId) rootHash
    (mkAnchor false None None None rootHash) (clock 7%nat) steps in
  (jm_set provenanceId record records, record).

(** [listLineage]; [from] and [to] are the instants the texts denote, [None] when
    they are absent. *)
Definition listLineage (asset : string) (from to : option Z) (records : lineage_records)
    : list LineageRecord :=
  List.filter (λ r,
    (bool_decide (asset = "") || bool_decide (lr_asset r = toUpperCase asset)) &&
    (default 0 from <=? lr_eventTime r) && (lr_eventTime r <=? default (2 ^ 53 - 1) to))
    (jm_values records).

(** The loop of [verifyLineage]: the index of the first broken step, or the last hash. *)
Fixpoint verifySteps (index : nat) (previousHash : string) (steps : list LineageStep) : nat + string :=
  match steps with
  | [] => inr previousHash
  | s :: steps =>
      let expected := hashOf (stepBody (ls_type s) (ls_timestamp s) (ls_data s)) previousHash in
      if bool_decide (ls_previousHash s ≠ previousHash) || bool_decide (ls_hash s ≠ expected)
      then inl index
      else verifySteps (S index) (ls_hash s) steps
  end.

Record lineage_verdict : Type := mkVerdict {
  lv_valid : bool;
  lv_rootHash : option string;
  lv_failedStep : option nat;
}.

Definition verifyLineage (provenanceId : string) (records : lineage_records) : lineage_verdict :=
  match jm_get provenanceId records with
  | None => mkVerdict false None None
  | Some r =>
      match verifySteps 0 "" (lr_steps r) with
      | inl index => mkVerdict false (Some (lr_root_hash r)) (Some index)
      | inr h => mkVerdict (bool_decide (h = lr_root_hash r)) (Some (lr_root_hash r)) None
      end
  end.

(** [{ ...data, anchor_policy, status, ledger, tx_hash, network }] and its hash *)
Definition anchorStep (ledger txHash network : string) (s : LineageStep) : LineageStep :=
  let data := jm_set "network" (VStr network) (jm_set "tx_hash" (VStr txHash)
    (jm_set "ledger" (VStr ledger) (jm_set "status" (VStr "anchored")
      (jm_set "anchor_policy" (VStr "periodic_batch") (ls_data s))))) in
  mkStep (ls_type s) (ls_timestamp s) data (ls_previousHash s)
    (hashOf (stepBody (ls_type s) (ls_timestamp s) data) (ls_previousHash s)).

(** The first step of the type is changed in place. *)
Fixpoint anchorFirst (ledger txHash network : string) (steps : list LineageStep) : list LineageStep :=
  match steps with
  | [] => []
  | s :: steps =>
      if bool_decide (ls_type s = stellar_anchor) then anchorStep ledger txHash network s :: steps
      else s :: anchorFirst ledger txHash network steps
  end.

Definition anchorLineageRecord (provenanceId ledger txHash : string) (network : option string)
    (records : lineage_records) : lineage_records * option LineageRecord :=
  match jm_get provenanceId records with
  | None => (records, None)
  | Some r =>
      let net := default "testnet" network in
      let r' := mkLineage (lr_provenance_id r) (lr_asset r) (lr_source_count r) (lr_stale_sources r)
        (lr_median_inputs r) (lr_pipeline_version r) (lr_verification_url r) (lr_root_hash r)
        (mkAnchor true (Some ledger) (Some txHash) (Some net) (lr_root_hash r)) (lr_eventTime r)
        (anchorFirst ledger txHash net (lr_steps r)) in
      (jm_set provenanceId r' records, Some r')
  end.

Inductive lineage_op : Type :=
| Create (clock : nat → Z) (id : string) (price : jsmap string value) (baseUrl : string)
| Anchor (id ledger txHash : string) (network : option string).

Definition lineage_step (st : lineage_records) (o : lineage_op) : lineage_records :=
  match o with
  | Create clock id price baseUrl => fst (createLineageForPrice clock id price baseUrl st)
  | Anchor id ledger txHash network => fst (anchorLineageRecord id ledger txHash network st)
  end.
End lineage.

(** ** Proofs *)

Section lineage_proofs.
Variable sha256 : string → string.
Variables leafText textOf : value → string.
Variable pipelineVersion : string.

(** What is common to a record when it is created and after it is anchored: two
    steps that start a chain each. *)
Definition unlinked (l : list LineageStep) : Prop :=
  ∃ s0 s1 rest, l = s0 :: s1 :: rest ∧
    ls_type s0 = source_poll ∧ ls_type s1 = normalization ∧
    ls_previousHash s0 = "" ∧ ls_previousHash s1 = "" ∧
    ls_hash s0 = hashOf sha256 leafText (stepBody (ls_type s0) (ls_timestamp s0) (ls_data s0)) "".

Lemma lineageSteps_shape clock price baseUrl asset :
  ∃ s0 s1 s2 s3 s4 s5 s6, lineageSteps sha256 leafText textOf clock price baseUrl asset = [s0; s1; s2; s3; s4; s5; s6] ∧
    unlinked [s0; s1; s2; s3; s4; s5; s6] ∧
    verifySteps sha256 leafText 1 "" [s1; s2; s3; s4; s5; s6] = inr (ls_hash s6).
Proof.
  unfold lineageSteps, pushStep. cbn [app last].
  do 7 eexists. split; [reflexivity|]. split.
  - do 3 eexists. split_and!; reflexivity.
  - unfold makeStep. cbn [verifySteps ls_previousHash ls_hash ls_type ls_timestamp ls_data].
    repeat (rewrite !bool_decide_eq_false_2 by (intros H; apply H; reflexivity); cbn [orb]).
    reflexivity.
Qed.

Lemma anchorFirst_unlinked ledger txHash net l :
  unlinked l → unlinked (anchorFirst sha256 leafText ledger txHash net l).
Proof.
  intros (s0 & s1 & rest & -> & T0 & T1 & P0 & P1 & H0). cbn [anchorFirst]. rewrite T0, T1.
  cbn. exists s0, s1, (anchorFirst sha256 leafText ledger txHash net rest). by rewrite T0 in H0; rewrite T0.
Qed.

Lemma unlinked_fails l :
  (∀ x, sha256 x ≠ "") → unlinked l → verifySteps sha256 leafText 0 "" l = inl 1%nat.
Proof.
  intros Hsha (s0 & s1 & rest & -> & T0 & T1 & P0 & P1 & H0).
  assert (ls_hash s0 ≠ "") as Hne by (rewrite H0; apply Hsha).
  cbn [verifySteps]. rewrite P0, <- H0, !bool_decide_eq_false_2 by auto. cbn [orb].
  rewrite P1, bool_decide_eq_true_2 by congruence. done.
Qed.

Lemma records_unlinked ops : ∀ st id r,
  (∀ id r, jm_get id st = Some r → unlinked (lr_steps r)) →
  jm_get id (fold_left (lineage_step sha256 leafText textOf pipelineVersion) ops st) = Some r →
  unlinked (lr_steps r).
Proof.
  induction ops as [|o ops IH]; intros st id r Hst; cbn [fold_left]; [apply Hst|].
  apply IH. intros i x. destruct o as [clock j price baseUrl|j ledger txHash network]; cbn [lineage_step].
  - unfold createLineageForPrice. cbn [fst]. rewrite jm_get_set. case_decide; [|apply Hst].
    intros [= <-]. cbn [lr_steps].
    destruct (lineageSteps_shape clock price baseUrl (lineageAsset textOf price)) as (?&?&?&?&?&?&?&->&Hu&_).
    exact Hu.
  - unfold anchorLineageRecord. destruct (jm_get j st) as [y|] eqn:E; cbn [fst]; [|apply Hst].
    rewrite jm_get_set. case_decide; [|apply Hst]. intros [= <-]. cbn [lr_steps].
    apply anchorFirst_unlinked. by eapply Hst.
Qed.

(** No record ever verifies: whatever was created and anchored, the check of every
    record fails at its second step, because that step is created without the
    hash of the first. *)
Theorem lineage_never_verifies ops id :
  (∀ x, sha256 x ≠ "") →
  let st := fold_left (lineage_step sha256 leafText textOf pipelineVersion) ops [] in
  lv_valid (verifyLineage sha256 leafText id st) = false ∧
  (is_Some (jm_get id st) → lv_failedStep (verifyLineage sha256 leafText id st) = Some 1%nat).
Proof.
  intros Hsha st. unfold verifyLineage. destruct (jm_get id st) as [r|] eqn:E; [|split; [done|by intros []]].
  rewrite unlinked_fails; [done|done|]. eapply records_unlinked; [|exact E]. done.
Qed.

(** Apart from the link to its first step a new record is chained: from the second
    step on the check accepts it and ends in the root hash. *)
Theorem created_tail_chained clock id price baseUrl st :
  let r := (createLineageForPrice sha256 leafText textOf pipelineVersion clock id price baseUrl st).2 in
  verifySteps sha256 leafText 1 "" (tail (lr_steps r)) = inr (lr_root_hash r) ∧
  la_hash (lr_anchor r) = lr_root_hash r ∧ length (lr_steps r) = 7%nat.
Proof.
  unfold createLineageForPrice. cbn [snd lr_steps lr_root_hash lr_anchor la_hash].
  destruct (lineageSteps_shape clock price baseUrl (lineageAsset textOf price)) as (?&?&?&?&?&?&?&->&_&H).
  cbn [tail last]. split_and!; [exact H|done|done].
Qed.

(** The check accepts the steps exactly when each names the hash of the one before
    it and carries the hash of its own body and that link. *)
Lemma verifySteps_ok l : ∀ index prev h,
  verifySteps sha256 leafText index prev l = inr h ↔
  (∀ i s, l !! i = Some s →
     ls_previousHash s = match i with O => prev | S j => match l !! j with Some p => ls_hash p | None => "" end end ∧
     ls_hash s = hashOf sha256 leafText (stepBody (ls_type s) (ls_timestamp s) (ls_data s)) (ls_previousHash s)) ∧
  h = match last l with Some s => ls_hash s | None => prev end.
Proof.
  induction l as [|s l IH]; intros index prev h.
  - cbn. split; [intros [= <-]; done|]. by intros [_ ->].
  - cbn [verifySteps]. destruct (decide (ls_previousHash s = prev)) as [Hp|Hp].
    + destruct (decide (ls_hash s = hashOf sha256 leafText (stepBody (ls_type s) (ls_timestamp s) (ls_data s)) prev))
        as [Hh|Hh].
      * rewrite !bool_decide_eq_false_2 by auto. cbn [orb]. rewrite IH, last_cons. split.
        -- intros [HA ->]. split; [|by destruct (last l)]. intros [|[|i]] x Hx; cbn in Hx.
           ++ injection Hx as <-. by rewrite Hp.
           ++ by apply (HA 0%nat).
           ++ by apply (HA (S i)).
        -- intros [HA ->]. split; [|by destruct (last l)]. intros i x Hx.
           specialize (HA (S i) x Hx). by destruct i.
      * rewrite (bool_decide_eq_true_2 (ls_hash s ≠ _)), orb_true_r by done. split; [done|].
        intros [HA _]. destruct (HA 0%nat s eq_refl) as [_ E]. by rewrite Hp in E.
    + rewrite bool_decide_eq_true_2 by done. split; [done|]. intros [HA _].
      by destruct (HA 0%nat s eq_refl) as [E _].
Qed.

(** The search returns exactly the records of the asset in the period. *)
Lemma listLineage_exact asset from to st r :
  r ∈ listLineage asset from to st ↔
  r ∈ jm_values st ∧ (asset = "" ∨ lr_asset r = toUpperCase asset) ∧
  default 0 from <= lr_eventTime r <= default (2 ^ 53 - 1) to.
Proof.
  unfold listLineage. rewrite list_elem_of_In, filter_In, <- list_elem_of_In.
  rewrite !andb_true_iff, orb_true_iff, !bool_decide_eq_true, !Z.leb_le. tauto.
Qed.
End lineage_proofs.

(** ** Examples *)

Definition demo_lineage_ops : list lineage_op :=
  [Create (λ n, Z.of_nat n) "p1" [("asset", VStr "xlm"); ("price", VStr "12")] "/api/v1";
   Anchor "p1" "100" "tx" None].

Lemma lineage_never_verifies_witness :
  lv_valid (verifyLineage (λ x, "h" +:+ x) (λ _, "x") "p1"
    (fold_left (lineage_step (λ x, "h" +:+ x) (λ _, "x") (λ _, "XLM") "1.0.0") demo_lineage_ops [])) = false.
Proof. apply lineage_never_verifies. intros x. done. Defined.

(** Anchoring changes the last step and its hash but not the root hash, which is
    what is reported as anchored. *)
Example anchored_root_stale :
  let sha x := "h" +:+ x in
  let text v := match v with VStr s => s | _ => "x" end in
  let st := fold_left (lineage_step sha text text "1.0.0") demo_lineage_ops [] in
  match jm_get "p1" st with
  | Some r => bool_decide (ls_hash <$> last (lr_steps r) = Some (lr_root_hash r)) = false ∧
              la_hash (lr_anchor r) = lr_root_hash r
  | None => False
  end.
Proof. vm_compute. split; reflexivity. Qed.
