(* ===== verification/Graphql.v ===== *)
(** * The limits on GraphQL queries

    Models [api/src/graphql/validation.ts]: the cost and the depth of a query, and
    the validation rules that bound them, the page sizes and introspection.

    A document is the tree the parser of the package graphql returns, with the
    parts the rules look at; an integer literal is the number it denotes, [None]
    when it is too large to be finite.  [getFragment] of the validation context is
    an argument.  The rules return their errors; the visits of the package call
    them on every node of their kind.  The race of [withTimeout] is left out.

    Fragments may refer to each other, even in cycles, so the recursion through
    them runs on fuel and returns [None] when it is spent.

    The theorems: with one unit of fuel more than there are fragments a result is
    returned; the cost is that of the operation plus that of every fragment it
    reaches, each counted once; and the depth of a query without fragments is its
    nesting.
    Examples show that counting a fragment once lets a query spread it many times
    for the price of one, and nest it deeper than the limit. *)

From Stdlib Require Import ZArith Lia.
From stdpp Require Import base tactics decidable numbers relations option list sets strings.
From S2P Require Import Prelude.

Local Open Scope Z_scope.

(** ** Documents *)

Inductive argument : Type := ArgInt (requested : option Z) | ArgOther.

Local Unset Elimination Schemes.
Inductive selection : Type :=
| SField (name : string) (args : list (string * argument)) (sub : option (list selection))
| SInline (set : list selection)
| SSpread (name : string).
Local Set Elimination Schemes.

Fixpoint selection_ind (P : selection → Prop)
    (Hleaf : ∀ name args, P (SField name args None))
    (Hfield : ∀ name args l, Forall P l → P (SField name args (Some l)))
    (Hinline : ∀ l, Forall P l → P (SInline l))
    (Hspread : ∀ name, P (SSpread name)) (s : selection) : P s :=
  let all := fix all (l : list selection) : Forall P l :=
    match l with
    | [] => List.Forall_nil _
    | x :: l => List.Forall_cons _ _ _ (selection_ind P Hleaf Hfield Hinline Hspread x) (all l)
    end in
  match s with
  | SField name args None => Hleaf name args
  | SField name args (Some l) => Hfield name args l (all l)
  | SInline l => Hinline l (all l)
  | SSpread name => Hspread name
  end.

(** [field.arguments?.find((arg) => arg.name.value === 'limit')] and its value *)
Definition limitOf (args : list (string * argument)) : option Z :=
  match List.find (λ a, bool_decide (a.1 = "limit")) args with
  | Some (_, ArgInt (Some n)) => Some n
  | _ => None
  end.

Definition fieldCost (maxLimit : Z) (args : list (string * argument)) : Z :=
  match limitOf args with
  | Some requested => 1 + Z.max 0 (Z.min requested maxLimit)
  | None => 1
  end.

(** ** Cost and depth *)

(** The loop over the selections of a set, threading the fragments seen. *)
Definition overSet {A} (combine : A → A → A) (init : A)
    (f : selection → list string → option (A * list string)) :
    list selection → list string → option (A * list string) :=
  fix over l seen :=
    match l with
    | [] => Some (init, seen)
    | s :: l =>
        match f s seen with
        | None => None
        | Some (a, seen1) =>
            match over l seen1 with
            | None => None
            | Some (b, seen2) => Some (combine a b, seen2)
            end
        end
    end.

Section limits.
Variable getFragment : string → option (list selection).
Variable maxLimit : Z.

(** The cost of one selection; [selectionSetCost] sums it over a set. *)
Fixpoint selectionCost (fuel : nat) : selection → list string → option (Z * list string) :=
  match fuel with
  | O => λ _ _, None
  | S fuel =>
      fix cost s seen :=
        match s with
        | SField _ args None => Some (fieldCost maxLimit args, seen)
        | SField _ args (Some l) =>
            match overSet Z.add 0 cost l seen with
            | None => None
            | Some (c, seen') => Some (fieldCost maxLimit args + c, seen')
            end
        | SInline l => overSet Z.add 0 cost l seen
        | SSpread name =>
            if bool_decide (name ∈ seen) then Some (0, seen)
            else
              match getFragment name with
              | Some l => overSet Z.add 0 (selectionCost fuel) l (seen ++ [name])
              | None => Some (0, seen ++ [name])
              end
        end
  end.

Definition selectionSetCost (fuel : nat) (set : list selection) (seen : list string)
    : option (Z * list string) := overSet Z.add 0 (selectionCost fuel) set seen.

(** The depth one selection reaches from a level; [selectionSetDepth] takes the
    deepest, starting with the level itself. *)
Fixpoint selectionDepth (fuel : nat) : Z → selection → list string → option (Z * list string) :=
  match fuel with
  | O => λ _ _ _, None
  | S fuel =>
      fix depth level s seen :=
        match s with
        | SField _ _ None => Some (level + 1, seen)
        | SField _ _ (Some l) => overSet Z.max (level + 1) (depth (level + 1)) l seen
        | SInline l => overSet Z.max level (depth level) l seen
        | SSpread name =>
            if bool_decide (name ∈ seen) then Some (level, seen)
            else
              match getFragment name with
              | Some l => overSet Z.max level (selectionDepth fuel level) l (seen ++ [name])
              | None => Some (level, seen ++ [name])
              end
        end
  end.

Definition selectionSetDepth (fuel : nat) (set : list selection) (level : Z) (seen : list string)
    : option (Z * list string) := overSet Z.max level (selectionDepth fuel level) set seen.

(** ** Rules *)

Inductive rule_error : Type :=
| QUERY_TOO_DEEP (maxDepth depth : Z)
| QUERY_TOO_COMPLEX (maxComplexity complexity : Z)
| LIMIT_EXCEEDS_MAX (maxLimit requested : Z)
| INTROSPECTION_DISABLED.

(** [depthLimitRule], on an operation or a fragment definition *)
Definition depthLimitRule (fuel : nat) (maxDepth : Z) (set : list selection) : option (list rule_error) :=
  match selectionSetDepth fuel set 0 [] with
  | None => None
  | Some (depth, _) => Some (if maxDepth <? depth then [QUERY_TOO_DEEP maxDepth depth] else [])
  end.

Definition complexityLimitRule (fuel : nat) (maxComplexity : Z) (set : list selection)
    : option (list rule_error) :=
  match selectionSetCost fuel set [] with
  | None => None
  | Some (cost, _) => Some (if maxComplexity <? cost then [QUERY_TOO_COMPLEX maxComplexity cost] else [])
  end.

Definition limitArgumentRule (args : list (string * argument)) : list rule_error :=
  match limitOf args with
  | Some requested => if maxLimit <? requested then [LIMIT_EXCEEDS_MAX maxLimit requested] else []
  | None => []
  end.

Definition introspectionRule (introspectionEnabled : bool) (name : string) : list rule_error :=
  if introspectionEnabled then []
  else if String.prefix "__" name then [INTROSPECTION_DISABLED] else [].
End limits.

(** ** The recursion ends *)

Lemma overSet_ends {A} combine (init : A) f (P : list string → Prop) l :
  Forall (λ s, ∀ seen, P seen → ∃ a seen', f s seen = Some (a, seen') ∧ P seen') l →
  ∀ seen, P seen → ∃ a seen', overSet combine init f l seen = Some (a, seen') ∧ P seen'.
Proof.
  induction 1 as [|s l Hs _ IH]; intros seen HP; [by exists init, seen|]. cbn.
  destruct (Hs seen HP) as (a & seen1 & -> & H1). destruct (IH seen1 H1) as (b & seen2 & Eo & H2).
  rewrite Eo. by exists (combine a b), seen2.
Qed.

Section termination.
Variable getFragment : string → option (list selection).
Variable maxLimit : Z.
Variable names : list string.
Hypothesis names_complete : ∀ n, is_Some (getFragment n) → n ∈ names.

(** The fragments not seen yet. *)
Definition unseen (seen : list string) : nat :=
  length (List.filter (λ n, negb (bool_decide (n ∈ seen))) names).

Lemma unseen_app seen n :
  (unseen (seen ++ [n]) <= unseen seen)%nat ∧
  (n ∈ names → n ∉ seen → (unseen (seen ++ [n]) < unseen seen)%nat).
Proof.
  unfold unseen. clear names_complete. induction names as [|x l [IH1 IH2]]; cbn; [split; [lia|set_solver]|].
  destruct (decide (x ∈ seen)) as [Hx|Hx].
  - rewrite !bool_decide_eq_true_2 by (rewrite ?elem_of_app; auto). cbn. split; [lia|].
    intros [->|H]%elem_of_cons ?; [done|auto].
  - rewrite (bool_decide_eq_false_2 (x ∈ seen)) by done. destruct (decide (x = n)) as [->|Hne].
    + rewrite bool_decide_eq_true_2 by set_solver. cbn. split; [lia|]. intros _ _. lia.
    + rewrite bool_decide_eq_false_2 by set_solver. cbn. split; [lia|].
      intros [->|H]%elem_of_cons ?; [done|]. specialize (IH2 H ltac:(done)). lia.
Qed.

Lemma selectionCost_ends fuel : ∀ s seen, (unseen seen < fuel)%nat →
  ∃ c seen', selectionCost getFragment maxLimit fuel s seen = Some (c, seen') ∧ (unseen seen' < fuel)%nat.
Proof.
  induction fuel as [|fuel IH]; [lia|].
  induction s as [name args|name args l Hl|l Hl|name] using selection_ind; intros seen Hs.
  - eexists _, seen. split; [reflexivity|done].
  - destruct (overSet_ends Z.add 0 _ (λ sn, (unseen sn < S fuel)%nat) l Hl seen Hs) as (c & seen' & E & H).
    eexists _, seen'. split; [|exact H]. cbn in *. by rewrite E.
  - exact (overSet_ends Z.add 0 _ (λ sn, (unseen sn < S fuel)%nat) l Hl seen Hs).
  - destruct (unseen_app seen name) as [H1 H2]. cbn -[unseen]. case_bool_decide as Hin; [by eexists _, seen|].
    destruct (getFragment name) as [l|] eqn:E.
    + specialize (H2 (names_complete _ ltac:(by eexists)) Hin).
      destruct (overSet_ends Z.add 0 (selectionCost getFragment maxLimit fuel)
        (λ sn, (unseen sn < fuel)%nat) l ltac:(apply Forall_forall; intros x _; apply IH)
        (seen ++ [name]) ltac:(cbn beta; lia)) as (c & seen' & Eo & H).
      exists c, seen'. split; [exact Eo|lia].
    + eexists _, _. split; [reflexivity|lia].
Qed.

Lemma selectionDepth_ends fuel : ∀ s level seen, (unseen seen < fuel)%nat →
  ∃ d seen', selectionDepth getFragment fuel level s seen = Some (d, seen') ∧ (unseen seen' < fuel)%nat.
Proof.
  induction fuel as [|fuel IH]; [lia|].
  induction s as [name args|name args l Hl|l Hl|name] using selection_ind; intros level seen Hs.
  - eexists _, seen. split; [reflexivity|done].
  - apply (overSet_ends Z.max (level + 1) (selectionDepth getFragment (S fuel) (level + 1))
      (λ sn, (unseen sn < S fuel)%nat) l); [|done].
    eapply Forall_impl; [exact Hl|]. intros x Hx sn. apply Hx.
  - apply (overSet_ends Z.max level (selectionDepth getFragment (S fuel) level)
      (λ sn, (unseen sn < S fuel)%nat) l); [|done].
    eapply Forall_impl; [exact Hl|]. intros x Hx sn. apply Hx.
  - destruct (unseen_app seen name) as [H1 H2]. cbn -[unseen]. case_bool_decide as Hin; [by eexists _, seen|].
    destruct (getFragment name) as [l|] eqn:E.
    + specialize (H2 (names_complete _ ltac:(by eexists)) Hin).
      destruct (overSet_ends Z.max level (selectionDepth getFragment fuel level)
        (λ sn, (unseen sn < fuel)%nat) l ltac:(apply Forall_forall; intros x _ sn; apply IH)
        (seen ++ [name]) ltac:(cbn beta; lia)) as (c & seen' & Eo & H).
      exists c, seen'. split; [exact Eo|lia].
    + eexists _, _. split; [reflexivity|lia].
Qed.

(** Both rules return on every query, also when its fragments refer to each other
    in a cycle: one unit of fuel more than there are fragments is enough. *)
Theorem limits_return maxDepth maxComplexity set :
  is_Some (depthLimitRule getFragment (S (length names)) maxDepth set) ∧
  is_Some (complexityLimitRule getFragment maxLimit (S (length names)) maxComplexity set).
Proof.
  assert (unseen [] < S (length names))%nat as H0.
  { unfold unseen. apply Nat.lt_succ_r. clear. induction names as [|x l IH]; cbn; [lia|].
    case_bool_decide; cbn; lia. }
  split.
  - unfold depthLimitRule, selectionSetDepth.
    destruct (overSet_ends Z.max 0 (selectionDepth getFragment (S (length names)) 0)
      (λ sn, (unseen sn < S (length names))%nat) set
      ltac:(apply Forall_forall; intros x _ sn; apply selectionDepth_ends) [] H0) as (d & sn & -> & _).
    by eexists.
  - unfold complexityLimitRule, selectionSetCost.
    destruct (overSet_ends Z.add 0 (selectionCost getFragment maxLimit (S (length names)))
      (λ sn, (unseen sn < S (length names))%nat) set
      ltac:(apply Forall_forall; intros x _ sn; apply selectionCost_ends) [] H0) as (c & sn & -> & _).
    by eexists.
Qed.
End termination.

(** ** What is counted *)

(** The fields a selection holds itself, and the fragments it spreads. *)
Fixpoint ownCost (maxLimit : Z) (s : selection) : Z :=
  match s with
  | SField _ args None => fieldCost maxLimit args
  | SField _ args (Some l) => fieldCost maxLimit args + foldr (λ x acc, ownCost maxLimit x + acc) 0 l
  | SInline l => foldr (λ x acc, ownCost maxLimit x + acc) 0 l
  | SSpread _ => 0
  end.
Definition ownCosts (maxLimit : Z) (l : list selection) : Z := foldr (λ x acc, ownCost maxLimit x + acc) 0 l.

Fixpoint spreads (s : selection) : list string :=
  match s with
  | SField _ _ None => []
  | SField _ _ (Some l) => foldr (λ x acc, spreads x ++ acc) [] l
  | SInline l => foldr (λ x acc, spreads x ++ acc) [] l
  | SSpread name => [name]
  end.
Definition spreadsOf (l : list selection) : list string := foldr (λ x acc, spreads x ++ acc) [] l.

Section exactness.
Variable getFragment : string → option (list selection).
Variable maxLimit : Z.

Definition fragmentCost (n : string) : Z :=
  match getFragment n with Some l => ownCosts maxLimit l | None => 0 end.
Definition fragmentCosts (ns : list string) : Z := foldr (λ n acc, fragmentCost n + acc) 0 ns.

(** The fragment [n] spreads the fragment [m]. *)
Definition refers (n m : string) : Prop := ∃ l, getFragment n = Some l ∧ m ∈ spreadsOf l.
Definition reached (from : list string) (m : string) : Prop := ∃ n, n ∈ from ∧ rtc refers n m.

(** A walk over selections that cost [own] and spread [from]: it adds the fragments
    it meets for the first time, which are reached from there, and leaves none out. *)
Record walked (own : Z) (from : list string) (c : Z) (seen seen' : list string) : Prop := {
  wk_new : ∃ new, seen' = seen ++ new ∧ c = own + fragmentCosts new ∧
    (∀ n, n ∈ new → (n ∉ seen) ∧ reached from n) ∧ NoDup new ∧
    (∀ n m, n ∈ new → refers n m → m ∈ seen');
  wk_from : ∀ n, n ∈ from → n ∈ seen';
}.

Lemma fragmentCosts_app l k : fragmentCosts (l ++ k) = fragmentCosts l + fragmentCosts k.
Proof. unfold fragmentCosts. induction l as [|n l IH]; cbn; lia. Qed.

Lemma reached_more from from' n : (∀ m, m ∈ from → m ∈ from') → reached from n → reached from' n.
Proof. intros H (m & Hm & Hr). exists m. auto. Qed.

Lemma walked_nil own seen : walked own [] own seen seen.
Proof.
  split; [|set_solver]. exists []. rewrite app_nil_r. split_and!; [done|cbn; lia|set_solver|constructor|set_solver].
Qed.

Lemma walked_app o1 o2 f1 f2 c1 c2 seen seen1 seen2 :
  walked o1 f1 c1 seen seen1 → walked o2 f2 c2 seen1 seen2 →
  walked (o1 + o2) (f1 ++ f2) (c1 + c2) seen seen2.
Proof.
  intros [(n1 & -> & -> & R1 & D1 & C1) F1] [(n2 & -> & -> & R2 & D2 & C2) F2]. split.
  - exists (n1 ++ n2). rewrite fragmentCosts_app, app_assoc. split_and!; [done|lia| | |].
    + intros n [H|H]%elem_of_app.
      * destruct (R1 n H) as [? ?]. split; [done|]. eapply reached_more; [|done]. set_solver.
      * destruct (R2 n H) as [? ?]. split; [set_solver|]. eapply reached_more; [|done]. set_solver.
    + apply NoDup_app. split_and!; [done| |done]. intros n H1 H2. destruct (R2 n H2) as [? _]. set_solver.
    + intros n m [H|H]%elem_of_app Hr; [|eauto]. apply elem_of_app. left. eauto.
  - intros n [H|H]%elem_of_app; [|eauto]. apply elem_of_app. left. eauto.
Qed.

Lemma overSet_walked f l :
  Forall (λ s, ∀ seen c seen', f s seen = Some (c, seen') →
    walked (ownCost maxLimit s) (spreads s) c seen seen') l →
  ∀ seen c seen', overSet Z.add 0 f l seen = Some (c, seen') →
    walked (ownCosts maxLimit l) (spreadsOf l) c seen seen'.
Proof.
  induction 1 as [|s l Hs _ IH]; intros seen c seen' E; cbn in E.
  - simplify_eq. apply walked_nil.
  - destruct (f s seen) as [[a seen1]|] eqn:E1; [|done].
    destruct (overSet Z.add 0 f l seen1) as [[b seen2]|] eqn:E2; [|done]. simplify_eq.
    exact (walked_app _ _ _ _ _ _ _ _ _ (Hs _ _ _ E1) (IH _ _ _ E2)).
Qed.

Lemma walked_spread name l c seen seen' :
  name ∉ seen → getFragment name = Some l →
  walked (ownCosts maxLimit l) (spreadsOf l) c (seen ++ [name]) seen' → walked 0 [name] c seen seen'.
Proof.
  intros Hn Hf [(new & -> & -> & R & D & C) F]. split.
  - exists (name :: new). rewrite <- app_assoc. split_and!; [done| | | |].
    + unfold fragmentCosts, fragmentCost at 2. cbn. rewrite Hf. done.
    + intros n [->|H]%elem_of_cons.
      * split; [done|]. exists name. split; [by left|apply rtc_refl].
      * destruct (R n H) as [? (m & Hm & Hr)]. split; [set_solver|]. exists name. split; [by left|].
        eapply rtc_l; [|exact Hr]. by exists l.
    + constructor; [|done]. intros H. destruct (R name H) as [? _]. set_solver.
    + intros n m [->|H]%elem_of_cons Hr; [|rewrite app_assoc; eauto].
      destruct Hr as (l' & Hl' & Hm). simplify_eq. rewrite app_assoc. auto.
  - intros n ->%list_elem_of_singleton. set_solver.
Qed.

Lemma selectionCost_walked fuel : ∀ s seen c seen',
  selectionCost getFragment maxLimit fuel s seen = Some (c, seen') →
  walked (ownCost maxLimit s) (spreads s) c seen seen'.
Proof.
  induction fuel as [|fuel IH]; [done|].
  induction s as [name args|name args l Hl|l Hl|name] using selection_ind; intros seen c seen' E.
  - cbn in E. simplify_eq. apply walked_nil.
  - pose proof (overSet_walked _ l Hl seen) as H. cbn in E, H.
    destruct (overSet _ _ _ l seen) as [[c1 seen1]|]; [|done]. simplify_eq.
    exact (walked_app _ _ [] _ _ _ _ _ _ (walked_nil _ _) (H _ _ eq_refl)).
  - exact (overSet_walked _ l Hl seen c seen' E).
  - cbn in E. case_bool_decide as Hin.
    + simplify_eq. destruct (walked_nil 0 seen') as [H _]. split; [|by intros n ->%list_elem_of_singleton].
      exists []. rewrite app_nil_r. split_and!; [done|done|set_solver|constructor|set_solver].
    + destruct (getFragment name) as [l|] eqn:Ef.
      * apply (walked_spread name l); [done|done|]. eapply overSet_walked; [|exact E].
        apply Forall_forall. intros x _. apply IH.
      * simplify_eq. split; [|set_solver]. exists [name]. split_and!; [done| | | |].
        -- cbn. unfold fragmentCost. by rewrite Ef.
        -- intros n ->%list_elem_of_singleton. split; [done|]. exists name. split; [by left|apply rtc_refl].
        -- apply NoDup_singleton.
        -- intros n m ->%list_elem_of_singleton (l & Hl & _). congruence.
Qed.

(** The cost of a query is that of its own fields plus that of every fragment it
    reaches, directly or through other fragments, each counted once. *)
Theorem cost_counts_reached fuel set c seen :
  selectionSetCost getFragment maxLimit fuel set [] = Some (c, seen) →
  NoDup seen ∧ (∀ n, n ∈ seen ↔ reached (spreadsOf set) n) ∧
  c = ownCosts maxLimit set + fragmentCosts seen.
Proof.
  intros E. unfold selectionSetCost in E.
  apply overSet_walked in E; [|apply Forall_forall; intros x _; apply selectionCost_walked].
  destruct E as [(new & -> & -> & R & D & C) F]. cbn [app] in *. split_and!; [done| |done].
  intros n. split; [apply R|]. intros (m & Hm & Hr). apply F in Hm. clear F R.
  induction Hr as [|x y z Hxy _ IH]; [done|]. eauto.
Qed.
End exactness.

(** ** The depth without fragments *)

Fixpoint nesting (s : selection) : Z :=
  match s with
  | SField _ _ None => 1
  | SField _ _ (Some l) => 1 + foldr (λ x acc, Z.max (nesting x) acc) 0 l
  | SInline l => foldr (λ x acc, Z.max (nesting x) acc) 0 l
  | SSpread _ => 0
  end.
Definition nestingOf (l : list selection) : Z := foldr (λ x acc, Z.max (nesting x) acc) 0 l.

Lemma overSet_nesting f level l seen :
  Forall (λ s, spreads s = [] → f s seen = Some (level + nesting s, seen)) l → spreadsOf l = [] →
  overSet Z.max level f l seen = Some (level + nestingOf l, seen).
Proof.
  induction 1 as [|s l Hs _ IH]; intros E; cbn; [f_equal; f_equal; lia|].
  cbn in E. apply app_nil in E as [E1 E2]. rewrite (Hs E1), (IH E2). f_equal. f_equal.
  fold (nestingOf l). lia.
Qed.

Lemma selectionDepth_nesting getFragment fuel : ∀ s level seen,
  spreads s = [] → selectionDepth getFragment (S fuel) level s seen = Some (level + nesting s, seen).
Proof.
  induction s as [name args|name args l Hl|l Hl|name] using selection_ind; intros level seen E.
  - done.
  - cbn [selectionDepth nesting]. rewrite Z.add_assoc.
    apply (overSet_nesting (selectionDepth getFragment (S fuel) (level + 1))); [|exact E].
    eapply Forall_impl; [exact Hl|]. intros x Hx. apply Hx.
  - apply (overSet_nesting (selectionDepth getFragment (S fuel) level)); [|exact E].
    eapply Forall_impl; [exact Hl|]. intros x Hx. apply Hx.
  - done.
Qed.

(** A query without fragments is refused exactly when its fields are nested deeper
    than the limit. *)
Theorem depth_is_nesting getFragment fuel maxDepth set :
  spreadsOf set = [] →
  depthLimitRule getFragment (S fuel) maxDepth set =
    Some (if maxDepth <? nestingOf set then [QUERY_TOO_DEEP maxDepth (nestingOf set)] else []).
Proof.
  intros E. unfold depthLimitRule, selectionSetDepth. rewrite overSet_nesting; [done| |done].
  apply Forall_forall. intros s _ Hs. by apply selectionDepth_nesting.
Qed.

(** ** Examples *)

Definition leaf (name : string) : selection := SField name [] None.
Definition node (name : string) (l : list selection) : selection := SField name [] (Some l).
Definition demo_fragment (body : list selection) (name : string) : option (list selection) :=
  if bool_decide (name = "F") then Some body else None.

Lemma cost_counts_reached_witness :
  4 = ownCosts 100 [node "a" [SSpread "F"]; SSpread "F"]
      + fragmentCosts (demo_fragment [leaf "x"; leaf "y"; SSpread "F"]) 100 ["F"] + 1.
Proof.
  destruct (cost_counts_reached (demo_fragment [leaf "x"; leaf "y"; SSpread "F"]) 100 2
    [node "a" [SSpread "F"]; SSpread "F"] 3 ["F"] ltac:(vm_compute; reflexivity)) as (_ & _ & H).
  rewrite <- H. reflexivity.
Defined.

Lemma limits_return_witness :
  is_Some (depthLimitRule (demo_fragment [node "x" [SSpread "F"]]) 2 10 [SSpread "F"]).
Proof.
  apply (limits_return (demo_fragment [node "x" [SSpread "F"]]) 100 ["F"]) with (maxComplexity := 10).
  intros n [l Hl]. unfold demo_fragment in Hl. case_bool_decide; [subst; left|done].
Defined.

Lemma depth_is_nesting_witness :
  depthLimitRule (λ _, None) 1 2 [node "a" [node "b" [leaf "c"]]] = Some [QUERY_TOO_DEEP 2 3].
Proof. apply (depth_is_nesting (λ _, None) 0 2 [node "a" [node "b" [leaf "c"]]]). reflexivity. Defined.

(** A fragment that asks for a page of a hundred entries and is spread under three
    fields costs as much as if it were spread under one. *)
Example fragment_counted_once :
  let history := [SField "history" [("limit", ArgInt (Some 100))] None] in
  let query := [node "a" [SSpread "F"]; node "b" [SSpread "F"]; node "c" [SSpread "F"]] in
  complexityLimitRule (demo_fragment history) 100 2 104 query = Some [] ∧
  complexityLimitRule (demo_fragment history) 100 2 104
    [node "a" history; node "b" history; node "c" history] = Some [QUERY_TOO_COMPLEX 104 306].
Proof. vm_compute. done. Qed.

(** A fragment spread at the top first is not measured again where it is nested: a
    query six levels deep passes a limit of three. *)
Example fragment_nested_deeper :
  let body := [node "d" [node "e" [leaf "f"]]] in
  depthLimitRule (demo_fragment body) 2 3 [SSpread "F"; node "a" [node "b" [node "c" [SSpread "F"]]]]
    = Some [] ∧
  depthLimitRule (demo_fragment body) 2 3 [node "a" [node "b" [node "c" body]]]
    = Some [QUERY_TOO_DEEP 3 6].
Proof. vm_compute. done. Qed.
