(* ===== verification/FeatureFlags.v ===== *)
(** * Feature flags

    Models [api/src/services/featureFlags.ts]: flags with a percentage rollout
    that is stable per entity, and the automatic rollback of a flag whose error
    rate is too high.  The overrides of [FEATURE_FLAGS_JSON] are an argument, as
    is the number read from the first eight hexadecimal digits of the SHA-256 of
    a text.  The module's [runtimeState] is the map [flag_states].

    The theorems: raising the percentage of a flag never takes it away from an
    entity, and between the extremes it covers exactly the buckets up to the
    percentage; a flag that was rolled back stays off for everybody until it is
    reset, and it is rolled back exactly when the recorded rate reaches the
    threshold. *)

From Stdlib Require Import ZArith QArith Lia.
From stdpp Require Import base tactics decidable numbers list sets strings.
From S2P Require Import Prelude JsMap JsNum.

Local Open Scope Z_scope.

Record FlagDefinition : Type := mkFlag {
  fd_description : string;
  fd_enabled : bool;
  fd_rolloutPct : number;
  fd_autoDisableErrorRate : double;
}.

(** [Partial<FlagDefinition>] *)
Record FlagOverride : Type := mkOverride {
  fv_description : option string;
  fv_enabled : option bool;
  fv_rolloutPct : option number;
  fv_autoDisableErrorRate : option double;
}.

Definition no_override : FlagOverride := mkOverride None None None None.

Inductive FlagReason : Type := disabled_reason | rollout_reason | auto_disabled_reason.

Record EvaluationResult : Type := mkEvaluation {
  er_flagKey : string;
  er_enabled : bool;
  er_treatment : bool;                 (* the variant: treatment or control *)
  er_reason : FlagReason;
}.

Definition percent (n d : Z) : double := double_div (double_of_Z n) (double_of_Z d).

Definition FLAG_REGISTRY : jsmap string FlagDefinition :=
  [("v2-price-endpoint",
     mkFlag "Serve price data from the v2 aggregation pipeline" true (NInt 100) (percent 5 100));
   ("batch-price-queries",
     mkFlag "Enable the POST /api/v2/prices/batch endpoint" true (NInt 100) (percent 10 100));
   ("experimental-caching",
     mkFlag "Use the new HybridCache for v2 responses (A/B: 50% of traffic)" true (NInt 50) (percent 2 100));
   ("websocket-price-feed",
     mkFlag "Expose live price updates over WebSocket" true (NInt 100) (percent 5 100));
   ("rate-limit-v2-relaxed",
     mkFlag "Apply a relaxed rate limit to authenticated v2 users" false (NInt 0) (double_of_Z 1));
   ("post-quantum-crypto",
     mkFlag "Enable hybrid Ed25519 and post-quantum signature verification" false (NInt 0) (percent 1 100));
   ("programmable-feeds",
     mkFlag "Enable user-defined programmable feed deployment and marketplace APIs" false (NInt 0)
       (percent 2 100));
   ("schema-migrations-v2",
     mkFlag "Enable dark-read zero-downtime schema migration framework" false (NInt 0) (percent 1 100));
   ("high-throughput-pipeline",
     mkFlag "Enable the bounded fan-out and batch-processing price pipeline" false (NInt 0)
       (percent 5 100))].

Definition UNKNOWN_FLAG : FlagDefinition := mkFlag "Unknown flag" false (NInt 0) (double_of_Z 1).

Record FlagMetrics : Type := mkMetrics {
  fm_calls : Z;
  fm_errors : Z;
  fm_autoDisabled : bool;
  fm_disabledAt : option Z;
}.

Definition newMetrics : FlagMetrics := mkMetrics 0 0 false None.

Definition flag_states : Type := jsmap string FlagMetrics.

(** [getState], which creates a missing entry. *)
Definition getState (key : string) (st : flag_states) : flag_states * FlagMetrics :=
  match jm_get key st with
  | Some m => (st, m)
  | None => (jm_set key newMetrics st, newMetrics)
  end.

(** [{ ...base, ...override }] *)
Definition applyOverride (base : FlagDefinition) (v : FlagOverride) : FlagDefinition :=
  mkFlag (default (fd_description base) (fv_description v)) (default (fd_enabled base) (fv_enabled v))
    (default (fd_rolloutPct base) (fv_rolloutPct v))
    (default (fd_autoDisableErrorRate base) (fv_autoDisableErrorRate v)).

Section flags.
Variable digest8 : string → Z.       (* parseInt of the first 8 hex digits of the SHA-256 *)
Variable registry : jsmap string FlagDefinition.
Variable overrides : jsmap string FlagOverride.

Definition bucketPct (flagKey entityId : string) : Z :=
  digest8 (flagKey +:+ ":" +:+ entityId) mod 100 + 1.

Definition definitionOf (flagKey : string) : FlagDefinition :=
  applyOverride (default UNKNOWN_FLAG (jm_get flagKey registry))
    (default no_override (jm_get flagKey overrides)).

Definition countCall (m : FlagMetrics) : FlagMetrics :=
  mkMetrics (fm_calls m + 1) (fm_errors m) (fm_autoDisabled m) (fm_disabledAt m).

(** The decision of [evaluateFlag] on a definition and a state: the result, and
    whether the call is counted. *)
Definition decideFlag (flagKey entityId : string) (def : FlagDefinition) (m : FlagMetrics)
    : EvaluationResult * bool :=
  if fm_autoDisabled m then (mkEvaluation flagKey false false auto_disabled_reason, false)
  else if negb (fd_enabled def) || num_eqb (fd_rolloutPct def) (NInt 0)
  then (mkEvaluation flagKey false false disabled_reason, false)
  else if num_leb (NInt 100) (fd_rolloutPct def) || bool_decide (entityId = "")
  then (mkEvaluation flagKey true true rollout_reason, true)
  else if num_leb (NInt (bucketPct flagKey entityId)) (fd_rolloutPct def)
  then (mkEvaluation flagKey true true rollout_reason, true)
  else (mkEvaluation flagKey false false rollout_reason, false).

Definition evaluateFlag (flagKey entityId : string) (st : flag_states) : flag_states * EvaluationResult :=
  let '(st1, m) := getState flagKey st in
  let '(r, counted) := decideFlag flagKey entityId (definitionOf flagKey) m in
  (if counted then jm_set flagKey (countCall m) st1 else st1, r).

Definition errorRate (m : FlagMetrics) : double :=
  if 0 <? fm_calls m then double_div (double_of_Z (fm_errors m)) (double_of_Z (fm_calls m)) else double_0.

Definition recordFlagError (now : Z) (flagKey : string) (st : flag_states) : flag_states :=
  let '(st1, m0) := getState flagKey st in
  let m := mkMetrics (fm_calls m0) (fm_errors m0 + 1) (fm_autoDisabled m0) (fm_disabledAt m0) in
  match jm_get flagKey registry with
  | None => jm_set flagKey m st1
  | Some base =>
      let threshold := default (fd_autoDisableErrorRate base)
        (jm_get flagKey overrides ≫= fv_autoDisableErrorRate) in
      if double_leb threshold (errorRate m) && negb (fm_autoDisabled m)
      then jm_set flagKey (mkMetrics (fm_calls m) (fm_errors m) true (Some now)) st1
      else jm_set flagKey m st1
  end.

Definition resetFlag (flagKey : string) (st : flag_states) : flag_states * bool :=
  match jm_get flagKey registry with
  | None => (st, false)
  | Some _ => let '(st1, _) := getState flagKey st in (jm_set flagKey newMetrics st1, true)
  end.

Record FlagStatus : Type := mkStatus {
  fs_enabled : bool; fs_rolloutPct : number; fs_autoDisabled : bool; fs_disabledAt : option Z;
  fs_calls : Z; fs_errors : Z; fs_errorRate : double;      (* before it is rounded for display *)
}.

(** [getAllFlagStatuses]; it creates the states of all flags. *)
Fixpoint flagStatuses (flags : jsmap string FlagDefinition) (st : flag_states)
    : flag_states * list (string * FlagStatus) :=
  match flags with
  | [] => (st, [])
  | (key, base) :: rest =>
      let def := applyOverride base (default no_override (jm_get key overrides)) in
      let '(st1, m) := getState key st in
      let '(st2, out) := flagStatuses rest st1 in
      (st2, (key, mkStatus (fd_enabled def && negb (fm_autoDisabled m)) (fd_rolloutPct def)
                    (fm_autoDisabled m) (fm_disabledAt m) (fm_calls m) (fm_errors m) (errorRate m)) :: out)
  end.
Definition getAllFlagStatuses (st : flag_states) := flagStatuses registry st.

(** ** Rollout *)

Lemma bucket_range flagKey entityId : 1 <= bucketPct flagKey entityId <= 100.
Proof. unfold bucketPct. pose proof (Z.mod_pos_bound (digest8 (flagKey +:+ ":" +:+ entityId)) 100). lia. Qed.

(** A definition with another percentage. *)
Definition at_percentage (p : number) (def : FlagDefinition) : FlagDefinition :=
  mkFlag (fd_description def) (fd_enabled def) p (fd_autoDisableErrorRate def).

(** the rollout is stable: an entity that has a flag at some percentage keeps it
    at every higher one, and a named entity has an enabled flag at percentage
    [p] between 1 and 99 exactly when its bucket is at most [p]. *)
Theorem rollout_stable flagKey entityId def m p q :
  0 <= p <= q →
  (er_enabled (fst (decideFlag flagKey entityId (at_percentage (NInt p) def) m)) = true →
   er_enabled (fst (decideFlag flagKey entityId (at_percentage (NInt q) def) m)) = true) ∧
  (fm_autoDisabled m = false → fd_enabled def = true → entityId ≠ "" → 1 <= p <= 99 →
   er_enabled (fst (decideFlag flagKey entityId (at_percentage (NInt p) def) m)) =
     (bucketPct flagKey entityId <=? p)).
Proof.
  intros Hpq. pose proof (bucket_range flagKey entityId) as Hb.
  assert (∀ z, num_eqb (NInt z) (NInt 0) = (z =? 0)) as Hz.
  { intros z. unfold num_eqb, NInt. apply eq_true_iff_eq. rewrite Qeq_bool_iff, Z.eqb_eq.
    change 0%Z with 0%Z. split; [apply inject_Z_injective|by intros ->]. }
  unfold decideFlag, at_percentage. cbn [fd_enabled fd_rolloutPct]. rewrite !Hz, !num_leb_int.
  split.
  - destruct (fm_autoDisabled m); [done|]. destruct (fd_enabled def); [|done]. simpl.
    destruct (Z.eqb_spec p 0) as [->|Hp]; [done|].
    rewrite (proj2 (Z.eqb_neq q 0)) by lia. simpl.
    destruct (bool_decide (entityId = "")); [by rewrite !orb_true_r|]. rewrite !orb_false_r.
    destruct (Z.leb_spec 100 p).
    + by rewrite (proj2 (Z.leb_le 100 q)) by lia.
    + destruct (Z.leb_spec (bucketPct flagKey entityId) p); [|done]. intros _.
      destruct (Z.leb_spec 100 q); [done|].
      by rewrite (proj2 (Z.leb_le (bucketPct flagKey entityId) q)) by lia.
  - intros -> -> He Hp. simpl. rewrite (proj2 (Z.eqb_neq p 0)) by lia. simpl.
    rewrite (proj2 (Z.leb_gt 100 p)) by lia. rewrite bool_decide_false by done. simpl.
    by destruct (bucketPct flagKey entityId <=? p).
Qed.

(** ** Rollback *)

Definition stateOf (key : string) (st : flag_states) : FlagMetrics := default newMetrics (jm_get key st).

Lemma getState_spec key st :
  snd (getState key st) = stateOf key st ∧ ∀ k, stateOf k (fst (getState key st)) = stateOf k st.
Proof.
  unfold getState, stateOf. destruct (jm_get key st) as [m|] eqn:E; [done|]. split; [done|].
  intros k. simpl. destruct (decide (k = key)) as [->|Hne].
  - by rewrite jm_get_set_eq, E.
  - by rewrite jm_get_set_ne.
Qed.

Lemma stateOf_set k key m st : stateOf k (jm_set key m st) = if bool_decide (k = key) then m else stateOf k st.
Proof.
  unfold stateOf. case_bool_decide as H; [rewrite H, jm_get_set_eq|rewrite jm_get_set_ne]; done.
Qed.

Inductive flag_op : Type :=
| FEvaluate (flagKey entityId : string)
| FError (now : Z) (flagKey : string)
| FReset (flagKey : string).

Definition run_flag (st : flag_states) (x : flag_op) : flag_states :=
  match x with
  | FEvaluate k e => fst (evaluateFlag k e st)
  | FError now k => recordFlagError now k st
  | FReset k => fst (resetFlag k st)
  end.

Definition resets (key : string) (x : flag_op) : bool :=
  match x with FReset k => bool_decide (k = key) | _ => false end.

Lemma off_kept key x st :
  fm_autoDisabled (stateOf key st) = true → resets key x = false →
  fm_autoDisabled (stateOf key (run_flag st x)) = true.
Proof.
  intros Hoff Hx. destruct x as [k e|now k|k]; simpl in *.
  - unfold evaluateFlag. destruct (getState_spec k st) as [Hm Hs].
    destruct (getState k st) as [st1 m]. simpl in Hm, Hs. subst m.
    destruct (decideFlag _ _ _ _) as [r counted]. destruct counted; simpl; [|by rewrite Hs].
    rewrite stateOf_set. case_bool_decide as H; [subst k; done|by rewrite Hs].
  - unfold recordFlagError. destruct (getState_spec k st) as [Hm Hs].
    destruct (getState k st) as [st1 m]. simpl in Hm, Hs. subst m.
    destruct (jm_get k registry); [destruct (_ && _)|]; rewrite stateOf_set;
      (case_bool_decide as H; [subst k; done|by rewrite Hs]).
  - unfold resetFlag. destruct (jm_get k registry); [|done].
    destruct (getState_spec k st) as [_ Hs]. destruct (getState k st) as [st1 m]. simpl in *.
    rewrite stateOf_set. rewrite bool_decide_eq_false in Hx. rewrite bool_decide_false by congruence.
    by rewrite Hs.
Qed.

(** a flag that has been rolled back is off for every entity, and stays so
    through any evaluations, errors and resets of other flags. *)
Theorem rollback_sticks key entityId xs st :
  fm_autoDisabled (stateOf key st) = true → forallb (λ x, negb (resets key x)) xs = true →
  let st' := fold_left run_flag xs st in
  er_enabled (snd (evaluateFlag key entityId st')) = false ∧
  er_reason (snd (evaluateFlag key entityId st')) = auto_disabled_reason.
Proof.
  intros Hoff. revert st Hoff. induction xs as [|x xs IH]; intros st Hoff Hxs; cbn [fold_left].
  - cbn zeta. unfold evaluateFlag. destruct (getState_spec key st) as [Hm _].
    destruct (getState key st) as [st1 m]. simpl in Hm. subst m. unfold decideFlag. rewrite Hoff. done.
  - cbn [forallb] in Hxs. apply andb_true_iff in Hxs as [Hx%negb_true_iff Hxs].
    apply IH; [|done]. by apply off_kept.
Qed.

(** an error rolls a registered flag back exactly when the rate including it
    reaches the flag's threshold. *)
Theorem auto_disable_exact now key base st :
  jm_get key registry = Some base → fm_autoDisabled (stateOf key st) = false →
  let m := stateOf key st in
  let threshold := default (fd_autoDisableErrorRate base) (jm_get key overrides ≫= fv_autoDisableErrorRate) in
  fm_autoDisabled (stateOf key (recordFlagError now key st)) =
    double_leb threshold
      (if 0 <? fm_calls m then double_div (double_of_Z (fm_errors m + 1)) (double_of_Z (fm_calls m))
       else double_0).
Proof.
  intros Hr Hoff m threshold. unfold recordFlagError. rewrite Hr.
  destruct (getState_spec key st) as [Hm _]. destruct (getState key st) as [st1 m0]. simpl in Hm. subst m0.
  fold m threshold. unfold errorRate. cbn [fm_calls fm_errors fm_autoDisabled].
  fold m in Hoff. rewrite Hoff, andb_true_r.
  destruct (double_leb threshold _); rewrite stateOf_set, bool_decide_true by done; done.
Qed.
End flags.

(** ** Concrete runs *)

Definition some_digest (_ : string) : Z := 1234.

Lemma rollout_stable_witness :
  bucketPct some_digest "experimental-caching" "key-1" = 35 ∧
  er_enabled (fst (decideFlag some_digest "experimental-caching" "key-1"
    (at_percentage (NInt 50) UNKNOWN_FLAG) newMetrics)) = false ∧
  (er_enabled (fst (decideFlag some_digest "f" "key-1" (at_percentage (NInt 40)
     (mkFlag "f" true (NInt 0) double_0)) newMetrics)) = true →
   er_enabled (fst (decideFlag some_digest "f" "key-1" (at_percentage (NInt 50)
     (mkFlag "f" true (NInt 0) double_0)) newMetrics)) = true).
Proof.
  split; [reflexivity|]. split; [reflexivity|].
  apply (rollout_stable some_digest "f" "key-1" (mkFlag "f" true (NInt 0) double_0) newMetrics 40 50).
  lia.
Defined.

Definition rolled_back : flag_states :=
  run_flag some_digest FLAG_REGISTRY []
    (run_flag some_digest FLAG_REGISTRY [] [] (FEvaluate "v2-price-endpoint" "a"))
    (FError 7 "v2-price-endpoint").

Lemma rollback_sticks_witness :
  er_enabled (snd (evaluateFlag some_digest FLAG_REGISTRY [] "v2-price-endpoint" "b"
    (fold_left (run_flag some_digest FLAG_REGISTRY []) [FEvaluate "v2-price-endpoint" "b"] rolled_back))) = false.
Proof.
  apply (rollback_sticks some_digest FLAG_REGISTRY [] "v2-price-endpoint" "b"
    [FEvaluate "v2-price-endpoint" "b"] rolled_back); vm_compute; reflexivity.
Defined.

Lemma auto_disable_exact_witness :
  fm_autoDisabled (stateOf "v2-price-endpoint" (recordFlagError FLAG_REGISTRY [] 7 "v2-price-endpoint"
    [("v2-price-endpoint", mkMetrics 1000 10 false None)])) = false.
Proof.
  rewrite (auto_disable_exact FLAG_REGISTRY [] 7 "v2-price-endpoint"
    (mkFlag "Serve price data from the v2 aggregation pipeline" true (NInt 100) (percent 5 100))
    [("v2-price-endpoint", mkMetrics 1000 10 false None)]); [|reflexivity|reflexivity].
  vm_compute. reflexivity.
Defined.

(** There is no minimum number of calls and no observation window: one error
    after one call takes the endpoint away from everybody. *)
Example first_error_rolls_back :
  fm_autoDisabled (stateOf "v2-price-endpoint" rolled_back) = true ∧
  fm_calls (stateOf "v2-price-endpoint" rolled_back) = 1.
Proof. vm_compute. done. Qed.
