(* ===== verification/DbBreaker.v ===== *)
(** * Database circuit breaker

    Models [api/src/infrastructure/db-circuit-breaker.ts].  [execute] awaits the
    operation it guards, so an execution is two events: [Begin], where the
    breaker decides, and [Succeed] or [Fail], where the outcome is recorded;
    executions that overlap are interleavings of such events.  The clock is part
    of the events that read it; the log lines are left out.

    The theorems: the breaker moves only along the edges of its state machine
    and only for the documented reasons; while it is open and its pause has not
    elapsed every execution is refused; a run of failures with no success in
    between opens it at the threshold and not before.  An example records that
    outcomes of executions begun before the circuit opened are credited to the
    probing phase. *)

From Stdlib Require Import ZArith Lia.
From stdpp Require Import base tactics decidable numbers list sets.
From S2P Require Import Prelude.

Local Open Scope Z_scope.

Inductive CircuitState : Type := closed | open | half_open.
#[export] Instance CircuitState_eq_dec : EqDecision CircuitState.
Proof. solve_decision. Defined.

Record DbCircuitBreakerConfig : Type := mkDbConfig {
  db_enabled : bool;
  db_failureThreshold : Z;
  db_successThreshold : Z;
  db_openMs : Z;
}.

Record DbCircuitBreaker : Type := mkDb {
  db_state : CircuitState;
  db_failures : Z;
  db_successes : Z;
  db_openedAt : Z;
}.

Definition newDbBreaker : DbCircuitBreaker := mkDb closed 0 0 0.

Definition getStateCode (b : DbCircuitBreaker) : Z :=
  match db_state b with closed => 0 | half_open => 1 | open => 2 end.

Definition transitionTo (now : Z) (st : CircuitState) (b : DbCircuitBreaker) : DbCircuitBreaker :=
  if bool_decide (db_state b = st) then b
  else mkDb st 0 0 (if bool_decide (st = open) then now else db_openedAt b).

Section breaker.
Variable c : DbCircuitBreakerConfig.

(** The first half of [execute]: whether the operation is started. *)
Definition beginExecute (now : Z) (b : DbCircuitBreaker) : DbCircuitBreaker * bool :=
  if negb (db_enabled c) then (b, true)
  else if bool_decide (db_state b = open) then
    if db_openMs c <=? now - db_openedAt b then (transitionTo now half_open b, true)
    else (b, false)
  else (b, true).

Definition onSuccess (now : Z) (b : DbCircuitBreaker) : DbCircuitBreaker :=
  if bool_decide (db_state b = half_open) then
    let b1 := mkDb (db_state b) (db_failures b) (db_successes b + 1) (db_openedAt b) in
    if db_successThreshold c <=? db_successes b1 then transitionTo now closed b1 else b1
  else mkDb (db_state b) 0 (db_successes b) (db_openedAt b).

Definition onFailure (now : Z) (b : DbCircuitBreaker) : DbCircuitBreaker :=
  if bool_decide (db_state b = half_open) then transitionTo now open b
  else
    let b1 := mkDb (db_state b) (db_failures b + 1) (db_successes b) (db_openedAt b) in
    if db_failureThreshold c <=? db_failures b1 then transitionTo now open b1 else b1.

Inductive db_event : Type := Begin (now : Z) | Succeed (now : Z) | Fail (now : Z).

(** An event; a disabled breaker records no outcome. *)
Definition db_step (b : DbCircuitBreaker) (e : db_event) : DbCircuitBreaker :=
  match e with
  | Begin now => fst (beginExecute now b)
  | Succeed now => if db_enabled c then onSuccess now b else b
  | Fail now => if db_enabled c then onFailure now b else b
  end.

Definition db_run (es : list db_event) (b : DbCircuitBreaker) : DbCircuitBreaker :=
  fold_left db_step es b.

(** ** Transitions *)

(** Why the breaker may go from one state to another. *)
Inductive db_edge (b : DbCircuitBreaker) : db_event → CircuitState → Prop :=
| db_trip now : db_state b = closed → db_failureThreshold c <= db_failures b + 1 → db_edge b (Fail now) open
| db_reopen now : db_state b = half_open → db_edge b (Fail now) open
| db_probe now : db_state b = open → db_openMs c <= now - db_openedAt b → db_edge b (Begin now) half_open
| db_recover now : db_state b = half_open → db_successThreshold c <= db_successes b + 1 →
    db_edge b (Succeed now) closed.

(** the breaker changes its state only along four edges: it opens on a failure
    at the threshold or on a failed probe, starts probing when its pause is
    over, and closes when enough probes have succeeded. *)
Theorem db_transitions b e :
  db_state (db_step b e) = db_state b ∨ db_edge b e (db_state (db_step b e)).
Proof.
  destruct e as [now|now|now]; simpl.
  - unfold beginExecute. destruct (negb _); [by left|].
    destruct (bool_decide_reflect (db_state b = open)) as [Ho|]; [|by left].
    destruct (Z.leb_spec (db_openMs c) (now - db_openedAt b)); [|by left].
    right. unfold transitionTo. rewrite Ho. by apply db_probe.
  - destruct (db_enabled c); [|by left]. unfold onSuccess.
    destruct (bool_decide_reflect (db_state b = half_open)) as [Hh|]; [|by left]. cbn [db_successes].
    destruct (Z.leb_spec (db_successThreshold c) (db_successes b + 1)); [|by left].
    right. unfold transitionTo. cbn [db_state]. rewrite Hh. by apply db_recover.
  - destruct (db_enabled c); [|by left]. unfold onFailure.
    destruct (bool_decide_reflect (db_state b = half_open)) as [Hh|Hh].
    { right. unfold transitionTo. rewrite Hh. by apply db_reopen. }
    cbn [db_failures]. destruct (Z.leb_spec (db_failureThreshold c) (db_failures b + 1)); [|by left].
    unfold transitionTo. cbn [db_state]. destruct (bool_decide_reflect (db_state b = open)) as [Ho|Ho];
      [by left|]. right. destruct (db_state b) eqn:E; try done. by apply db_trip.
Qed.

(** ** Failing fast *)

Lemma open_stays b e :
  db_enabled c = true → db_state b = open →
  (∀ now, e = Begin now → now - db_openedAt b < db_openMs c) →
  db_state (db_step b e) = open ∧ db_openedAt (db_step b e) = db_openedAt b.
Proof.
  intros He Ho Ht. destruct e as [now|now|now]; simpl.
  - specialize (Ht now eq_refl). unfold beginExecute. rewrite He, bool_decide_true by done. simpl.
    by rewrite (proj2 (Z.leb_gt _ _) Ht).
  - rewrite He. unfold onSuccess. by rewrite Ho.
  - rewrite He. unfold onFailure.
    rewrite (bool_decide_false (db_state b = half_open)) by congruence. cbn [db_failures].
    destruct (_ <=? _); [|done]. unfold transitionTo. cbn [db_state].
    by rewrite bool_decide_true.
Qed.

(** once open, and until its pause has elapsed, the breaker refuses every
    execution, whatever outcomes of earlier executions still arrive. *)
Theorem open_refuses es b now :
  db_enabled c = true → db_state b = open →
  (∀ t, Begin t ∈ es → t - db_openedAt b < db_openMs c) → now - db_openedAt b < db_openMs c →
  snd (beginExecute now (db_run es b)) = false.
Proof.
  intros He. revert b. induction es as [|e es IH]; intros b Ho Hes Hnow.
  - simpl. unfold beginExecute. rewrite He, bool_decide_true by done. simpl.
    by rewrite (proj2 (Z.leb_gt _ _) Hnow).
  - destruct (open_stays b e He Ho) as [Ho1 Ht1].
    { intros t ->. apply Hes. by left. }
    cbn [db_run fold_left]. apply IH; [done| |by rewrite Ht1]. rewrite Ht1. intros t Hin. apply Hes. by right.
Qed.

(** ** Tripping *)

(** Events during which no success is recorded and the breaker is not yet open. *)
Fixpoint failuresOf (es : list db_event) : Z :=
  match es with
  | [] => 0
  | Fail _ :: es' => 1 + failuresOf es'
  | _ :: es' => failuresOf es'
  end.

Definition no_success (e : db_event) : bool := match e with Succeed _ => false | _ => true end.

(** a closed breaker that sees failures and no success opens exactly when the
    count reaches the threshold. *)
Theorem trips_exactly es b :
  db_enabled c = true → db_state b = closed → 0 < db_openMs c →
  forallb no_success es = true → db_failures b + failuresOf es < db_failureThreshold c →
  db_state (db_run es b) = closed ∧
  db_failures (db_run es b) = db_failures b + failuresOf es ∧
  (db_failureThreshold c <= db_failures b + failuresOf es + 1 →
   ∀ now, db_state (db_step (db_run es b) (Fail now)) = open).
Proof.
  intros He Hc Hms. revert b Hc. induction es as [|e es IH]; intros b Hc Hno Hlt.
  - simpl in *. split_and!; [done|lia|]. intros Hge now. rewrite He. unfold onFailure. rewrite Hc.
    cbn [bool_decide db_failures]. simpl. rewrite (proj2 (Z.leb_le _ _)) by lia. done.
  - cbn [forallb] in Hno. apply andb_true_iff in Hno as [Hn Hno].
    assert (∀ l, 0 <= failuresOf l) as Hpos.
    { clear. induction l as [|[| |] l IH]; simpl; lia. }
    pose proof (Hpos es). destruct e as [now|now|now]; try done; cbn [failuresOf] in *.
    + cbn [db_run fold_left].
      assert (db_step b (Begin now) = b) as -> by (simpl; unfold beginExecute; by rewrite He, Hc).
      apply IH; done || lia.
    + cbn [db_run fold_left]. assert (db_step b (Fail now) =
        mkDb closed (db_failures b + 1) (db_successes b) (db_openedAt b)) as ->.
      { simpl. rewrite He. unfold onFailure. rewrite Hc. simpl.
        by rewrite (proj2 (Z.leb_gt _ _)) by lia. }
      destruct (IH (mkDb closed (db_failures b + 1) (db_successes b) (db_openedAt b))) as (H1 & H2 & H3);
        [done|done|simpl; lia|]. cbn [db_failures] in *.
      split_and!; [exact H1|unfold db_run in H2; lia|]. intros Hge. apply H3. lia.
Qed.
End breaker.

(** ** Concrete runs *)

Definition demo_db : DbCircuitBreakerConfig := mkDbConfig true 3 1 1000.

Lemma trips_exactly_witness :
  db_state (db_step demo_db (db_run demo_db [Begin 0; Fail 1; Fail 2] newDbBreaker) (Fail 3)) = open.
Proof.
  apply (trips_exactly demo_db [Begin 0; Fail 1; Fail 2] newDbBreaker); reflexivity || (simpl; lia).
Defined.

Lemma open_refuses_witness :
  snd (beginExecute demo_db 900 (db_run demo_db [Succeed 10; Fail 20; Begin 30] (mkDb open 0 0 5))) = false.
Proof.
  apply (open_refuses demo_db [Succeed 10; Fail 20; Begin 30] (mkDb open 0 0 5) 900);
    [reflexivity|reflexivity| |simpl; lia].
  intros t Ht. simpl. assert (t = 30) as -> by set_solver. lia.
Defined.

(** An execution that began before the circuit opened, and succeeds after
    probing has started, closes the circuit without any probe having succeeded. *)
Example late_success_closes :
  db_state (db_run demo_db [Begin 0; Begin 0; Begin 0; Begin 0; Fail 1; Fail 2; Fail 3; Begin 1003; Succeed 1004] newDbBreaker)
    = closed.
Proof. reflexivity. Qed.
