(* ===== verification/EventStore.v ===== *)
(** * Event store and projections

    [api/src/services/eventStore.ts]: the in-memory event storage with its
    exactly-once guard and stream versions, the store's write interface, the
    projection engine with snapshots, the latest-price projection and the price
    command handler.

    An [async] function runs without interruption up to its next [await].  Appending
    is one such run, so it is one function here.  A rebuild is three: it reads the
    events, then (after the first [await]) folds them and reads the total, then
    (after the second) saves the snapshot; [progress] is where a rebuild stands.

    - [versions_contiguous]: stream versions, and the exactly-once guard;
    - [rebuild_replays]: a rebuild that starts from a snapshot returns what a replay of
      every event returns;
    - [latest_price]: what the read model holds for an asset;
    - [append_during_rebuild_lost]: an event appended while a rebuild waits for its
      events is never projected. *)

From stdpp Require Import base numbers relations list strings sets.
From S2P Require Import Prelude JsMap JsNum.

Local Open Scope Z_scope.

Inductive EventType :=
  | PriceUpdated | SourceAdded | SourceRemoved | AggregationCompleted
  | AlertTriggered | CircuitBreakerOpened | CircuitBreakerClosed.

#[export] Instance EventType_eq_dec : EqDecision EventType.
Proof. solve_decision. Defined.

Section store.
Context {P S : Type}.

Record DomainEvent := mkEvent {
  e_id : string;
  e_streamId : string;
  e_type : EventType;
  e_payload : P;
  e_correlationId : option string;
  e_occurredAt : Z;
  e_version : Z;
}.

(** ** Storage *)

Record EventStorage := mkStorage {
  events : list DomainEvent;
  seenIds : list string;
  streamVersions : jsmap string Z;
}.

Definition emptyStorage : EventStorage := mkStorage [] [] [].

Definition storageAppend (event : DomainEvent) (st : EventStorage) : EventStorage :=
  if bool_decide (e_id event ∈ seenIds st) then st
  else mkStorage (events st ++ [event]) (seenIds st ++ [e_id event])
         (jm_set (e_streamId event) (e_version event) (streamVersions st)).

Definition readStream (streamId : string) (fromVersion : Z) (st : EventStorage) : list DomainEvent :=
  filter (λ e, e_streamId e = streamId ∧ fromVersion ≤ e_version e) (events st).

Definition readAll (fromOffset : Z) (st : EventStorage) : list DomainEvent :=
  drop (Z.to_nat fromOffset) (events st).

Definition totalCount (st : EventStorage) : Z := Z.of_nat (length (events st)).

Definition nextVersion (streamId : string) (st : EventStorage) : Z :=
  default 0 (jm_get streamId (streamVersions st)) + 1.

(** ** The store *)

Record Snapshot := mkSnapshot { s_state : S; s_atVersion : Z; s_createdAt : Z }.

Record EventStore := mkStore {
  storage : EventStorage;
  snapshots : jsmap string Snapshot;
}.

Definition newStore : EventStore := mkStore emptyStorage [].

(** The identifier [randomUUID] drew and the time are arguments. *)
Definition append (uuid : string) (now : Z) (streamId : string) (type : EventType) (payload : P)
    (correlationId : option string) (s : EventStore) : EventStore * DomainEvent :=
  let event := mkEvent uuid streamId type payload correlationId now (nextVersion streamId (storage s)) in
  (mkStore (storageAppend event (storage s)) (snapshots s), event).

Definition saveSnapshot (streamId : string) (state : S) (atVersion now : Z) (s : EventStore) : EventStore :=
  mkStore (storage s) (jm_set streamId (mkSnapshot state atVersion now) (snapshots s)).

Definition getSnapshot (streamId : string) (s : EventStore) : option Snapshot :=
  jm_get streamId (snapshots s).

(** ** Projections *)

Record Projection := mkProjection {
  p_name : string;
  p_initialState : S;
  p_handlers : EventType → option (S → DomainEvent → S);
}.

Definition applyEvent (p : Projection) (state : S) (event : DomainEvent) : S :=
  match p_handlers p (e_type event) with Some handler => handler state event | None => state end.

Definition replay (p : Projection) (state : S) (es : list DomainEvent) : S := foldl (applyEvent p) state es.

(** Where a rebuild stands: waiting for the events it read, or for the total. *)
Inductive progress :=
  | Reading (state : S) (es : list DomainEvent)
  | Counting (state : S) (total : Z).

Definition rebuildRead (p : Projection) (s : EventStore) : progress :=
  let snapshot := getSnapshot (p_name p) s in
  let state := match snapshot with Some sn => s_state sn | None => p_initialState p end in
  let fromOffset := match snapshot with Some sn => s_atVersion sn | None => 0 end in
  Reading state (readAll fromOffset (storage s)).

Definition rebuildFold (p : Projection) (s : EventStore) (state : S) (es : list DomainEvent) : progress :=
  Counting (replay p state es) (totalCount (storage s)).

Definition rebuildSave (p : Projection) (now : Z) (state : S) (total : Z) (s : EventStore) : EventStore * S :=
  (saveSnapshot (p_name p) state total now s, state).

(** The three runs with nothing in between. *)
Definition rebuild (p : Projection) (now : Z) (s : EventStore) : EventStore * S :=
  match rebuildRead p s with
  | Reading state es =>
      match rebuildFold p s state es with
      | Counting state total => rebuildSave p now state total s
      | Reading state _ => (s, state)
      end
  | Counting state _ => (s, state)
  end.
End store.

Arguments DomainEvent : clear implicits.
Arguments EventStorage : clear implicits.
Arguments EventStore : clear implicits.
Arguments Projection : clear implicits.
Arguments progress : clear implicits.

(** ** Latest prices *)

Record PriceUpdatedPayload := mkPrice {
  pp_asset : string;
  pp_price : number;
  pp_source : string;
  pp_confidence : number;
}.

Record LatestPrice := mkLatest {
  lp_price : number;
  lp_source : string;
  lp_confidence : number;
  lp_updatedAt : Z;
  lp_version : Z;
}.

Abbreviation LatestPriceReadModel := (jsmap string LatestPrice).

Definition latestOf (event : DomainEvent PriceUpdatedPayload) : LatestPrice :=
  let p := e_payload event in
  mkLatest (pp_price p) (pp_source p) (pp_confidence p) (e_occurredAt event) (e_version event).

Definition latestPriceProjection : Projection PriceUpdatedPayload LatestPriceReadModel :=
  mkProjection "latest-prices" []
    (λ type, match type with
             | PriceUpdated =>
                 Some (λ state event, jm_set (pp_asset (e_payload event)) (latestOf event) state)
             | _ => None
             end).

Record RecordPriceUpdateCommand := mkCommand {
  cmd_asset : string;
  cmd_price : number;
  cmd_source : string;
  cmd_confidence : option number;
  cmd_correlationId : option string;
}.

Inductive command_error := PriceNotPositive.

Definition recordPriceUpdate {S} (uuid : string) (now : Z) (cmd : RecordPriceUpdateCommand)
    (s : @EventStore PriceUpdatedPayload S)
    : EventStore PriceUpdatedPayload S * result command_error (DomainEvent PriceUpdatedPayload) :=
  if num_leb (cmd_price cmd) (NInt 0) then (s, Throw PriceNotPositive)
  else
    let '(s', event) :=
      append uuid now ("price:" +:+ cmd_asset cmd) PriceUpdated
        (mkPrice (cmd_asset cmd) (cmd_price cmd) (cmd_source cmd) (default (NInt 1) (cmd_confidence cmd)))
        (cmd_correlationId cmd) s in
    (s', Ok event).

(** ** Stream versions *)

Section versions.
Context {P S : Type}.
Implicit Types (s : EventStore P S) (st : EventStorage P) (e : DomainEvent P).

(** The arguments of one call to [append]. *)
Record append_call := mkCall {
  a_uuid : string;
  a_now : Z;
  a_streamId : string;
  a_type : EventType;
  a_payload : P;
  a_correlationId : option string;
}.

Definition appendWith s (a : append_call) : EventStore P S :=
  (append (a_uuid a) (a_now a) (a_streamId a) (a_type a) (a_payload a) (a_correlationId a) s).1.

Definition stream (streamId : string) st : list (DomainEvent P) :=
  filter (λ e, e_streamId e = streamId) (events st).

Definition storage_ok st : Prop :=
  seenIds st = e_id <$> events st ∧ NoDup (seenIds st) ∧
  ∀ k, e_version <$> stream k st = seqZ 1 (Z.of_nat (length (stream k st))) ∧
       default 0 (jm_get k (streamVersions st)) = Z.of_nat (length (stream k st)).

Lemma stream_snoc k st e ids vs :
  stream k (mkStorage (events st ++ [e]) ids vs) =
    stream k st ++ (if decide (e_streamId e = k) then [e] else []).
Proof. unfold stream. simpl. rewrite filter_app, filter_cons. by case_decide. Qed.

Lemma storageAppend_ok st e :
  storage_ok st → e_version e = nextVersion (e_streamId e) st → storage_ok (storageAppend e st).
Proof.
  intros (Hids & Hnd & Hst) Hv. unfold storageAppend. case_bool_decide as Hin; [done|].
  split_and!; simpl.
  - by rewrite Hids, fmap_app.
  - apply NoDup_app. split_and!; [done|set_solver|apply NoDup_singleton].
  - intros k. rewrite stream_snoc, jm_get_set. destruct (Hst k) as [H1 H2]. case_decide as Hk.
    + subst k. rewrite fmap_app, length_app, H1. simpl. unfold nextVersion in Hv. rewrite H2 in Hv.
      split; [|lia]. by rewrite Nat.add_1_r, seqZ_S, Hv, Z.add_comm.
    + by rewrite app_nil_r.
Qed.

Lemma appendWith_ok s a : storage_ok (storage s) → storage_ok (storage (appendWith s a)).
Proof. intros H. by apply storageAppend_ok. Qed.

Lemma emptyStorage_ok : storage_ok emptyStorage.
Proof. split_and!; [done|constructor|by intros k]. Qed.

(** Reading from a version on: the tail of the stream. *)
Lemma readStream_from st k v :
  storage_ok st → 1 ≤ v → readStream k v st = drop (Z.to_nat (v - 1)) (stream k st).
Proof.
  intros (_ & _ & Hst) Hv. destruct (Hst k) as [Hl _].
  assert (readStream k v st = filter (λ e, v ≤ e_version e) (stream k st)) as ->.
  { unfold readStream, stream. rewrite list_filter_filter. apply list_filter_iff. tauto. }
  clear Hst. revert Hl. generalize (stream k st). clear st. intros l Hl.
  assert (∀ i e, l !! i = Some e → e_version e = Z.of_nat i + 1) as Hi.
  { intros i e He. assert ((e_version <$> l) !! i = Some (e_version e)) as H by (by rewrite list_lookup_fmap, He).
    rewrite Hl in H. apply lookup_seqZ in H. lia. }
  clear Hl. rewrite <- (take_drop (Z.to_nat (v - 1)) l) at 1. rewrite filter_app.
  rewrite filter_none, filter_all; [done| |].
  - intros e [i He]%list_elem_of_lookup. rewrite lookup_drop in He. apply Hi in He. lia.
  - intros e [i He]%list_elem_of_lookup. apply lookup_take_Some in He as [He Hlt]. apply Hi in He. lia.
Qed.
End versions.

(** ** Rebuilds *)

Section rebuilds.
Context {P S : Type} (p : Projection P S).

(** The store and the rebuilds of [p] in flight. *)
Record config := mkCfg { c_store : EventStore P S; c_flight : list (progress P S) }.

Definition quiet (w : progress P S) : Prop :=
  match w with Reading _ _ => False | Counting _ _ => True end.

(** Appends and rebuilds, interleaved at their [await]s, with no append while a
    rebuild waits for its events. *)
Inductive step : config → config → Prop :=
  | step_append s ws a : Forall quiet ws → step (mkCfg s ws) (mkCfg (appendWith s a) ws)
  | step_begin s ws : step (mkCfg s ws) (mkCfg s (rebuildRead p s :: ws))
  | step_fold s ws1 ws2 state es :
      step (mkCfg s (ws1 ++ Reading state es :: ws2))
           (mkCfg s (ws1 ++ rebuildFold p s state es :: ws2))
  | step_save s ws1 ws2 state total now :
      step (mkCfg s (ws1 ++ Counting state total :: ws2))
           (mkCfg (rebuildSave p now state total s).1 (ws1 ++ ws2)).

Definition initial : config := mkCfg newStore [].
Definition reachable (c : config) : Prop := rtc step initial c.

(** The projection of the first [n] events. *)
Definition projected (s : EventStore P S) (n : Z) : S :=
  replay p (p_initialState p) (take (Z.to_nat n) (events (storage s))).

Definition counted (s : EventStore P S) (state : S) (n : Z) : Prop :=
  0 ≤ n ≤ totalCount (storage s) ∧ state = projected s n.

Definition flight_ok (s : EventStore P S) (w : progress P S) : Prop :=
  match w with
  | Reading state es => ∃ n, counted s state n ∧ es = readAll n (storage s)
  | Counting state total => counted s state total
  end.

Definition config_ok (c : config) : Prop :=
  storage_ok (storage (c_store c)) ∧
  (∀ sn, getSnapshot (p_name p) (c_store c) = Some sn → counted (c_store c) (s_state sn) (s_atVersion sn)) ∧
  Forall (flight_ok (c_store c)) (c_flight c).

(** Events are only ever added at the end. *)
Lemma appendWith_events (s : EventStore P S) a :
  ∃ l, events (storage (appendWith s a)) = events (storage s) ++ l.
Proof.
  unfold appendWith, append, storageAppend. simpl. case_bool_decide; [exists []; by rewrite app_nil_r|by eexists].
Qed.

Lemma counted_append s a state n : counted s state n → counted (appendWith s a) state n.
Proof.
  intros [Hn ->]. destruct (appendWith_events s a) as [l Hl]. unfold counted, totalCount, projected in *.
  rewrite Hl, length_app. split; [lia|]. by rewrite take_app_le by lia.
Qed.

Lemma counted_all s state n :
  counted s state n → replay p state (readAll n (storage s)) = projected s (totalCount (storage s)).
Proof.
  intros [Hn ->]. unfold projected, replay, readAll, totalCount. rewrite <- foldl_app, take_drop.
  by rewrite Nat2Z.id, firstn_all.
Qed.

Lemma rebuildRead_ok s ws : config_ok (mkCfg s ws) → flight_ok s (rebuildRead p s).
Proof.
  intros (_ & Hsn & _). unfold rebuildRead. simpl in *.
  destruct (getSnapshot (p_name p) s) as [sn|]; [exists (s_atVersion sn); by split; [apply Hsn|]|].
  exists 0. split; [|done]. split; [unfold totalCount; lia|done].
Qed.

Lemma rebuildFold_ok s state es :
  flight_ok s (Reading state es) → flight_ok s (rebuildFold p s state es).
Proof.
  intros (n & Hc & ->). simpl. split; [unfold totalCount; lia|]. by apply counted_all.
Qed.

Lemma step_config_ok c c' : step c c' → config_ok c → config_ok c'.
Proof.
  intros [s ws a Hq|s ws|s ws1 ws2 state es|s ws1 ws2 state total now] Hok;
    pose proof Hok as (Hst & Hsn & Hf); split_and!; simpl in *; try done.
  - by apply appendWith_ok.
  - intros sn Hs. by apply counted_append, Hsn.
  - apply Forall_forall. intros w Hw. rewrite Forall_forall in Hq, Hf.
    specialize (Hq w Hw). specialize (Hf w Hw). destruct w; [done|]. by apply counted_append.
  - constructor; [by apply (rebuildRead_ok s ws)|done].
  - apply Forall_app in Hf as [Hf1 [Hw Hf2]%Forall_cons]. apply Forall_app. split; [done|].
    constructor; [by apply rebuildFold_ok|done].
  - apply Forall_app in Hf as [_ [Hw _]%Forall_cons]. intros sn. unfold getSnapshot. simpl.
    rewrite jm_get_set_eq. intros [= <-]. exact Hw.
  - apply Forall_app in Hf as [Hf1 [_ Hf2]%Forall_cons]. apply Forall_app. split; [exact Hf1|exact Hf2].
Qed.

Lemma event_reachable_ok c : reachable c → config_ok c.
Proof.
  intros H. assert (config_ok initial) as Hi by (split_and!; [apply emptyStorage_ok|done|constructor]).
  revert Hi. induction H as [c|c c1 c2 Hs _ IH]; [done|]. intros Hc. by eapply IH, step_config_ok.
Qed.

Lemma projected_all s :
  projected s (totalCount (storage s)) = replay p (p_initialState p) (events (storage s)).
Proof. unfold projected, totalCount. by rewrite Nat2Z.id, firstn_all. Qed.

Lemma rebuild_all c now :
  reachable c →
  (rebuild p now (c_store c)).2 = replay p (p_initialState p) (events (storage (c_store c))).
Proof.
  intros Hok%event_reachable_ok. destruct c as [s ws]. cbn [c_store].
  pose proof (rebuildRead_ok s ws Hok) as Hf. unfold rebuild.
  destruct (rebuildRead p s) as [state es|] eqn:E; [|done]. destruct Hf as (n & Hc & ->).
  cbn [rebuildFold rebuildSave snd]. by rewrite <- projected_all, (counted_all s _ n Hc).
Qed.
End rebuilds.

(** Stream versions and the exactly-once guard.  However appends and rebuilds
    interleave, no event identifier is stored twice, the versions of each stream are
    1, 2, 3, ... in the order its events were stored, the next version handed out is
    the one after, reading a stream from version [v] returns its tail, and appending
    under an identifier already stored changes nothing. *)
Theorem versions_contiguous {P S} (p : Projection P S) c streamId v a :
  reachable p c → 1 ≤ v →
  let st := storage (c_store c) in
  NoDup (e_id <$> events st) ∧
  e_version <$> stream streamId st = seqZ 1 (Z.of_nat (length (stream streamId st))) ∧
  nextVersion streamId st = Z.of_nat (length (stream streamId st)) + 1 ∧
  readStream streamId v st = drop (Z.to_nat (v - 1)) (stream streamId st) ∧
  (a_uuid a ∈ e_id <$> events st → appendWith (c_store c) a = c_store c).
Proof.
  intros Hr Hv. destruct (event_reachable_ok p c Hr) as (Hst & _ & _). simpl.
  pose proof (readStream_from _ streamId v Hst Hv). destruct Hst as (Hids & Hnd & Hst).
  destruct (Hst streamId) as [H1 H2]. rewrite <- Hids. split_and!; [done..| |done|].
  - unfold nextVersion. by rewrite H2.
  - intros Hin. unfold appendWith, append, storageAppend. simpl. rewrite bool_decide_true by done.
    by destruct (c_store c).
Qed.

(** C26: A rebuild equals a replay.  In every state appends and rebuilds can reach
    (however they interleave, so long as nothing is appended while a rebuild waits
    for the events it reads), rebuilding a projection returns exactly the fold of its
    handlers over every stored event from the initial state, although it starts from
    the latest snapshot and reads only what follows; and so does every rebuild
    already under way. *)
Theorem rebuild_replays {P S} (p : Projection P S) c now :
  reachable p c →
  let s := c_store c in
  (rebuild p now s).2 = replay p (p_initialState p) (events (storage s)) ∧
  ∀ state es, Reading state es ∈ c_flight c →
    rebuildFold p s state es =
      Counting (replay p (p_initialState p) (events (storage s))) (totalCount (storage s)).
Proof.
  intros Hr. split; [by apply rebuild_all|]. intros state es Hin.
  destruct (event_reachable_ok p c Hr) as (_ & _ & Hf). rewrite Forall_forall in Hf.
  destruct (Hf _ Hin) as (n & Hc & ->). unfold rebuildFold. by rewrite (counted_all p _ _ n Hc), projected_all.
Qed.

Definition demo_price (price : Z) : PriceUpdatedPayload := mkPrice "XLM" (NInt price) "band" (NInt 1).
Definition demo_call (uuid : string) (price : Z) : append_call :=
  mkCall uuid 7 "price:XLM" PriceUpdated (demo_price price) None.
Definition demo_store : EventStore PriceUpdatedPayload LatestPriceReadModel :=
  appendWith (appendWith newStore (demo_call "a" 10)) (demo_call "b" 11).

(** Two events, a snapshot, and one more event. *)
Definition demo_cfg : config :=
  mkCfg (appendWith (rebuild latestPriceProjection 8 demo_store).1 (demo_call "c" 12)) [].

Lemma demo_reachable : reachable latestPriceProjection demo_cfg.
Proof.
  eapply rtc_l; [apply (step_append _ _ [] (demo_call "a" 10)); constructor|].
  eapply rtc_l; [apply (step_append _ _ [] (demo_call "b" 11)); constructor|].
  eapply rtc_l; [apply step_begin|].
  eapply rtc_l; [apply (step_fold _ _ [] [])|].
  eapply rtc_l; [apply (step_save _ _ [] [] _ _ 8)|].
  eapply rtc_l; [apply (step_append _ _ [] (demo_call "c" 12)); constructor|].
  apply rtc_refl.
Qed.

Lemma versions_contiguous_witness :
  readStream "price:XLM" 3 (storage (c_store demo_cfg)) = drop 2 (stream "price:XLM" (storage (c_store demo_cfg))).
Proof.
  apply (versions_contiguous latestPriceProjection demo_cfg "price:XLM" 3 (demo_call "a" 9));
    [apply demo_reachable|lia].
Defined.

Lemma rebuild_replays_witness :
  (rebuild latestPriceProjection 9 (c_store demo_cfg)).2 =
    replay latestPriceProjection [] (events (storage (c_store demo_cfg))).
Proof. apply (rebuild_replays latestPriceProjection demo_cfg 9), demo_reachable. Defined.

(** ** The read model *)

Definition prices_of (asset : string) (es : list (DomainEvent PriceUpdatedPayload)) :=
  filter (λ e, e_type e = PriceUpdated ∧ pp_asset (e_payload e) = asset) es.

Lemma replay_latest asset es :
  jm_get asset (replay latestPriceProjection [] es) = latestOf <$> last (prices_of asset es).
Proof.
  unfold replay, prices_of. induction es as [|e es IH] using rev_ind; [done|].
  rewrite foldl_app, filter_app, filter_cons. cbn [foldl]. unfold applyEvent at 1.
  destruct (e_type e) eqn:Et; cbn [latestPriceProjection p_handlers];
    try (rewrite decide_False by (intros [? _]; congruence); by rewrite app_nil_r).
  rewrite jm_get_set. case_decide as Ha.
  - rewrite decide_True by done. by rewrite filter_nil, last_snoc.
  - rewrite decide_False by naive_solver. by rewrite app_nil_r.
Qed.

(** The read model.  Rebuilt in any reachable state, the latest-price projection
    holds for each asset the price, source, confidence, time and version of the last
    price event stored for it, and nothing for an asset with none. *)
Theorem latest_price c asset now :
  reachable latestPriceProjection c →
  jm_get asset (rebuild latestPriceProjection now (c_store c)).2 =
    latestOf <$> last (prices_of asset (events (storage (c_store c)))).
Proof.
  intros Hr. rewrite rebuild_all by done. apply replay_latest.
Qed.

Lemma latest_price_witness :
  jm_get "XLM" (rebuild latestPriceProjection 9 (c_store demo_cfg)).2 =
    Some (mkLatest (NInt 12) "band" (NInt 1) 7 3).
Proof. rewrite (latest_price demo_cfg "XLM" 9 demo_reachable). reflexivity. Defined.

(** An event appended while a rebuild waits for the events it read is counted in the
    snapshot but not in its state: no later rebuild sees it. *)
Example append_during_rebuild_lost :
  let p := latestPriceProjection in
  match rebuildRead p demo_store with
  | Reading state es =>
      let later := appendWith demo_store (demo_call "c" 12) in
      match rebuildFold p later state es with
      | Counting state total =>
          let saved := (rebuildSave p 9 state total later).1 in
          jm_get "XLM" (rebuild p 10 saved).2 = Some (mkLatest (NInt 11) "band" (NInt 1) 7 2) ∧
          jm_get "XLM" (replay p [] (events (storage saved))) = Some (mkLatest (NInt 12) "band" (NInt 1) 7 3)
      | Reading _ _ => False
      end
  | Counting _ _ => False
  end.
Proof. by vm_compute. Qed.

(** [NaN <= 0] is false: the command handler stores it. *)
Example nan_price_recorded :
  is_ok (recordPriceUpdate "a" 7 (mkCommand "XLM" NNaN "band" None None) (newStore (S := unit))).2 = true.
Proof. done. Qed.
