(* ===== verification/Cache.v ===== *)
(** * The response cache

    Models [api/src/price-serving/cache.ts]: the in-process cache with expiry and
    a size limit, and the hybrid cache that puts it in front of Redis.

    Redis is outside: its connection events, its answers and the invalidations
    other instances publish are events of the model, and what is sent to it is a
    list of commands.  A read that waits for Redis is split there, so other calls
    can come in between; [hc_reads] holds the keys waited for.  The log [hc_written]
    and the list of answers are kept for the statements.

    The theorems: the in-process cache implements a map in which the last write of
    a key counts until it expires, within its size; while Redis is in use no answer
    of the in-process layer is older than a second; and a read answers only what
    was written under its key or what Redis returned for it.  Examples show what
    the code does otherwise: writing a present key of a full cache evicts another
    one, an answer of Redis that was on its way during an invalidation is served
    afterwards, and without Redis the lifetimes of the endpoints are ignored. *)

From Stdlib Require Import ZArith Lia.
From stdpp Require Import base tactics decidable numbers list sets strings gmap.
From S2P Require Import Prelude JsMap.

Local Open Scope Z_scope.

(** ** [LRUCache] *)

Section lru.
Context {T : Type}.

Record LRUCache : Type := mkLRU {
  lru_cache : jsmap string (T * Z);        (* the value and [expiresAt] *)
  lru_maxSize : Z;
  lru_ttlMs : Z;
}.

Definition newLRU (maxSize ttlMs : Z) : LRUCache := mkLRU jm_empty maxSize ttlMs.

Definition lru_with (m : jsmap string (T * Z)) (c : LRUCache) : LRUCache :=
  mkLRU m (lru_maxSize c) (lru_ttlMs c).

Definition lru_get (now : Z) (key : string) (c : LRUCache) : LRUCache * option T :=
  match jm_get key (lru_cache c) with
  | None => (c, None)
  | Some entry =>
      if entry.2 <? now then (lru_with (jm_delete key (lru_cache c)) c, None)
      else (lru_with (jm_set key entry (jm_delete key (lru_cache c))) c, Some entry.1)
  end.

(** [const oldest = cache.keys().next().value; if (...) cache.delete(oldest)] *)
Definition evictOldest (m : jsmap string (T * Z)) : jsmap string (T * Z) :=
  match m with
  | [] => m
  | (oldest, _) :: _ => jm_delete oldest m
  end.

Definition lru_set (now : Z) (key : string) (value : T) (c : LRUCache) : LRUCache :=
  let m := if lru_maxSize c <=? Z.of_nat (jm_size (lru_cache c))
           then evictOldest (lru_cache c) else lru_cache c in
  lru_with (jm_set key (value, now + lru_ttlMs c) m) c.

Definition lru_clear (c : LRUCache) : LRUCache := lru_with jm_empty c.
End lru.
Arguments LRUCache : clear implicits.

(** ** [HybridCache] *)

Record CacheConfig : Type := mkCacheConfig {
  cc_redisUrl : string;                    (* "" when absent *)
  cc_fallbackToLru : option bool;
  cc_defaultTtl : option Z;
  cc_priceTtl : option Z;
  cc_historyTtl : option Z;
  cc_sourcesTtl : option Z;
  cc_healthTtl : option Z;
}.

(** [value || fallback] *)
Definition orElse (value : option Z) (fallback : Z) : Z :=
  match value with
  | Some n => if n =? 0 then fallback else n
  | None => fallback
  end.

Definition L1_TTL_WHEN_REDIS_ACTIVE_MS : Z := 1000.

Section hybrid.
Context {T : Type}.

Inductive redis_command : Type :=
| Setex (key : string) (seconds : Z) (value : T)
| DeleteMatching (pattern : string)
| PublishInvalidation (pattern : string).

Record HybridCache : Type := mkHybrid {
  hc_redis : bool;                         (* there is a client *)
  hc_useRedis : bool;
  hc_defaultTtl : Z;
  hc_endpointTtls : jsmap string Z;
  hc_l1 : LRUCache T;
  hc_reads : list string;
  hc_commands : list redis_command;
  hc_answers : list (string * option T);
  hc_written : list (string * T * Z);      (* what was put into the layer, and when *)
}.

(** The constructor; [created] is whether the Redis clients could be created. *)
Definition newHybrid (cfg : CacheConfig) (created : bool) : HybridCache :=
  let defaultTtl := orElse (cc_defaultTtl cfg) 15000 in
  let wanted := negb (bool_decide (cc_redisUrl cfg = "")) &&
                negb (bool_decide (cc_fallbackToLru cfg = Some false)) in
  mkHybrid (wanted && created) false defaultTtl
    [("prices", orElse (cc_priceTtl cfg) 15000); ("price", orElse (cc_priceTtl cfg) 15000);
     ("history", orElse (cc_historyTtl cfg) 60000); ("sources", orElse (cc_sourcesTtl cfg) 300000);
     ("health", orElse (cc_healthTtl cfg) 30000)]
    (newLRU 1000 defaultTtl) [] [] [] [].

Definition set_l1 (l1 : LRUCache T) (h : HybridCache) : HybridCache :=
  mkHybrid (hc_redis h) (hc_useRedis h) (hc_defaultTtl h) (hc_endpointTtls h) l1 (hc_reads h)
    (hc_commands h) (hc_answers h) (hc_written h).
Definition set_useRedis (b : bool) (h : HybridCache) : HybridCache :=
  mkHybrid (hc_redis h) b (hc_defaultTtl h) (hc_endpointTtls h) (hc_l1 h) (hc_reads h)
    (hc_commands h) (hc_answers h) (hc_written h).
Definition set_reads (l : list string) (h : HybridCache) : HybridCache :=
  mkHybrid (hc_redis h) (hc_useRedis h) (hc_defaultTtl h) (hc_endpointTtls h) (hc_l1 h) l
    (hc_commands h) (hc_answers h) (hc_written h).
Definition send (cs : list redis_command) (h : HybridCache) : HybridCache :=
  mkHybrid (hc_redis h) (hc_useRedis h) (hc_defaultTtl h) (hc_endpointTtls h) (hc_l1 h) (hc_reads h)
    (hc_commands h ++ cs) (hc_answers h) (hc_written h).
Definition reply_with (key : string) (v : option T) (h : HybridCache) : HybridCache :=
  mkHybrid (hc_redis h) (hc_useRedis h) (hc_defaultTtl h) (hc_endpointTtls h) (hc_l1 h) (hc_reads h)
    (hc_commands h) (hc_answers h ++ [(key, v)]) (hc_written h).

(** [this.l1.set(key, value)] *)
Definition putL1 (now : Z) (key : string) (value : T) (h : HybridCache) : HybridCache :=
  mkHybrid (hc_redis h) (hc_useRedis h) (hc_defaultTtl h) (hc_endpointTtls h)
    (lru_set now key value (hc_l1 h)) (hc_reads h) (hc_commands h) (hc_answers h)
    (hc_written h ++ [(key, value, now)]).

Definition active (h : HybridCache) : bool := hc_useRedis h && hc_redis h.

(** The handlers of the connection events. *)
Definition onConnect (h : HybridCache) : HybridCache :=
  set_l1 (newLRU 1000 L1_TTL_WHEN_REDIS_ACTIVE_MS) (set_useRedis true h).
Definition onDown (h : HybridCache) : HybridCache :=
  set_l1 (newLRU 1000 (hc_defaultTtl h)) (set_useRedis false h).

(** [retryStrategy(times)]: [None] stops the reconnection. *)
Definition retryStrategy (times : Z) (h : HybridCache) : HybridCache * option Z :=
  if 3 <? times then (set_useRedis false h, None) else (h, Some (Z.min (times * 50) 2000)).

(** [get], up to the answer of Redis. *)
Definition beginGet (now : Z) (key : string) (h : HybridCache) : HybridCache :=
  let '(l1, hit) := lru_get now key (hc_l1 h) in
  let h1 := set_l1 l1 h in
  match hit with
  | Some v => reply_with key (Some v) h1
  | None => if active h then set_reads (hc_reads h ++ [key]) h1 else reply_with key None h1
  end.

(** The answer of Redis: a value, nothing, or an error (of the JSON text too). *)
Inductive redis_reply : Type := RValue (v : T) | RNothing | RError.

Definition endGet (now : Z) (i : nat) (a : redis_reply) (h : HybridCache) : HybridCache :=
  match hc_reads h !! i with
  | None => h
  | Some key =>
      let h1 := set_reads (delete i (hc_reads h)) h in
      match a with
      | RValue v => reply_with key (Some v) (putL1 now key v h1)
      | RNothing | RError => reply_with key None h1
      end
  end.

(** [Math.ceil(ttl / 1000)] *)
Definition ceilSeconds (ttl : Z) : Z := - ((- ttl) / 1000).

Definition cacheSet (now : Z) (key : string) (value : T) (endpoint : string) (h : HybridCache)
    : HybridCache :=
  let ttl := if negb (bool_decide (endpoint = "")) && jm_has endpoint (hc_endpointTtls h)
             then default (hc_defaultTtl h) (jm_get endpoint (hc_endpointTtls h))
             else hc_defaultTtl h in
  let h1 := putL1 now key value h in
  if active h1 then send [Setex key (ceilSeconds ttl) value] h1 else h1.

(** [invalidate]; [deleted] is whether Redis found and deleted the keys, without
    which nothing is published. *)
Definition invalidate (pattern : string) (deleted : bool) (h : HybridCache) : HybridCache :=
  let h1 := set_l1 (lru_clear (hc_l1 h)) h in
  if active h1 then
    send (DeleteMatching pattern :: if deleted then [PublishInvalidation pattern] else []) h1
  else h1.

(** Another instance has published an invalidation. *)
Definition onInvalidation (h : HybridCache) : HybridCache := set_l1 (lru_clear (hc_l1 h)) h.

Inductive cache_event : Type :=
| Connected
| Down                                     (* the events error and close *)
| Retry (times : Z)
| Invalidation
| GetKey (now : Z) (key : string)
| RedisReply (now : Z) (i : nat) (a : redis_reply)
| SetKey (now : Z) (key : string) (value : T) (endpoint : string)
| Invalidate (pattern : string) (deleted : bool).

Definition cache_step (h : HybridCache) (e : cache_event) : HybridCache :=
  match e with
  | Connected => onConnect h
  | Down => onDown h
  | Retry times => fst (retryStrategy times h)
  | Invalidation => onInvalidation h
  | GetKey now key => beginGet now key h
  | RedisReply now i a => endGet now i a h
  | SetKey now key value endpoint => cacheSet now key value endpoint h
  | Invalidate pattern deleted => invalidate pattern deleted h
  end.

Definition cache_run (es : list cache_event) (h : HybridCache) : HybridCache := fold_left cache_step es h.
End hybrid.
Arguments HybridCache : clear implicits.
Arguments redis_command : clear implicits.
Arguments cache_event : clear implicits.
Arguments redis_reply : clear implicits.

(** ** The in-process cache implements a map *)

Section lru_refinement.
Context {T : Type}.
Variables maxSize ttlMs : Z.

Inductive lru_op : Type := LGet (now : Z) (key : string) | LSet (now : Z) (key : string) (v : T) | LClear.

Definition lru_step (c : LRUCache T) (o : lru_op) : LRUCache T :=
  match o with
  | LGet now key => fst (lru_get now key c)
  | LSet now key v => lru_set now key v c
  | LClear => lru_clear c
  end.

(** The specification: the last write of a key, with its expiry. *)
Definition spec_step (m : gmap string (T * Z)) (o : lru_op) : gmap string (T * Z) :=
  match o with
  | LGet _ _ => m
  | LSet now key v => <[key := (v, now + ttlMs)]> m
  | LClear => ∅
  end.

Record implements (c : LRUCache T) (m : gmap string (T * Z)) : Prop := {
  im_wf : jm_wf (lru_cache c);
  im_max : lru_maxSize c = maxSize;
  im_ttl : lru_ttlMs c = ttlMs;
  im_size : Z.of_nat (jm_size (lru_cache c)) <= Z.max 1 maxSize;
  im_entries : ∀ k e, jm_get k (lru_cache c) = Some e → m !! k = Some e;
}.

Lemma jm_size_delete (k : string) (m : jsmap string (T * Z)) :
  jm_wf m → jm_size (jm_delete k m) = (jm_size m - if jm_has k m then 1 else 0)%nat.
Proof.
  intros Hwf. unfold jm_has. destruct (jm_get k m) as [v|] eqn:E.
  - pose proof (jm_take_out k v m Hwf E) as H. apply Permutation_length in H. unfold jm_size. cbn in H. lia.
  - rewrite jm_delete_notin by (by apply jm_get_None). lia.
Qed.

Lemma evictOldest_wf (m : jsmap string (T * Z)) : jm_wf m → jm_wf (evictOldest m).
Proof. destruct m as [|[k e] m]; [done|]. apply jm_wf_delete. Qed.

Lemma evictOldest_get k e (m : jsmap string (T * Z)) :
  jm_get k (evictOldest m) = Some e → jm_get k m = Some e.
Proof.
  destruct m as [|[k0 e0] m]; [done|]. unfold evictOldest. rewrite jm_get_delete. by case_decide.
Qed.

Lemma evictOldest_size (m : jsmap string (T * Z)) :
  jm_wf m → jm_size (evictOldest m) = (jm_size m - 1)%nat.
Proof.
  destruct m as [|[k e] m]; [done|]. intros Hwf. unfold evictOldest. rewrite jm_size_delete by done.
  unfold jm_has. cbn [jm_get]. by rewrite decide_True.
Qed.

Lemma set_size_le k v (m : jsmap string (T * Z)) : (jm_size (jm_set k v m) <= S (jm_size m))%nat.
Proof.
  destruct (jm_get k m) as [e|] eqn:E.
  - rewrite jm_size_set_old by (by exists e). lia.
  - by rewrite jm_size_set_new.
Qed.

Lemma lru_get_implements now key c m : implements c m → implements (lru_get now key c).1 m.
Proof.
  intros []. unfold lru_get. destruct (jm_get key (lru_cache c)) as [e|] eqn:E; [|by split].
  pose proof (jm_size_delete key (lru_cache c) im_wf0) as Hd. unfold jm_has in Hd. rewrite E in Hd. cbn -[jm_size Nat.sub] in Hd.
  assert (∀ k e', jm_get k (jm_delete key (lru_cache c)) = Some e' → m !! k = Some e') as Hk.
  { intros k e'. rewrite jm_get_delete. case_decide; [done|]. apply im_entries0. }
  destruct (e.2 <? now); split; cbn -[jm_size]; try done.
  - by apply jm_wf_delete.
  - lia.
  - by apply jm_wf_set, jm_wf_delete.
  - rewrite jm_size_set_new by apply jm_get_delete_eq.
    assert (jm_size (lru_cache c) ≠ 0%nat) by (destruct (lru_cache c); done). lia.
  - intros k e'. rewrite jm_get_set. case_decide; [|apply Hk]. subst. intros [= <-]. by apply im_entries0.
Qed.

Lemma lru_set_implements now key v c m :
  implements c m → implements (lru_set now key v c) (<[key := (v, now + ttlMs)]> m).
Proof.
  intros []. unfold lru_set.
  set (m1 := if lru_maxSize c <=? Z.of_nat (jm_size (lru_cache c)) then _ else _).
  assert (jm_wf m1 ∧ (Z.of_nat (jm_size m1) < Z.max 1 maxSize) ∧
          ∀ k e, jm_get k m1 = Some e → m !! k = Some e) as (H1 & H2 & H3).
  { unfold m1. destruct (Z.leb_spec (lru_maxSize c) (Z.of_nat (jm_size (lru_cache c)))) as [H|H].
    - split_and!; [by apply evictOldest_wf| |].
      + rewrite evictOldest_size by done. lia.
      + intros k e He%evictOldest_get. auto.
    - split_and!; [done|lia|done]. }
  clearbody m1. split; cbn -[jm_size]; try done.
  - by apply jm_wf_set.
  - pose proof (set_size_le key (v, now + lru_ttlMs c) m1). lia.
  - intros k e. rewrite jm_get_set. rewrite im_ttl0. case_decide; [subst|].
    + intros [= <-]. by rewrite lookup_insert_eq.
    + intros He. rewrite lookup_insert_ne by done. auto.
Qed.

Lemma lru_step_implements c m o : implements c m → implements (lru_step c o) (spec_step m o).
Proof.
  intros H. destruct o; cbn [lru_step spec_step];
    [by apply lru_get_implements|by apply lru_set_implements|].
  destruct H. split; cbn; try done; [apply jm_wf_empty|lia].
Qed.

(** After any operations on a new cache: it holds at most [maxSize] entries (one,
    if the limit is not positive), every entry is the last one written under its
    key since the last clearing, a read returns only that value and not past its
    expiry, and a value just written is read back until it expires. *)
Theorem lru_refines ops now key :
  let c := fold_left lru_step ops (newLRU maxSize ttlMs) in
  let m := fold_left spec_step ops ∅ in
  Z.of_nat (jm_size (lru_cache c)) <= Z.max 1 maxSize ∧
  (∀ v, (lru_get now key c).2 = Some v → ∃ e, m !! key = Some (v, e) ∧ now <= e) ∧
  (∀ t v, (lru_get now key (lru_set t key v c)).2 = if t + ttlMs <? now then None else Some v).
Proof.
  intros c m.
  assert (implements c m) as H.
  { unfold c, m. assert (implements (newLRU maxSize ttlMs) ∅) as H0.
    { split; cbn; try done; [constructor|lia]. }
    revert H0. generalize (@newLRU T maxSize ttlMs) (∅ : gmap string (T * Z)).
    induction ops as [|o ops IH]; intros c0 m0 H0; [done|]. cbn [fold_left].
    by apply IH, lru_step_implements. }
  clearbody c m. destruct H. split_and!; [done| |].
  - intros v. unfold lru_get. destruct (jm_get key (lru_cache c)) as [e|] eqn:E; [|done].
    destruct (Z.ltb_spec e.2 now); [done|]. cbn. intros [= <-]. exists e.2. split; [|done].
    rewrite (im_entries0 _ _ E). by destruct e.
  - intros t v. unfold lru_get, lru_set. cbn. rewrite jm_get_set_eq, im_ttl0. cbn.
    by destruct (t + ttlMs <? now).
Qed.
End lru_refinement.

(** ** How old an answer can be *)

Section staleness.
Context {T : Type}.

Record layered (h : HybridCache T) : Prop := {
  ly_wf : jm_wf (lru_cache (hc_l1 h));
  ly_short : hc_useRedis h = true → lru_ttlMs (hc_l1 h) = L1_TTL_WHEN_REDIS_ACTIVE_MS;
  ly_ttl : lru_ttlMs (hc_l1 h) = L1_TTL_WHEN_REDIS_ACTIVE_MS ∨ lru_ttlMs (hc_l1 h) = hc_defaultTtl h;
  ly_entries : ∀ k v e, jm_get k (lru_cache (hc_l1 h)) = Some (v, e) →
    (k, v, e - lru_ttlMs (hc_l1 h)) ∈ hc_written h;
  ly_answers : ∀ k v, (k, Some v) ∈ hc_answers h → ∃ t, (k, v, t) ∈ hc_written h;
}.

Lemma fresh_layered b ttl (h : HybridCache T) :
  (b = true → ttl = L1_TTL_WHEN_REDIS_ACTIVE_MS) →
  (ttl = L1_TTL_WHEN_REDIS_ACTIVE_MS ∨ ttl = hc_defaultTtl h) →
  layered h → layered (set_l1 (newLRU 1000 ttl) (set_useRedis b h)).
Proof. intros Hb Ht []. split; cbn; try done. apply jm_wf_empty. Qed.

Lemma clear_layered (h : HybridCache T) : layered h → layered (set_l1 (lru_clear (hc_l1 h)) h).
Proof. intros []. split; cbn; try done. apply jm_wf_empty. Qed.

Lemma put_layered now key v (h : HybridCache T) : layered h → layered (putL1 now key v h).
Proof.
  intros []. unfold putL1, lru_set. set (m1 := if lru_maxSize _ <=? _ then _ else _).
  assert (jm_wf m1 ∧ ∀ k e, jm_get k m1 = Some e → jm_get k (lru_cache (hc_l1 h)) = Some e) as [H1 H2].
  { unfold m1. destruct (_ <=? _); [|done]. split; [by apply evictOldest_wf|intros k e; by apply evictOldest_get]. }
  clearbody m1. split; cbn; try done.
  - by apply jm_wf_set.
  - intros k w e. rewrite jm_get_set, elem_of_app, list_elem_of_singleton. case_decide.
    + intros [= <- <-]. right. subst. f_equal. lia.
    + intros He%H2. left. by apply ly_entries0.
  - intros k w Hw. destruct (ly_answers0 k w Hw) as [t Ht]. exists t. apply elem_of_app. by left.
Qed.

Lemma reads_layered l (h : HybridCache T) : layered h → layered (set_reads l h).
Proof. intros []. by split. Qed.
Lemma send_layered cs (h : HybridCache T) : layered h → layered (send cs h).
Proof. intros []. by split. Qed.

Lemma reply_layered key (x : option T) h :
  (∀ v, x = Some v → ∃ t, (key, v, t) ∈ hc_written h) → layered h → layered (reply_with key x h).
Proof.
  intros Hx []. split; cbn; try done. intros k v. rewrite elem_of_app, list_elem_of_singleton.
  intros [H|[= <- <-]]; [by apply ly_answers0|by apply Hx].
Qed.

Lemma get_layered now key (h : HybridCache T) :
  layered h → layered (set_l1 (lru_get now key (hc_l1 h)).1 h) ∧
  ∀ v, (lru_get now key (hc_l1 h)).2 = Some v →
    ∃ t, (key, v, t) ∈ hc_written h ∧ now <= t + lru_ttlMs (hc_l1 h).
Proof.
  intros []. unfold lru_get.
  destruct (jm_get key (lru_cache (hc_l1 h))) as [[w e]|] eqn:E; [|by split; [split|]]. cbn.
  assert (∀ k v' e', jm_get k (jm_delete key (lru_cache (hc_l1 h))) = Some (v', e') →
    (k, v', e' - lru_ttlMs (hc_l1 h)) ∈ hc_written h) as Hk.
  { intros k v' e'. rewrite jm_get_delete. case_decide; [done|]. apply ly_entries0. }
  destruct (Z.ltb_spec e now); cbn.
  - split; [|done]. split; cbn; try done. by apply jm_wf_delete.
  - split; [split; cbn; try done|].
    + by apply jm_wf_set, jm_wf_delete.
    + intros k v' e'. rewrite jm_get_set. case_decide; [|apply Hk]. subst. intros [= <- <-]. by apply ly_entries0.
    + intros v [= <-]. exists (e - lru_ttlMs (hc_l1 h)). split; [by apply ly_entries0|lia].
Qed.

Lemma cache_step_layered (h : HybridCache T) e : layered h → layered (cache_step h e).
Proof.
  intros H. destruct e as [| |times| |now key|now i a|now key v ep|pattern deleted]; cbn [cache_step].
  - apply fresh_layered; auto.
  - apply fresh_layered; [done|by right|done].
  - unfold retryStrategy. destruct (3 <? times); [|done]. destruct H. by split.
  - by apply clear_layered.
  - unfold beginGet. destruct (get_layered now key h H) as [H1 H2].
    destruct (lru_get now key (hc_l1 h)) as [l1 [v|]]; cbn [fst snd] in *.
    + apply reply_layered; [|done]. intros w [= <-]. destruct (H2 v eq_refl) as (t & Ht & _). by exists t.
    + destruct (active h); [by apply reads_layered|by apply reply_layered].
  - unfold endGet. destruct (hc_reads h !! i) as [key|]; [|done]. destruct a as [v| |].
    + apply reply_layered; [|by apply put_layered, reads_layered]. intros w [= <-]. exists now.
      cbn. apply elem_of_app. right. by apply list_elem_of_singleton.
    + by apply reply_layered, reads_layered.
    + by apply reply_layered, reads_layered.
  - unfold cacheSet. destruct (active _); [apply send_layered|]; by apply put_layered.
  - unfold invalidate. destruct (active _); [apply send_layered|]; by apply clear_layered.
Qed.

Lemma cache_run_layered es (h : HybridCache T) : layered h → layered (cache_run es h).
Proof. revert h. induction es as [|e es IH]; intros h H; [done|]. by apply IH, cache_step_layered. Qed.

(** In every interleaving of reads, writes, answers of Redis, invalidations and
    connection events: an answer is a value that was written under its key or that
    Redis returned for it, and the in-process layer returns a value only for its
    lifetime after that, which is one second while Redis is in use. *)
Theorem answers_fresh cfg created es now key v :
  let h := cache_run es (@newHybrid T cfg created) in
  (∀ k w, (k, Some w) ∈ hc_answers h → ∃ t, (k, w, t) ∈ hc_written h) ∧
  ((lru_get now key (hc_l1 h)).2 = Some v →
   ∃ t, (key, v, t) ∈ hc_written h ∧ now <= t + Z.max 1000 (hc_defaultTtl h) ∧
     (hc_useRedis h = true → now <= t + 1000)).
Proof.
  intros h. assert (layered h) as H.
  { apply cache_run_layered. split; [apply jm_wf_empty|done|by right|done|set_solver]. }
  split; [by destruct H|]. intros Hv. destruct (get_layered now key h H) as [_ Hg].
  destruct (Hg v Hv) as (t & Ht & Hl). exists t. split; [done|].
  destruct H as [_ Hs Ht' _ _]. unfold L1_TTL_WHEN_REDIS_ACTIVE_MS in *.
  split; [destruct Ht'; lia|]. intros Hu. rewrite (Hs Hu) in Hl. done.
Qed.
End staleness.

(** ** Examples *)

Definition demo_cache : CacheConfig := mkCacheConfig "redis://cache" None None None None None None.

Lemma answers_fresh_witness :
  ∃ t, ("k", 7, t) ∈ hc_written (cache_run [Connected; SetKey 500 "k" 7 ""] (newHybrid demo_cache true)) ∧
    1200 <= t + 1000.
Proof.
  destruct (answers_fresh demo_cache true [Connected; SetKey 500 "k" 7 ""] 1200 "k" 7) as [_ H].
  destruct H as (t & H1 & _ & H3); [vm_compute; reflexivity|]. exists t. split; [exact H1|].
  apply H3. vm_compute. reflexivity.
Defined.

(** Writing a key that is present in a full cache evicts the oldest other key. *)
Example rewrite_evicts_other :
  let c := lru_set 2 "b" 2 (lru_set 1 "a" 1 (newLRU 2 1000)) in
  (lru_get 3 "a" (lru_set 3 "b" 3 c)).2 = None ∧ jm_size (lru_cache (lru_set 3 "b" 3 c)) = 1%nat.
Proof. vm_compute. done. Qed.

(** Redis had read the old value when it was invalidated; its answer is put into
    the layer afterwards and served. *)
Example invalidated_value_served :
  let h := cache_run [Connected; GetKey 10 "k"; Invalidate "k" true; RedisReply 11 0 (RValue 1); GetKey 12 "k"]
             (newHybrid demo_cache true) in
  hc_answers h = [("k", Some 1); ("k", Some 1)].
Proof. vm_compute. done. Qed.

(** Without Redis the lifetime of the endpoint is ignored: a history response that
    should live for a minute is gone after fifteen seconds. *)
Example endpoint_ttl_ignored :
  let h := cache_run [SetKey 0 "h" 1 "history"; GetKey 15000 "h"; GetKey 15001 "h"] (newHybrid demo_cache true) in
  hc_answers h = [("h", Some 1); ("h", None)].
Proof. vm_compute. done. Qed.

(** Redis is only used when the fallback is permitted: forbidding it turns Redis off. *)
Example no_fallback_no_redis :
  active (cache_run [Connected] (@newHybrid Z (mkCacheConfig "redis://cache" (Some false) None None None None None) true))
    = false.
Proof. reflexivity. Qed.
