(* ===== verification/Replay.v ===== *)
(** * Bounded WebSocket replay

    [api/src/infrastructure/ws-replay.ts]: the replay buffer the WebSocket
    server keeps per asset, the window a reconnecting client is served, the
    scope of a credential and the limiter on replay requests; and the replay
    branch of [handleMessage] of [api/src/infrastructure/server.ts], which
    composes them.

    - [buffer_bounded]: pushing terminates, and memory stays below the
      configured ceilings with exact counters;
    - [window_bounded]: one window is a longest admissible prefix of the
      messages the client missed;
    - [replay_resumes]: following the cursor delivers every missed message once;
    - [limiter_exact]: the limiter is a sliding-window log;
    - [replay_within_subscriptions]: a request is confined to the connection's
      subscriptions. *)

From stdpp Require Import base list strings sorting sets.
From S2P Require Import Prelude JsMap.

Local Open Scope Z_scope.

(** ** Credential scope *)

Record ReplayScope := mkScope {
  rs_feeds : option (list string);      (* [null] means all assets *)
  rs_operations : list string;
  rs_environment : string;
  rs_expiresAt : option Z;
}.

Inductive ReplayScopeDenial :=
  OperationNotPermitted | EnvironmentMismatch | ScopeExpired | AssetNotPermitted.

Record ReplayScopeDecision := mkScopeDecision {
  sd_allowed : bool;
  sd_reason : option ReplayScopeDenial;
}.

Definition evaluateReplayScope (scope : ReplayScope) (environment : string) (now : Z)
    : ReplayScopeDecision :=
  if negb (bool_decide ("replay"%string ∈ rs_operations scope))
  then mkScopeDecision false (Some OperationNotPermitted)
  else if negb (bool_decide (rs_environment scope = environment))
  then mkScopeDecision false (Some EnvironmentMismatch)
  else if match rs_expiresAt scope with Some t => t <=? now | None => false end
  then mkScopeDecision false (Some ScopeExpired)
  else mkScopeDecision true None.

Definition isAssetPermitted (scope : ReplayScope) (asset : string) : bool :=
  match rs_feeds scope with None => true | Some feeds => bool_decide (asset ∈ feeds) end.

(** [!scope || isAssetPermitted(scope, asset)] *)
Definition permitted (scope : option ReplayScope) (asset : string) : bool :=
  match scope with None => true | Some sc => isAssetPermitted sc asset end.

Record ReplayBounds := mkBounds {
  rb_maxMessages : Z;
  rb_maxBytes : Z;
}.

Record ReplayBufferStats := mkStats {
  st_assets : Z;
  st_messages : Z;
  st_bytes : Z;
}.

(** ** The rate limiter *)

Record limiter := mkLimiter {
  rl_hits : jsmap string (list Z);
  rl_maxRequests : Z;
  rl_windowMs : Z;
}.

Definition newLimiter (maxRequests windowMs : Z) : limiter :=
  mkLimiter jm_empty maxRequests windowMs.

Definition set_hits (h : jsmap string (list Z)) (l : limiter) : limiter :=
  mkLimiter h (rl_maxRequests l) (rl_windowMs l).

Definition recentHits (l : limiter) (now : Z) (ts : list Z) : list Z :=
  filter (λ t, now - t < rl_windowMs l) ts.

Definition allow (key : string) (now : Z) (l : limiter) : limiter * bool :=
  let recent := recentHits l now (default [] (jm_get key (rl_hits l))) in
  if rl_maxRequests l <=? Z.of_nat (length recent)
  then (set_hits (jm_set key recent (rl_hits l)) l, false)
  else (set_hits (jm_set key (recent ++ [now]) (rl_hits l)) l, true).

(** Deleting or replacing the current entry while iterating a [Map] visits
    every other entry once, so one pass over the entries is the loop. *)
Definition pruneHits (now : Z) (l : limiter) (h : jsmap string (list Z))
    : jsmap string (list Z) :=
  omap (λ '(k, ts), match recentHits l now ts with
                    | [] => None
                    | recent => Some (k, recent)
                    end) h.

Definition prune (now : Z) (l : limiter) : limiter :=
  set_hits (pruneHits now l (rl_hits l)) l.

Definition limiter_reset (l : limiter) : limiter := set_hits jm_empty l.

(** ** Messages, windows and the buffer

    [data] is [unknown] in the source; only the length of its JSON text
    matters, so the payload type and its serialiser are arbitrary. *)

Section replay.
Context {Data : Type} (stringify : Data → string).

Record BufferedMessage := mkMessage {
  bm_sequenceId : Z;
  bm_asset : string;
  bm_timestamp : Z;
  bm_data : Data;
}.
Implicit Types (e : BufferedMessage).

Definition messageBytes e : Z := strlen (stringify (bm_data e)) + 64.

Record ReplayWindow := mkWindow {
  rw_messages : list BufferedMessage;
  rw_truncated : bool;
  rw_remaining : Z;
  rw_bytes : Z;
}.

(** [a.sequenceId - b.sequenceId] *)
Definition bySequence : BufferedMessage → BufferedMessage → comparison :=
  cmp_on bm_sequenceId Z.compare.

Definition candidates (sources : list (list BufferedMessage)) (lastSequenceId : Z)
    (scope : option ReplayScope) : list BufferedMessage :=
  stable_sort (cmp_leb bySequence)
    (filter (λ e, lastSequenceId < bm_sequenceId e ∧ permitted scope (bm_asset e) = true)
       (mjoin sources)).

(** The [while] loop over the candidates; [messages] and [bytes] are its
    accumulators. *)
Fixpoint fillWindow (bounds : ReplayBounds) (cands messages : list BufferedMessage) (bytes : Z)
    : list BufferedMessage * Z :=
  match cands with
  | [] => (messages, bytes)
  | entry :: rest =>
      let entryBytes := messageBytes entry in
      if rb_maxMessages bounds <=? Z.of_nat (length messages) then (messages, bytes)
      else if (rb_maxBytes bounds <? bytes + entryBytes)
              && (0 <? Z.of_nat (length messages)) then (messages, bytes)
      else fillWindow bounds rest (messages ++ [entry]) (bytes + entryBytes)
  end.

Definition collectReplayWindow (sources : list (list BufferedMessage)) (lastSequenceId : Z)
    (bounds : ReplayBounds) (scope : option ReplayScope) : ReplayWindow :=
  let cands := candidates sources lastSequenceId scope in
  let '(messages, bytes) := fillWindow bounds cands [] 0 in
  let remaining := Z.of_nat (length cands) - Z.of_nat (length messages) in
  mkWindow messages (0 <? remaining) remaining bytes.

Record bufferConfig := mkBufferConfig {
  bc_maxAssets : Z;
  bc_messagesPerAsset : Z;
  bc_maxBytes : Z;
}.

Record replayBuffer := mkBuffer {
  rp_buffers : jsmap string (list BufferedMessage);
  rp_totalBytes : Z;
  rp_totalMessages : Z;
}.

Definition newBuffer : replayBuffer := mkBuffer jm_empty 0 0.

Definition dropOldest (asset : string) (b : replayBuffer) : replayBuffer :=
  match jm_get asset (rp_buffers b) with
  | Some (dropped :: rest) =>
      mkBuffer (jm_set asset rest (rp_buffers b))
        (rp_totalBytes b - messageBytes dropped) (rp_totalMessages b - 1)
  | _ => b
  end.

Definition evictOldestAsset (b : replayBuffer) : replayBuffer :=
  match rp_buffers b with
  | [] => b
  | (oldest, buffer) :: _ =>
      mkBuffer (jm_delete oldest (rp_buffers b))
        (foldl (λ n e, n - messageBytes e) (rp_totalBytes b) buffer)
        (foldl (λ n _, n - 1) (rp_totalMessages b) buffer)
  end.

Definition dropOldestFromOldestAsset (b : replayBuffer) : replayBuffer :=
  match rp_buffers b with
  | [] => b
  | (oldest, _) :: _ =>
      let b' := dropOldest oldest b in
      match jm_get oldest (rp_buffers b') with
      | Some [] => mkBuffer (jm_delete oldest (rp_buffers b'))
                     (rp_totalBytes b') (rp_totalMessages b')
      | _ => b'
      end
  end.

(** [while (buffer.length > this.messagesPerAsset) this.dropOldest(asset)];
    [None] is a loop that is still running when the fuel is spent. *)
Fixpoint trimAsset (fuel : nat) (c : bufferConfig) (asset : string) (b : replayBuffer)
    : option replayBuffer :=
  if bc_messagesPerAsset c <?
       Z.of_nat (length (default [] (jm_get asset (rp_buffers b))))
  then match fuel with
       | O => None
       | S fuel' => trimAsset fuel' c asset (dropOldest asset b)
       end
  else Some b.

(** [while (this.totalBytes > this.maxBytes && this.totalMessages > 0) ...] *)
Fixpoint shrinkBytes (fuel : nat) (c : bufferConfig) (b : replayBuffer) : option replayBuffer :=
  if (bc_maxBytes c <? rp_totalBytes b) && (0 <? rp_totalMessages b)
  then match fuel with
       | O => None
       | S fuel' => shrinkBytes fuel' c (dropOldestFromOldestAsset b)
       end
  else Some b.

(** The entry of [asset] becomes the newest of the map, empty if it is new. *)
Definition touchAsset (c : bufferConfig) (asset : string) (b : replayBuffer) : replayBuffer :=
  match jm_get asset (rp_buffers b) with
  | Some existing =>
      mkBuffer (jm_set asset existing (jm_delete asset (rp_buffers b)))
        (rp_totalBytes b) (rp_totalMessages b)
  | None =>
      let b' := if bc_maxAssets c <=? Z.of_nat (jm_size (rp_buffers b))
                then evictOldestAsset b else b in
      mkBuffer (jm_set asset [] (rp_buffers b')) (rp_totalBytes b') (rp_totalMessages b')
  end.

Definition appendEntry (asset : string) e (b : replayBuffer) : replayBuffer :=
  mkBuffer (jm_set asset (default [] (jm_get asset (rp_buffers b)) ++ [e]) (rp_buffers b))
    (rp_totalBytes b + messageBytes e) (rp_totalMessages b + 1).

Definition push (fuel : nat) (c : bufferConfig) (asset : string) e (b : replayBuffer)
    : option replayBuffer :=
  trimAsset fuel c asset (appendEntry asset e (touchAsset c asset b)) ≫= shrinkBytes fuel c.

Definition sources (assets : option (list string)) (scope : option ReplayScope)
    (b : replayBuffer) : list (list BufferedMessage) :=
  match assets with
  | None =>
      match scope with
      | None => jm_values (rp_buffers b)
      | Some sc => filter (λ e, isAssetPermitted sc (bm_asset e) = true) <$> jm_values (rp_buffers b)
      end
  | Some l =>
      (λ asset, default [] (jm_get asset (rp_buffers b))) <$>
        filter (λ asset, permitted scope asset = true) l
  end.

Definition has (asset : string) (b : replayBuffer) : bool := jm_has asset (rp_buffers b).

Definition stats (b : replayBuffer) : ReplayBufferStats :=
  mkStats (Z.of_nat (jm_size (rp_buffers b))) (rp_totalMessages b) (rp_totalBytes b).

Definition oldestSequence (assets : option (list string)) (b : replayBuffer) : option Z :=
  foldl (λ oldest buffer,
           match buffer with
           | [] => oldest
           | e :: _ =>
               match oldest with
               | None => Some (bm_sequenceId e)
               | Some o => if bm_sequenceId e <? o then Some (bm_sequenceId e) else oldest
               end
           end)
    None (match assets with
          | Some l => (λ asset, default [] (jm_get asset (rp_buffers b))) <$> l
          | None => jm_values (rp_buffers b)
          end).

Definition buffer_clear (b : replayBuffer) : replayBuffer := mkBuffer jm_empty 0 0.
End replay.

(** ** The buffer: accounting, termination and bounds *)

Section buffer_facts.
Context {Data : Type} (stringify : Data → string).
Implicit Types (m : jsmap string (list (BufferedMessage (Data:=Data)))).
Implicit Types (b : replayBuffer (Data:=Data)) (c : bufferConfig).

Fixpoint bytesOf (l : list (BufferedMessage (Data:=Data))) : Z :=
  match l with [] => 0 | e :: l' => messageBytes stringify e + bytesOf l' end.

(** All the messages a map of buffers holds. *)
Definition stored m : list BufferedMessage := mjoin (jm_values m).

(** The counters of the buffer are exact. *)
Definition accounted b : Prop :=
  jm_wf (rp_buffers b) ∧
  rp_totalMessages b = Z.of_nat (length (stored (rp_buffers b))) ∧
  rp_totalBytes b = bytesOf (stored (rp_buffers b)).

(** [b'] holds, per asset, the newest part of what [b] holds. *)
Definition trimmed b b' : Prop :=
  (∀ asset buf', jm_get asset (rp_buffers b') = Some buf' →
     ∃ buf, jm_get asset (rp_buffers b) = Some buf ∧ buf' `suffix_of` buf) ∧
  (jm_size (rp_buffers b') ≤ jm_size (rp_buffers b))%nat.

#[local] Instance trimmed_refl : Reflexive trimmed.
Proof. intros b. split; [|done]. eauto. Qed.

#[local] Instance trimmed_trans : Transitive trimmed.
Proof.
  intros b1 b2 b3 [H12 S12] [H23 S23]. split; [|lia]. intros asset buf3 G3.
  destruct (H23 _ _ G3) as (buf2 & G2 & Hs2). destruct (H12 _ _ G2) as (buf1 & G1 & Hs1).
  exists buf1. split; [done|]. by etrans.
Qed.

Lemma bytesOf_app l k : bytesOf (l ++ k) = bytesOf l + bytesOf k.
Proof. induction l as [|e l IH]; simpl; [done|]. rewrite IH. lia. Qed.

#[local] Instance bytesOf_perm : Proper ((≡ₚ) ==> (=)) bytesOf.
Proof. induction 1; simpl; congruence || lia. Qed.

Lemma messageBytes_pos e : 0 < messageBytes stringify e.
Proof. unfold messageBytes, strlen. lia. Qed.

#[local] Instance stored_perm : Proper ((≡ₚ) ==> (≡ₚ)) stored.
Proof. intros m1 m2 H. unfold stored, jm_values. by rewrite H. Qed.

Lemma stored_cons k v m : stored ((k, v) :: m) = v ++ stored m.
Proof. done. Qed.

Lemma stored_take_out k v m :
  jm_wf m → jm_get k m = Some v → stored m ≡ₚ v ++ stored (jm_delete k m).
Proof. intros Hwf Hg. by rewrite (jm_take_out k v m Hwf Hg) at 1. Qed.

Lemma stored_set k v m : jm_wf m → stored (jm_set k v m) ≡ₚ v ++ stored (jm_delete k m).
Proof. intros Hwf. by rewrite (jm_set_perm k v m Hwf). Qed.

Lemma size_take_out k v m :
  jm_wf m → jm_get k m = Some v → jm_size m = S (jm_size (jm_delete k m)).
Proof. intros Hwf Hg. unfold jm_size. by rewrite (jm_take_out k v m Hwf Hg) at 1. Qed.

Lemma accounted_new : accounted newBuffer.
Proof. split_and!; [apply jm_wf_empty|done..]. Qed.

(** Rewriting the buffer of an asset, with the counters adjusted by the
    difference, keeps the accounts. *)
Lemma accounted_set k old new b dm db :
  accounted b → jm_get k (rp_buffers b) = Some old →
  Z.of_nat (length new) = Z.of_nat (length old) + dm →
  bytesOf new = bytesOf old + db →
  accounted (mkBuffer (jm_set k new (rp_buffers b))
    (rp_totalBytes b + db) (rp_totalMessages b + dm)).
Proof.
  intros (Hwf & Hm & Hb) Hg Hl Hy. split_and!; cbn [rp_buffers rp_totalBytes rp_totalMessages].
  - by apply jm_wf_set.
  - rewrite (stored_set k new _ Hwf), Hm, (stored_take_out k old _ Hwf Hg), !length_app. lia.
  - rewrite (stored_set k new _ Hwf), Hb, (stored_take_out k old _ Hwf Hg), !bytesOf_app. lia.
Qed.

Lemma accounted_delete k v b :
  accounted b → jm_get k (rp_buffers b) = Some v →
  accounted (mkBuffer (jm_delete k (rp_buffers b))
    (rp_totalBytes b - bytesOf v) (rp_totalMessages b - Z.of_nat (length v))).
Proof.
  intros (Hwf & Hm & Hb) Hg. split_and!; cbn [rp_buffers rp_totalBytes rp_totalMessages].
  - by apply jm_wf_delete.
  - rewrite Hm, (stored_take_out k v _ Hwf Hg), length_app. lia.
  - rewrite Hb, (stored_take_out k v _ Hwf Hg), bytesOf_app. lia.
Qed.

Lemma delete_trimmed k b db dm :
  trimmed b (mkBuffer (jm_delete k (rp_buffers b)) db dm).
Proof.
  split; cbn [rp_buffers].
  - intros asset buf. rewrite jm_get_delete. destruct (decide (k = asset)); [done|]. eauto.
  - unfold jm_size. clear. induction (rp_buffers b) as [|[k0 v0] m IH]; simpl; [done|].
    destruct (decide (k0 = k)); simpl; lia.
Qed.

(** One [shift] of an asset's buffer. *)
Lemma dropOldest_spec asset e rest b :
  accounted b → jm_get asset (rp_buffers b) = Some (e :: rest) →
  let b' := dropOldest stringify asset b in
  accounted b' ∧ trimmed b b' ∧ jm_get asset (rp_buffers b') = Some rest ∧
  S (length (stored (rp_buffers b'))) = length (stored (rp_buffers b)) ∧
  jm_size (rp_buffers b') = jm_size (rp_buffers b).
Proof.
  intros Ha Hg b'. pose proof Ha as (Hwf & _).
  assert (b' = mkBuffer (jm_set asset rest (rp_buffers b))
    (rp_totalBytes b + - messageBytes stringify e) (rp_totalMessages b + -1)) as Eb.
  { unfold b', dropOldest. rewrite Hg. f_equal; lia. }
  assert (jm_size (rp_buffers b') = jm_size (rp_buffers b)) as Hsz.
  { rewrite Eb. cbn. apply jm_size_set_old. eauto. }
  split_and!; [..|exact Hsz]; rewrite Eb; cbn [rp_buffers].
  - apply (accounted_set asset (e :: rest)); [done..| |]; simpl; lia.
  - split; cbn [rp_buffers].
    + intros a buf. rewrite jm_get_set. destruct (decide (asset = a)) as [<-|]; [|eauto].
      intros [= <-]. exists (e :: rest). split; [done|]. by exists [e].
    + rewrite jm_size_set_old; [done|eauto].
  - apply jm_get_set_eq.
  - rewrite (stored_set _ _ _ Hwf), (stored_take_out _ _ _ Hwf Hg), !length_app. simpl. lia.
Qed.

(** The first loop of [push] ends, with the asset within its quota. *)
Lemma trimAsset_spec fuel c asset b buf :
  0 ≤ bc_messagesPerAsset c → accounted b →
  jm_get asset (rp_buffers b) = Some buf → (length buf ≤ fuel)%nat →
  ∃ b' buf', trimAsset stringify fuel c asset b = Some b' ∧ accounted b' ∧ trimmed b b' ∧
    jm_get asset (rp_buffers b') = Some buf' ∧
    Z.of_nat (length buf') ≤ bc_messagesPerAsset c ∧
    (length (stored (rp_buffers b')) ≤ length (stored (rp_buffers b)))%nat.
Proof.
  intros Hc. revert b buf. induction fuel as [|fuel IH]; intros b buf Ha Hg Hf.
  - destruct buf; [|simpl in Hf; lia]. simpl. rewrite Hg. simpl.
    rewrite (proj2 (Z.ltb_ge _ 0)) by lia. exists b, []. by split_and!.
  - simpl. rewrite Hg. simpl. destruct (Z.ltb_spec (bc_messagesPerAsset c) (Z.of_nat (length buf))).
    + destruct buf as [|e rest]; [simpl in *; lia|].
      destruct (dropOldest_spec asset e rest b Ha Hg) as (Ha1 & T1 & G1 & L1 & _).
      destruct (IH _ rest Ha1 G1 ltac:(simpl in Hf; lia)) as (b' & buf' & E & Ha' & T' & G' & Q' & L').
      exists b', buf'. split_and!; [done..|by etrans|done|done|lia].
    + exists b, buf. by split_and!.
Qed.

Lemma head_get k v m : jm_get k ((k, v) :: m) = Some v.
Proof. simpl. by rewrite decide_True. Qed.

Lemma evict_totals n k (l : list (BufferedMessage (Data:=Data))) :
  foldl (λ n e, n - messageBytes stringify e) n l = n - bytesOf l ∧
  foldl (λ n _, n - 1) k l = k - Z.of_nat (length l).
Proof.
  revert n k. induction l as [|e l IH]; intros n k; simpl; [lia|].
  destruct (IH (n - messageBytes stringify e) (k - 1)) as [-> ->]. lia.
Qed.

Lemma evictOldestAsset_spec b :
  accounted b →
  let b' := evictOldestAsset stringify b in
  accounted b' ∧ trimmed b b' ∧
  (length (stored (rp_buffers b')) ≤ length (stored (rp_buffers b)))%nat ∧
  jm_size (rp_buffers b') = pred (jm_size (rp_buffers b)).
Proof.
  intros Ha. unfold evictOldestAsset. destruct (rp_buffers b) as [|[k v] m] eqn:Em.
  { rewrite Em. by split_and!. }
  destruct (evict_totals (rp_totalBytes b) (rp_totalMessages b) v) as [-> ->].
  pose proof Ha as (Hwf & _). rewrite Em in Hwf.
  assert (jm_get k (rp_buffers b) = Some v) as Hg by (rewrite Em; apply head_get).
  rewrite <- Em. split_and!.
  - by apply accounted_delete.
  - apply delete_trimmed.
  - cbn [rp_buffers]. rewrite Em. rewrite (stored_take_out k v ((k, v) :: m) Hwf (head_get _ _ _)).
    rewrite length_app. lia.
  - cbn [rp_buffers]. rewrite Em. by rewrite (size_take_out k v ((k, v) :: m) Hwf (head_get _ _ _)).
Qed.

(** What is left to remove strictly decreases while there is a message. *)
Definition weight b : nat := (length (stored (rp_buffers b)) + jm_size (rp_buffers b))%nat.

Lemma delete_empty_spec k b :
  accounted b → jm_get k (rp_buffers b) = Some [] →
  let b' := mkBuffer (jm_delete k (rp_buffers b)) (rp_totalBytes b) (rp_totalMessages b) in
  accounted b' ∧ trimmed b b' ∧ S (weight b') = weight b.
Proof.
  intros Ha Hg. pose proof Ha as (Hwf & _). split_and!.
  - pose proof (accounted_delete k [] b Ha Hg) as H. simpl in H. by rewrite !Z.sub_0_r in H.
  - apply delete_trimmed.
  - unfold weight. cbn [rp_buffers].
    rewrite (size_take_out k [] _ Hwf Hg), (stored_take_out k [] _ Hwf Hg). simpl. lia.
Qed.

Lemma dropOldestFromOldestAsset_spec b :
  accounted b → rp_buffers b ≠ [] →
  let b' := dropOldestFromOldestAsset stringify b in
  accounted b' ∧ trimmed b b' ∧ (weight b' < weight b)%nat.
Proof.
  intros Ha Hne. unfold dropOldestFromOldestAsset.
  destruct (rp_buffers b) as [|[k v] m] eqn:Em; [done|].
  assert (jm_get k (rp_buffers b) = Some v) as Hg by (rewrite Em; apply head_get).
  destruct v as [|e rest].
  - assert (dropOldest stringify k b = b) as -> by (unfold dropOldest; by rewrite Hg).
    rewrite Hg. destruct (delete_empty_spec k b Ha Hg) as (H1 & H2 & H3). split_and!; [done..|lia].
  - destruct (dropOldest_spec k e rest b Ha Hg) as (Ha1 & T1 & G1 & L1 & S1).
    rewrite G1. set (b1 := dropOldest stringify k b) in *.
    assert (S (weight b1) = weight b) as W1 by (unfold weight; lia).
    destruct rest as [|e' rest]; [|split_and!; [done..|lia]].
    destruct (delete_empty_spec k b1 Ha1 G1) as (H1 & H2 & H3).
    split_and!; [done|by etrans|lia].
Qed.

(** The second loop of [push] ends within the byte ceiling. *)
Lemma shrinkBytes_spec fuel c b :
  accounted b → (weight b ≤ fuel)%nat →
  ∃ b', shrinkBytes stringify fuel c b = Some b' ∧ accounted b' ∧ trimmed b b' ∧
    rp_totalBytes b' ≤ Z.max 0 (bc_maxBytes c) ∧ (weight b' ≤ weight b)%nat.
Proof.
  revert b. induction fuel as [|fuel IH]; intros b Ha Hf.
  - pose proof Ha as (_ & Hm & Hb). assert (stored (rp_buffers b) = []) as Hs.
    { apply nil_length_inv. unfold weight in Hf. lia. }
    rewrite Hs in Hm, Hb. simpl in *. rewrite Hm, andb_false_r. exists b. split_and!; [done..|lia|done].
  - simpl. destruct ((bc_maxBytes c <? rp_totalBytes b) && (0 <? rp_totalMessages b)) eqn:E.
    + to_prop. assert (rp_buffers b ≠ []) as Hne.
      { intros Hn. destruct Ha as (_ & Hm & _). rewrite Hn in Hm. simpl in Hm. lia. }
      destruct (dropOldestFromOldestAsset_spec b Ha Hne) as (Ha1 & T1 & W1).
      destruct (IH _ Ha1 ltac:(lia)) as (b' & E' & Ha' & T' & B' & W').
      exists b'. split_and!; [done..|by etrans|done|lia].
    + exists b. split_and!; [done..| |done]. apply andb_false_iff in E as [E|E]; to_prop; [lia|].
      pose proof Ha as (_ & Hm & Hb). assert (stored (rp_buffers b) = []) as Hs.
      { apply nil_length_inv. lia. }
      rewrite Hs in Hb. simpl in Hb. lia.
Qed.

Lemma touchAsset_spec c asset b :
  accounted b → Z.of_nat (jm_size (rp_buffers b)) ≤ Z.max 1 (bc_maxAssets c) →
  let b' := touchAsset stringify c asset b in
  accounted b' ∧
  jm_get asset (rp_buffers b') = Some (default [] (jm_get asset (rp_buffers b))) ∧
  (∀ a buf', a ≠ asset → jm_get a (rp_buffers b') = Some buf' →
     ∃ buf, jm_get a (rp_buffers b) = Some buf ∧ buf' `suffix_of` buf) ∧
  Z.of_nat (jm_size (rp_buffers b')) ≤ Z.max 1 (bc_maxAssets c) ∧
  (weight b' ≤ S (weight b))%nat.
Proof.
  intros Ha Hsz. pose proof Ha as (Hwf & Hm & Hb). unfold touchAsset.
  destruct (jm_get asset (rp_buffers b)) as [old|] eqn:Eg; simpl.
  - set (m' := jm_set asset old (jm_delete asset (rp_buffers b))).
    assert (m' ≡ₚ rp_buffers b) as Hp.
    { unfold m'. rewrite (jm_set_perm _ _ _ (jm_wf_delete _ _ Hwf)).
      rewrite (jm_delete_notin asset (jm_delete _ _)) by (apply jm_get_None, jm_get_delete_eq).
      symmetry. by apply jm_take_out. }
    split_and!; cbn [rp_buffers rp_totalBytes rp_totalMessages].
    + split_and!; cbn [rp_buffers rp_totalBytes rp_totalMessages]; [|by rewrite Hp..].
      by apply jm_wf_set, jm_wf_delete.
    + apply jm_get_set_eq.
    + intros a buf' Hne. unfold m'. rewrite jm_get_set_ne, jm_get_delete_ne by done. eauto.
    + unfold jm_size in *. by rewrite Hp.
    + unfold weight, jm_size. cbn [rp_buffers]. rewrite Hp. lia.
  - set (b0 := if bc_maxAssets c <=? Z.of_nat (jm_size (rp_buffers b))
               then evictOldestAsset stringify b else b).
    assert (accounted b0 ∧ trimmed b b0 ∧ (weight b0 ≤ weight b)%nat ∧
      Z.of_nat (jm_size (rp_buffers b0)) + 1 ≤ Z.max 1 (bc_maxAssets c)) as (Ha0 & T0 & W0 & S0).
    { destruct (evictOldestAsset_spec b Ha) as (? & ? & ? & Hs). unfold b0.
      destruct (Z.leb_spec (bc_maxAssets c) (Z.of_nat (jm_size (rp_buffers b)))).
      - split_and!; [done..|unfold weight in *; lia|lia].
      - split_and!; [done..|lia]. }
    assert (jm_get asset (rp_buffers b0) = None) as Eg0.
    { destruct (jm_get asset (rp_buffers b0)) eqn:E0; [|done].
      destruct (proj1 T0 _ _ E0) as (? & ? & _). congruence. }
    pose proof Ha0 as (Hwf0 & Hm0 & Hb0).
    assert (stored (jm_set asset [] (rp_buffers b0)) ≡ₚ stored (rp_buffers b0)) as Hp.
    { rewrite (stored_set _ _ _ Hwf0), jm_delete_notin; [done|]. by apply jm_get_None. }
    split_and!; cbn [rp_buffers rp_totalBytes rp_totalMessages].
    + split_and!; cbn [rp_buffers rp_totalBytes rp_totalMessages]; [|by rewrite Hp..].
      by apply jm_wf_set.
    + apply jm_get_set_eq.
    + intros a buf' Hne. rewrite jm_get_set_ne by done. apply (proj1 T0).
    + rewrite jm_size_set_new by done. lia.
    + unfold weight in *. cbn [rp_buffers]. rewrite Hp, jm_size_set_new by done. lia.
Qed.

(** The messages pushed for an asset, in order. *)
Definition pushedTo (asset : string) (ps : list (string * BufferedMessage (Data:=Data)))
    : list BufferedMessage :=
  (filter (λ p, p.1 = asset) ps).*2.

Fixpoint pushAll (fuel : nat) c (ps : list (string * BufferedMessage (Data:=Data))) b
    : option replayBuffer :=
  match ps with
  | [] => Some b
  | (asset, e) :: ps' => push stringify fuel c asset e b ≫= pushAll fuel c ps'
  end.

(** What holds of the buffer after the pushes [ps]. *)
Record bounded c (ps : list (string * BufferedMessage)) b : Prop := {
  bd_accounted : accounted b;
  bd_quota asset buf : jm_get asset (rp_buffers b) = Some buf →
    Z.of_nat (length buf) ≤ bc_messagesPerAsset c ∧ buf `suffix_of` pushedTo asset ps;
  bd_assets : Z.of_nat (jm_size (rp_buffers b)) ≤ Z.max 1 (bc_maxAssets c);
  bd_bytes : rp_totalBytes b ≤ Z.max 0 (bc_maxBytes c);
  bd_weight : (weight b ≤ 2 * length ps)%nat;
}.

Lemma stored_get_length k v m :
  jm_wf m → jm_get k m = Some v → (length v ≤ length (stored m))%nat.
Proof. intros Hwf Hg. rewrite (stored_take_out k v m Hwf Hg), length_app. lia. Qed.

Lemma suffix_length_Z (l k : list (BufferedMessage (Data:=Data))) :
  l `suffix_of` k → Z.of_nat (length l) ≤ Z.of_nat (length k).
Proof. intros H%suffix_length. lia. Qed.

Lemma pushedTo_snoc asset a e ps :
  pushedTo a (ps ++ [(asset, e)]) =
    pushedTo a ps ++ (if decide (asset = a) then [e] else []).
Proof.
  unfold pushedTo. rewrite filter_app, fmap_app. f_equal.
  rewrite filter_cons, filter_nil. simpl. by destruct (decide (asset = a)).
Qed.

Lemma push_bounded fuel c asset e ps b :
  0 ≤ bc_messagesPerAsset c → bounded c ps b → (2 * length ps + 2 ≤ fuel)%nat →
  ∃ b', push stringify fuel c asset e b = Some b' ∧ bounded c (ps ++ [(asset, e)]) b'.
Proof.
  intros Hc [Ha Hq Hs Hy Hw] Hf.
  destruct (touchAsset_spec c asset b Ha Hs) as (Ha1 & G1 & O1 & S1 & W1).
  unfold push. set (b1 := touchAsset stringify c asset b) in *.
  set (old := default [] (jm_get asset (rp_buffers b))) in *.
  assert (accounted (appendEntry stringify asset e b1) ∧
    jm_get asset (rp_buffers (appendEntry stringify asset e b1)) = Some (old ++ [e]) ∧
    weight (appendEntry stringify asset e b1) = S (weight b1) ∧
    jm_size (rp_buffers (appendEntry stringify asset e b1)) = jm_size (rp_buffers b1))
    as (Ha2 & G2 & W2 & S2).
  { pose proof Ha1 as (Hwf1 & _). unfold appendEntry. rewrite G1. cbn [default rp_buffers]. split_and!.
    - apply (accounted_set asset old); [done..| |]; rewrite ?length_app, ?bytesOf_app; simpl; lia.
    - apply jm_get_set_eq.
    - unfold weight. cbn [rp_buffers]. rewrite jm_size_set_old by eauto.
      rewrite (stored_set _ _ _ Hwf1), (stored_take_out _ _ _ Hwf1 G1), !length_app. simpl. lia.
    - apply jm_size_set_old. eauto. }
  assert (∀ a buf', a ≠ asset → jm_get a (rp_buffers (appendEntry stringify asset e b1)) = Some buf' →
    ∃ buf, jm_get a (rp_buffers b) = Some buf ∧ buf' `suffix_of` buf) as O2.
  { intros a buf' Hne. cbn [appendEntry rp_buffers]. rewrite jm_get_set_ne by done. by apply O1. }
  assert (old `suffix_of` pushedTo asset ps) as Hold.
  { unfold old. destruct (jm_get asset (rp_buffers b)) eqn:E; [by apply (Hq asset)|apply suffix_nil]. }
  set (b2 := appendEntry stringify asset e b1) in *. clearbody b1 b2.
  destruct (trimAsset_spec fuel c asset b2 (old ++ [e]) Hc Ha2 G2) as (b3 & buf3 & E3 & Ha3 & T3 & G3 & Q3 & L3).
  { pose proof (stored_get_length _ _ _ (proj1 Ha2) G2). unfold weight in *. lia. }
  assert (weight b3 ≤ weight b2)%nat as W3 by (unfold weight; destruct T3; lia).
  destruct (shrinkBytes_spec fuel c b3 Ha3 ltac:(lia)) as (b4 & E4 & Ha4 & T4 & B4 & W4).
  rewrite E3. exists b4. split; [exact E4|]. constructor; [done| |destruct T3, T4; lia|done|].
  - intros a buf4 G4. rewrite pushedTo_snoc. destruct (proj1 T4 _ _ G4) as (bufa & Ga & Sa).
    destruct (decide (asset = a)) as [<-|Hne].
    + assert (bufa = buf3) as -> by congruence. split; [apply suffix_length_Z in Sa; lia|].
      destruct (proj1 T3 _ _ G3) as (buf2 & G2' & S2'). assert (buf2 = old ++ [e]) as -> by congruence.
      etrans; [exact Sa|]. etrans; [exact S2'|]. by apply suffix_app.
    + destruct (proj1 T3 _ _ Ga) as (buf2 & G2' & S2').
      destruct (O2 a buf2 (not_eq_sym Hne) G2') as (buf & Gb & Sb).
      assert (buf4 `suffix_of` buf) as Sx by (by etrans; [exact Sa|etrans]).
      destruct (Hq _ _ Gb) as [Q0 S0]. rewrite app_nil_r.
      split; [apply suffix_length_Z in Sx; lia|by etrans].
  - rewrite length_app. simpl. lia.
Qed.

Lemma pushAll_bounded fuel c ps ps0 b :
  0 ≤ bc_messagesPerAsset c → bounded c ps0 b →
  (2 * (length ps0 + length ps) ≤ fuel)%nat →
  ∃ b', pushAll fuel c ps b = Some b' ∧ bounded c (ps0 ++ ps) b'.
Proof.
  intros Hc. revert ps0 b. induction ps as [|[asset e] ps IH]; intros ps0 b Hb Hf.
  - exists b. by rewrite app_nil_r.
  - simpl in *. destruct (push_bounded fuel c asset e ps0 b Hc Hb ltac:(lia)) as (b1 & -> & Hb1).
    destruct (IH (ps0 ++ [(asset, e)]) b1 Hb1) as (b' & E & Hb').
    { rewrite length_app. simpl. lia. }
    exists b'. split; [exact E|]. by rewrite <- app_assoc in Hb'.
Qed.

Lemma bounded_new c : bounded c [] newBuffer.
Proof. constructor; [apply accounted_new|done|simpl; lia|simpl; lia|done]. Qed.

(** C38: Every push terminates and memory is bounded: whatever messages are pushed,
    both eviction loops end; the counters then equal the number and the size of
    the stored messages, no asset exceeds its quota, neither the number of
    assets nor the bytes exceed their ceilings (one asset is kept even when the
    ceiling is zero), and what is kept of each asset is the newest part of what
    was pushed for it. *)
Theorem buffer_bounded fuel c ps :
  0 ≤ bc_messagesPerAsset c → (2 * length ps ≤ fuel)%nat →
  ∃ b, pushAll fuel c ps newBuffer = Some b ∧
    stats b = mkStats (Z.of_nat (jm_size (rp_buffers b)))
                (Z.of_nat (length (stored (rp_buffers b)))) (bytesOf (stored (rp_buffers b))) ∧
    st_assets (stats b) ≤ Z.max 1 (bc_maxAssets c) ∧
    st_bytes (stats b) ≤ Z.max 0 (bc_maxBytes c) ∧
    (∀ asset buf, jm_get asset (rp_buffers b) = Some buf →
       Z.of_nat (length buf) ≤ bc_messagesPerAsset c ∧ buf `suffix_of` pushedTo asset ps).
Proof.
  intros Hc Hf. destruct (pushAll_bounded fuel c ps [] newBuffer Hc (bounded_new c) Hf)
    as (b & E & [(Hwf & Hm & Hb) Hq Hs Hy _]).
  exists b. unfold stats. rewrite Hm, Hb in *. by split_and!.
Qed.
End buffer_facts.

(** ** The window *)

Section window_facts.
Context {Data : Type} (stringify : Data → string).
Implicit Types (e : BufferedMessage (Data:=Data)) (srcs : list (list (BufferedMessage (Data:=Data)))).
Implicit Types (bounds : ReplayBounds) (scope : option ReplayScope) (cursor : Z).

Lemma candidates_elem srcs cursor scope e :
  e ∈ candidates srcs cursor scope ↔
    (∃ src, e ∈ src ∧ src ∈ srcs) ∧ cursor < bm_sequenceId e ∧ permitted scope (bm_asset e) = true.
Proof.
  unfold candidates. rewrite elem_of_stable_sort, list_elem_of_filter, list_elem_of_join. naive_solver.
Qed.

Lemma bySequence_leb e1 e2 :
  cmp_leb bySequence e1 e2 = true ↔ bm_sequenceId e1 ≤ bm_sequenceId e2.
Proof.
  unfold cmp_leb, bySequence, cmp_on.
  destruct (Z.compare_spec (bm_sequenceId e1) (bm_sequenceId e2)); split; (done || lia).
Qed.

#[local] Instance bySequence_laws : cmp_laws (bySequence (Data:=Data)).
Proof. unfold bySequence. apply _. Qed.

Abbreviation seq_le := (λ e1 e2 : BufferedMessage (Data:=Data), bm_sequenceId e1 ≤ bm_sequenceId e2).

Lemma candidates_sorted srcs cursor scope : StronglySorted seq_le (candidates srcs cursor scope).
Proof.
  pose proof (cmp_sorted bySequence (filter (λ e, cursor < bm_sequenceId e ∧
    permitted scope (bm_asset e) = true) (mjoin srcs))) as H.
  unfold candidates. induction H as [|e l Hs IH Hall]; constructor; [done|].
  eapply Forall_impl; [exact Hall|]. intros x. apply bySequence_leb.
Qed.

(** The loop stops at a longest prefix that respects the bounds. *)
Lemma fillWindow_spec bounds cands acc bytes :
  ∃ n, fillWindow stringify bounds cands acc bytes =
         (acc ++ take n cands, bytes + bytesOf stringify (take n cands)) ∧
    (n ≤ length cands)%nat ∧
    (n = 0%nat ∨ Z.of_nat (length acc + n) ≤ rb_maxMessages bounds) ∧
    (n = 0%nat ∨ (length acc + n = 1)%nat ∨
       bytes + bytesOf stringify (take n cands) ≤ rb_maxBytes bounds) ∧
    (∀ e, cands !! n = Some e →
       rb_maxMessages bounds ≤ Z.of_nat (length acc + n) ∨
       (0 < length acc + n)%nat ∧
         rb_maxBytes bounds < bytes + bytesOf stringify (take n cands) + messageBytes stringify e).
Proof.
  revert acc bytes. induction cands as [|e cands IH]; intros acc bytes.
  { exists 0%nat. simpl. rewrite app_nil_r, Z.add_0_r. split_and!; auto. done. }
  cbn [fillWindow]. destruct (Z.leb_spec (rb_maxMessages bounds) (Z.of_nat (length acc))) as [Hfull|Hroom].
  { exists 0%nat. simpl. rewrite app_nil_r, Z.add_0_r. split_and!; [done|lia|auto..|].
    intros ? _. left. lia. }
  destruct ((rb_maxBytes bounds <? bytes + messageBytes stringify e) && (0 <? Z.of_nat (length acc))) eqn:Eb.
  { to_prop. exists 0%nat. simpl. rewrite app_nil_r, !Z.add_0_r. split_and!; [done|lia|auto..|].
    intros e' [= <-]. right. lia. }
  destruct (IH (acc ++ [e]) (bytes + messageBytes stringify e)) as (n & E & Hn & Hc & Hb & Hx).
  exists (S n). rewrite E. simpl. rewrite <- app_assoc. simpl.
  assert (length (acc ++ [e]) + n = length acc + S n)%nat as Hlen by (rewrite length_app; simpl; lia).
  rewrite Hlen in Hc, Hb, Hx. split_and!.
  - f_equal. lia.
  - lia.
  - right. destruct Hc as [->|?]; lia.
  - right. destruct Hb as [->|[?|?]]; [|lia|right; lia].
    apply andb_false_iff in Eb as [?|?]; to_prop; [right; simpl; lia|left; lia].
  - intros e' He'. destruct (Hx e' He') as [?|[? ?]]; [by left|right]. lia.
Qed.

Lemma collect_prefix srcs cursor bounds scope :
  let cands := candidates srcs cursor scope in
  let w := collectReplayWindow stringify srcs cursor bounds scope in
  ∃ n, rw_messages w = take n cands ∧ (n ≤ length cands)%nat ∧
    Z.of_nat n ≤ Z.max 0 (rb_maxMessages bounds) ∧
    rw_bytes w = bytesOf stringify (rw_messages w) ∧
    (n = 1%nat ∨ rw_bytes w ≤ Z.max 0 (rb_maxBytes bounds)) ∧
    rw_remaining w = Z.of_nat (length cands) - Z.of_nat n ∧
    (rw_truncated w = true ↔ (n < length cands)%nat) ∧
    (∀ e, cands !! n = Some e →
       rb_maxMessages bounds ≤ Z.of_nat n ∨
       (0 < n)%nat ∧ rb_maxBytes bounds < rw_bytes w + messageBytes stringify e).
Proof.
  intros cands w.
  destruct (fillWindow_spec bounds cands [] 0) as (n & E & Hn & Hc & Hb & Hx).
  exists n. unfold w, collectReplayWindow. fold cands. rewrite E.
  cbn [rw_messages rw_bytes rw_remaining rw_truncated app length]. simpl in *.
  rewrite length_take, Nat.min_l by lia. split_and!; [done|done|lia|done| |done| |].
  - destruct Hb as [->|[?|?]]; [right; simpl; lia|by left|right; lia].
  - rewrite Z.ltb_lt. lia.
  - intros e He. destruct (Hx e He) as [?|[? ?]]; [left; lia|right]. lia.
Qed.

(** A replay window is bounded and maximal: it is a prefix of the messages
    after the cursor that the scope permits, in sequence order; it has at most
    [maxMessages] messages and at most [maxBytes] bytes unless it is a single
    message; the message after it would break a bound; and the counters
    reported to the client are exact. *)
Theorem window_bounded srcs cursor bounds scope :
  let cands := candidates srcs cursor scope in
  let w := collectReplayWindow stringify srcs cursor bounds scope in
  StronglySorted seq_le cands ∧
  (∀ e, e ∈ cands ↔ (∃ src, e ∈ src ∧ src ∈ srcs) ∧ cursor < bm_sequenceId e ∧
                     permitted scope (bm_asset e) = true) ∧
  ∃ n, rw_messages w = take n cands ∧ (n ≤ length cands)%nat ∧
    Z.of_nat n ≤ Z.max 0 (rb_maxMessages bounds) ∧
    rw_bytes w = bytesOf stringify (rw_messages w) ∧
    (n = 1%nat ∨ rw_bytes w ≤ Z.max 0 (rb_maxBytes bounds)) ∧
    rw_remaining w = Z.of_nat (length cands) - Z.of_nat n ∧
    (rw_truncated w = true ↔ (n < length cands)%nat) ∧
    (∀ e, cands !! n = Some e →
       rb_maxMessages bounds ≤ Z.of_nat n ∨
       (0 < n)%nat ∧ rb_maxBytes bounds < rw_bytes w + messageBytes stringify e).
Proof.
  split_and!; [apply candidates_sorted|apply candidates_elem|apply collect_prefix].
Qed.

(** ** Resuming *)

(** The cursor a client continues from: the last delivered sequence number. *)
Definition nextCursor cursor (ms : list (BufferedMessage (Data:=Data))) : Z :=
  match last ms with Some e => bm_sequenceId e | None => cursor end.

(** A client that asks again while the answer is truncated. *)
Fixpoint resume (pages : nat) srcs bounds scope cursor : list (BufferedMessage (Data:=Data)) :=
  match pages with
  | O => []
  | S pages' =>
      let w := collectReplayWindow stringify srcs cursor bounds scope in
      rw_messages w ++
        (if rw_truncated w then resume pages' srcs bounds scope (nextCursor cursor (rw_messages w))
         else [])
  end.

Lemma unique_seq srcs e1 e2 :
  NoDup (bm_sequenceId <$> mjoin srcs) → e1 ∈ mjoin srcs → e2 ∈ mjoin srcs →
  bm_sequenceId e1 = bm_sequenceId e2 → e1 = e2.
Proof.
  intros Hnd [i H1]%list_elem_of_lookup [j H2]%list_elem_of_lookup Heq.
  assert (i = j) as ->; [|congruence].
  eapply NoDup_lookup; [exact Hnd|..]; rewrite list_lookup_fmap; [by rewrite H1|by rewrite H2; simpl; congruence].
Qed.

(** Past the cursor of a delivered prefix lie exactly the undelivered messages. *)
Lemma candidates_drop srcs cursor scope pre e rest :
  NoDup (bm_sequenceId <$> mjoin srcs) →
  candidates srcs cursor scope = pre ++ e :: rest →
  candidates srcs (bm_sequenceId e) scope = rest.
Proof.
  intros Hnd Hc.
  assert (∀ x, x ∈ candidates srcs cursor scope → x ∈ mjoin srcs) as Hin.
  { intros x ([src ?] & _)%candidates_elem. apply list_elem_of_join. naive_solver. }
  pose proof (candidates_sorted srcs cursor scope) as Hs. rewrite Hc in Hs.
  apply StronglySorted_app in Hs as (Hpre & _ & Hs). apply StronglySorted_inv in Hs as [Hs Hall].
  assert (candidates srcs (bm_sequenceId e) scope ≡ₚ rest) as Hp.
  { assert (cursor < bm_sequenceId e) as Hlt.
    { apply (candidates_elem srcs cursor scope e). rewrite Hc. set_solver. }
    assert (NoDup (candidates srcs cursor scope)) as Hndc.
    { unfold candidates. rewrite stable_sort_perm. apply NoDup_filter. by apply NoDup_fmap_1 in Hnd. }
    apply NoDup_Permutation.
    - unfold candidates. rewrite stable_sort_perm. apply NoDup_filter. by apply NoDup_fmap_1 in Hnd.
    - rewrite Hc in Hndc. apply NoDup_app in Hndc as (_ & _ & Hndc). by apply NoDup_cons in Hndc as [_ ?].
    - intros x. rewrite Hc in Hndc. apply NoDup_app in Hndc as (_ & _ & Hndc).
      apply NoDup_cons in Hndc as [Hni _]. split.
      + intros (Hsrc & Hx & Hperm)%candidates_elem.
        assert (x ∈ candidates srcs cursor scope) as Hxc by (apply candidates_elem; split_and!; [done|lia|done]).
        rewrite Hc in Hxc. apply elem_of_app in Hxc as [Hxc|[->|?]%elem_of_cons]; [|lia|done].
        specialize (Hpre x e Hxc (list_elem_of_here _ _)). simpl in Hpre. lia.
      + intros Hx. assert (x ∈ candidates srcs cursor scope) as Hxc by (rewrite Hc; set_solver).
        pose proof Hxc as (Hsrc & _ & Hperm)%candidates_elem. apply candidates_elem.
        split_and!; [done| |done]. rewrite Forall_forall in Hall. specialize (Hall x Hx). simpl in Hall.
        destruct (decide (bm_sequenceId e = bm_sequenceId x)) as [Heq|]; [|lia].
        assert (e = x) as ->; [|done]. eapply unique_seq; [exact Hnd|..|done]; apply Hin; [|done].
        rewrite Hc. set_solver. }
  eapply StronglySorted_unique_strong; [|apply candidates_sorted|exact Hs|exact Hp].
  intros x y Hx Hy Hxy Hyx. rewrite Hp in Hx. simpl in *.
  eapply unique_seq; [exact Hnd|..|lia]; apply Hin; rewrite Hc; set_solver.
Qed.

(** Following the cursor loses and repeats nothing: when sequence numbers are
    unique and a window may hold a message, a client that requests the next
    window from the last sequence number it received, until an answer is not
    truncated, receives every retained message after its cursor that its scope
    permits, each once and in sequence order, within as many requests as there
    are messages. *)
Theorem replay_resumes srcs bounds scope cursor pages :
  NoDup (bm_sequenceId <$> mjoin srcs) → 0 < rb_maxMessages bounds →
  (length (candidates srcs cursor scope) ≤ pages)%nat →
  resume pages srcs bounds scope cursor = candidates srcs cursor scope.
Proof.
  intros Hnd Hmax. revert cursor. induction pages as [|pages IH]; intros cursor Hp.
  { symmetry. apply nil_length_inv. lia. }
  cbn [resume]. destruct (collect_prefix srcs cursor bounds scope)
    as (n & Em & Hn & _ & _ & _ & _ & Ht & Hx).
  rewrite Em. destruct (rw_truncated _) eqn:Etr.
  - assert (n < length (candidates srcs cursor scope))%nat as Hlt by (by apply Ht).
    destruct (lookup_lt_is_Some_2 _ _ Hlt) as [e He]. clear Ht.
    destruct n as [|n]; [exfalso; destruct (Hx e He); lia|].
    destruct (lookup_lt_is_Some_2 (candidates srcs cursor scope) n ltac:(lia)) as [e' He'].
    rewrite (take_S_r _ _ _ He'). unfold nextCursor. rewrite last_snoc.
    pose proof (take_drop_middle _ _ _ He') as Hsplit. symmetry in Hsplit.
    pose proof (candidates_drop _ _ _ _ _ _ Hnd Hsplit) as Hrest.
    rewrite IH, Hrest; [|rewrite Hrest, length_drop; lia]. by rewrite <- app_assoc.
  - rewrite app_nil_r. apply take_ge. destruct (decide (n < length (candidates srcs cursor scope)))%nat; [|lia].
    apply Ht in l. done.
Qed.
End window_facts.

(** ** The limiter is a sliding-window log *)

Section limiter_facts.
Implicit Types (l : limiter) (key : string) (now : Z).

Inductive limiter_op := LAllow (key : string) (now : Z) | LPrune (now : Z).
Definition op_time (o : limiter_op) : Z := match o with LAllow _ t | LPrune t => t end.

(** The specification: the log of all granted requests. *)
Abbreviation granted := (list (string * Z)).
Definition inWindow (w a : Z) key (g : granted) : list Z :=
  filter (λ t, a - t < w) (filter (λ p, p.1 = key) g).*2.

Definition limiter_step (o : limiter_op) (s : limiter * granted) : limiter * granted :=
  let '(l, g) := s in
  match o with
  | LAllow key now =>
      let '(l', ok) := allow key now l in (l', if ok then g ++ [(key, now)] else g)
  | LPrune now => (prune now l, g)
  end.

Definition run_limiter (ops : list limiter_op) (s : limiter * granted) : limiter * granted :=
  foldl (flip limiter_step) s ops.

(** The limiter's lists agree with the log on every window that ends at or
    after the last operation. *)
Definition follows (T maxR w : Z) (s : limiter * granted) : Prop :=
  rl_maxRequests s.1 = maxR ∧ rl_windowMs s.1 = w ∧ jm_wf (rl_hits s.1) ∧
  (∀ key now, T ≤ now →
     filter (λ t, now - t < w) (default [] (jm_get key (rl_hits s.1))) = inWindow w now key s.2) ∧
  (∀ p, p ∈ s.2 → p.2 ≤ T) ∧
  (∀ key a, Z.of_nat (length (filter (λ t, t ≤ a) (inWindow w a key s.2))) ≤ Z.max 0 maxR).

Lemma inWindow_snoc w a key g k t :
  inWindow w a key (g ++ [(k, t)]) =
    inWindow w a key g ++ (if decide (k = key ∧ a - t < w) then [t] else []).
Proof.
  unfold inWindow. rewrite filter_app, fmap_app, filter_app. f_equal.
  rewrite filter_cons, filter_nil. simpl. destruct (decide (k = key)) as [->|Hne]; simpl.
  - rewrite filter_cons, filter_nil. destruct (decide (a - t < w)).
    + by rewrite decide_True.
    + by rewrite decide_False by tauto.
  - by rewrite decide_False by tauto.
Qed.

Lemma filter_later (w now now' : Z) (ts : list Z) :
  now ≤ now' → filter (λ t, now' - t < w) (filter (λ t, now - t < w) ts) = filter (λ t, now' - t < w) ts.
Proof.
  intros Hle. rewrite list_filter_filter. apply list_filter_iff. intros t. lia.
Qed.

Lemma pruneHits_cons l now k ts h :
  pruneHits now l ((k, ts) :: h) =
    match recentHits l now ts with
    | [] => pruneHits now l h
    | recent => (k, recent) :: pruneHits now l h
    end.
Proof. unfold pruneHits. simpl. by destruct (recentHits l now ts). Qed.

Lemma pruneHits_keys l now h k : k ∈ jm_keys (pruneHits now l h) → k ∈ jm_keys h.
Proof.
  induction h as [|[k0 ts] h IH]; [done|]. rewrite pruneHits_cons. simpl.
  destruct (recentHits l now ts); simpl; set_solver.
Qed.

Lemma pruneHits_wf l now h : jm_wf h → jm_wf (pruneHits now l h).
Proof.
  unfold jm_wf. induction h as [|[k ts] h IH]; [done|]. intros [Hk Hnd]%NoDup_cons.
  rewrite pruneHits_cons. destruct (recentHits l now ts); [by apply IH|].
  constructor; [|by apply IH]. by intros ?%pruneHits_keys.
Qed.

Lemma pruneHits_get l now key h :
  jm_wf h →
  default [] (jm_get key (pruneHits now l h)) = recentHits l now (default [] (jm_get key h)).
Proof.
  unfold jm_wf. induction h as [|[k ts] h IH]; [done|]. intros [Hk Hnd]%NoDup_cons.
  rewrite pruneHits_cons. simpl. destruct (recentHits l now ts) as [|t r] eqn:Er; simpl;
    destruct (decide (k = key)) as [->|Hne]; rewrite ?Er; [|by apply IH|done|by apply IH].
  destruct (jm_get key (pruneHits now l h)) eqn:Eg; [|by rewrite <- Er].
  destruct Hk. eapply pruneHits_keys, list_elem_of_fmap. exists (key, l0). split; [done|].
  by apply jm_get_elem.
Qed.

Lemma follows_new maxR w T : follows T maxR w (newLimiter maxR w, []).
Proof. split_and!; [done..|apply jm_wf_empty|done|set_solver|]. intros. simpl. lia. Qed.

Lemma follows_allow T maxR w key now l g :
  follows T maxR w (l, g) → T ≤ now → follows now maxR w (limiter_step (LAllow key now) (l, g)).
Proof.
  intros (Hm & Hw & Hwf & Hf & Ht & Hb) Hle. simpl in *. unfold allow, recentHits. rewrite Hm, Hw.
  rewrite (Hf key now Hle). pose proof (Hf key) as Hkey.
  destruct (Z.leb_spec maxR (Z.of_nat (length (inWindow w now key g)))) as [Hfull|Hroom].
  - split_and!; simpl; [done..|by apply jm_wf_set| | |done].
    + intros k now' Hle'. rewrite jm_get_set. destruct (decide (key = k)) as [<-|]; simpl; [|apply Hf; lia].
      unfold inWindow at 1. by rewrite filter_later by done.
    + intros p Hp. specialize (Ht p Hp). lia.
  - split_and!; simpl; [done..|by apply jm_wf_set| | |].
    + intros k now' Hle'. rewrite jm_get_set, inWindow_snoc.
      destruct (decide (key = k)) as [<-|Hne]; simpl.
      * rewrite filter_app. f_equal; [unfold inWindow at 1; by rewrite filter_later by done|].
        rewrite filter_cons, filter_nil. destruct (decide (now' - now < w)).
        -- by rewrite decide_True.
        -- by rewrite decide_False by tauto.
      * rewrite decide_False by tauto. rewrite app_nil_r. apply Hf. lia.
    + intros p [Hp|Hp]%elem_of_app; [specialize (Ht p Hp); lia|].
      apply list_elem_of_singleton in Hp as ->. simpl. lia.
    + intros k a. rewrite inWindow_snoc, filter_app.
      destruct (decide (key = k ∧ a - now < w)) as [[<- Hin]|]; [|rewrite app_nil_r; apply Hb].
      destruct (decide (now ≤ a)) as [Hna|Hna]; cycle 1.
      { rewrite (filter_cons_False _ now) by done. rewrite filter_nil, app_nil_r. apply Hb. }
      rewrite length_app, filter_cons_True by done. rewrite filter_nil. simpl.
      enough (length (filter (λ t, (t ≤ a)%Z) (inWindow w a key g)) ≤ length (inWindow w now key g))%nat by lia.
      unfold inWindow. rewrite list_filter_filter.
      generalize (filter (λ p, p.1 = key) g).*2. intros ts. clear -Hna Hin.
      induction ts as [|t ts IH]; [done|]. rewrite !filter_cons.
      destruct (decide (t ≤ a ∧ a - t < w)), (decide (now - t < w)); simpl; lia.
Qed.

Lemma follows_prune T maxR w now l g :
  follows T maxR w (l, g) → T ≤ now → follows now maxR w (limiter_step (LPrune now) (l, g)).
Proof.
  intros (Hm & Hw & Hwf & Hf & Ht & Hb) Hle. simpl in *.
  split_and!; simpl; [done..|by apply pruneHits_wf| | |done].
  - intros key now' Hle'. rewrite pruneHits_get by done. unfold recentHits. rewrite Hw, filter_later by done.
    apply Hf. lia.
  - intros p Hp. specialize (Ht p Hp). lia.
Qed.

Lemma run_follows ops T maxR w s :
  follows T maxR w s → (∀ o, o ∈ ops → T ≤ op_time o) →
  StronglySorted (λ o o', op_time o ≤ op_time o') ops →
  ∀ now, T ≤ now → (∀ o, o ∈ ops → op_time o ≤ now) → follows now maxR w (run_limiter ops s).
Proof.
  revert T s. induction ops as [|o ops IH]; intros T s Hs Hge Hsort now Hnow Hle.
  - simpl. destruct Hs as (Hm & Hw & Hwf & Hf & Ht & Hb). split_and!; try done.
    + intros key n Hn. apply Hf. lia.
    + intros p Hp. specialize (Ht p Hp). lia.
  - apply StronglySorted_inv in Hsort as [Hsort Hall]. rewrite Forall_forall in Hall.
    assert (T ≤ op_time o) as HTo by (apply Hge; set_solver).
    apply (IH (op_time o)); [|done|done| |]; [|apply Hle; set_solver|set_solver].
    destruct s as [l g], o as [key t|t]; [by apply (follows_allow T)|by apply (follows_prune T)].
Qed.

(** The limiter equals a sliding-window log: after any requests and prunings in
    time order, a request of a connection is granted precisely when fewer than
    [maxRequests] of its requests were granted within the last [windowMs]; and
    no interval of that length ever contains more granted requests. *)
Theorem limiter_exact maxR w ops key now :
  StronglySorted (λ o o', op_time o ≤ op_time o') ops → (∀ o, o ∈ ops → op_time o ≤ now) →
  let '(l, g) := run_limiter ops (newLimiter maxR w, []) in
  (snd (allow key now l) = true ↔ Z.of_nat (length (inWindow w now key g)) < maxR) ∧
  (∀ a, Z.of_nat (length (filter (λ t, t ≤ a) (inWindow w a key g))) ≤ Z.max 0 maxR).
Proof.
  intros Hsort Hle. set (T := foldr Z.min now (op_time <$> ops)).
  assert (T ≤ now ∧ ∀ o, o ∈ ops → T ≤ op_time o) as [HTn HTo].
  { unfold T. clear -ops now. induction ops as [|o ops [IH1 IH2]]; [split; [done|set_solver]|]. rewrite fmap_cons; cbn [foldr].
    split; [lia|]. intros o' [->|Ho]%elem_of_cons; [lia|]. specialize (IH2 o' Ho). lia. }
  pose proof (run_follows ops T maxR w _ (follows_new maxR w T) HTo Hsort now HTn Hle) as Hf.
  destruct (run_limiter ops (newLimiter maxR w, [])) as [l g].
  destruct Hf as (Hm & Hw & _ & Hf & _ & Hb). simpl in *. split; [|apply Hb].
  unfold allow, recentHits. rewrite Hm, Hw, (Hf key now) by done.
  destruct (Z.leb_spec maxR (Z.of_nat (length (inWindow w now key g)))); simpl; split; (done || lia).
Qed.
End limiter_facts.

(** ** The replay request of a connection *)

(** [ASSET_RE = /^([A-Z0-9]\{1,12\}|C[A-Z2-7]\{55\})$/] *)
Definition upper_alnum (ch : Ascii.ascii) : bool := char_between 65 90 ch || char_between 48 57 ch.
Definition upper_base32 (ch : Ascii.ascii) : bool := char_between 65 90 ch || char_between 50 55 ch.

Definition asset_re (s : string) : bool :=
  let chars := String.list_ascii_of_string s in
  ((1 <=? length chars)%nat && (length chars <=? 12)%nat && forallb upper_alnum chars) ||
  match chars with
  | ch :: rest => bool_decide (Ascii.nat_of_ascii ch = 67%nat) && (length rest =? 55)%nat &&
                  forallb upper_base32 rest
  | [] => false
  end.

(** The [assets] field of a client message. *)
Inductive ws_assets :=
| AssetsUndefined
| AssetsOther                       (* not an array of strings *)
| AssetsList (l : list string).

Definition validateWsAssets (assets : ws_assets) : bool :=
  match assets with
  | AssetsList l =>
      (length l <=? 50)%nat &&
      forallb (λ a, (strlen a <=? 56) && asset_re (toUpperCase a)) l
  | _ => false
  end.

Inductive replay_error := ReplayBadCursor | ReplayBadAssets | ReplayRateLimited.

Section server.
Context {Data : Type} (stringify : Data → string).
Implicit Types (b : replayBuffer (Data:=Data)) (c : bufferConfig) (bounds : ReplayBounds).

Inductive server_message :=
| SError (err : replay_error)
| SPriceUpdate (sequenceId : Z) (data : Data)
| SReplayComplete (replayed sequenceId lastSequenceId : Z) (truncated : bool)
    (remaining : Z) (gapDetected : bool) (oldestReplayableSequence : option Z).

(** [for (const entry of window.messages) \{ if (not open) break; send \}];
    [open i] says whether the socket is open before the [i]-th message. *)
Fixpoint sendAll (open : nat → bool) (i : nat) (ms : list (BufferedMessage (Data:=Data)))
    : list BufferedMessage :=
  match ms with
  | [] => []
  | e :: ms' => if open i then e :: sendAll open (S i) ms' else []
  end.

Definition scopeAssets (subscribed : list string) (assets : ws_assets) : list string :=
  match assets with
  | AssetsList l => filter (λ a, a ∈ subscribed) (toUpperCase <$> l)
  | _ => subscribed
  end.

(** The [Replay] case of [handleMessage].  [lastSequenceId] is [None] when the
    field is not an integer number; [connectionKey] is the limiter key of the
    socket and [sequence] the current global sequence number. *)
Definition handleReplay bounds (subscribed : list string) (lastSequenceId : option Z)
    (assets : ws_assets) (connectionKey : option string) (now sequence : Z) (open : nat → bool)
    b (l : limiter) : limiter * list server_message :=
  match lastSequenceId with
  | None => (l, [SError ReplayBadCursor])
  | Some lastSeq =>
      if lastSeq <? 0 then (l, [SError ReplayBadCursor])
      else if match assets with AssetsUndefined => false | _ => negb (validateWsAssets assets) end
      then (l, [SError ReplayBadAssets])
      else
        let '(l', ok) := allow (default "unknown"%string connectionKey) now l in
        if negb ok then (l', [SError ReplayRateLimited])
        else
          let scope := scopeAssets subscribed assets in
          let window := collectReplayWindow stringify (sources (Some scope) None b) lastSeq bounds None in
          let sent := sendAll open 0 (rw_messages window) in
          let oldest := oldestSequence (Some scope) b in
          (l', ((λ e, SPriceUpdate (bm_sequenceId e) (bm_data e)) <$> sent) ++
               [SReplayComplete (Z.of_nat (length sent)) sequence (nextCursor lastSeq sent)
                  (rw_truncated window) (rw_remaining window)
                  (match oldest with Some o => lastSeq <? o - 1 | None => false end) oldest])
  end.

(** [bufferMessage]: the next global sequence number stamps the message. *)
Definition bufferMessage (fuel : nat) c (asset : string) (timestamp : Z) (data : Data)
    (s : Z * replayBuffer (Data:=Data)) : option (Z * replayBuffer (Data:=Data)) :=
  let seq := s.1 + 1 in
  b' ← push stringify fuel c asset (mkMessage seq asset timestamp data) s.2;
  Some (seq, b').

Fixpoint bufferAll (fuel : nat) c (ms : list (string * Z * Data)) (s : Z * replayBuffer (Data:=Data))
    : option (Z * replayBuffer (Data:=Data)) :=
  match ms with
  | [] => Some s
  | (asset, ts, data) :: ms' => bufferMessage fuel c asset ts data s ≫= bufferAll fuel c ms'
  end.
End server.

Section server_facts.
Context {Data : Type} (stringify : Data → string).
Implicit Types (b : replayBuffer (Data:=Data)) (c : bufferConfig) (bounds : ReplayBounds).

(** The messages the server stamps, starting after the sequence number [s]. *)
Fixpoint numbered (s : Z) (ms : list (string * Z * Data))
    : list (string * BufferedMessage (Data:=Data)) :=
  match ms with
  | [] => []
  | (asset, ts, data) :: ms' => (asset, mkMessage (s + 1) asset ts data) :: numbered (s + 1) ms'
  end.

Lemma bufferAll_pushAll fuel c ms s b s' b' :
  bufferAll stringify fuel c ms (s, b) = Some (s', b') →
  pushAll stringify fuel c (numbered s ms) b = Some b'.
Proof.
  revert s b. induction ms as [|[[asset ts] data] ms IH]; intros s b; simpl; [by intros [= _ ->]|].
  unfold bufferMessage. simpl. destruct (push stringify fuel c asset _ b) as [b1|]; simpl; [|done].
  apply IH.
Qed.

Lemma numbered_elem s ms p :
  p ∈ numbered s ms → bm_asset p.2 = p.1 ∧ s < bm_sequenceId p.2.
Proof.
  revert s. induction ms as [|[[asset ts] data] ms IH]; intros s; simpl; [by intros ?%elem_of_nil|].
  intros [->|Hp]%elem_of_cons; simpl; [split; [done|lia]|]. destruct (IH _ Hp). split; [done|lia].
Qed.

Lemma numbered_inj s ms p q :
  p ∈ numbered s ms → q ∈ numbered s ms → bm_sequenceId p.2 = bm_sequenceId q.2 → p = q.
Proof.
  revert s. induction ms as [|[[asset ts] data] ms IH]; intros s; simpl; [by intros ?%elem_of_nil|].
  intros [->|Hp]%elem_of_cons [->|Hq]%elem_of_cons; simpl; intros Heq; [done|..|by eapply IH].
  - apply numbered_elem in Hq. lia.
  - apply numbered_elem in Hp. lia.
Qed.

Lemma numbered_NoDup s ms : NoDup ((λ p, bm_sequenceId p.2) <$> numbered s ms).
Proof.
  revert s. induction ms as [|[[asset ts] data] ms IH]; intros s; [constructor|].
  cbn [numbered]. rewrite fmap_cons. constructor; [|apply IH].
  intros (p & Heq & Hp%numbered_elem)%list_elem_of_fmap. simpl in Heq. lia.
Qed.

Lemma numbered_length s ms : length (numbered s ms) = length ms.
Proof. revert s. induction ms as [|[[? ?] ?] ms IH]; intros s0; simpl; [done|]. by rewrite IH. Qed.

(** What a buffered message of a served asset is. *)
Lemma served_elem fuel c ms s s' b asset e :
  0 ≤ bc_messagesPerAsset c → (2 * length ms ≤ fuel)%nat →
  bufferAll stringify fuel c ms (s, newBuffer) = Some (s', b) →
  e ∈ default [] (jm_get asset (rp_buffers b)) →
  (asset, e) ∈ numbered s ms ∧ bm_asset e = asset.
Proof.
  intros Hc Hf Hb He. apply bufferAll_pushAll in Hb.
  destruct (pushAll_bounded stringify fuel c (numbered s ms) [] newBuffer Hc (bounded_new stringify c))
    as (b' & Eb & Hbd); [rewrite numbered_length; simpl; lia|]. assert (b' = b) as -> by congruence.
  destruct (jm_get asset (rp_buffers b)) as [buf|] eqn:Eg; simpl in He; [|by apply elem_of_nil in He].
  destruct (bd_quota _ _ _ _ Hbd _ _ Eg) as [_ [pre Hpre]].
  assert (e ∈ pushedTo asset (numbered s ms)) as Hin by (simpl in Hpre; rewrite Hpre; set_solver).
  unfold pushedTo in Hin. apply list_elem_of_fmap in Hin as ([a e'] & -> & Hin).
  apply list_elem_of_filter in Hin as [Ha Hin]. simpl in Ha. subst a.
  split; [done|]. by apply numbered_elem in Hin as [? _].
Qed.

Lemma sources_NoDup fuel c ms s s' b assets :
  0 ≤ bc_messagesPerAsset c → (2 * length ms ≤ fuel)%nat →
  bufferAll stringify fuel c ms (s, newBuffer) = Some (s', b) → NoDup assets →
  NoDup (bm_sequenceId <$> mjoin (sources (Some assets) None b)).
Proof.
  intros Hc Hf Hb. pose proof (λ a e, served_elem fuel c ms s s' b a e Hc Hf Hb) as Hel.
  apply bufferAll_pushAll in Hb.
  destruct (pushAll_bounded stringify fuel c (numbered s ms) [] newBuffer Hc (bounded_new stringify c))
    as (b' & Eb & Hbd); [rewrite numbered_length; simpl; lia|]. assert (b' = b) as -> by congruence.
  unfold sources. rewrite filter_all by done. induction assets as [|a assets IH]; [constructor|].
  intros [Ha Hnd]%NoDup_cons. rewrite fmap_cons. simpl mjoin. rewrite fmap_app. apply NoDup_app. split_and!.
  - destruct (jm_get a (rp_buffers b)) as [buf|] eqn:Eg; simpl; [|constructor].
    destruct (bd_quota _ _ _ _ Hbd _ _ Eg) as [_ [pre Hpre]]. simpl in Hpre.
    assert (NoDup (bm_sequenceId <$> pushedTo a (numbered s ms))) as Hn.
    { unfold pushedTo. rewrite <- list_fmap_compose.
      apply NoDup_fmap_filter, numbered_NoDup. }
    rewrite Hpre, fmap_app in Hn. by apply NoDup_app in Hn as (_ & _ & ?).
  - intros z (e & -> & He)%list_elem_of_fmap (e' & Heq & He')%list_elem_of_fmap.
    apply list_elem_of_join in He' as (src & He' & Hsrc). apply list_elem_of_fmap in Hsrc as (a' & -> & Ha').
    destruct (Hel _ _ He) as [Hn1 _]. destruct (Hel _ _ He') as [Hn2 _].
    pose proof (numbered_inj s ms _ _ Hn1 Hn2 Heq) as Hpq. simplify_eq. done.
  - by apply IH.
Qed.

Lemma sendAll_prefix open i (ms : list (BufferedMessage (Data:=Data))) :
  sendAll open i ms `prefix_of` ms.
Proof.
  revert i. induction ms as [|e ms IH]; intros i; simpl; [done|].
  destruct (open i); [by apply prefix_cons|apply prefix_nil].
Qed.

Lemma strictly_sorted (l : list (BufferedMessage (Data:=Data))) :
  StronglySorted (λ e1 e2, bm_sequenceId e1 ≤ bm_sequenceId e2) l →
  NoDup (bm_sequenceId <$> l) → StronglySorted Z.lt (bm_sequenceId <$> l).
Proof.
  induction 1 as [|e l Hs IH Hall]; [constructor|]. rewrite fmap_cons. intros [Hni Hnd]%NoDup_cons.
  constructor; [by apply IH|]. rewrite Forall_fmap. rewrite Forall_forall in *. intros x Hx. simpl.
  specialize (Hall x Hx). simpl in Hall. assert (bm_sequenceId e ≠ bm_sequenceId x); [|lia].
  intros Heq. apply Hni. rewrite Heq. by apply list_elem_of_fmap_2.
Qed.

(** A replay is confined to the connection's subscriptions.  Take a server that
    has buffered any messages and a granted request of a connection: every
    price update sent is a retained message of an asset the connection is
    subscribed to (and asked for, if it named assets), newer than the client's
    cursor; the updates have increasing sequence numbers when no asset is named
    twice; and the answer ends with a completion message that carries their
    number and the sequence number to resume from. *)
Theorem replay_within_subscriptions fuel c ms s s' b bounds subscribed cursor assets key now seq open l :
  0 ≤ bc_messagesPerAsset c → (2 * length ms ≤ fuel)%nat →
  bufferAll stringify fuel c ms (s, newBuffer) = Some (s', b) →
  0 ≤ cursor → assets = AssetsUndefined ∨ validateWsAssets assets = true →
  snd (allow (default "unknown"%string key) now l) = true →
  ∃ sent truncated remaining gap oldest,
    snd (handleReplay stringify bounds subscribed (Some cursor) assets key now seq open b l) =
      ((λ e, SPriceUpdate (bm_sequenceId e) (bm_data e)) <$> sent) ++
      [SReplayComplete (Z.of_nat (length sent)) seq (nextCursor cursor sent) truncated remaining gap oldest] ∧
    (∀ e, e ∈ sent →
       cursor < bm_sequenceId e ∧ bm_asset e ∈ subscribed ∧
       e ∈ default [] (jm_get (bm_asset e) (rp_buffers b)) ∧
       match assets with AssetsList named => bm_asset e ∈ toUpperCase <$> named | _ => True end) ∧
    (NoDup (scopeAssets subscribed assets) → StronglySorted Z.lt (bm_sequenceId <$> sent)).
Proof.
  intros Hc Hf Hb Hcur Has Hok. unfold handleReplay. rewrite (proj2 (Z.ltb_ge cursor 0)) by done.
  assert (match assets with AssetsUndefined => false | _ => negb (validateWsAssets assets) end = false)
    as -> by (destruct Has as [->|Hv]; [done|]; destruct assets; by rewrite ?Hv).
  destruct (allow _ now l) as [l' ok]. simpl in Hok. subst ok. cbn [negb snd].
  set (srcs := sources (Some (scopeAssets subscribed assets)) None b).
  do 5 eexists. split; [reflexivity|].
  set (sent := sendAll open 0 _).
  assert (sent `prefix_of` candidates srcs cursor None) as Hpre.
  { etrans; [apply sendAll_prefix|]. destruct (collect_prefix stringify srcs cursor bounds None) as (n & -> & _).
    exists (drop n (candidates srcs cursor None)). by rewrite take_drop. }
  clearbody sent. destruct Hpre as [rest Hpre]. split.
  - intros e He. assert (e ∈ candidates srcs cursor None) as Hc' by (rewrite Hpre; set_solver).
    apply candidates_elem in Hc' as ((src & He' & Hsrc) & Hlt & _). unfold srcs, sources in Hsrc.
    apply list_elem_of_fmap in Hsrc as (asset & -> & Hasset). apply list_elem_of_filter in Hasset as [_ Hasset].
    destruct (served_elem fuel c ms s s' b asset e Hc Hf Hb He') as [_ Hae]. rewrite Hae.
    assert (asset ∈ subscribed ∧
      match assets with AssetsList named => asset ∈ toUpperCase <$> named | _ => True end) as [??]; [|done].
    unfold scopeAssets in Hasset. destruct assets; [done|done|].
    by apply list_elem_of_filter in Hasset as [? ?].
  - intros Hnd. pose proof (candidates_sorted srcs cursor None) as Hs. rewrite Hpre in Hs.
    apply strictly_sorted; [by eapply StronglySorted_app_1_l|].
    assert (NoDup (bm_sequenceId <$> candidates srcs cursor None)) as Hn.
    { unfold candidates. rewrite stable_sort_perm.
      apply NoDup_fmap_filter. by eapply sources_NoDup. }
    rewrite Hpre, fmap_app in Hn. by apply NoDup_app in Hn as (? & _).
Qed.
End server_facts.

(** ** Concrete runs *)

Definition json_text (s : string) : string := s.
Definition demo_config : bufferConfig := mkBufferConfig 2 2 1000.
Definition demo_bounds : ReplayBounds := mkBounds 2 1000.
Definition demo_messages : list (string * Z * string) :=
  [("XLM", 1700000000, "1"); ("BTC", 1700000001, "2"); ("XLM", 1700000002, "3");
   ("XLM", 1700000003, "4")]%string.
Definition demo_buffer : replayBuffer :=
  match bufferAll json_text 8 demo_config demo_messages (0, newBuffer) with
  | Some (_, b) => b
  | None => newBuffer
  end.

Lemma buffer_bounded_witness :
  ∃ b, pushAll json_text 8 demo_config (numbered 0 demo_messages) newBuffer = Some b ∧
    st_bytes (stats b) ≤ 1000 ∧ st_assets (stats b) ≤ 2.
Proof.
  destruct (buffer_bounded json_text 8 demo_config (numbered 0 demo_messages))
    as (b & E & _ & Ha & Hy & _); [simpl; lia|simpl; lia|].
  exists b. split; [exact E|]. split; [exact Hy|exact Ha].
Defined.

(** Four messages are replayed in pages of two. *)
Lemma replay_resumes_witness :
  resume json_text 4 [snd <$> numbered 0 demo_messages] demo_bounds None 0 =
    candidates [snd <$> numbered 0 demo_messages] 0 None.
Proof.
  apply (replay_resumes json_text [snd <$> numbered 0 demo_messages] demo_bounds None 0 4).
  - apply (bool_decide_unpack _). vm_compute. exact I.
  - simpl. lia.
  - vm_compute. lia.
Defined.

Lemma limiter_exact_witness :
  snd (allow "10.0.0.1#1" 50 (fst (run_limiter
    [LAllow "10.0.0.1#1" 0; LPrune 10; LAllow "10.0.0.1#1" 20] (newLimiter 2 60, [])))) = true ↔
  Z.of_nat (length (inWindow 60 50 "10.0.0.1#1" [("10.0.0.1#1"%string, 0); ("10.0.0.1#1"%string, 20)])) < 2.
Proof.
  apply (limiter_exact 2 60 [LAllow "10.0.0.1#1" 0; LPrune 10; LAllow "10.0.0.1#1" 20] "10.0.0.1#1" 50).
  - repeat constructor; simpl; lia.
  - intros o Ho. repeat (apply elem_of_cons in Ho as [->|Ho]; [simpl; lia|]). by apply elem_of_nil in Ho.
Defined.

(** A connection subscribed to XLM only is served the two retained XLM
    messages, not the BTC one. *)
Lemma replay_within_subscriptions_witness :
  ∃ sent truncated remaining gap oldest,
    snd (handleReplay json_text demo_bounds ["XLM"%string] (Some 0) AssetsUndefined None 5 4
           (λ _, true) demo_buffer (newLimiter 10 60000)) =
      ((λ e, SPriceUpdate (bm_sequenceId e) (bm_data e)) <$> sent) ++
      [SReplayComplete (Z.of_nat (length sent)) 4 (nextCursor 0 sent) truncated remaining gap oldest] ∧
    (∀ e, e ∈ sent → bm_asset e ∈ ["XLM"%string]).
Proof.
  destruct (replay_within_subscriptions json_text 8 demo_config demo_messages 0 4 demo_buffer
    demo_bounds ["XLM"%string] 0 AssetsUndefined None 5 4 (λ _, true) (newLimiter 10 60000))
    as (sent & tr & re & gap & oldest & E & Hsent & _);
    [simpl; lia|simpl; lia|vm_compute; reflexivity|lia|by left|vm_compute; reflexivity|].
  exists sent, tr, re, gap, oldest. split; [exact E|]. intros e He. by apply Hsent.
Defined.

(** Naming an asset twice in a request replays its messages twice. *)
Example named_twice_replayed_twice :
  snd (handleReplay json_text demo_bounds ["BTC"%string] (Some 0)
         (AssetsList ["BTC"%string; "btc"%string]) None 5 4 (λ _, true) demo_buffer (newLimiter 10 60000)) =
    [SPriceUpdate 2 "2"%string; SPriceUpdate 2 "2"%string;
     SReplayComplete 2 4 2 false 0 true (Some 2)].
Proof. vm_compute. reflexivity. Qed.

(** The byte bound does not apply to the first message of a window. *)
Example oversized_first_message :
  rw_bytes (collectReplayWindow json_text [snd <$> numbered 0 demo_messages] 0 (mkBounds 2 10) None) = 65.
Proof. vm_compute. reflexivity. Qed.
