(* ===== verification/PushServer.v ===== *)
(** * The WebSocket push server of the aggregator

    Models [services/aggregator/src/infrastructure/ws-protocol.ts],
    [ws-session.ts] and [ws-server.ts]: the messages clients send, the session
    kept for every connection and the server that broadcasts prices to them.

    Sockets are identified by numbers.  [sv_objects] holds every session object
    ever created, because the event handlers of a socket keep a reference to
    its session after the server has dropped it; [sv_open] is the order of the
    [Map] of sessions.  What a socket reports ([readyState], [bufferedAmount])
    is set by the environment.  Everything written to sockets is recorded, in
    order, in [sv_out]; [JSON.stringify] of an envelope is left out, an envelope
    standing for its text.  Metrics and log lines are left out.

    The theorems: a client receives of a broadcast exactly the items its
    subscriptions select; sequence numbers at any client increase strictly; a
    session never holds more subscriptions than the limit, and all of them are
    valid symbols; a client that does not answer pings is dropped. *)

From Stdlib Require Import ZArith Lia.
From stdpp Require Import base tactics decidable numbers pretty list sorting sets strings.
From S2P Require Import Prelude JsMap JsNum Json.

Local Open Scope Z_scope.

(** ** Protocol *)

Definition WS_PROTOCOL_VERSION : Z := 2.
Definition WILDCARD : string := "*".

Inductive DropReason : Type := backpressure | ping_timeout | message_too_large.
#[export] Instance DropReason_eq_dec : EqDecision DropReason.
Proof. solve_decision. Defined.

Definition WS_DROP_CLOSE_CODES (r : DropReason) : Z :=
  match r with backpressure => 4008 | ping_timeout => 4001 | message_too_large => 4003 end.

Inductive ClientMessageType : Type := Subscribe | Unsubscribe | Ping.
#[export] Instance ClientMessageType_eq_dec : EqDecision ClientMessageType.
Proof. solve_decision. Defined.

Record ClientMessage : Type := mkMessage {
  cm_type : ClientMessageType;
  cm_assets : option (list json);
}.

Record Envelope : Type := mkEnvelope {
  en_type : string;
  en_version : Z;
  en_sequence : Z;
  en_timestamp : Z;
  en_traceContext : option json;
  en_data : json;
}.

Definition createEnvelope (type_ : string) (sequence timestamp : Z) (data : json)
    (traceContext : option json) : Envelope :=
  mkEnvelope type_ WS_PROTOCOL_VERSION sequence timestamp traceContext data.

(** [/^[A-Za-z0-9][A-Za-z0-9:_-]{0,31}$/] *)
Definition is_alnum (c : Ascii.ascii) : bool :=
  char_between 65 90 c || char_between 97 122 c || char_between 48 57 c.
Definition is_symbol_char (c : Ascii.ascii) : bool :=
  is_alnum c || char_between 58 58 c || char_between 95 95 c || char_between 45 45 c.
Definition ASSET_SYMBOL (s : string) : bool :=
  match chars s with
  | [] => false
  | c :: rest => is_alnum c && (length rest <=? 31)%nat && forallb is_symbol_char rest
  end.

(** [normalizeAssets] on the entries of an array. *)
Fixpoint normalizeEntries (entries : list json) (assets : list string) : result string (list string) :=
  match entries with
  | [] => Ok assets
  | JStr entry :: rest =>
      let normalized := toUpperCase (trim entry) in
      if negb (bool_decide (normalized = WILDCARD)) && negb (ASSET_SYMBOL normalized)
      then Throw (dquote +:+ entry +:+ dquote +:+ " is not a valid asset symbol (A-Z 0-9 : _ -, max 32 chars)")
      else normalizeEntries rest
             (if bool_decide (normalized ∈ assets) then assets else assets ++ [normalized])
  | _ :: _ => Throw "assets must contain only strings"
  end.

Definition normalizeAssets (value : option json) : result string (list string) :=
  match value with
  | Some (JArr []) => Throw "assets must contain at least one symbol"
  | Some (JArr entries) => normalizeEntries entries []
  | _ => Throw "assets must be an array of asset symbols"
  end.

(** [parseClientMessage]; [parsed] is what [JSON.parse] gives, [None] when it
    throws. *)
Definition parseClientMessage (parsed : option json) : result string ClientMessage :=
  match parsed with
  | None => Throw "message must be valid JSON"
  | Some (JObj _ as j) | Some (JArr _ as j) =>
      let apply_ t := match normalizeAssets (json_field "assets" j) with
                      | Ok assets => Ok (mkMessage t (Some (JStr <$> assets)))
                      | Throw e => Throw e
                      end in
      match json_field "type" j with
      | Some (JStr t) =>
          if bool_decide (t = "ping") then Ok (mkMessage Ping None)
          else if bool_decide (t = "subscribe") then apply_ Subscribe
          else if bool_decide (t = "unsubscribe") then apply_ Unsubscribe
          else Throw "type must be one of subscribe, unsubscribe, ping"
      | _ => Throw "type must be one of subscribe, unsubscribe, ping"
      end
  | Some _ => Throw "message must be a JSON object"
  end.

(** ** Sessions *)

Record SessionOptions : Type := mkSessionOptions {
  maxSubscriptions : Z;
  dropBufferBytes : Z;
  maxMessageBytes : Z;
}.

(** The fields of [ClientSession] that change. *)
Record ClientSession : Type := mkSession {
  cs_subscriptions : list string;        (* a Set, in insertion order *)
  cs_awaitingPongSince : option Z;
  cs_dropReason : option DropReason;
  cs_released : bool;
}.

Definition newSession : ClientSession := mkSession [WILDCARD] None None false.

Definition set_add (x : string) (l : list string) : list string :=
  if bool_decide (x ∈ l) then l else l ++ [x].
Definition set_delete (x : string) (l : list string) : list string :=
  List.filter (λ y, negb (bool_decide (y = x))) l.

Definition filtered (s : ClientSession) : bool := negb (bool_decide (WILDCARD ∈ cs_subscriptions s)).

Definition wants (s : ClientSession) (asset : string) : bool :=
  if negb (filtered s) then true else bool_decide (toUpperCase asset ∈ cs_subscriptions s).

Definition assetList (s : ClientSession) : list string := sort_strings (cs_subscriptions s).

Definition with_subscriptions (l : list string) (s : ClientSession) : ClientSession :=
  mkSession l (cs_awaitingPongSince s) (cs_dropReason s) (cs_released s).

Definition applyClientMessage (o : SessionOptions) (m : ClientMessage) (s : ClientSession)
    : ClientSession * result string unit :=
  match normalizeAssets (Some (JArr (default [] (cm_assets m)))) with
  | Throw e => (s, Throw e)
  | Ok requested =>
      if bool_decide (cm_type m = Subscribe) then
        if bool_decide (WILDCARD ∈ requested) then (with_subscriptions [WILDCARD] s, Ok tt)
        else
          let next := fold_left (λ l a, set_add a l) requested
                        (set_delete WILDCARD (cs_subscriptions s)) in
          let size := Z.of_nat (length next) in
          if maxSubscriptions o <? size
          then (s, Throw (pretty size +:+ " subscriptions exceed the limit of "
                            +:+ pretty (maxSubscriptions o) +:+ " per connection"))
          else (with_subscriptions next s, Ok tt)
      else
        let next := fold_left (λ l a, set_delete a l) requested (cs_subscriptions s) in
        (with_subscriptions (if bool_decide (WILDCARD ∈ requested) then [] else next) s, Ok tt)
  end.

Definition handlePong (s : ClientSession) : ClientSession :=
  mkSession (cs_subscriptions s) None (cs_dropReason s) (cs_released s).

Definition isExpired (s : ClientSession) (now timeoutMs : Z) : bool :=
  match cs_awaitingPongSince s with Some t => timeoutMs <=? now - t | None => false end.

(** ** Sockets and the server *)

Definition OPEN_STATE : Z := 1.

Record socket : Type := mkSocket { so_readyState : Z; so_bufferedAmount : Z }.

Inductive output : Type :=
| OSent (sid : Z) (e : Envelope)
| OClosed (sid : Z) (code : Z)
| OPinged (sid : Z).

Record server : Type := mkServer {
  sv_objects : jsmap Z ClientSession;
  sv_open : list Z;
  sv_sequence : Z;
  sv_sockets : jsmap Z socket;
  sv_out : list output;
}.

Definition newServer : server := mkServer jm_empty [] 0 jm_empty [].

Definition put_session (sid : Z) (s : ClientSession) (v : server) : server :=
  mkServer (jm_set sid s (sv_objects v)) (sv_open v) (sv_sequence v) (sv_sockets v) (sv_out v).
Definition emit (o : output) (v : server) : server :=
  mkServer (sv_objects v) (sv_open v) (sv_sequence v) (sv_sockets v) (sv_out v ++ [o]).
Definition next_sequence (v : server) : server :=
  mkServer (sv_objects v) (sv_open v) (sv_sequence v + 1) (sv_sockets v) (sv_out v).
Definition set_open (l : list Z) (v : server) : server :=
  mkServer (sv_objects v) l (sv_sequence v) (sv_sockets v) (sv_out v).

(** The session object and the socket behind an identifier. *)
Definition sessionOf (sid : Z) (v : server) : ClientSession := default newSession (jm_get sid (sv_objects v)).
Definition socketOf (sid : Z) (v : server) : socket := default (mkSocket 3 0) (jm_get sid (sv_sockets v)).

Definition release (sid : Z) (v : server) : server :=
  let s := sessionOf sid v in
  if cs_released s then v
  else set_open (List.filter (λ i, negb (i =? sid)) (sv_open v))
         (put_session sid (mkSession (cs_subscriptions s) (cs_awaitingPongSince s) (cs_dropReason s) true) v).

Definition drop (sid : Z) (reason : DropReason) (v : server) : server :=
  let s := sessionOf sid v in
  match cs_dropReason s with
  | Some _ => v
  | None =>
      release sid
        (emit (OClosed sid (WS_DROP_CLOSE_CODES reason))
           (put_session sid
              (mkSession (cs_subscriptions s) (cs_awaitingPongSince s) (Some reason) (cs_released s)) v))
  end.

Inductive SendOutcome : Type := sent | send_backpressure | not_open | dropped.

(** [session.send] *)
Definition send_outcome (o : SessionOptions) (sid : Z) (v : server) : SendOutcome :=
  if match cs_dropReason (sessionOf sid v) with Some _ => true | None => false end then dropped
  else if negb (so_readyState (socketOf sid v) =? OPEN_STATE) then not_open
  else if dropBufferBytes o <? so_bufferedAmount (socketOf sid v) then send_backpressure
  else sent.

Definition deliver (o : SessionOptions) (sid : Z) (e : Envelope) (v : server) : server :=
  match send_outcome o sid v with
  | sent => emit (OSent sid e) v
  | send_backpressure => drop sid backpressure v
  | not_open | dropped => v
  end.

(** [sendEnvelope]; [now] is the clock in seconds. *)
Definition sendEnvelope (o : SessionOptions) (now : Z) (sid : Z) (type_ : string) (data : json)
    (v : server) : server :=
  let v1 := next_sequence v in
  deliver o sid (createEnvelope type_ (sv_sequence v1) now data None) v1.

(** ** Broadcasts *)

Record Delivery : Type := mkDelivery { dl_asset : option string; dl_value : json }.

Definition toDelivery (value : json) : Delivery :=
  match json_field "asset" value with
  | Some (JStr asset) => mkDelivery (Some (toUpperCase asset)) value
  | _ => mkDelivery None value
  end.

Definition toDeliveries (payload : json) : list Delivery :=
  match payload with JArr l => toDelivery <$> l | _ => [toDelivery payload] end.

(** The sessions a broadcast goes to. *)
Definition sessionList (v : server) : list Z :=
  List.filter (λ sid, match cs_dropReason (sessionOf sid v) with
                      | None => so_readyState (socketOf sid v) =? OPEN_STATE
                      | Some _ => false
                      end) (sv_open v).

(** What a session is sent of a payload; [None] when nothing is picked. *)
Definition pick (payload : json) (s : ClientSession) : option json :=
  let deliveries := toDeliveries payload in
  let filterable := existsb (λ d, match dl_asset d with Some _ => true | None => false end) deliveries in
  if negb (filtered s) || negb filterable || bool_decide (length deliveries = 0%nat) then Some payload
  else
    let picked := List.filter (λ d, match dl_asset d with Some a => wants s a | None => true end) deliveries in
    match picked with
    | [] => None
    | d :: _ => Some (match payload with JArr _ => JArr (dl_value <$> picked) | _ => dl_value d end)
    end.

Definition dispatchTo (o : SessionOptions) (envelope : json → Envelope) (payload : json)
    (v : server) (sid : Z) : server :=
  match pick payload (sessionOf sid v) with
  | Some data => deliver o sid (envelope data) v
  | None => v
  end.

Definition dispatch (o : SessionOptions) (now : Z) (type_ : string) (payload : json)
    (traceContext : option json) (v : server) : server :=
  let v1 := next_sequence v in
  fold_left
    (dispatchTo o (λ data, createEnvelope type_ (sv_sequence v1) now data traceContext) payload)
    (sessionList v1) v1.

(** [resolveBroadcast]: type, payload and trace context. *)
Definition resolveBroadcast (data : json) : string * json * option json :=
  match json_field "type" data with
  | Some (JStr t) => (t, default data (json_field "data" data), json_field "traceContext" data)
  | _ => ("message", data, None)
  end.

(** [broadcast]; [trace] is the fresh trace context used when none is given. *)
Definition broadcast (o : SessionOptions) (now : Z) (trace : json) (data : json) (v : server) : server :=
  let '(type_, payload, traceContext) := resolveBroadcast data in
  dispatch o now type_ payload
    (Some (match traceContext with None | Some JNull => trace | Some t => t end)) v.

Definition broadcastAlert (o : SessionOptions) (now : Z) (alert : json) (v : server) : server :=
  dispatch o now "alert" alert None v.

(** ** Events *)

Section events.
Variable o : SessionOptions.
Variable pingIntervalMs pingTimeoutMs : Z.

(** The bodies of the messages [hello], [subscribed] and [error]. *)
Definition helloBody (s : ClientSession) : json :=
  JObj [("version", JNum (NInt WS_PROTOCOL_VERSION));
        ("maxSubscriptions", JNum (NInt (maxSubscriptions o)));
        ("wildcard", JStr WILDCARD);
        ("filtered", JBool (filtered s));
        ("subscriptions", JArr (JStr <$> assetList s));
        ("pingIntervalMs", JNum (NInt pingIntervalMs));
        ("pingTimeoutMs", JNum (NInt pingTimeoutMs))].

Definition subscribedBody (s : ClientSession) : json :=
  JObj [("filtered", JBool (filtered s));
        ("subscriptions", JArr (JStr <$> assetList s));
        ("maxSubscriptions", JNum (NInt (maxSubscriptions o)))].

Definition errorBody (reason message : string) : json :=
  JObj [("reason", JStr reason); ("message", JStr message)].

(** The handler of a new connection; the socket is open. *)
Definition onConnection (now : Z) (sid : Z) (v : server) : server :=
  let v1 := mkServer (jm_set sid newSession (sv_objects v)) (sv_open v ++ [sid]) (sv_sequence v)
              (jm_set sid (mkSocket OPEN_STATE 0) (sv_sockets v)) (sv_out v) in
  sendEnvelope o now sid "hello" (helloBody newSession) v1.

(** [handleClientMessage]; [bytes] is the length of the message. *)
Definition handleClientMessage (now : Z) (sid : Z) (bytes : Z) (parsed : option json) (v : server)
    : server :=
  if maxMessageBytes o <? bytes then drop sid message_too_large v
  else
    match parseClientMessage parsed with
    | Throw e => sendEnvelope o now sid "error" (errorBody "bad_message" e) v
    | Ok m =>
        if bool_decide (cm_type m = Ping)
        then sendEnvelope o now sid "pong" (JObj [("version", JNum (NInt WS_PROTOCOL_VERSION))]) v
        else
          let '(s, update) := applyClientMessage o m (sessionOf sid v) in
          let v1 := put_session sid s v in
          match update with
          | Throw e => sendEnvelope o now sid "error" (errorBody "subscription_limit" e) v1
          | Ok _ => sendEnvelope o now sid "subscribed" (subscribedBody s) v1
          end
    end.

Definition onPong (sid : Z) (v : server) : server := put_session sid (handlePong (sessionOf sid v)) v.

Definition onClose (sid : Z) (v : server) : server := release sid v.

(** The body of the loop of [sweepLiveness]; [nowMs] is in milliseconds. *)
Definition sweepOne (nowMs : Z) (v : server) (sid : Z) : server :=
  let s := sessionOf sid v in
  match cs_dropReason s with
  | Some _ => v
  | None =>
      if isExpired s nowMs pingTimeoutMs then drop sid ping_timeout v
      else if negb (so_readyState (socketOf sid v) =? OPEN_STATE) then v
      else
        let s' := match cs_awaitingPongSince s with
                  | None => mkSession (cs_subscriptions s) (Some nowMs) (cs_dropReason s) (cs_released s)
                  | Some _ => s
                  end in
        emit (OPinged sid) (put_session sid s' v)
  end.

Definition sweepLiveness (nowMs : Z) (v : server) : server :=
  fold_left (sweepOne nowMs) (sv_open v) v.

Definition stop (v : server) : server := set_open [] v.

Inductive event : Type :=
| EvConnect (now sid : Z)
| EvMessage (now sid bytes : Z) (parsed : option json)
| EvPong (sid : Z)
| EvClose (sid : Z)
| EvSocket (sid : Z) (st : socket)                  (* the socket's own state changes *)
| EvBroadcast (now : Z) (trace data : json)
| EvAlert (now : Z) (alert : json)
| EvSweep (nowMs : Z)
| EvStop.

Definition step (v : server) (e : event) : server :=
  match e with
  | EvConnect now sid => onConnection now sid v
  | EvMessage now sid bytes parsed => handleClientMessage now sid bytes parsed v
  | EvPong sid => onPong sid v
  | EvClose sid => onClose sid v
  | EvSocket sid st =>
      mkServer (sv_objects v) (sv_open v) (sv_sequence v) (jm_set sid st (sv_sockets v)) (sv_out v)
  | EvBroadcast now trace data => broadcast o now trace data v
  | EvAlert now alert => broadcastAlert o now alert v
  | EvSweep nowMs => sweepLiveness nowMs v
  | EvStop => stop v
  end.

Definition run_events (es : list event) (v : server) : server := fold_left step es v.

(** Every socket connects once, before anything else happens on it. *)
Fixpoint orderly (known : list Z) (es : list event) : bool :=
  match es with
  | [] => true
  | EvConnect _ sid :: es' => negb (bool_decide (sid ∈ known)) && orderly (sid :: known) es'
  | EvMessage _ sid _ _ :: es' | EvPong sid :: es' | EvClose sid :: es' =>
      bool_decide (sid ∈ known) && orderly known es'
  | _ :: es' => orderly known es'
  end.
End events.

(** ** What a client is sent of a payload *)

(** An item is relevant to a session if it names no asset or one it wants. *)
Definition relevant (s : ClientSession) (item : json) : bool :=
  match dl_asset (toDelivery item) with Some a => wants s a | None => true end.

Definition selected (s : ClientSession) (payload : json) : option json :=
  match payload with
  | JArr items =>
      let r := List.filter (relevant s) items in
      if bool_decide (r = []) && negb (bool_decide (items = [])) then None else Some (JArr r)
  | _ => if relevant s payload then Some payload else None
  end.

Lemma toDelivery_value j : dl_value (toDelivery j) = j.
Proof. unfold toDelivery. destruct (json_field "asset" j) as [[]|]; done. Qed.

Lemma filter_deliveries (f : Delivery → bool) items :
  dl_value <$> List.filter f (toDelivery <$> items) = List.filter (λ j, f (toDelivery j)) items.
Proof.
  induction items as [|j items IH]; [done|]. rewrite fmap_cons. cbn [List.filter].
  destruct (f (toDelivery j)); [|done]. rewrite fmap_cons, toDelivery_value. by f_equal.
Qed.

Lemma filter_true {A} (f : A → bool) l : (∀ x, x ∈ l → f x = true) → List.filter f l = l.
Proof.
  induction l as [|x l IH]; intros H; [done|]. cbn [List.filter]. rewrite H by (by left).
  f_equal. apply IH. intros y Hy. apply H. by right.
Qed.

(** When the session is not filtered, or no item names an asset, everything is
    relevant. *)
Lemma all_relevant s items :
  (negb (filtered s) || negb (existsb (λ d, match dl_asset d with Some _ => true | None => false end)
     (toDelivery <$> items))) = true →
  ∀ j, j ∈ items → relevant s j = true.
Proof.
  intros H j Hj. unfold relevant. destruct (dl_asset (toDelivery j)) as [a|] eqn:Ha; [|done].
  apply orb_true_iff in H as [Hf|He]; [unfold wants; by rewrite Hf|].
  apply negb_true_iff in He. exfalso.
  enough (existsb (λ d, match dl_asset d with Some _ => true | None => false end)
    (toDelivery <$> items) = true) by congruence.
  apply existsb_exists. exists (toDelivery j). split; [|by rewrite Ha].
  apply list_elem_of_In, list_elem_of_fmap. eauto.
Qed.

Lemma pick_selected s payload : pick payload s = selected s payload.
Proof.
  assert (∀ j, toDeliveries j = [toDelivery j] → selected s j = (if relevant s j then Some j else None) →
    (∀ l, j ≠ JArr l) → pick j s = selected s j) as Hone.
  { intros j Hd Hs Hj. unfold pick. rewrite Hd, Hs.
    destruct (negb (filtered s) || _ || _) eqn:E.
    - rewrite (all_relevant s [j]) with (j := j); [done| |by left].
      rewrite orb_false_r in E. exact E.
    - unfold relevant. cbn [List.filter].
      destruct (match dl_asset (toDelivery j) with Some a => wants s a | None => true end);
        [|done]. rewrite toDelivery_value. destruct j; try done. by destruct (Hj l). }
  destruct payload as [| | | |items|]; try (by apply Hone). clear Hone.
  unfold pick, selected, toDeliveries. destruct (negb (filtered s) || _ || _) eqn:E.
  - destruct items as [|j items]; [done|].
    rewrite orb_false_r in E.
    rewrite (filter_true (relevant s)) by (by apply all_relevant). done.
  - apply orb_false_iff in E as [_ Hlen]. apply bool_decide_eq_false in Hlen.
    rewrite length_fmap in Hlen.
    assert (dl_value <$> List.filter (λ d, match dl_asset d with Some a => wants s a | None => true end)
      (toDelivery <$> items) = List.filter (relevant s) items) as Hv by apply filter_deliveries.
    destruct (List.filter _ (toDelivery <$> items)) as [|d picked].
    + simpl in Hv. rewrite <- Hv. rewrite bool_decide_true by done.
      destruct items; [done|]. done.
    + rewrite Hv. rewrite fmap_cons in Hv. by rewrite <- Hv.
Qed.

(** ** What operations on one session leave alone *)

(** The envelopes written to a socket. *)
Definition sent_to (sid : Z) (out : list output) : list Envelope :=
  omap (λ x, match x with OSent i e => if i =? sid then Some e else None | _ => None end) out.

Lemma sent_to_app sid l1 l2 : sent_to sid (l1 ++ l2) = sent_to sid l1 ++ sent_to sid l2.
Proof. unfold sent_to. apply omap_app. Qed.

Lemma sent_to_self sid e l : sent_to sid (l ++ [OSent sid e]) = sent_to sid l ++ [e].
Proof. rewrite sent_to_app. unfold sent_to at 2. simpl. by rewrite Z.eqb_refl. Qed.

Lemma sent_to_other i sid e l : i ≠ sid → sent_to i (l ++ [OSent sid e]) = sent_to i l.
Proof.
  intros Hne. rewrite sent_to_app. unfold sent_to at 2. simpl.
  rewrite (proj2 (Z.eqb_neq sid i)) by done. apply app_nil_r.
Qed.

Record frame (sid : Z) (v v' : server) : Prop := {
  fr_session i : i ≠ sid → sessionOf i v' = sessionOf i v;
  fr_sockets : sv_sockets v' = sv_sockets v;
  fr_sequence : sv_sequence v' = sv_sequence v;
  fr_sent i : i ≠ sid → sent_to i (sv_out v') = sent_to i (sv_out v);
}.

Lemma sessionOf_put i sid s v :
  sessionOf i (put_session sid s v) = if i =? sid then s else sessionOf i v.
Proof.
  unfold sessionOf, put_session. simpl. destruct (Z.eqb_spec i sid) as [->|Hne].
  - by rewrite jm_get_set_eq.
  - by rewrite jm_get_set_ne.
Qed.

Lemma frame_refl sid v : frame sid v v.
Proof. by split. Qed.

Lemma frame_trans sid v1 v2 v3 : frame sid v1 v2 → frame sid v2 v3 → frame sid v1 v3.
Proof.
  intros [S1 K1 Q1 T1] [S2 K2 Q2 T2]. split.
  - intros i Hi. by rewrite S2, S1.
  - congruence.
  - congruence.
  - intros i Hi. by rewrite T2, T1.
Qed.

Lemma frame_put sid s v : frame sid v (put_session sid s v).
Proof.
  split; try done. intros i Hi. rewrite sessionOf_put. by rewrite (proj2 (Z.eqb_neq i sid)).
Qed.

Lemma frame_open sid l v : frame sid v (set_open l v).
Proof. by split. Qed.

Lemma release_frame sid v :
  frame sid v (release sid v) ∧ sv_out (release sid v) = sv_out v.
Proof.
  unfold release. destruct (cs_released _); [split; [apply frame_refl|done]|].
  split; [|done]. eapply frame_trans; [apply frame_put|apply frame_open].
Qed.

Lemma drop_frame sid r v :
  frame sid v (drop sid r v) ∧ ∀ i, sent_to i (sv_out (drop sid r v)) = sent_to i (sv_out v).
Proof.
  unfold drop. destruct (cs_dropReason _); [split; [apply frame_refl|done]|].
  match goal with |- context [release sid ?x] => set (v1 := x) end.
  destruct (release_frame sid v1) as [Hf Ho]. split.
  - eapply frame_trans; [|exact Hf]. subst v1. split; try done.
    + intros i Hi. apply (fr_session _ _ _ (frame_put sid _ v)). done.
    + intros i Hi. cbn [emit put_session sv_out]. rewrite sent_to_app. apply app_nil_r.
  - intros i. rewrite Ho. subst v1. cbn [emit put_session sv_out]. rewrite sent_to_app. apply app_nil_r.
Qed.

Section delivery.
Variable o : SessionOptions.

Lemma deliver_spec sid e v :
  frame sid v (deliver o sid e v) ∧
  sent_to sid (sv_out (deliver o sid e v)) =
    sent_to sid (sv_out v) ++ (match send_outcome o sid v with sent => [e] | _ => [] end).
Proof.
  unfold deliver. destruct (send_outcome o sid v).
  - split; [|apply sent_to_self]. split; try done. intros i Hi. by apply sent_to_other.
  - destruct (drop_frame sid backpressure v) as [Hf Ho]. split; [done|]. by rewrite Ho, app_nil_r.
  - split; [apply frame_refl|by rewrite app_nil_r].
  - split; [apply frame_refl|by rewrite app_nil_r].
Qed.

Lemma frame_outcome sid i v v' : frame sid v v' → i ≠ sid → send_outcome o i v' = send_outcome o i v.
Proof.
  intros Hf Hi. unfold send_outcome, socketOf.
  by rewrite (fr_session _ _ _ Hf i Hi), (fr_sockets _ _ _ Hf).
Qed.

(** What one session gets of a broadcast. *)
Definition share (envelope : json → Envelope) (payload : json) (sid : Z) (v : server) : list Envelope :=
  match send_outcome o sid v, selected (sessionOf sid v) payload with
  | sent, Some data => [envelope data]
  | _, _ => []
  end.

Lemma dispatchTo_spec envelope payload v sid :
  frame sid v (dispatchTo o envelope payload v sid) ∧
  sent_to sid (sv_out (dispatchTo o envelope payload v sid)) =
    sent_to sid (sv_out v) ++ share envelope payload sid v.
Proof.
  unfold dispatchTo, share. rewrite pick_selected.
  destruct (selected (sessionOf sid v) payload) as [data|].
  - destruct (deliver_spec sid (envelope data) v) as [Hf Hs]. split; [done|].
    rewrite Hs. by destruct (send_outcome o sid v).
  - split; [apply frame_refl|]. by destruct (send_outcome o sid v); rewrite app_nil_r.
Qed.

Lemma frame_share envelope payload sid i v v' :
  frame sid v v' → i ≠ sid → share envelope payload i v' = share envelope payload i v.
Proof.
  intros Hf Hi. unfold share.
  by rewrite (frame_outcome _ _ _ _ Hf Hi), (fr_session _ _ _ Hf i Hi).
Qed.

Lemma dispatch_loop envelope payload l v sid :
  NoDup l →
  sv_sequence (fold_left (dispatchTo o envelope payload) l v) = sv_sequence v ∧
  sent_to sid (sv_out (fold_left (dispatchTo o envelope payload) l v)) =
    sent_to sid (sv_out v) ++ (if bool_decide (sid ∈ l) then share envelope payload sid v else []).
Proof.
  intros Hnd. revert v. induction Hnd as [|x l Hx Hnd IH]; intros v; cbn [fold_left].
  { rewrite bool_decide_false by apply not_elem_of_nil. by rewrite app_nil_r. }
  destruct (dispatchTo_spec envelope payload v x) as [Hf Hs].
  destruct (IH (dispatchTo o envelope payload v x)) as [Hq ->]. rewrite Hq, (fr_sequence _ _ _ Hf).
  split; [done|]. destruct (decide (sid = x)) as [->|Hne].
  - rewrite (bool_decide_false (x ∈ l)) by done. rewrite app_nil_r, Hs.
    rewrite bool_decide_true by (by left). done.
  - rewrite (fr_sent _ _ _ Hf sid Hne), (frame_share _ _ _ _ _ _ Hf Hne).
    rewrite (bool_decide_ext (sid ∈ x :: l) (sid ∈ l)); [done|]. rewrite elem_of_cons. naive_solver.
Qed.

(** Who can be written to at all is in the list of the broadcast. *)
Lemma sessionList_outcome sid v :
  send_outcome o sid v = sent → sid ∈ sv_open v → sid ∈ sessionList v.
Proof.
  unfold send_outcome, sessionList. intros Hs Hin. apply list_elem_of_In, filter_In.
  split; [by apply list_elem_of_In|]. destruct (cs_dropReason (sessionOf sid v)); [done|].
  by destruct (so_readyState (socketOf sid v) =? OPEN_STATE).
Qed.

Lemma sessionList_open sid v : sid ∈ sessionList v → sid ∈ sv_open v.
Proof. unfold sessionList. intros H. apply list_elem_of_In, filter_In in H as [H _].
  by apply list_elem_of_In. Qed.

Lemma NoDup_sessionList v : NoDup (sv_open v) → NoDup (sessionList v).
Proof.
  unfold sessionList. generalize (sv_open v). intros l.
  induction 1 as [|x l Hx Hnd IH]; [constructor|]. cbn [List.filter].
  destruct (match cs_dropReason _ with None => _ | Some _ => _ end); [|done]. constructor; [|done].
  intros Hin. apply Hx. apply list_elem_of_In, filter_In in Hin as [Hin _]. by apply list_elem_of_In.
Qed.

Lemma dispatch_spec now type_ payload trace v sid :
  NoDup (sv_open v) →
  let envelope data := createEnvelope type_ (sv_sequence v + 1) now data trace in
  sv_sequence (dispatch o now type_ payload trace v) = sv_sequence v + 1 ∧
  sent_to sid (sv_out (dispatch o now type_ payload trace v)) =
    sent_to sid (sv_out v) ++
      (if bool_decide (sid ∈ sv_open v) then share envelope payload sid v else []).
Proof.
  intros Hnd envelope. unfold dispatch. change (sv_sequence (next_sequence v)) with (sv_sequence v + 1).
  fold envelope. destruct (dispatch_loop envelope payload (sessionList (next_sequence v)) (next_sequence v) sid)
    as [Hq Hs]; [by apply NoDup_sessionList|]. split; [exact Hq|]. rewrite Hs.
  change (sv_out (next_sequence v)) with (sv_out v). f_equal.
  change (share envelope payload sid (next_sequence v)) with (share envelope payload sid v).
  change (sessionList (next_sequence v)) with (sessionList v).
  destruct (bool_decide_reflect (sid ∈ sv_open v)) as [Hin|Hin].
  - destruct (bool_decide_reflect (sid ∈ sessionList v)) as [|Hnot]; [done|].
    unfold share. destruct (send_outcome o sid v) eqn:E; try done.
    by destruct Hnot; apply sessionList_outcome.
  - rewrite bool_decide_false; [done|]. intros H. by apply Hin, sessionList_open.
Qed.
End delivery.

(** ** Subscriptions *)

Definition valid_symbol (a : string) : Prop :=
  a = WILDCARD ∨ (ASSET_SYMBOL a = true ∧ toUpperCase a = a).

Lemma normalizeEntries_ok entries assets r :
  NoDup assets → Forall valid_symbol assets → normalizeEntries entries assets = Ok r →
  NoDup r ∧ Forall valid_symbol r.
Proof.
  revert assets. induction entries as [|[| | |entry| |] rest IH]; intros assets Hnd Hv; simpl; try done.
  { by intros [= <-]. }
  set (n := toUpperCase (trim entry)).
  destruct (negb (bool_decide (n = WILDCARD)) && negb (ASSET_SYMBOL n)) eqn:E; [done|].
  destruct (bool_decide_reflect (n ∈ assets)) as [Hin|Hin]; [by apply IH|].
  apply IH.
  - apply NoDup_app. split_and!; [done|set_solver|apply NoDup_singleton].
  - apply Forall_app. split; [done|]. apply Forall_singleton.
    apply andb_false_iff in E as [E%negb_false_iff%bool_decide_eq_true|E%negb_false_iff]; [by left|].
    right. split; [done|]. apply toUpperCase_idemp.
Qed.

Lemma normalizeAssets_ok value r :
  normalizeAssets value = Ok r → NoDup r ∧ Forall valid_symbol r.
Proof.
  unfold normalizeAssets. destruct value as [[| | | |[|j l]|]|]; try done.
  apply (normalizeEntries_ok (j :: l) []); constructor.
Qed.

Lemma set_add_ok P a l :
  P a → NoDup l → Forall P l → NoDup (set_add a l) ∧ Forall P (set_add a l).
Proof.
  intros Ha Hnd Hl. unfold set_add. destruct (bool_decide_reflect (a ∈ l)); [done|]. split.
  - apply NoDup_app. split_and!; [done|set_solver|apply NoDup_singleton].
  - apply Forall_app. by split; [|apply Forall_singleton].
Qed.

Lemma set_delete_ok P a l :
  NoDup l → Forall P l →
  NoDup (set_delete a l) ∧ Forall P (set_delete a l) ∧ (length (set_delete a l) <= length l)%nat.
Proof.
  unfold set_delete. induction l as [|x l IH]; [done|].
  intros [Hx Hnd]%NoDup_cons [Hp Hl]%Forall_cons. destruct (IH Hnd Hl) as (H1 & H2 & H3).
  cbn [List.filter]. destruct (negb _); cbn [length]; [|split_and!; [done..|lia]].
  split_and!; [|by constructor|lia]. constructor; [|done]. intros Hin. apply Hx.
  apply list_elem_of_In, filter_In in Hin as [Hin _]. by apply list_elem_of_In.
Qed.

Section subscriptions.
Variable o : SessionOptions.

Record subs_ok (l : list string) : Prop := {
  su_nodup : NoDup l;
  su_valid : Forall valid_symbol l;
  su_limit : Z.of_nat (length l) <= Z.max 1 (maxSubscriptions o);
}.

Lemma wildcard_ok : subs_ok [WILDCARD].
Proof. split; [apply NoDup_singleton|apply Forall_singleton; by left|simpl; lia]. Qed.

Lemma applyClientMessage_ok m s :
  subs_ok (cs_subscriptions s) → subs_ok (cs_subscriptions (fst (applyClientMessage o m s))).
Proof.
  intros [Hnd Hv Hl]. unfold applyClientMessage.
  destruct (normalizeAssets _) as [requested|e] eqn:E; [|done].
  apply normalizeAssets_ok in E as [Hrn Hrv].
  destruct (bool_decide (cm_type m = Subscribe)).
  - destruct (bool_decide (WILDCARD ∈ requested)); [apply wildcard_ok|].
    set (next := fold_left _ requested _).
    assert (NoDup next ∧ Forall valid_symbol next) as [Hn1 Hn2].
    { subst next. destruct (set_delete_ok valid_symbol WILDCARD (cs_subscriptions s) Hnd Hv) as (H1 & H2 & _).
      revert H1 H2. generalize (set_delete WILDCARD (cs_subscriptions s)). clear Hrn.
      induction Hrv as [|a requested Ha Hr IH]; intros l H1 H2; [done|]. cbn [fold_left].
      destruct (set_add_ok valid_symbol a l Ha H1 H2). by apply IH. }
    destruct (Z.ltb_spec (maxSubscriptions o) (Z.of_nat (length next))); [done|].
    cbn [fst with_subscriptions cs_subscriptions]. split; [done|done|lia].
  - cbn [fst with_subscriptions cs_subscriptions].
    destruct (bool_decide (WILDCARD ∈ requested)); [split; [constructor|done|simpl; lia]|].
    clear Hrn Hrv. revert Hnd Hv Hl. generalize (cs_subscriptions s).
    induction requested as [|a requested IH]; intros l H1 H2 H3; [done|]. cbn [fold_left].
    destruct (set_delete_ok valid_symbol a l H1 H2) as (? & ? & ?). apply IH; [done..|lia].
Qed.

(** ** The state between events *)

Record server_ok (known : list Z) (v : server) : Prop := {
  so_nodup : NoDup (sv_open v);
  so_known sid : sid ∈ sv_open v → sid ∈ known;
  so_live sid : sid ∈ sv_open v →
    cs_released (sessionOf sid v) = false ∧ cs_dropReason (sessionOf sid v) = None;
  so_subs sid : subs_ok (cs_subscriptions (sessionOf sid v));
}.

(** A change of one session and of the outputs that keeps the flags. *)
Lemma put_session_ok known sid s v :
  cs_released s = cs_released (sessionOf sid v) → cs_dropReason s = cs_dropReason (sessionOf sid v) →
  subs_ok (cs_subscriptions s) → server_ok known v → server_ok known (put_session sid s v).
Proof.
  intros Hr Hd Hs [Hn Hk Hl Hsu]. split; [done|done|..]; intros i.
  - intros Hi. rewrite sessionOf_put. destruct (Z.eqb_spec i sid) as [->|]; [|by apply Hl].
    rewrite Hr, Hd. by apply Hl.
  - rewrite sessionOf_put. by destruct (i =? sid).
Qed.

Lemma emit_ok known x v : server_ok known v → server_ok known (emit x v).
Proof. by intros [Hn Hk Hl Hsu]. Qed.

Lemma next_ok known v : server_ok known v → server_ok known (next_sequence v).
Proof. by intros [Hn Hk Hl Hsu]. Qed.

Lemma elem_filter_ne i sid l : i ∈ List.filter (λ i, negb (i =? sid)) l ↔ i ∈ l ∧ i ≠ sid.
Proof.
  rewrite !list_elem_of_In, filter_In, negb_true_iff, Z.eqb_neq. done.
Qed.

Lemma NoDup_filter_bool {A} (f : A → bool) l : NoDup l → NoDup (List.filter f l).
Proof.
  induction 1 as [|x l Hx Hnd IH]; [constructor|]. cbn [List.filter]. destruct (f x); [|done].
  constructor; [|done]. intros Hin. apply Hx. apply list_elem_of_In, filter_In in Hin as [Hin _].
  by apply list_elem_of_In.
Qed.

(** Whatever becomes of a session's flags, once it is out of the list the state
    is in order. *)
Lemma removed_ok known sid s v :
  cs_subscriptions s = cs_subscriptions (sessionOf sid v) → server_ok known v →
  server_ok known (set_open (List.filter (λ i, negb (i =? sid)) (sv_open v)) (put_session sid s v)).
Proof.
  intros Hs [Hn Hk Hl Hsu]. split; cbn [sv_open set_open].
  - by apply NoDup_filter_bool.
  - intros i [Hi _]%elem_filter_ne. by apply Hk.
  - intros i [Hi Hne]%elem_filter_ne.
    change (sessionOf i (set_open _ (put_session sid s v))) with (sessionOf i (put_session sid s v)).
    rewrite sessionOf_put, (proj2 (Z.eqb_neq i sid)) by done. by apply Hl.
  - intros i. change (sessionOf i (set_open _ (put_session sid s v))) with (sessionOf i (put_session sid s v)).
    rewrite sessionOf_put. destruct (i =? sid); [by rewrite Hs|done].
Qed.

Lemma absent_ok known sid s v :
  sid ∉ sv_open v → cs_subscriptions s = cs_subscriptions (sessionOf sid v) → server_ok known v →
  server_ok known (put_session sid s v).
Proof.
  intros Hn' Hs [Hn Hk Hl Hsu]. split; [done|done|..]; intros i; rewrite sessionOf_put.
  - intros Hi. rewrite (proj2 (Z.eqb_neq i sid)) by (by intros ->). by apply Hl.
  - destruct (i =? sid); [by rewrite Hs|done].
Qed.

Lemma release_server_ok known sid v : server_ok known v → server_ok known (release sid v).
Proof. intros Hok. unfold release. destruct (cs_released _); [done|]. by apply removed_ok. Qed.

Lemma drop_ok known sid r v : server_ok known v → server_ok known (drop sid r v).
Proof.
  intros Hok. unfold drop. destruct (cs_dropReason (sessionOf sid v)) eqn:Hd; [done|].
  unfold release. set (s := sessionOf sid v) in *.
  set (s1 := mkSession (cs_subscriptions s) (cs_awaitingPongSince s) (Some r) (cs_released s)).
  set (v1 := emit _ (put_session sid s1 v)).
  assert (sessionOf sid v1 = s1) as ->.
  { subst v1. change (sessionOf sid (emit _ ?x)) with (sessionOf sid x).
    rewrite sessionOf_put, Z.eqb_refl. done. }
  cbn [cs_released s1]. destruct (cs_released s) eqn:Hr.
  - apply emit_ok, absent_ok; [|done|done]. intros Hin. apply (so_live _ _ Hok) in Hin as [Hl _].
    subst s. congruence.
  - assert (∀ s2, cs_subscriptions s2 = cs_subscriptions s →
      server_ok known (set_open (List.filter (λ i, negb (i =? sid)) (sv_open v1)) (put_session sid s2 v1)))
      as H; [|by apply H].
    intros s2 Hs2. destruct Hok as [Hn Hk Hl Hsu]. split; cbn [sv_open set_open].
    + by apply NoDup_filter_bool.
    + intros i [Hi _]%elem_filter_ne. by apply Hk.
    + intros i [Hi Hne]%elem_filter_ne.
      change (sessionOf i (set_open _ ?x)) with (sessionOf i x).
      rewrite sessionOf_put, (proj2 (Z.eqb_neq i sid)) by done.
      subst v1. change (sessionOf i (emit _ ?x)) with (sessionOf i x).
      rewrite sessionOf_put, (proj2 (Z.eqb_neq i sid)) by done. by apply Hl.
    + intros i. change (sessionOf i (set_open _ ?x)) with (sessionOf i x). rewrite sessionOf_put.
      destruct (Z.eqb_spec i sid); [rewrite Hs2; apply Hsu|].
      subst v1. change (sessionOf i (emit _ ?x)) with (sessionOf i x).
      rewrite sessionOf_put, (proj2 (Z.eqb_neq i sid)) by done. apply Hsu.
Qed.

Lemma deliver_ok known sid e v : server_ok known v → server_ok known (deliver o sid e v).
Proof.
  intros Hok. unfold deliver.
  destruct (send_outcome o sid v); [by apply emit_ok|by apply drop_ok|done|done].
Qed.

Lemma sendEnvelope_ok known now sid t d v :
  server_ok known v → server_ok known (sendEnvelope o now sid t d v).
Proof. intros Hok. by apply deliver_ok, next_ok. Qed.

Lemma dispatch_ok known now t p tr v :
  server_ok known v → server_ok known (dispatch o now t p tr v).
Proof.
  intros Hok%next_ok. unfold dispatch.
  generalize (sv_sequence (next_sequence v)) as q. generalize (sessionList (next_sequence v)) as l.
  revert Hok. generalize (next_sequence v). intros v1 Hok l q. revert v1 Hok.
  induction l as [|x l IH]; intros v1 Hok; [done|]. cbn [fold_left]. apply IH.
  unfold dispatchTo. destruct (pick p _); [by apply deliver_ok|done].
Qed.
End subscriptions.

(** ** Runs *)

Section server_runs.
Variable o : SessionOptions.
Variable pingIntervalMs pingTimeoutMs : Z.

Let step := step o pingIntervalMs pingTimeoutMs.
Let run := run_events o pingIntervalMs pingTimeoutMs.

(** The sockets known after an event. *)
Definition known_after (known : list Z) (e : event) : list Z :=
  match e with EvConnect _ sid => sid :: known | _ => known end.

Lemma sweepOne_ok known now v sid :
  server_ok o known v → server_ok o known (sweepOne pingTimeoutMs now v sid).
Proof.
  intros Hok. unfold sweepOne. destruct (cs_dropReason (sessionOf sid v)) eqn:Hd; [done|].
  destruct (isExpired _ _ _); [by apply drop_ok|]. destruct (negb _); [done|].
  apply emit_ok, put_session_ok; [| | |done]; destruct (cs_awaitingPongSince _); try done;
    by apply (so_subs _ _ _ Hok).
Qed.

Lemma connection_ok known now sid v :
  sid ∉ known → server_ok o known v → server_ok o (sid :: known) (onConnection o pingIntervalMs pingTimeoutMs now sid v).
Proof.
  intros Hnew [Hn Hk Hl Hs]. apply sendEnvelope_ok.
  assert (∀ i, sessionOf i (mkServer (jm_set sid newSession (sv_objects v)) (sv_open v ++ [sid])
    (sv_sequence v) (jm_set sid (mkSocket OPEN_STATE 0) (sv_sockets v)) (sv_out v)) =
    if i =? sid then newSession else sessionOf i v) as Hse.
  { intros i. apply (sessionOf_put i sid newSession v). }
  split; cbn [sv_open].
  - apply NoDup_app. split_and!; [done| |apply NoDup_singleton].
    intros i Hi ->%list_elem_of_singleton. by apply Hnew, Hk.
  - intros i [Hi| ->%list_elem_of_singleton]%elem_of_app; [right; by apply Hk|by left].
  - intros i Hi. rewrite Hse. destruct (Z.eqb_spec i sid); [done|].
    apply elem_of_app in Hi as [Hi|Hi%list_elem_of_singleton]; [by apply Hl|done].
  - intros i. rewrite Hse. destruct (i =? sid); [apply wildcard_ok|done].
Qed.

Lemma message_ok known now sid bytes parsed v :
  server_ok o known v →
  server_ok o known (handleClientMessage o now sid bytes parsed v).
Proof.
  intros Hok. unfold handleClientMessage. destruct (_ <? _); [by apply drop_ok|].
  destruct (parseClientMessage parsed) as [m|e]; [|by apply sendEnvelope_ok].
  destruct (bool_decide (cm_type m = Ping)); [by apply sendEnvelope_ok|].
  pose proof (applyClientMessage_ok o m (sessionOf sid v) (so_subs _ _ _ Hok sid)) as Hs.
  assert (cs_released (fst (applyClientMessage o m (sessionOf sid v))) = cs_released (sessionOf sid v) ∧
    cs_dropReason (fst (applyClientMessage o m (sessionOf sid v))) = cs_dropReason (sessionOf sid v))
    as [Hr Hd].
  { unfold applyClientMessage. destruct (normalizeAssets _); [|done].
    destruct (bool_decide (cm_type m = Subscribe)); [|done]. destruct (bool_decide _); [done|].
    by destruct (_ <? _). }
  destruct (applyClientMessage o m (sessionOf sid v)) as [s []]; by apply sendEnvelope_ok, put_session_ok.
Qed.

Lemma step_server_ok known v e es :
  server_ok o known v → orderly known (e :: es) = true →
  server_ok o (known_after known e) (step v e) ∧ orderly (known_after known e) es = true.
Proof.
  intros Hok Hord. destruct e; cbn [orderly known_after] in *;
    try (apply andb_true_iff in Hord as [Hin Hord]); (split; [|done]).
  - apply connection_ok; [|done]. by apply negb_true_iff, bool_decide_eq_false in Hin.
  - by apply message_ok.
  - apply put_session_ok; [done..|apply (so_subs _ _ _ Hok)|done].
  - by apply release_server_ok.
  - by destruct Hok.
  - unfold step, PushServer.step, broadcast. destruct (resolveBroadcast data) as [[t p] tr]. by apply dispatch_ok.
  - by apply dispatch_ok.
  - unfold step, PushServer.step, sweepLiveness. generalize (sv_open v) as l. intros l.
    revert v Hok. induction l as [|x l IH]; intros v Hok; [done|]. cbn [fold_left].
    by apply IH, sweepOne_ok.
  - destruct Hok as [Hn Hk Hl Hs]. split; cbn; [constructor|by intros ? ?%not_elem_of_nil..|done].
Qed.

Lemma newServer_ok : server_ok o [] newServer.
Proof.
  split; cbn; [constructor|by intros ? ?%not_elem_of_nil..|]. intros sid. apply wildcard_ok.
Qed.

Lemma run_server_ok es known v :
  server_ok o known v → orderly known es = true → ∃ known', server_ok o known' (run es v).
Proof.
  revert known v. induction es as [|e es IH]; intros known v Hok Hord; [by exists known|].
  destruct (step_server_ok known v e es Hok Hord) as [Hok1 Hord1]. by apply (IH _ _ Hok1).
Qed.

(** ** Sequence numbers *)

(** Between two states a client has received at most one envelope more, which
    carries a fresh sequence number. *)
Definition grows (v v' : server) : Prop :=
  sv_sequence v <= sv_sequence v' ∧
  ∀ sid, sent_to sid (sv_out v') = sent_to sid (sv_out v) ∨
    ∃ e, sent_to sid (sv_out v') = sent_to sid (sv_out v) ++ [e] ∧
      en_sequence e = sv_sequence v' ∧ sv_sequence v < sv_sequence v'.

Lemma quiet_grows v v' :
  sv_sequence v' = sv_sequence v → (∀ sid, sent_to sid (sv_out v') = sent_to sid (sv_out v)) → grows v v'.
Proof. intros Hq Hs. split; [lia|]. intros sid. left. apply Hs. Qed.

Lemma sendEnvelope_grows now sid t d v : grows v (sendEnvelope o now sid t d v).
Proof.
  unfold sendEnvelope. set (e := createEnvelope _ _ _ _ _).
  destruct (deliver_spec o sid e (next_sequence v)) as [Hf Hs].
  pose proof (fr_sequence _ _ _ Hf) as Hq. cbn [next_sequence sv_sequence] in Hq.
  split; [lia|]. intros i. destruct (decide (i = sid)) as [->|Hne].
  - rewrite Hs. destruct (send_outcome _ _ _); [right|by left; rewrite app_nil_r..].
    exists e. split; [done|]. rewrite Hq. split; [done|lia].
  - left. apply (fr_sent _ _ _ Hf i Hne).
Qed.

Lemma dispatch_grows now t p tr v : NoDup (sv_open v) → grows v (dispatch o now t p tr v).
Proof.
  intros Hnd. destruct (dispatch_spec o now t p tr v 0 Hnd) as [Hq _]. split; [lia|]. intros sid.
  destruct (dispatch_spec o now t p tr v sid Hnd) as [_ Hs]. rewrite Hs, Hq.
  destruct (bool_decide _); [|left; apply app_nil_r]. unfold share.
  destruct (send_outcome o sid v); try (left; apply app_nil_r).
  destruct (selected _ _); [right|left; apply app_nil_r]. eexists. split; [done|]. simpl. lia.
Qed.

Lemma put_grows sid s v v' : grows (put_session sid s v) v' → grows v v'.
Proof. done. Qed.

Lemma sweepOne_quiet now v sid i :
  sv_sequence (sweepOne pingTimeoutMs now v sid) = sv_sequence v ∧
  sent_to i (sv_out (sweepOne pingTimeoutMs now v sid)) = sent_to i (sv_out v).
Proof.
  unfold sweepOne. destruct (cs_dropReason _); [done|]. destruct (isExpired _ _ _).
  - destruct (drop_frame sid ping_timeout v) as [Hf Ho]. split; [apply (fr_sequence _ _ _ Hf)|apply Ho].
  - destruct (negb _); [done|]. split; [done|]. cbn [emit put_session sv_out].
    rewrite sent_to_app. apply app_nil_r.
Qed.

Lemma step_grows v e : NoDup (sv_open v) → grows v (step v e).
Proof.
  intros Hnd. destruct e; unfold step, PushServer.step.
  - unfold onConnection. match goal with |- grows v (sendEnvelope _ _ _ _ _ ?x) =>
      assert (grows x (sendEnvelope o now sid "hello" (helloBody o pingIntervalMs pingTimeoutMs newSession) x)) as H
        by apply sendEnvelope_grows end. exact H.
  - unfold handleClientMessage. destruct (_ <? _).
    { destruct (drop_frame sid message_too_large v) as [Hf Ho].
      apply quiet_grows; [apply (fr_sequence _ _ _ Hf)|apply Ho]. }
    destruct (parseClientMessage parsed) as [m|e]; [|apply sendEnvelope_grows].
    destruct (bool_decide _); [apply sendEnvelope_grows|].
    destruct (applyClientMessage _ _ _) as [s [u|e]]; eapply put_grows, sendEnvelope_grows.
  - by apply quiet_grows.
  - destruct (release_frame sid v) as [Hf Ho]. unfold onClose.
    apply quiet_grows; [apply (fr_sequence _ _ _ Hf)|]. intros i. by rewrite Ho.
  - by apply quiet_grows.
  - unfold broadcast. destruct (resolveBroadcast data) as [[t p] tr]. by apply dispatch_grows.
  - by apply dispatch_grows.
  - unfold sweepLiveness. clear Hnd. generalize (sv_open v) as l. intros l.
    assert (∀ i, sv_sequence (fold_left (sweepOne pingTimeoutMs nowMs) l v) = sv_sequence v ∧
      sent_to i (sv_out (fold_left (sweepOne pingTimeoutMs nowMs) l v)) = sent_to i (sv_out v)) as H.
    { intros i. revert v. induction l as [|x l IH]; intros v; [done|]. cbn [fold_left].
      destruct (IH (sweepOne pingTimeoutMs nowMs v x)) as [-> ->].
      apply (sweepOne_quiet nowMs v x i). }
    apply quiet_grows; [apply (H 0)|]. intros i. apply H.
  - by apply quiet_grows.
Qed.

(** The numbers a client has seen so far. *)
Definition sequence_ok (v : server) : Prop :=
  ∀ sid, StronglySorted Z.lt (en_sequence <$> sent_to sid (sv_out v)) ∧
    Forall (λ e, en_sequence e <= sv_sequence v) (sent_to sid (sv_out v)).

Lemma sorted_snoc (l : list Z) x : StronglySorted Z.lt l → Forall (λ y, y < x) l → StronglySorted Z.lt (l ++ [x]).
Proof.
  induction 1 as [|y l Hs IH Hall]; intros Hx; simpl; [by repeat constructor|].
  apply Forall_cons in Hx as [Hy Hx]. constructor; [by apply IH|]. apply Forall_app.
  split; [done|]. by apply Forall_singleton.
Qed.

Lemma grows_sequence v v' : grows v v' → sequence_ok v → sequence_ok v'.
Proof.
  intros [Hle Hs] Hok sid. destruct (Hok sid) as [Hsort Hall].
  assert (Forall (λ e, en_sequence e <= sv_sequence v') (sent_to sid (sv_out v))) as Hall'.
  { eapply Forall_impl; [exact Hall|]. simpl. lia. }
  destruct (Hs sid) as [->|(e & -> & He & Hlt)]; [done|]. split.
  - rewrite fmap_app. apply sorted_snoc; [done|]. apply Forall_fmap.
    eapply Forall_impl; [exact Hall|]. simpl. lia.
  - apply Forall_app. split; [done|]. apply Forall_singleton. lia.
Qed.

Lemma run_sequence es known v :
  server_ok o known v → orderly known es = true → sequence_ok v → sequence_ok (run es v).
Proof.
  revert known v. induction es as [|e es IH]; intros known v Hok Hord Hseq; [done|].
  destruct (step_server_ok known v e es Hok Hord) as [Hok1 Hord1]. cbn. apply (IH _ _ Hok1 Hord1).
  eapply grows_sequence; [|exact Hseq]. apply step_grows, (so_nodup _ _ _ Hok).
Qed.

(** the sequence numbers a client receives increase strictly, whatever mixture
    of broadcasts, answers, drops and reconnects of other clients takes place:
    a client can detect every gap, and never sees a number twice. *)
Theorem sequence_increasing es sid :
  orderly [] es = true →
  StronglySorted Z.lt (en_sequence <$> sent_to sid (sv_out (run es newServer))).
Proof.
  intros Hord. apply (run_sequence es [] newServer); [apply newServer_ok|done|].
  intros i. split; constructor.
Qed.

(** every session holds at most the permitted number of subscriptions, each the
    wildcard or an upper-case asset symbol, none twice; a session that was
    dropped or closed is no longer among the open ones. *)
Theorem sessions_bounded es sid :
  orderly [] es = true →
  let v := run es newServer in
  let s := sessionOf sid v in
  NoDup (cs_subscriptions s) ∧ Forall valid_symbol (cs_subscriptions s) ∧
  Z.of_nat (length (cs_subscriptions s)) <= Z.max 1 (maxSubscriptions o) ∧
  (sid ∈ sv_open v → cs_released s = false ∧ cs_dropReason s = None).
Proof.
  intros Hord v s. destruct (run_server_ok es [] newServer newServer_ok Hord) as [known Hok].
  destruct (so_subs _ _ _ Hok sid) as [H1 H2 H3]. split_and!; [done..|].
  apply (so_live _ _ _ Hok).
Qed.

(** C39: a broadcast writes to each open client exactly one envelope with the items
    its subscriptions select, and nothing to a client that selected none of
    them, whose socket is not open or whose buffer is over the limit. *)
Theorem broadcast_exact es now trace data sid :
  orderly [] es = true →
  let v := run es newServer in
  let v' := broadcast o now trace data v in
  let '(type_, payload, tr) := resolveBroadcast data in
  let context := Some (match tr with None | Some JNull => trace | Some t => t end) in
  sent_to sid (sv_out v') = sent_to sid (sv_out v) ++
    (if bool_decide (sid ∈ sv_open v) then
       match send_outcome o sid v, selected (sessionOf sid v) payload with
       | sent, Some d => [createEnvelope type_ (sv_sequence v + 1) now d context]
       | _, _ => []
       end
     else []).
Proof.
  intros Hord v v'. subst v'. unfold broadcast. destruct (resolveBroadcast data) as [[t p] tr].
  destruct (run_server_ok es [] newServer newServer_ok Hord) as [known Hok].
  apply (dispatch_spec o now t p _ v sid), (so_nodup _ _ _ Hok).
Qed.

(** ** Clients that do not answer *)

(** What others cannot change of a client: its session, the sockets, its place
    among the open ones, and what was written so far. *)
Definition keeps (sid : Z) (v v' : server) : Prop :=
  sessionOf sid v' = sessionOf sid v ∧ sv_sockets v' = sv_sockets v ∧
  (sid ∈ sv_open v' ↔ sid ∈ sv_open v) ∧ prefix (sv_out v) (sv_out v').

Lemma keeps_refl sid v : keeps sid v v.
Proof. by split_and!. Qed.

Lemma keeps_trans sid v1 v2 v3 : keeps sid v1 v2 → keeps sid v2 v3 → keeps sid v1 v3.
Proof.
  intros (A1 & B1 & E1 & D1) (A2 & B2 & E2 & D2). split_and!; [congruence..| |by trans (sv_out v2)].
  by rewrite E2.
Qed.

Lemma drop_keeps i sid r v : i ≠ sid → keeps i v (drop sid r v).
Proof.
  intros Hne. destruct (drop_frame sid r v) as [Hf _]. split; [by apply (fr_session _ _ _ Hf)|].
  split; [apply (fr_sockets _ _ _ Hf)|]. unfold drop, release.
  destruct (cs_dropReason _); [by split|]. destruct (cs_released _); cbn [sv_open sv_out emit set_open put_session].
  - split; [done|]. by apply prefix_app_r.
  - split; [|by apply prefix_app_r]. rewrite elem_filter_ne. naive_solver.
Qed.

Lemma sweepOne_keeps i now v sid : i ≠ sid → keeps i v (sweepOne pingTimeoutMs now v sid).
Proof.
  intros Hne. unfold sweepOne. destruct (cs_dropReason _); [apply keeps_refl|].
  destruct (isExpired _ _ _); [by apply drop_keeps|]. destruct (negb _); [apply keeps_refl|].
  split_and!; [|done|done|by apply prefix_app_r].
  change (sessionOf i (emit _ ?x)) with (sessionOf i x).
  rewrite sessionOf_put, (proj2 (Z.eqb_neq i sid)) by done. done.
Qed.

Lemma sweep_keeps i now l v : i ∉ l → keeps i v (fold_left (sweepOne pingTimeoutMs now) l v).
Proof.
  revert v. induction l as [|x l IH]; intros v Hi; [apply keeps_refl|].
  apply not_elem_of_cons in Hi as [Hx Hi]. cbn [fold_left].
  eapply keeps_trans; [by apply sweepOne_keeps|by apply IH].
Qed.

(** A sweep acts on an open client as on it alone. *)
Lemma sweep_one now v sid :
  NoDup (sv_open v) → sid ∈ sv_open v →
  ∃ v1, keeps sid v v1 ∧ keeps sid (sweepOne pingTimeoutMs now v1 sid) (sweepLiveness pingTimeoutMs now v).
Proof.
  intros Hnd Hin. unfold sweepLiveness. apply list_elem_of_split in Hin as (l1 & l2 & Hl).
  rewrite Hl in Hnd |- *. apply NoDup_app in Hnd as (_ & Hd & [Hn2 _]%NoDup_cons).
  rewrite fold_left_app. cbn [fold_left].
  exists (fold_left (sweepOne pingTimeoutMs now) l1 v). split; apply sweep_keeps; [|done].
  intros Hin1. apply (Hd sid Hin1). by left.
Qed.

Lemma drop_self sid r v :
  cs_released (sessionOf sid v) = false → cs_dropReason (sessionOf sid v) = None →
  cs_dropReason (sessionOf sid (drop sid r v)) = Some r ∧ (sid ∉ sv_open (drop sid r v)) ∧
  OClosed sid (WS_DROP_CLOSE_CODES r) ∈ sv_out (drop sid r v).
Proof.
  intros Hr Hd. unfold drop, release. rewrite Hd.
  set (v1 := emit _ _).
  assert (sessionOf sid v1 = mkSession (cs_subscriptions (sessionOf sid v))
    (cs_awaitingPongSince (sessionOf sid v)) (Some r) (cs_released (sessionOf sid v))) as Hs.
  { subst v1. change (sessionOf sid (emit _ ?x)) with (sessionOf sid x).
    rewrite sessionOf_put, Z.eqb_refl. done. }
  rewrite Hs. cbn [cs_released cs_subscriptions cs_awaitingPongSince cs_dropReason]. rewrite Hr.
  split_and!.
  - change (sessionOf sid (set_open _ ?x)) with (sessionOf sid x).
    rewrite sessionOf_put, Z.eqb_refl. done.
  - cbn [sv_open set_open]. rewrite elem_filter_ne. naive_solver.
  - subst v1. cbn [sv_out set_open put_session emit]. apply elem_of_app. right. by left.
Qed.

(** a client found unresponsive is dropped: if it has been waited for since [t],
    the first sweep at which the timeout has passed closes its socket with code
    4001 and forgets it. *)
Theorem unresponsive_dropped es sid t now :
  orderly [] es = true →
  let v := run es newServer in
  sid ∈ sv_open v → cs_awaitingPongSince (sessionOf sid v) = Some t → pingTimeoutMs <= now - t →
  let v' := step v (EvSweep now) in
  cs_dropReason (sessionOf sid v') = Some ping_timeout ∧ (sid ∉ sv_open v') ∧
  OClosed sid 4001 ∈ sv_out v'.
Proof.
  intros Hord v Hin Hw Ht v'. destruct (run_server_ok es [] newServer newServer_ok Hord) as [known Hok].
  fold v in Hok. destruct (so_live _ _ _ Hok sid Hin) as [Hr Hd].
  destruct (sweep_one now v sid (so_nodup _ _ _ Hok) Hin) as (v1 & (Hs1 & _ & _ & _) & (Hs2 & _ & Ho2 & Hp2)).
  change (sweepLiveness pingTimeoutMs now v) with v' in Hs2, Ho2, Hp2.
  assert (sweepOne pingTimeoutMs now v1 sid = drop sid ping_timeout v1) as Hsweep.
  { unfold sweepOne, isExpired. by rewrite Hs1, Hd, Hw, (proj2 (Z.leb_le _ _) Ht). }
  rewrite Hsweep in Hs2, Ho2, Hp2.
  destruct (drop_self sid ping_timeout v1) as (H1 & H2 & H3); [by rewrite Hs1..|].
  rewrite Hs2, Ho2. split_and!; [done..|]. destruct Hp2 as [k ->]. apply elem_of_app. by left.
Qed.
End server_runs.

(** ** Concrete runs *)

Definition demo_options : SessionOptions := mkSessionOptions 2 1000 4096.
Definition run_demo (es : list event) : server :=
  run_events demo_options 15000 30000 es newServer.

Definition subscribe_to (assets : list string) : json :=
  JObj [("type", JStr "subscribe"); ("assets", JArr (JStr <$> assets))].

Definition price_of (asset : string) : json := JObj [("asset", JStr asset)].

(** Client 1 asks for XLM, client 2 keeps the wildcard, client 3 asks for more
    than it may have. *)
Definition demo_events : list event :=
  [EvConnect 0 1; EvConnect 0 2; EvConnect 0 3;
   EvMessage 1 1 64 (Some (subscribe_to ["xlm"]));
   EvMessage 1 3 64 (Some (subscribe_to ["BTC"; "ETH"; "XLM"]));
   EvSweep 5000].

Definition demo_broadcast : json :=
  JObj [("type", JStr "prices"); ("data", JArr [price_of "XLM"; price_of "BTC"])].

Lemma sequence_increasing_witness :
  StronglySorted Z.lt (en_sequence <$> sent_to 1 (sv_out (run_demo demo_events))).
Proof.
  apply (sequence_increasing demo_options 15000 30000 demo_events 1). reflexivity.
Defined.

Lemma sessions_bounded_witness :
  cs_subscriptions (sessionOf 1 (run_demo demo_events)) = ["XLM"] ∧
  cs_subscriptions (sessionOf 3 (run_demo demo_events)) = ["*"] ∧
  Z.of_nat (length (cs_subscriptions (sessionOf 3 (run_demo demo_events)))) <= Z.max 1 2.
Proof.
  split; [vm_compute; reflexivity|]. split; [vm_compute; reflexivity|].
  apply (sessions_bounded demo_options 15000 30000 demo_events 3). reflexivity.
Defined.

Lemma broadcast_exact_witness :
  selected (sessionOf 1 (run_demo demo_events)) (JArr [price_of "XLM"; price_of "BTC"]) =
    Some (JArr [price_of "XLM"]) ∧
  sent_to 1 (sv_out (broadcast demo_options 9 JNull demo_broadcast (run_demo demo_events))) =
    sent_to 1 (sv_out (run_demo demo_events)) ++
      (if bool_decide (1 ∈ sv_open (run_demo demo_events)) then
         match send_outcome demo_options 1 (run_demo demo_events),
               selected (sessionOf 1 (run_demo demo_events)) (JArr [price_of "XLM"; price_of "BTC"]) with
         | sent, Some d =>
             [createEnvelope "prices" (sv_sequence (run_demo demo_events) + 1) 9 d (Some JNull)]
         | _, _ => []
         end
       else []).
Proof.
  split; [vm_compute; reflexivity|].
  apply (broadcast_exact demo_options 15000 30000 demo_events 9 JNull demo_broadcast 1).
  reflexivity.
Defined.

Lemma unresponsive_dropped_witness :
  cs_dropReason (sessionOf 2 (step demo_options 15000 30000 (run_demo demo_events)
    (EvSweep 35000))) = Some ping_timeout.
Proof.
  apply (unresponsive_dropped demo_options 15000 30000 demo_events 2 5000 35000).
  - reflexivity.
  - apply list_elem_of_In. vm_compute. tauto.
  - vm_compute. reflexivity.
  - lia.
Defined.

(** Unsubscribing from an asset while subscribed to everything is acknowledged
    and changes nothing. *)
Example unsubscribe_from_wildcard :
  applyClientMessage demo_options (mkMessage Unsubscribe (Some [JStr "XLM"])) newSession =
    (newSession, Ok tt).
Proof. vm_compute. reflexivity. Qed.
