(* ===== verification/PriceRegister.v ===== *)
(** * Regional replication: routing, the price register and feed ownership

    Models [services/aggregator/src/replication/price-crdt.ts] (the
    [FeedHealthRouter] and the [LwwPriceRegister]) and the ownership part of
    [services/aggregator/src/replication/region-price-replicator.ts]
    ([FeedOwnershipRegistry], [PublisherAuthority]).

    Epochs, timestamps and freshness are integers, the integrity score a
    rational.  [advanceEpoch] awaits its persistence hook between reading the
    epoch and writing it, so an election is two operations of the node
    ([OpBegin] with [advanceBegin], [OpCommit] with [advanceCommit]; [OpHookFails]
    when the hook rejects) and any other operation may run in between; without a
    hook nothing does ([advanceEpoch], [advanceEpoch_no_hook]). *)

From Stdlib Require Import ZArith QArith Lia.
From stdpp Require Import base tactics decidable list sets strings gmap relations.
From S2P Require Import Prelude JsMap.

Local Open Scope Z_scope.

(** ** Health-based routing *)

Module Router.

Record FeedHealthSignal : Type := mkSignal {
  fs_region : string;
  fs_asset : string;
  freshnessMs : Z;
  integrity : Q;
  regionPriority : option Z;
}.

Record FeedRouterConfig : Type := mkRouterConfig {
  maxFreshnessMs : Z;
  minIntegrity : Q;
}.

Definition DEFAULT_CONFIG : FeedRouterConfig := mkRouterConfig 30000 (1 # 2).

Inductive route_reason : Type := Selected | Failover | NoHealthyFeed.

Record FeedRouteDecision : Type := mkDecision {
  fd_asset : string;
  selectedRegion : option string;
  fd_reason : route_reason;
  fd_candidates : list FeedHealthSignal;
  decidedAt : Z;
}.

Record router : Type := mkRouter {
  ro_config : FeedRouterConfig;
  decisions_total : Z;
  failovers_total : Z;
  lastSelected : jsmap string string;
}.

Definition newRouter (c : FeedRouterConfig) : router := mkRouter c 0 0 jm_empty.

Definition isHealthy (c : FeedRouterConfig) (s : FeedHealthSignal) : bool :=
  (freshnessMs s <=? maxFreshnessMs c) && Qle_bool (minIntegrity c) (integrity s).

Definition compareSignals : FeedHealthSignal → FeedHealthSignal → comparison :=
  cmp_lex (cmp_on freshnessMs Z.compare)
    (cmp_lex (cmp_flip (cmp_on integrity Qcompare))
       (cmp_lex (cmp_on (λ s, default 0 (regionPriority s)) Z.compare)
          (cmp_on fs_region String.compare))).

Definition candidatesFor (asset : string) (signals : list FeedHealthSignal)
    : list FeedHealthSignal :=
  filter (λ s, fs_asset s = asset) signals.

Definition healthyFor (c : FeedRouterConfig) (asset : string)
    (signals : list FeedHealthSignal) : list FeedHealthSignal :=
  filter (λ s, isHealthy c s = true) (candidatesFor asset signals).

Definition route (asset : string) (signals : list FeedHealthSignal) (now : Z)
    (r : router) : router * FeedRouteDecision :=
  let candidates := candidatesFor asset signals in
  let ordered := stable_sort (cmp_leb compareSignals) (healthyFor (ro_config r) asset signals) in
  let '(sel, reason, last) :=
    match ordered with
    | [] => (None, NoHealthyFeed, lastSelected r)
    | s :: _ =>
        (Some (fs_region s),
         match jm_get asset (lastSelected r) with
         | Some prev => if decide (prev = fs_region s) then Selected else Failover
         | None => Selected
         end,
         jm_set asset (fs_region s) (lastSelected r))
    end in
  (mkRouter (ro_config r) (decisions_total r + 1)
     (match reason with Failover => failovers_total r + 1 | _ => failovers_total r end) last,
   mkDecision asset sel reason candidates now).

Definition resetMetrics (r : router) : router :=
  mkRouter (ro_config r) 0 0 (lastSelected r).

#[export] Instance Qcompare_laws : cmp_laws Qcompare.
Proof.
  split.
  - intros x y. symmetry. apply Qcompare_antisym.
  - intros x y z. rewrite <- !Qle_alt. apply Qle_trans.
Qed.

#[export] Instance compareSignals_laws : cmp_laws compareSignals.
Proof. unfold compareSignals. apply _. Qed.

Lemma compareSignals_eq_region a b :
  compareSignals a b = Eq → fs_region a = fs_region b.
Proof.
  unfold compareSignals, cmp_lex, cmp_flip, cmp_on.
  destruct (_ ?= _); [|done..]. destruct (Qcompare _ _); [|done..].
  destruct (_ ?= _); [|done..]. apply String.compare_eq_iff.
Qed.

Lemma healthyFor_elem c a signals s :
  s ∈ healthyFor c a signals ↔ isHealthy c s = true ∧ fs_asset s = a ∧ s ∈ signals.
Proof. unfold healthyFor, candidatesFor. by rewrite !list_elem_of_filter. Qed.

(** The region at the head of the order does not depend on how the signals
    were listed. *)
Lemma head_region_perm l1 l2 :
  l1 ≡ₚ l2 →
  fs_region <$> head (stable_sort (cmp_leb compareSignals) l1) =
  fs_region <$> head (stable_sort (cmp_leb compareSignals) l2).
Proof.
  intros Hp.
  assert (stable_sort (cmp_leb compareSignals) l1 ≡ₚ stable_sort (cmp_leb compareSignals) l2)
    as Hs by (by rewrite !stable_sort_perm).
  destruct (stable_sort _ l1) as [|x1 t1] eqn:E1, (stable_sort _ l2) as [|x2 t2] eqn:E2;
    [done|by apply Permutation_nil_cons in Hs|by symmetry in Hs; apply Permutation_nil_cons in Hs|].
  apply sort_head_least in E1 as [Hin1 Hl1], E2 as [Hin2 Hl2]; [|apply _..].
  simpl. f_equal. apply compareSignals_eq_region.
  assert (compareSignals x1 x2 ≠ Gt) as H12 by (apply Hl1; by rewrite Hp).
  assert (compareSignals x2 x1 ≠ Gt) as H21 by (apply Hl2; by rewrite <- Hp).
  rewrite (cmp_opp (c:=compareSignals) x1 x2) in H21. by destruct (compareSignals x1 x2).
Qed.

Lemma route_selected asset signals now r :
  selectedRegion (snd (route asset signals now r)) =
  fs_region <$> head (stable_sort (cmp_leb compareSignals)
                        (healthyFor (ro_config r) asset signals)).
Proof. unfold route. by destruct (stable_sort _ _). Qed.

Lemma route_reason_of asset signals now r :
  fd_reason (snd (route asset signals now r)) =
  match selectedRegion (snd (route asset signals now r)) with
  | None => NoHealthyFeed
  | Some s =>
      match jm_get asset (lastSelected r) with
      | Some p => if decide (p = s) then Selected else Failover
      | None => Selected
      end
  end.
Proof. unfold route. by destruct (stable_sort _ _). Qed.

Lemma route_state asset signals now r :
  fst (route asset signals now r) =
  let sel := selectedRegion (snd (route asset signals now r)) in
  let failover := match sel, jm_get asset (lastSelected r) with
                  | Some s, Some p => negb (bool_decide (p = s))
                  | _, _ => false
                  end in
  mkRouter (ro_config r) (decisions_total r + 1)
    (if failover then failovers_total r + 1 else failovers_total r)
    (match sel with Some s => jm_set asset s (lastSelected r) | None => lastSelected r end).
Proof.
  unfold route. destruct (stable_sort _ _) as [|s t]; simpl; [done|].
  destruct (jm_get asset (lastSelected r)) as [p|]; [|done].
  case_decide as Hd; [by rewrite bool_decide_eq_true_2 by done|].
  by rewrite bool_decide_eq_false_2 by done.
Qed.

(** The router serves a feed from a region exactly when some signal for
    the asset is fresh and intact enough, and the chosen region is that of a
    healthy signal which no other healthy signal for the asset precedes in the
    documented order (freshness, then integrity, priority, region name). *)
Theorem route_optimal asset signals now r :
  match selectedRegion (snd (route asset signals now r)) with
  | None => ∀ s, s ∈ signals → fs_asset s = asset → isHealthy (ro_config r) s = false
  | Some region =>
      ∃ s, s ∈ signals ∧ fs_asset s = asset ∧ isHealthy (ro_config r) s = true ∧
        fs_region s = region ∧
        ∀ s', s' ∈ signals → fs_asset s' = asset → isHealthy (ro_config r) s' = true →
          compareSignals s s' ≠ Gt
  end.
Proof.
  rewrite route_selected.
  destruct (stable_sort _ _) as [|s t] eqn:E; simpl.
  - intros s Hs Ha. destruct (isHealthy _ s) eqn:Hh; [|done].
    assert (s ∈ healthyFor (ro_config r) asset signals) as Hin by (by apply healthyFor_elem).
    rewrite <- (elem_of_stable_sort (cmp_leb compareSignals)), E in Hin. set_solver.
  - apply sort_head_least in E as [Hin Hleast]; [|apply _].
    apply healthyFor_elem in Hin as (Hh & Ha & Hin). exists s. split_and!; try done.
    intros s' Hin' Ha' Hh'. apply Hleast. by apply healthyFor_elem.
Qed.

(** Routing is deterministic in the set of signals: listing the same
    signals in another order changes neither the region, the reason nor the
    router's state (failover counter and last selection). *)
Theorem route_order_independent asset signals signals' now r :
  signals ≡ₚ signals' →
  selectedRegion (snd (route asset signals now r)) =
    selectedRegion (snd (route asset signals' now r)) ∧
  fd_reason (snd (route asset signals now r)) =
    fd_reason (snd (route asset signals' now r)) ∧
  fst (route asset signals now r) = fst (route asset signals' now r).
Proof.
  intros Hp.
  assert (selectedRegion (snd (route asset signals now r)) =
          selectedRegion (snd (route asset signals' now r))) as Heq.
  { rewrite !route_selected. apply head_region_perm.
    unfold healthyFor, candidatesFor. by rewrite Hp. }
  split_and!; [done|by rewrite !route_reason_of, Heq|by rewrite !route_state, Heq].
Qed.

Definition sig_a : FeedHealthSignal := mkSignal "us-east-1" "XLM" 100 1 None.
Definition sig_b : FeedHealthSignal := mkSignal "eu-west-1" "XLM" 100 1 (Some 0).

Lemma route_order_independent_witness :
  [sig_a; sig_b] ≡ₚ [sig_b; sig_a] ∧
  selectedRegion (snd (route "XLM" [sig_a; sig_b] 0 (newRouter DEFAULT_CONFIG))) =
    selectedRegion (snd (route "XLM" [sig_b; sig_a] 0 (newRouter DEFAULT_CONFIG))) ∧
  selectedRegion (snd (route "XLM" [sig_b; sig_a] 0 (newRouter DEFAULT_CONFIG))) =
    Some "eu-west-1"%string.
Proof.
  assert ([sig_a; sig_b] ≡ₚ [sig_b; sig_a]) as Hp by apply Permutation_swap.
  split; [exact Hp|]. split; [|vm_compute; reflexivity].
  exact (proj1 (route_order_independent "XLM" [sig_a; sig_b] [sig_b; sig_a] 0
                  (newRouter DEFAULT_CONFIG) Hp)).
Defined.

End Router.

(** ** The last-writer-wins register *)

Module Register.

Inductive record_source : Type := Local | Remote.

Record RegionPriceRecord : Type := mkRecord {
  rp_region : string;
  rp_asset : string;
  rp_price : Z;
  rp_decimals : Z;
  rp_timestamp : Z;
  rp_receivedAt : Z;
  rp_source : record_source;
  rp_epoch : Z;
}.

Record StaleEpochRejection : Type := mkRejection {
  re_region : string;
  re_asset : string;
  re_recordEpoch : Z;
  re_currentEpoch : Z;
  re_timestamp : Z;
}.

Record register : Type := mkRegister {
  values : jsmap string RegionPriceRecord;
  epochs : jsmap string Z;
  localEpochs : jsmap string Z;
  rejectedStaleEpochs : Z;
  lastRejection : option StaleEpochRejection;
}.

Definition newRegister : register := mkRegister jm_empty jm_empty jm_empty 0 None.

(** What [merge] returns: [false], [true] or the string ['applied']. *)
Inductive merge_result : Type := RFalse | RTrue | RApplied.

Definition epochFor (region : string) (g : register) : Z :=
  default 0 (jm_get region (epochs g)).

Definition record_key (r : RegionPriceRecord) : string :=
  rp_region r +:+ ":" +:+ rp_asset r.

Definition with_values v (g : register) : register :=
  mkRegister v (epochs g) (localEpochs g) (rejectedStaleEpochs g) (lastRejection g).
Definition with_epochs e (g : register) : register :=
  mkRegister (values g) e (localEpochs g) (rejectedStaleEpochs g) (lastRejection g).

(** The update of [values] by an accepted record. *)
Definition storeRecord (r : RegionPriceRecord) (g : register) : register * merge_result :=
  match jm_get (record_key r) (values g) with
  | Some current =>
      if rp_timestamp current <? rp_timestamp r
      then (with_values (jm_set (record_key r) r (values g)) g, RApplied)
      else (g, RTrue)
  | None => (with_values (jm_set (record_key r) r (values g)) g, RApplied)
  end.

Definition merge (now : Z) (r : RegionPriceRecord) (g : register)
    : register * merge_result :=
  let currentEpoch := epochFor (rp_region r) g in
  if rp_epoch r <? currentEpoch then
    (mkRegister (values g) (epochs g) (localEpochs g) (rejectedStaleEpochs g + 1)
       (Some (mkRejection (rp_region r) (rp_asset r) (rp_epoch r) currentEpoch now)), RFalse)
  else
    let g := if currentEpoch <? rp_epoch r
             then with_epochs (jm_set (rp_region r) (rp_epoch r) (epochs g)) g else g in
    storeRecord r g.

Definition currentEpoch (region : string) (g : register) : Z :=
  Z.max (default 0 (jm_get region (localEpochs g))) (default 0 (jm_get region (epochs g))).

(** [advanceEpoch] up to its [await]: the epoch handed to the hook. *)
Definition advanceBegin (region : string) (proposed : option Z) (g : register) : Z :=
  let floor := currentEpoch region g in
  match proposed with Some p => Z.max p (floor + 1) | None => floor + 1 end.

(** [advanceEpoch] after its [await]. *)
Definition advanceCommit (region : string) (next : Z) (g : register) : register :=
  mkRegister (values g) (jm_set region next (epochs g)) (jm_set region next (localEpochs g))
    (rejectedStaleEpochs g) (lastRejection g).

(** [advanceEpoch] without a persistence hook. *)
Definition advanceEpoch (region : string) (proposed : option Z) (g : register)
    : register * Z :=
  let next := advanceBegin region proposed g in (advanceCommit region next g, next).

Definition restoreEpoch (region : string) (persisted : Z) (g : register) : register :=
  if currentEpoch region g <? persisted then advanceCommit region persisted g else g.

Definition byAsset (asset : string) (g : register) : list RegionPriceRecord :=
  filter (λ r, rp_asset r = asset) (jm_values (values g)).
Definition byRegion (region : string) (g : register) : list RegionPriceRecord :=
  filter (λ r, rp_region r = region) (jm_values (values g)).

Definition later (winner r : RegionPriceRecord) : RegionPriceRecord :=
  if rp_timestamp winner <? rp_timestamp r then r else winner.

Definition latest (asset : string) (g : register) : option RegionPriceRecord :=
  match byAsset asset g with
  | [] => None
  | r :: rs => Some (foldl later r rs)
  end.

Definition latestAll (g : register) : list RegionPriceRecord :=
  omap (λ a, latest a g) (js_dedup (rp_asset <$> jm_values (values g))).

Definition clear (g : register) : register := with_values jm_empty g.

(** ** Specification lemmas *)

Definition fenced (r : RegionPriceRecord) (g : register) : Prop :=
  rp_epoch r < epochFor (rp_region r) g.

Lemma storeRecord_epochs r g :
  epochs (fst (storeRecord r g)) = epochs g ∧
  localEpochs (fst (storeRecord r g)) = localEpochs g.
Proof. unfold storeRecord. repeat case_match; by simpl. Qed.

Lemma merge_localEpochs now r g : localEpochs (fst (merge now r g)) = localEpochs g.
Proof.
  unfold merge. destruct (_ <? _); [done|].
  rewrite (proj2 (storeRecord_epochs _ _)). by destruct (_ <? _).
Qed.

Lemma merge_epochFor now r g region :
  epochFor region (fst (merge now r g)) =
  if decide (rp_region r = region) then Z.max (rp_epoch r) (epochFor region g)
  else epochFor region g.
Proof.
  unfold merge. destruct (rp_epoch r <? _) eqn:E1; to_prop; simpl.
  { case_decide; subst; [|done]. unfold epochFor in *. simpl. lia. }
  unfold epochFor at 1. rewrite (proj1 (storeRecord_epochs _ _)).
  destruct (_ <? rp_epoch r) eqn:E2; to_prop; simpl.
  - rewrite jm_get_set. case_decide; subst; simpl; [lia|done].
  - case_decide; subst; unfold epochFor in *; [lia|done].
Qed.

(** The value stored under a key after an accepted record. *)
Definition lww (key : string) (r : RegionPriceRecord) (v : option RegionPriceRecord)
    : option RegionPriceRecord :=
  if decide (record_key r = key) then
    match v with Some c => Some (later c r) | None => Some r end
  else v.

Lemma merge_values now r g key :
  ¬ fenced r g →
  jm_get key (values (fst (merge now r g))) = lww key r (jm_get key (values g)).
Proof.
  unfold fenced, merge. intros Hf. rewrite (proj2 (Z.ltb_ge _ _)) by lia.
  set (g' := if epochFor _ g <? _ then _ else g).
  assert (values g' = values g) as Hv by (subst g'; by destruct (_ <? _)).
  clearbody g'. unfold storeRecord, lww, later. rewrite !Hv.
  destruct (jm_get (record_key r) (values g)) as [c|] eqn:E.
  - destruct (rp_timestamp c <? rp_timestamp r) eqn:Ht; simpl; rewrite ?Hv, ?jm_get_set;
      case_decide; subst; try done; by rewrite E, Ht.
  - simpl. rewrite jm_get_set. case_decide; subst; [by rewrite E|done].
Qed.

Lemma merge_fenced now r g :
  fenced r g → values (fst (merge now r g)) = values g ∧ snd (merge now r g) = RFalse.
Proof. unfold fenced, merge. intros Hf. by rewrite (proj2 (Z.ltb_lt _ _)) by done. Qed.

(** ** Fencing *)

(** A node runs its register and the elections whose persistence hook has not
    answered yet: the region and the number that will be written.  The calls
    interleave at the [await] of [advanceEpoch]. *)
Record node : Type := mkNode { nd_register : register; nd_pending : list (string * Z) }.

Inductive node_op : Type :=
| OpMerge (now : Z) (r : RegionPriceRecord)
| OpBegin (region : string) (proposed : option Z)
| OpCommit (i : nat)
| OpHookFails (i : nat)
| OpRestore (region : string) (persisted : Z)
| OpClear.

Definition exec (op : node_op) (s : node) : node :=
  let g := nd_register s in
  match op with
  | OpMerge now r => mkNode (fst (merge now r g)) (nd_pending s)
  | OpBegin region proposed =>
      mkNode g (nd_pending s ++ [(region, advanceBegin region proposed g)])
  | OpCommit i =>
      match nd_pending s !! i with
      | Some (region, next) => mkNode (advanceCommit region next g) (delete i (nd_pending s))
      | None => s
      end
  | OpHookFails i => mkNode g (delete i (nd_pending s))
  | OpRestore region persisted => mkNode (restoreEpoch region persisted g) (nd_pending s)
  | OpClear => mkNode (clear g) (nd_pending s)
  end.

Definition step (s s' : node) : Prop := ∃ op, s' = exec op s.

(** Without a hook an election is a begin and its commit with nothing in between. *)
Lemma advanceEpoch_no_hook region proposed s :
  exec (OpCommit (length (nd_pending s))) (exec (OpBegin region proposed) s) =
  mkNode (fst (advanceEpoch region proposed (nd_register s))) (nd_pending s).
Proof.
  cbn [exec nd_pending nd_register]. rewrite list_lookup_middle by done.
  by rewrite delete_middle, app_nil_r.
Qed.

Lemma commit_epochFor region next g region' :
  epochFor region' (advanceCommit region next g) =
  if decide (region = region') then next else epochFor region' g.
Proof. unfold epochFor. simpl. rewrite jm_get_set. by case_decide. Qed.

Lemma epochFor_current region g : epochFor region g ≤ currentEpoch region g.
Proof. unfold epochFor, currentEpoch. lia. Qed.

Lemma advanceBegin_gt region proposed g :
  currentEpoch region g < advanceBegin region proposed g.
Proof. unfold advanceBegin. destruct proposed; lia. Qed.

Lemma current_commit region next g region' :
  currentEpoch region' (advanceCommit region next g) =
  if decide (region = region') then next else currentEpoch region' g.
Proof. unfold currentEpoch. simpl. rewrite !jm_get_set. case_decide; simpl; lia. Qed.

Lemma current_merge now r g region :
  currentEpoch region g ≤ currentEpoch region (fst (merge now r g)).
Proof.
  unfold currentEpoch. rewrite merge_localEpochs.
  pose proof (merge_epochFor now r g region) as He. unfold epochFor in He. rewrite He.
  case_decide; lia.
Qed.

(** Elections of the region that are waiting are numbered above [e]. *)
Definition pending_above (region : string) (e : Z) (s : node) : Prop :=
  ∀ n, (region, n) ∈ nd_pending s → e < n.

Lemma pending_delete region e g g' l i :
  pending_above region e (mkNode g l) → pending_above region e (mkNode g' (delete i l)).
Proof. intros Hp n Hn. apply Hp. by eapply list_elem_of_delete_inv. Qed.

Lemma pending_begin region e s region' proposed :
  pending_above region e s → e ≤ currentEpoch region (nd_register s) →
  pending_above region e (exec (OpBegin region' proposed) s).
Proof.
  intros Hp He n [Hn|[= <- ->]%list_elem_of_singleton]%elem_of_app; [by apply Hp|].
  pose proof (advanceBegin_gt region proposed (nd_register s)). lia.
Qed.

(** Before the election is committed: the epoch may not be above [e] yet, but
    nothing that is waiting can bring it to [e] or below. *)
Definition covered (region : string) (e : Z) (s : node) : Prop :=
  e ≤ currentEpoch region (nd_register s) ∧ pending_above region e s.

(** After it: records of epoch [e] are refused. *)
Definition fencing (region : string) (e : Z) (s : node) : Prop :=
  e < epochFor region (nd_register s) ∧ pending_above region e s.

Lemma exec_covered region e op s : covered region e s → covered region e (exec op s).
Proof.
  destruct s as [g pend]. intros [He Hp]. destruct op as [now r|rg p|i|i|rg p|]; simpl in *.
  - split; [|done]. pose proof (current_merge now r g region). simpl. lia.
  - split; [done|]. by apply (pending_begin region e (mkNode g pend)).
  - destruct (pend !! i) as [[rg n]|] eqn:Hi; [|done]. simpl.
    split; [|by eapply pending_delete]. simpl. rewrite current_commit. case_decide; [subst|lia].
    apply list_elem_of_lookup_2, Hp in Hi. lia.
  - split; [done|by eapply pending_delete].
  - split; [|done]. simpl. unfold restoreEpoch. destruct (_ <? _) eqn:E; to_prop; [|lia].
    rewrite current_commit. case_decide; subst; lia.
  - done.
Qed.

Lemma exec_fencing region e op s : fencing region e s → fencing region e (exec op s).
Proof.
  destruct s as [g pend]. intros [He Hp]. simpl in He. pose proof (epochFor_current region g).
  destruct op as [now r|rg p|i|i|rg p|]; simpl in *.
  - split; [|done]. simpl. rewrite merge_epochFor. case_decide; lia.
  - split; [done|]. apply (pending_begin region e (mkNode g pend)); [done|simpl; lia].
  - destruct (pend !! i) as [[rg n]|] eqn:Hi; [|done]. simpl.
    split; [|by eapply pending_delete]. simpl. rewrite commit_epochFor. case_decide; [subst|lia].
    apply list_elem_of_lookup_2, Hp in Hi. lia.
  - split; [done|by eapply pending_delete].
  - split; [|done]. simpl. unfold restoreEpoch. destruct (_ <? _) eqn:E; to_prop; [|lia].
    rewrite commit_epochFor. case_decide; subst; lia.
  - done.
Qed.

Lemma steps_invariant (P : node → Prop) s s' :
  (∀ op t, P t → P (exec op t)) → rtc step s s' → P s → P s'.
Proof. intros Hp Hsteps. induction Hsteps as [|s1 s2 s3 [op ->] _ IH]; auto. Qed.

(** The commit of an election that was begun under [covered] fences. *)
Lemma commit_fences region e i next s :
  covered region e s → nd_pending s !! i = Some (region, next) →
  fencing region e (exec (OpCommit i) s).
Proof.
  intros [_ Hp] Hi. simpl. rewrite Hi. destruct s as [g pend]. split.
  - simpl. rewrite commit_epochFor, decide_True by done. by eapply Hp, list_elem_of_lookup_2.
  - by eapply pending_delete.
Qed.


Definition rec_old : RegionPriceRecord := mkRecord "us" "XLM" 11 2 500 501 Remote 3.

(** A node at epoch 3 elects 4; while the hook is pending a flush happens and
    another election (5) is begun; 4 is committed and then the hook of 5 fails. *)
Definition node_at_3 : node := mkNode (fst (advanceEpoch "us" (Some 3) newRegister)) [].
Definition node_waiting : node :=
  exec (OpBegin "us" (Some 5)) (exec OpClear (exec (OpBegin "us" None) node_at_3)).
Definition node_elected : node := exec (OpHookFails 0) (exec (OpCommit 0) node_waiting).


(** The awaited persistence hook breaks the monotonicity of epochs: when
    a record of a newer publisher is merged while the hook is pending, the
    write that follows lowers the highest observed epoch, and a record that
    was already fenced is accepted again. *)
Theorem advance_race_lowers_epoch g region proposed now newer stale :
  let next := advanceBegin region proposed g in
  let g1 := fst (merge now newer g) in
  let g2 := advanceCommit region next g1 in
  rp_region newer = region → next < rp_epoch newer →
  rp_region stale = region → next ≤ rp_epoch stale < rp_epoch newer →
  epochFor region g2 < epochFor region g1 ∧
  snd (merge now stale g1) = RFalse ∧ snd (merge now stale g2) ≠ RFalse.
Proof.
  intros next g1 g2 Hr Hn Hs He.
  pose proof (advanceBegin_gt region proposed g) as Hgt. fold next in Hgt.
  pose proof (epochFor_current region g) as Hc.
  assert (epochFor region g1 = rp_epoch newer) as E1.
  { unfold g1. rewrite merge_epochFor, decide_True by done. lia. }
  assert (epochFor region g2 = next) as E2.
  { unfold g2. by rewrite commit_epochFor, decide_True by done. }
  split_and!; [lia|apply merge_fenced; unfold fenced; rewrite Hs, E1; lia|].
  unfold merge. rewrite Hs, E2, (proj2 (Z.ltb_ge _ _)) by lia.
  unfold storeRecord. by repeat case_match.
Qed.

Definition rec_newer : RegionPriceRecord := mkRecord "us" "XLM" 12 2 600 601 Remote 9.
Definition rec_stale : RegionPriceRecord := mkRecord "us" "XLM" 10 2 700 701 Remote 5.

Lemma advance_race_lowers_epoch_witness :
  let g1 := fst (merge 0 rec_newer newRegister) in
  epochFor "us" (advanceCommit "us" 1 g1) < epochFor "us" g1.
Proof.
  exact (proj1 (advance_race_lowers_epoch newRegister "us" None 0 rec_newer rec_stale
    eq_refl ltac:(by vm_compute) eq_refl ltac:(by vm_compute))).
Defined.

(** ** Convergence *)

Definition mergeAll (now : Z) (rs : list RegionPriceRecord) (g : register) : register :=
  foldl (λ g r, fst (merge now r g)) g rs.

(** The records that compete for a key: the one stored and those delivered. *)
Definition competing (g : register) (rs : list RegionPriceRecord) (key : string)
    : list RegionPriceRecord :=
  option_list (jm_get key (values g)) ++ filter (λ r, record_key r = key) rs.

Section convergence.
Context (now : Z) (E : string → Z).
Implicit Types (rs : list RegionPriceRecord) (g : register).

Definition epochs_below g : Prop := ∀ region, epochFor region g ≤ E region.
Definition stamped rs : Prop := ∀ r, r ∈ rs → rp_epoch r = E (rp_region r).

Lemma mergeAll_values rs g key :
  epochs_below g → stamped rs →
  jm_get key (values (mergeAll now rs g)) =
    foldl (λ v r, lww key r v) (jm_get key (values g)) rs.
Proof.
  revert g. induction rs as [|r rs IH]; intros g Hg Hrs; [done|].
  assert (rp_epoch r = E (rp_region r)) as Hr by (apply Hrs; set_solver).
  simpl. rewrite IH.
  - rewrite merge_values; [done|]. unfold fenced. specialize (Hg (rp_region r)). lia.
  - intros region. rewrite merge_epochFor. specialize (Hg region). case_decide; subst; lia.
  - intros r' Hr'. apply Hrs. set_solver.
Qed.
End convergence.

Definition maximal_in (l : list RegionPriceRecord) (w : option RegionPriceRecord) : Prop :=
  match w with
  | None => l = []
  | Some w => w ∈ l ∧ ∀ r, r ∈ l → rp_timestamp r ≤ rp_timestamp w
  end.

Lemma lww_maximal key r l w :
  maximal_in l w →
  maximal_in (l ++ filter (λ r, record_key r = key) [r]) (lww key r w).
Proof.
  unfold lww. rewrite filter_cons, filter_nil. intros Hw.
  case_decide; [|by rewrite app_nil_r].
  destruct w as [w|]; simpl in *.
  - destruct Hw as [Hin Hmax]. unfold later. destruct (_ <? _) eqn:Et; to_prop.
    + split; [set_solver|]. intros r' [H'|H']%elem_of_app; [apply Hmax in H'; lia|].
      apply list_elem_of_singleton in H' as ->. lia.
    + split; [set_solver|]. intros r' [H'|H']%elem_of_app; [by apply Hmax|].
      by apply list_elem_of_singleton in H' as ->.
  - subst l. split; [set_solver|]. intros r' H'. apply list_elem_of_singleton in H' as ->. lia.
Qed.

Lemma lww_fold_maximal key rs l w :
  maximal_in l w →
  maximal_in (l ++ filter (λ r, record_key r = key) rs) (foldl (λ v r, lww key r v) w rs).
Proof.
  revert l w. induction rs as [|r rs IH]; intros l w Hw; [by rewrite filter_nil, app_nil_r|].
  simpl foldl. change (r :: rs) with ([r] ++ rs). rewrite filter_app, app_assoc.
  apply IH. by apply lww_maximal.
Qed.

Lemma mergeAll_maximal now E rs g key :
  epochs_below E g → stamped E rs →
  maximal_in (competing g rs key) (jm_get key (values (mergeAll now rs g))).
Proof.
  intros Hg Hrs. rewrite (mergeAll_values now E) by done. unfold competing.
  apply lww_fold_maximal. destruct (jm_get key (values g)); simpl; [|done].
  split; [set_solver|]. intros r' H'. apply list_elem_of_singleton in H' as ->. lia.
Qed.

Lemma maximal_timestamp l l' w w' :
  l ≡ₚ l' → maximal_in l w → maximal_in l' w' → rp_timestamp <$> w = rp_timestamp <$> w'.
Proof.
  intros Hp Hw Hw'. destruct w as [w|], w' as [w'|]; simpl in *; try done.
  - destruct Hw as [Hin Hmax], Hw' as [Hin' Hmax']. f_equal. rewrite <- Hp in Hin'.
    specialize (Hmax _ Hin'). rewrite Hp in Hin. specialize (Hmax' _ Hin). lia.
  - destruct Hw as [Hin _]. subst l'. apply Permutation_nil_r in Hp. set_solver.
  - destruct Hw' as [Hin _]. subst l. apply Permutation_nil_l in Hp. set_solver.
Qed.

Lemma maximal_unique l l' w w' :
  l ≡ₚ l' →
  (∀ r r', r ∈ l → r' ∈ l → rp_timestamp r = rp_timestamp r' → r = r') →
  maximal_in l w → maximal_in l' w' → w = w'.
Proof.
  intros Hp Huniq Hw Hw'. pose proof (maximal_timestamp _ _ _ _ Hp Hw Hw') as Ht.
  destruct w as [w|], w' as [w'|]; simplify_eq/=; [|done]. f_equal.
  apply Huniq; [apply Hw|rewrite Hp; apply Hw'|done].
Qed.


Definition rec_1 : RegionPriceRecord := mkRecord "us" "XLM" 11 2 100 101 Remote 0.
Definition rec_2 : RegionPriceRecord := mkRecord "us" "XLM" 12 2 200 201 Remote 0.


(** On equal timestamps the first arrival stays: two replicas that receive the
    same two records of one instant in different orders keep different prices. *)
Example tie_keeps_first :
  let r1 := mkRecord "us" "XLM" 11 2 100 101 Remote 0 in
  let r2 := mkRecord "us" "XLM" 12 2 100 101 Remote 0 in
  jm_get "us:XLM"%string (values (mergeAll 0 [r1; r2] newRegister)) = Some r1 ∧
  jm_get "us:XLM"%string (values (mergeAll 0 [r2; r1] newRegister)) = Some r2.
Proof. vm_compute. split; reflexivity. Qed.

(** Across an epoch change the register does not converge: a record of
    the old epoch with the later timestamp wins where it arrives first and is
    fenced where it arrives second, so two replicas that received the same two
    records keep different prices. *)
Theorem epoch_change_diverges now r1 r2 :
  rp_region r1 = rp_region r2 → rp_asset r1 = rp_asset r2 →
  0 ≤ rp_epoch r1 < rp_epoch r2 → rp_timestamp r2 < rp_timestamp r1 →
  jm_get (record_key r1) (values (mergeAll now [r1; r2] newRegister)) = Some r1 ∧
  jm_get (record_key r1) (values (mergeAll now [r2; r1] newRegister)) = Some r2.
Proof.
  intros Hr Ha He Ht. simpl.
  assert (record_key r2 = record_key r1) as Hk by (unfold record_key; by rewrite Hr, Ha).
  split.
  - rewrite !merge_values; unfold fenced; rewrite ?merge_epochFor, ?decide_True by done;
      change (epochFor _ newRegister) with 0; [|lia..].
    unfold lww. simpl. rewrite !decide_True by done. unfold later. f_equal.
    by rewrite (proj2 (Z.ltb_ge _ _)) by lia.
  - rewrite (proj1 (merge_fenced now r1 _ ltac:(unfold fenced; rewrite merge_epochFor,
      decide_True by done; change (epochFor _ newRegister) with 0; lia))).
    rewrite merge_values by (unfold fenced; change (epochFor _ newRegister) with 0; lia).
    unfold lww. simpl. by rewrite decide_True by done.
Qed.

Definition rec_3 : RegionPriceRecord := mkRecord "us" "XLM" 13 2 50 51 Remote 1.

Lemma epoch_change_diverges_witness :
  jm_get "us:XLM"%string (values (mergeAll 0 [rec_1; rec_3] newRegister)) = Some rec_1 ∧
  jm_get "us:XLM"%string (values (mergeAll 0 [rec_3; rec_1] newRegister)) = Some rec_3.
Proof.
  apply (epoch_change_diverges 0 rec_1 rec_3 eq_refl eq_refl).
  - by vm_compute.
  - by vm_compute.
Defined.

(** ** Reads *)

Lemma later_fold_newest rs r :
  foldl later r rs ∈ r :: rs ∧
  ∀ r', r' ∈ r :: rs → rp_timestamp r' ≤ rp_timestamp (foldl later r rs).
Proof.
  revert r. induction rs as [|x rs IH]; intros r; simpl.
  { split; [set_solver|]. intros r' Hr'. apply list_elem_of_singleton in Hr' as ->. lia. }
  destruct (IH (later r x)) as [Hin Hmax].
  assert (rp_timestamp r ≤ rp_timestamp (later r x) ∧
          rp_timestamp x ≤ rp_timestamp (later r x)) as [H1 H2].
  { unfold later. destruct (_ <? _) eqn:E; to_prop; lia. }
  pose proof (Hmax (later r x) ltac:(set_solver)) as H3. split.
  - apply elem_of_cons in Hin as [->|]; [|set_solver].
    unfold later. destruct (_ <? _); set_solver.
  - intros r' [->|[->|Hr']%elem_of_cons]%elem_of_cons; [lia..|]. apply Hmax. set_solver.
Qed.

(** [latest] is a stored record of the asset with the greatest timestamp over
    all regions, and is absent exactly when no region holds the asset. *)
Lemma latest_newest asset g :
  match latest asset g with
  | None => ∀ r, r ∈ jm_values (values g) → rp_asset r ≠ asset
  | Some w => w ∈ jm_values (values g) ∧ rp_asset w = asset ∧
      ∀ r, r ∈ jm_values (values g) → rp_asset r = asset → rp_timestamp r ≤ rp_timestamp w
  end.
Proof.
  unfold latest. destruct (byAsset asset g) as [|r rs] eqn:E.
  - intros r Hr Ha. assert (r ∈ byAsset asset g) as Hin by (by apply list_elem_of_filter).
    rewrite E in Hin. set_solver.
  - destruct (later_fold_newest rs r) as [Hin Hmax]. rewrite <- E in Hin.
    apply list_elem_of_filter in Hin as [Ha Hin]. split_and!; [done..|].
    intros r' Hr' Ha'. apply Hmax. rewrite <- E. by apply list_elem_of_filter.
Qed.

End Register.

(** ** Feed ownership *)

Module Ownership.

Record FeedOwnership : Type := mkOwnership {
  fo_feed : string;
  primaryRegion : string;
  failoverRegion : string;
  activeRegion : string;
  fo_epoch : Z;
}.

Record FeedOwnershipConfig : Type := mkOwnershipConfig {
  oc_feed : string;
  oc_primaryRegion : string;
  oc_failoverRegion : string;
}.

Inductive ownership_error : Type :=
| DuplicateFeed (feed : string)
| RegionsMustDiffer (feed : string)
| NotConfiguredOwner (region feed : string).

Definition registry : Type := jsmap string FeedOwnership.

Fixpoint addEntries (initialEpoch : Z) (entries : list FeedOwnershipConfig)
    (feeds : registry) : result ownership_error registry :=
  match entries with
  | [] => Ok feeds
  | e :: rest =>
      if jm_has (oc_feed e) feeds then Throw (DuplicateFeed (oc_feed e))
      else if decide (oc_primaryRegion e = oc_failoverRegion e)
      then Throw (RegionsMustDiffer (oc_feed e))
      else addEntries initialEpoch rest
             (jm_set (oc_feed e)
                (mkOwnership (oc_feed e) (oc_primaryRegion e) (oc_failoverRegion e)
                   (oc_primaryRegion e) initialEpoch) feeds)
  end.

Definition newRegistry (entries : list FeedOwnershipConfig) (initialEpoch : Z)
    : result ownership_error registry := addEntries initialEpoch entries jm_empty.

Definition isOwner (feed region : string) (reg : registry) : bool :=
  match jm_get feed reg with
  | Some o => bool_decide (activeRegion o = region)
  | None => false
  end.

Definition failoverTarget (feed : string) (reg : registry) : option string :=
  o ← jm_get feed reg;
  Some (if decide (activeRegion o = primaryRegion o) then failoverRegion o
        else primaryRegion o).

Definition transfer (feed region : string)
    : M registry ownership_error (option FeedOwnership) :=
  λ reg,
    match jm_get feed reg with
    | None => (reg, Ok None)
    | Some o =>
        if negb (bool_decide (region = primaryRegion o)) &&
           negb (bool_decide (region = failoverRegion o))
        then (reg, Throw (NotConfiguredOwner region feed))
        else if decide (activeRegion o = region) then (reg, Ok (Some o))
        else
          let o' := mkOwnership (fo_feed o) (primaryRegion o) (failoverRegion o) region
                      (fo_epoch o + 1) in
          (jm_set feed o' reg, Ok (Some o'))
    end.

Inductive publish_reason : Type := UnknownFeed | NotOwner | StaleEpoch.

Record PublishDecision : Type := mkPublish {
  allowed : bool;
  pd_epoch : Z;
  pd_reason : option publish_reason;
}.

Record authority : Type := mkAuthority {
  au_region : string;
  observedEpochs : jsmap string Z;
}.

Definition observedEpoch (feed : string) (a : authority) : Z :=
  default 0 (jm_get feed (observedEpochs a)).

Definition observeEpoch (feed : string) (epoch : Z) (a : authority) : authority * bool :=
  let current := observedEpoch feed a in
  if epoch <? current then (a, false)
  else if current <? epoch
  then (mkAuthority (au_region a) (jm_set feed epoch (observedEpochs a)), true)
  else (a, true).

Definition authorize (reg : registry) (feed : string) (epoch : option Z) (a : authority)
    : PublishDecision :=
  match jm_get feed reg with
  | None => mkPublish false (observedEpoch feed a) (Some UnknownFeed)
  | Some o =>
      let effectiveEpoch := default (fo_epoch o) epoch in
      let observed := observedEpoch feed a in
      if (effectiveEpoch <? observed) || (effectiveEpoch <? fo_epoch o)
      then mkPublish false observed (Some StaleEpoch)
      else if negb (bool_decide (activeRegion o = au_region a))
      then mkPublish false effectiveEpoch (Some NotOwner)
      else mkPublish true effectiveEpoch None
  end.

Definition ownership_ok (o : FeedOwnership) : Prop :=
  primaryRegion o ≠ failoverRegion o ∧
  (activeRegion o = primaryRegion o ∨ activeRegion o = failoverRegion o).

Definition registry_ok (reg : registry) : Prop :=
  ∀ feed o, jm_get feed reg = Some o → ownership_ok o.

Lemma addEntries_ok e entries feeds reg :
  registry_ok feeds → addEntries e entries feeds = Ok reg → registry_ok reg.
Proof.
  revert feeds. induction entries as [|c rest IH]; simpl; intros feeds Hf H.
  { by apply (inj Ok) in H as <-. }
  destruct (jm_has _ _); [done|]. case_decide as Hne; [done|]. eapply IH; [|exact H].
  intros feed o. rewrite jm_get_set. case_decide; [|apply Hf].
  intros [= <-]. split; [done|]. by left.
Qed.

Lemma transfer_preserves feed region : preserves registry_ok (transfer feed region).
Proof.
  intros reg Hreg. unfold transfer. destruct (jm_get feed reg) as [o|] eqn:E; [|done].
  destruct (_ && _) eqn:Eb; [done|]. destruct (decide _); [done|]. simpl.
  intros feed' o'. rewrite jm_get_set.
  destruct (decide (feed = feed')); [|apply Hreg].
  intros [= <-]. destruct (Hreg _ _ E) as [Hne _]. split; [done|]. simpl.
  apply andb_false_iff in Eb as [Hb|Hb]; to_prop; [by left|by right].
Qed.

Lemma authorize_allowed reg feed epoch a :
  allowed (authorize reg feed epoch a) = true ↔
  ∃ o, jm_get feed reg = Some o ∧ activeRegion o = au_region a ∧
    observedEpoch feed a ≤ default (fo_epoch o) epoch ∧
    fo_epoch o ≤ default (fo_epoch o) epoch.
Proof.
  unfold authorize. destruct (jm_get feed reg) as [o|]; [|naive_solver].
  destruct (_ || _) eqn:Eo.
  - split; [done|]. intros (o' & [= <-] & _ & ? & ?).
    apply orb_true_iff in Eo as [?|?]; to_prop; lia.
  - to_prop. destruct (bool_decide (activeRegion o = au_region a)) eqn:Eb; to_prop; simpl;
      naive_solver.
Qed.

(** Exactly one region may publish a feed.  In any registry built by the
    constructor and changed by transfers, two authorities that are both
    allowed to publish a feed are the same region, which is one of the feed's
    two configured owners; and a transfer to another region revokes the
    previous one at every epoch and every publisher at the epochs used until
    then, while the failover target is never the region that is active. *)
Theorem single_publisher entries e0 reg0 reg feed :
  newRegistry entries e0 = Ok reg0 →
  rtc (λ r r', ∃ f region, r' = fst (transfer f region r)) reg0 reg →
  (∀ a1 a2 e1 e2, allowed (authorize reg feed e1 a1) = true →
    allowed (authorize reg feed e2 a2) = true → au_region a1 = au_region a2) ∧
  (∀ region o o', jm_get feed reg = Some o → activeRegion o ≠ region →
    snd (transfer feed region reg) = Ok (Some o') →
    let reg' := fst (transfer feed region reg) in
    (∀ a e, au_region a = activeRegion o → allowed (authorize reg' feed e a) = false) ∧
    (∀ a e, e ≤ fo_epoch o → allowed (authorize reg' feed (Some e) a) = false)) ∧
  (∀ o t, jm_get feed reg = Some o → failoverTarget feed reg = Some t →
    t ≠ activeRegion o ∧ (t = primaryRegion o ∨ t = failoverRegion o)).
Proof.
  intros Hnew Hsteps. assert (registry_ok reg) as Hok.
  { apply addEntries_ok in Hnew; [|by intros ??]. clear -Hnew Hsteps.
    induction Hsteps as [|??? (f & rg & ->) _ IH]; [done|].
    apply IH. by apply transfer_preserves. }
  split_and!.
  - intros a1 a2 e1 e2 (o1 & Ho1 & <- & _)%authorize_allowed (o2 & Ho2 & <- & _)%authorize_allowed.
    congruence.
  - intros region o o' Ho Hne Htr. cbv zeta.
    assert (jm_get feed (fst (transfer feed region reg)) = Some o' ∧
            activeRegion o' = region ∧ fo_epoch o' = fo_epoch o + 1) as (Hg & Ha & He).
    { revert Htr. unfold transfer. rewrite Ho. destruct (_ && _); [done|].
      rewrite decide_False by done. simpl. intros [= <-]. by rewrite jm_get_set_eq. }
    split; intros a e H; apply not_true_iff_false; intros (o2 & Ho2 & ? & ? & ?)%authorize_allowed;
      rewrite Hg in Ho2; injection Ho2 as <-; [congruence|simpl in *; lia].
  - intros o t Ho. unfold failoverTarget. rewrite Ho. simpl. intros [= <-].
    destruct (Hok _ _ Ho) as [Hne [Ha|Ha]]; case_decide; rewrite ?Ha in *; split; auto; congruence.
Qed.

Definition demo_entries : list FeedOwnershipConfig :=
  [mkOwnershipConfig "XLM/USD" "us" "eu"].
Definition demo_registry : registry :=
  [("XLM/USD"%string, mkOwnership "XLM/USD" "us" "eu" "us" 1)].

Lemma single_publisher_witness :
  allowed (authorize (fst (transfer "XLM/USD" "eu" demo_registry)) "XLM/USD" (Some 9)
             (mkAuthority "us" jm_empty)) = false.
Proof.
  pose proof (single_publisher demo_entries 1 demo_registry demo_registry "XLM/USD"
    ltac:(vm_compute; reflexivity) (rtc_refl _ _)) as (_ & H & _).
  refine (proj1 (H "eu"%string (mkOwnership "XLM/USD" "us" "eu" "us" 1)
    (mkOwnership "XLM/USD" "us" "eu" "eu" 2) eq_refl _ eq_refl)
    (mkAuthority "us" jm_empty) (Some 9) eq_refl).
  done.
Defined.

End Ownership.
