(* ===== verification/FeedLifecycle.v ===== *)
(** * Governed feed lifecycle and aliases

    Models [api/src/feeds/feed-lifecycle.ts] (Module [Lifecycle]: the states,
    the transition and role tables, registration, transitions and the change
    log) and [api/src/feeds/feed-aliases.ts] (Module [Aliases]).

    The feed store is the [Map] behind [createFeedLifecycleStore].  Error
    results carry their code; the message texts are not modelled.  A missing
    [at] or [reason] is an option, and the clock reading taken when [at] is
    missing is an argument.  The role of a request ranges over the declared
    roles; what the comparison does with another text is [roleBelow]. *)

From Stdlib Require Import ZArith Lia.
From stdpp Require Import base tactics decidable list sets strings gmap relations.
From S2P Require Import Prelude JsMap.

Local Open Scope Z_scope.

Module Lifecycle.

Inductive FeedLifecycleState : Type :=
| Proposed | Validated | Canary | Active | Suspended | Retired.

Inductive FeedLifecycleRole : Type := Admin | Operator | Viewer.

Inductive FeedTransition : Type :=
| Validate | PromoteToCanary | Activate | Suspend | Resume | Retire | Reject.

#[export] Instance state_eq_dec : EqDecision FeedLifecycleState.
Proof. solve_decision. Defined.
#[export] Instance transition_eq_dec : EqDecision FeedTransition.
Proof. solve_decision. Defined.

Definition FEED_TRANSITIONS (s : FeedLifecycleState) : list FeedTransition :=
  match s with
  | Proposed => [Validate; Reject]
  | Validated => [PromoteToCanary; Reject]
  | Canary => [Activate; Suspend; Reject]
  | Active => [Suspend; Retire]
  | Suspended => [Resume; Retire]
  | Retired => []
  end.

Definition FEED_TRANSITION_ROLES (t : FeedTransition) : FeedLifecycleRole :=
  match t with
  | Validate => Operator
  | PromoteToCanary => Operator
  | Activate => Admin
  | Suspend => Operator
  | Resume => Operator
  | Retire => Admin
  | Reject => Operator
  end.

Definition roleLevel (r : FeedLifecycleRole) : Z :=
  match r with Viewer => 1 | Operator => 2 | Admin => 3 end.

(** [ROLE_LEVEL[role]] for a text that need not be a role, and the comparison
    [ROLE_LEVEL[role] < ROLE_LEVEL[required]] both checks make: [undefined] is
    not below anything. *)
Definition ROLE_LEVEL (role : string) : option Z :=
  jm_get role [("viewer"%string, 1); ("operator"%string, 2); ("admin"%string, 3)].

Definition roleText (r : FeedLifecycleRole) : string :=
  match r with Viewer => "viewer" | Operator => "operator" | Admin => "admin" end.

Definition roleBelow (role : string) (required : FeedLifecycleRole) : bool :=
  match ROLE_LEVEL role with Some level => level <? roleLevel required | None => false end.

(** On the declared roles this is the comparison of levels. *)
Lemma roleBelow_declared r required : roleBelow (roleText r) required = (roleLevel r <? roleLevel required).
Proof. by destruct r. Qed.

(** A text that is no role passes both checks. *)
Example unknown_role_passes : roleBelow "auditor" Admin = false.
Proof. reflexivity. Qed.

Definition nextStateFor (t : FeedTransition) : FeedLifecycleState :=
  match t with
  | Validate => Validated
  | PromoteToCanary => Canary
  | Activate => Active
  | Suspend => Suspended
  | Resume => Active
  | Retire => Retired
  | Reject => Retired
  end.

Definition isPublishableState (s : FeedLifecycleState) : bool := bool_decide (s = Active).
Definition isCanaryState (s : FeedLifecycleState) : bool := bool_decide (s = Canary).

Inductive FeedLifecycleErrorCode : Type :=
| FEED_NOT_FOUND | INVALID_TRANSITION | TRANSITION_NOT_ALLOWED | INSUFFICIENT_ROLE
| TERMINAL_STATE.

Section lifecycle.
(** [Record<string, unknown>]: the metadata attached to a change. *)
Context {Meta : Type}.

Record FeedChangeRecord : Type := mkChange {
  cr_sequence : Z;
  cr_from : option FeedLifecycleState;
  cr_to : FeedLifecycleState;
  cr_transition : option FeedTransition;
  cr_actor : string;
  cr_role : FeedLifecycleRole;
  cr_at : Z;
  cr_reason : string;
  cr_metadata : option Meta;
}.

Record FeedLifecycleEntry : Type := mkEntry {
  le_feedId : string;
  le_state : FeedLifecycleState;
  le_version : Z;
  le_createdAt : Z;
  le_updatedAt : Z;
  le_createdBy : string;
  le_changeLog : list FeedChangeRecord;
}.

Definition store : Type := jsmap string FeedLifecycleEntry.

Record RegisterFeedInput : Type := mkRegister {
  ri_feedId : string;
  ri_actor : string;
  ri_role : FeedLifecycleRole;
  ri_reason : option string;
  ri_metadata : option Meta;
  ri_at : option Z;
}.

Record TransitionFeedInput : Type := mkTransition {
  ti_feedId : string;
  ti_transition : FeedTransition;
  ti_actor : string;
  ti_role : FeedLifecycleRole;
  ti_reason : option string;
  ti_metadata : option Meta;
  ti_at : option Z;
}.

Definition save (e : FeedLifecycleEntry) (st : store) : store :=
  jm_set (le_feedId e) e st.

Definition registerFeed (clock : Z) (input : RegisterFeedInput)
    : M store FeedLifecycleErrorCode (FeedLifecycleEntry * FeedChangeRecord) :=
  require (negb (is_blank (ri_feedId input))) FEED_NOT_FOUND ;;
  require (negb (roleLevel (ri_role input) <? roleLevel Operator)) INSUFFICIENT_ROLE ;;
  existing ← gets (jm_get (ri_feedId input));
  require (bool_decide (existing = None)) INVALID_TRANSITION ;;
  let at_ := default clock (ri_at input) in
  let record :=
    mkChange 1 None Proposed None (ri_actor input) (ri_role input) at_
      (default "feed proposed"%string (ri_reason input)) (ri_metadata input) in
  let entry :=
    mkEntry (ri_feedId input) Proposed 1 at_ at_ (ri_actor input) [record] in
  modify (save entry) ;;
  mret (entry, record).

Definition transitionFeed (clock : Z) (input : TransitionFeedInput)
    : M store FeedLifecycleErrorCode (FeedLifecycleEntry * FeedChangeRecord) :=
  entry ← require_some (jm_get (ti_feedId input)) FEED_NOT_FOUND;
  require (negb (bool_decide (le_state entry = Retired))) TERMINAL_STATE ;;
  require (bool_decide (ti_transition input ∈ FEED_TRANSITIONS (le_state entry)))
    INVALID_TRANSITION ;;
  require (negb (roleLevel (ti_role input) <?
                 roleLevel (FEED_TRANSITION_ROLES (ti_transition input))))
    INSUFFICIENT_ROLE ;;
  let reason := trim (default EmptyString (ti_reason input)) in
  require (negb (bool_decide (strlen reason = 0))) INVALID_TRANSITION ;;
  let at_ := default clock (ti_at input) in
  let to_ := nextStateFor (ti_transition input) in
  let record :=
    mkChange (Z.of_nat (length (le_changeLog entry)) + 1) (Some (le_state entry)) to_
      (Some (ti_transition input)) (ti_actor input) (ti_role input) at_ reason
      (ti_metadata input) in
  let updated :=
    mkEntry (le_feedId entry) to_ (le_version entry + 1) (le_createdAt entry) at_
      (le_createdBy entry) (le_changeLog entry ++ [record]) in
  modify (save updated) ;;
  mret (updated, record).

(** ** The audit trail *)

(** [audited log s]: the log is the record of a run of the state machine,
    from registration to state [s], each change numbered by its position and
    authorised by the tables. *)
Inductive audited : list FeedChangeRecord → FeedLifecycleState → Prop :=
| audited_registered r :
    cr_sequence r = 1 → cr_from r = None → cr_to r = Proposed → cr_transition r = None →
    roleLevel Operator ≤ roleLevel (cr_role r) →
    audited [r] Proposed
| audited_change log s t r :
    audited log s →
    cr_sequence r = Z.of_nat (length log) + 1 → cr_from r = Some s →
    cr_transition r = Some t → t ∈ FEED_TRANSITIONS s → cr_to r = nextStateFor t →
    roleLevel (FEED_TRANSITION_ROLES t) ≤ roleLevel (cr_role r) →
    cr_reason r ≠ EmptyString →
    audited (log ++ [r]) (cr_to r).

Definition entry_ok (feed : string) (e : FeedLifecycleEntry) : Prop :=
  le_feedId e = feed ∧ audited (le_changeLog e) (le_state e) ∧
  le_version e = Z.of_nat (length (le_changeLog e)).

Definition store_ok (st : store) : Prop :=
  ∀ feed e, jm_get feed st = Some e → entry_ok feed e.

Inductive step : store → store → Prop :=
| step_register clock input st : step st (fst (registerFeed clock input st))
| step_transition clock input st : step st (fst (transitionFeed clock input st)).

(** What one call does to the entry of a feed: nothing, creation, or one
    authorised change appended to its log. *)
Inductive entry_change (feed : string)
    : option FeedLifecycleEntry → option FeedLifecycleEntry → Prop :=
| change_none o : entry_change feed o o
| change_created e r :
    le_feedId e = feed → le_state e = Proposed → le_version e = 1 →
    le_changeLog e = [r] → audited [r] Proposed →
    entry_change feed None (Some e)
| change_appended e e' t r :
    le_feedId e' = le_feedId e → le_changeLog e' = le_changeLog e ++ [r] →
    le_version e' = le_version e + 1 → le_state e' = cr_to r →
    le_state e ≠ Retired → le_createdBy e' = le_createdBy e →
    cr_sequence r = Z.of_nat (length (le_changeLog e)) + 1 →
    cr_from r = Some (le_state e) → cr_transition r = Some t →
    t ∈ FEED_TRANSITIONS (le_state e) → cr_to r = nextStateFor t →
    roleLevel (FEED_TRANSITION_ROLES t) ≤ roleLevel (cr_role r) →
    cr_reason r ≠ EmptyString →
    entry_change feed (Some e) (Some e').

Lemma registerFeed_change clock input st feed :
  entry_change feed (jm_get feed st) (jm_get feed (fst (registerFeed clock input st))).
Proof.
  destruct (registerFeed clock input st) as [st' [out|e]] eqn:E; simpl.
  - unfold registerFeed in E. inv_ok. to_prop.
    unfold save. simpl. rewrite jm_get_set. case_decide; subst; [|constructor].
    match goal with H : jm_get _ _ = None |- _ => rewrite H end.
    eapply change_created; [done..|]. by constructor.
  - assert (st' = st) as ->; [|constructor].
    revert E. unfold registerFeed, mbind, M_bind, require, gets, modify, mret, M_ret.
    simpl. repeat case_match; congruence.
Qed.

Lemma transitionFeed_change clock input st feed :
  store_ok st →
  entry_change feed (jm_get feed st) (jm_get feed (fst (transitionFeed clock input st))).
Proof.
  intros Hok. destruct (transitionFeed clock input st) as [st' [out|e]] eqn:E; simpl.
  - unfold transitionFeed in E. inv_ok. to_prop.
    match goal with H : jm_get _ _ = Some ?x |- _ =>
      rename H into Hget; destruct (Hok _ _ Hget) as [Hid _] end.
    unfold save. simpl. rewrite Hid, jm_get_set. case_decide; subst; [|constructor].
    rewrite Hget. eapply change_appended; try reflexivity; simpl; try done.
    intros Hr. match goal with H : strlen _ ≠ 0 |- _ => apply H; by rewrite Hr end.
  - assert (st' = st) as ->; [|constructor].
    revert E. unfold transitionFeed, mbind, M_bind, require, require_some, modify, mret, M_ret.
    simpl. repeat case_match; congruence.
Qed.

Lemma step_change st st' feed :
  store_ok st → step st st' → entry_change feed (jm_get feed st) (jm_get feed st').
Proof.
  intros Hok Hst. revert Hok. destruct Hst; intros Hok;
    [apply registerFeed_change|by apply transitionFeed_change].
Qed.

Lemma entry_change_ok feed o e' :
  (∀ e, o = Some e → entry_ok feed e) → entry_change feed o (Some e') → entry_ok feed e'.
Proof.
  intros Ho Hc. inversion Hc as [|e r Hid Hst Hv Hlog Ha|e ?e t r]; subst.
  - by apply Ho.
  - split_and!; [done| |]; rewrite Hlog; [by rewrite Hst|done].
  - destruct (Ho _ eq_refl) as (Hid & Ha & Hv). split_and!; [congruence| |].
    + match goal with H : le_changeLog e' = _, H' : le_state e' = _ |- _ => rewrite H, H' end.
      by eapply audited_change.
    + match goal with H : le_changeLog e' = _ |- _ => rewrite H end.
      rewrite length_app. simpl. lia.
Qed.

Lemma store_ok_step st st' : store_ok st → step st st' → store_ok st'.
Proof.
  intros Hok Hst feed e' He'. pose proof (step_change _ _ feed Hok Hst) as Hc.
  rewrite He' in Hc. eapply entry_change_ok; [|exact Hc]. intros e He. by apply Hok.
Qed.

Lemma store_ok_steps st st' : store_ok st → rtc step st st' → store_ok st'.
Proof. induction 2; [done|]. eauto using store_ok_step. Qed.

Lemma store_ok_empty : store_ok jm_empty.
Proof. by intros ??. Qed.

Lemma entry_change_extends feed e o' :
  entry_change feed (Some e) o' →
  ∃ e' tail, o' = Some e' ∧ le_changeLog e' = le_changeLog e ++ tail ∧
    (le_state e = Retired → e' = e).
Proof.
  intros Hc. inversion Hc as [| |? e' t r]; subst.
  - exists e, []. by rewrite app_nil_r.
  - exists e', [r]. by split_and!.
Qed.

Lemma steps_extend feed st st' e :
  store_ok st → rtc step st st' → jm_get feed st = Some e →
  ∃ e' tail, jm_get feed st' = Some e' ∧ le_changeLog e' = le_changeLog e ++ tail ∧
    (le_state e = Retired → e' = e).
Proof.
  intros Hok Hsteps. revert e. induction Hsteps as [st|st1 st2 st3 H12 _ IH]; intros e He.
  { exists e, []. by rewrite app_nil_r. }
  pose proof (step_change _ _ feed Hok H12) as Hc. rewrite He in Hc.
  apply entry_change_extends in Hc as (e1 & t1 & He1 & Hl1 & Hr1).
  destruct (IH (store_ok_step _ _ Hok H12) _ He1) as (e2 & t2 & He2 & Hl2 & Hr2).
  exists e2, (t1 ++ t2). rewrite Hl2, Hl1, app_assoc. split_and!; [done..|].
  intros Hret. specialize (Hr1 Hret) as ->. auto.
Qed.

(** An active feed has been validated and has been a canary, in that order. *)
Lemma audited_passed log s :
  audited log s →
  (s = Active ∨ s = Suspended → ∃ r, r ∈ log ∧ cr_to r = Canary) ∧
  (s = Canary → ∃ r, r ∈ log ∧ cr_to r = Canary).
Proof.
  induction 1 as [r|log s t r Ha [IH1 IH2] Hs Hf Ht Hin Hto Hrole Hreason]; [naive_solver|].
  rewrite Hto. split.
  - intros Hs'. assert (s = Canary ∨ s = Active ∨ s = Suspended) as Hfrom.
    { destruct s; simpl in Hin; set_unfold; naive_solver. }
    assert (∃ r, r ∈ log ∧ cr_to r = Canary) as (r0 & ? & ?) by naive_solver.
    exists r0. set_solver.
  - intros Hc. exists r. rewrite Hto. set_solver.
Qed.
End lifecycle.

Arguments FeedChangeRecord : clear implicits.
Arguments FeedLifecycleEntry : clear implicits.
Arguments store : clear implicits.

(** C28: The change log is complete audit evidence.  In every store reached
    from the empty one by registrations and transitions, each feed's log is an
    unbroken run of the state machine to the feed's current state (numbered by
    position, every step in the transition table, made by a sufficient role,
    with a non-blank reason) and the version counts the log; later calls only
    extend a log; and a retired feed never changes again. *)
Theorem lifecycle_audited Meta (st st' : store Meta) feed e :
  rtc step jm_empty st → rtc step st st' → jm_get feed st = Some e →
  le_feedId e = feed ∧ audited (le_changeLog e) (le_state e) ∧
  le_version e = Z.of_nat (length (le_changeLog e)) ∧
  ∃ e' tail, jm_get feed st' = Some e' ∧ le_changeLog e' = le_changeLog e ++ tail ∧
    (le_state e = Retired → e' = e).
Proof.
  intros H1 H2 He. assert (store_ok st) as Hok by (eapply store_ok_steps; [apply store_ok_empty|done]).
  destruct (Hok _ _ He) as (? & ? & ?). split_and!; [done..|]. by eapply steps_extend.
Qed.

Definition demo_register : @RegisterFeedInput unit :=
  mkRegister "BTC/USD" "alice" Operator None None None.
Definition demo_transition (t : FeedTransition) (role : FeedLifecycleRole)
    : @TransitionFeedInput unit :=
  mkTransition "BTC/USD" t "alice" role (Some "ok"%string) None None.

Lemma lifecycle_audited_witness :
  ∃ e, jm_get "BTC/USD"%string (fst (transitionFeed 20 (demo_transition Validate Operator)
         (fst (registerFeed 10 demo_register jm_empty)))) = Some e ∧
    le_version e = Z.of_nat (length (le_changeLog e)) ∧ le_state e = Validated.
Proof.
  eexists. split; [vm_compute; reflexivity|].
  split; [|reflexivity].
  refine (proj1 (proj2 (proj2 (lifecycle_audited unit
    (fst (transitionFeed 20 (demo_transition Validate Operator)
         (fst (registerFeed 10 demo_register jm_empty)))) _ "BTC/USD" _ _ (rtc_refl _ _) _)))).
  - eapply rtc_l; [apply (step_register 10 demo_register)|].
    apply rtc_once. apply (step_transition 20 (demo_transition Validate Operator)).
  - vm_compute. reflexivity.
Defined.

(** A feed serves prices only after a canary phase: whenever a reachable
    store holds a feed in a publishable state, the feed's log contains its
    entry into the canary state. *)
Theorem publishable_passed_canary Meta (st : store Meta) feed e :
  rtc step jm_empty st → jm_get feed st = Some e →
  isPublishableState (le_state e) = true →
  ∃ r, r ∈ le_changeLog e ∧ cr_to r = Canary ∧ cr_transition r = Some PromoteToCanary.
Proof.
  intros Hst He Hp. apply bool_decide_eq_true in Hp.
  assert (store_ok st) as Hok by (eapply store_ok_steps; [apply store_ok_empty|done]).
  destruct (Hok _ _ He) as (_ & Ha & _).
  destruct (proj1 (audited_passed _ _ Ha)) as (r & Hr & Hto); [by left|].
  exists r. split_and!; [done..|]. clear -Ha Hr Hto.
  induction Ha as [r0|log s t r0 Ha IH Hs Hf Ht Hin Hto' Hrole Hreason].
  - apply list_elem_of_singleton in Hr as ->. congruence.
  - apply elem_of_app in Hr as [Hr|Hr]; [by apply IH|].
    apply list_elem_of_singleton in Hr as ->. rewrite Ht. f_equal.
    rewrite Hto in Hto'. by destruct t.
Qed.

(** The four operator calls that follow a registration below. *)
Definition operator_run : list FeedTransition := [Validate; PromoteToCanary; Suspend; Resume].

Definition run_transitions {Meta} (mk : FeedTransition → @TransitionFeedInput Meta) (clock : Z)
    (ts : list FeedTransition) (st : store Meta) : store Meta :=
  foldl (λ st t, fst (transitionFeed clock (mk t) st)) st ts.

Lemma run_transitions_steps {Meta} (mk : FeedTransition → @TransitionFeedInput Meta) clock ts st :
  rtc step st (run_transitions mk clock ts st).
Proof.
  revert st. induction ts as [|t ts IH]; intros st; [done|].
  eapply rtc_l; [apply step_transition|]. apply IH.
Qed.

Lemma publishable_passed_canary_witness :
  ∃ e, jm_get "BTC/USD"%string
    (run_transitions (λ t, demo_transition t Operator) 20 operator_run
       (fst (registerFeed 10 demo_register jm_empty))) = Some e ∧
    ∃ r, r ∈ le_changeLog e ∧ cr_to r = Canary ∧ cr_transition r = Some PromoteToCanary.
Proof.
  eexists. split; [vm_compute; reflexivity|].
  eapply (publishable_passed_canary unit
    (run_transitions (λ t, demo_transition t Operator) 20 operator_run
       (fst (registerFeed 10 demo_register jm_empty))) "BTC/USD").
  - eapply rtc_l; [apply (step_register 10 demo_register)|].
    apply run_transitions_steps.
  - vm_compute. reflexivity.
  - reflexivity.
Defined.

Lemma registered_entry {Meta} feed actor clock (st : store Meta) :
  is_blank feed = false → jm_get feed st = None →
  ∃ e r, jm_get feed (fst (registerFeed clock (mkRegister feed actor Operator None None None) st))
      = Some e ∧
    le_feedId e = feed ∧ le_state e = Proposed ∧ le_changeLog e = [r] ∧
    cr_role r = Operator ∧ cr_transition r = None.
Proof.
  intros Hb Hget. unfold registerFeed, mbind, M_bind, require, gets, modify, mret, M_ret. simpl.
  rewrite Hb, Hget. simpl. unfold save. simpl.
  rewrite jm_get_set_eq. by eexists _, _.
Qed.

(** A transition whose guards hold is applied and logged. *)
Lemma transitioned_entry {Meta} (input : @TransitionFeedInput Meta) clock st e :
  jm_get (ti_feedId input) st = Some e → le_feedId e = ti_feedId input →
  ti_transition input ∈ FEED_TRANSITIONS (le_state e) → le_state e ≠ Retired →
  roleLevel (FEED_TRANSITION_ROLES (ti_transition input)) ≤ roleLevel (ti_role input) →
  strlen (trim (default EmptyString (ti_reason input))) ≠ 0 →
  ∃ e1 r, jm_get (ti_feedId input) (fst (transitionFeed clock input st)) = Some e1 ∧
    le_feedId e1 = ti_feedId input ∧ le_state e1 = nextStateFor (ti_transition input) ∧
    le_changeLog e1 = le_changeLog e ++ [r] ∧ cr_role r = ti_role input ∧
    cr_transition r = Some (ti_transition input).
Proof.
  intros H0 Hid Hin Hne Hrole Hr.
  unfold transitionFeed, mbind, M_bind, require, require_some, modify, mret, M_ret. simpl.
  rewrite H0, bool_decide_eq_false_2, bool_decide_eq_true_2 by done. simpl.
  rewrite (proj2 (Z.ltb_ge _ _)) by done. simpl. rewrite bool_decide_eq_false_2 by done. simpl.
  unfold save. simpl. rewrite Hid, jm_get_set_eq. by eexists _, _.
Qed.

(** The administrator's approval of an activation can be avoided: the
    transition table lets an operator suspend a canary and resume it, and
    resuming makes the feed active, so for every new feed a sequence of calls
    that carry only the operator role ends in the publishable state, although
    [activate] requires the administrator role. *)
Theorem operator_activates_without_admin Meta (st : store Meta) feed actor reason clock :
  is_blank feed = false → jm_get feed st = None → strlen (trim reason) ≠ 0 →
  let reg := mkRegister feed actor Operator None None None in
  let mk t := mkTransition feed t actor Operator (Some reason) None None in
  ∃ e, jm_get feed (run_transitions mk clock operator_run (fst (registerFeed clock reg st)))
         = Some e ∧
    isPublishableState (le_state e) = true ∧
    (∀ r, r ∈ le_changeLog e → cr_role r = Operator ∧ cr_transition r ≠ Some Activate).
Proof.
  intros Hb Hget Hr reg mk.
  destruct (registered_entry feed actor clock st Hb Hget)
    as (e0 & r0 & G0 & I0 & S0 & L0 & R0 & T0).
  pose proof (λ t st0 e0, transitioned_entry (mk t) clock st0 e0) as Hstep.
  unfold run_transitions, operator_run. simpl foldl.
  destruct (Hstep Validate _ _ G0 I0) as (e1 & r1 & G1 & I1 & S1 & L1 & R1 & T1);
    [rewrite S0; clear; cbn; set_solver|by rewrite S0|done..|].
  destruct (Hstep PromoteToCanary _ _ G1 I1) as (e2 & r2 & G2 & I2 & S2 & L2 & R2 & T2);
    [rewrite S1; clear; cbn; set_solver|by rewrite S1|done..|].
  destruct (Hstep Suspend _ _ G2 I2) as (e3 & r3 & G3 & I3 & S3 & L3 & R3 & T3);
    [rewrite S2; clear; cbn; set_solver|by rewrite S2|done..|].
  destruct (Hstep Resume _ _ G3 I3) as (e4 & r4 & G4 & I4 & S4 & L4 & R4 & T4);
    [rewrite S3; clear; cbn; set_solver|by rewrite S3|done..|].
  exists e4. split_and!; [done|by rewrite S4|].
  rewrite L4, L3, L2, L1, L0. intros r Hin.
  clear -Hin R0 T0 R1 T1 R2 T2 R3 T3 R4 T4. set_unfold in Hin.
  destruct_or! Hin; subst; simpl in *; split; congruence.
Qed.

Lemma operator_activates_without_admin_witness :
  ∃ e, jm_get "BTC/USD"%string
    (run_transitions (λ t, demo_transition t Operator) 10 operator_run
       (fst (registerFeed 10 demo_register jm_empty))) = Some e ∧
    isPublishableState (le_state e) = true.
Proof.
  destruct (operator_activates_without_admin unit jm_empty "BTC/USD" "alice" "ok" 10
    ltac:(vm_compute; reflexivity) ltac:(reflexivity) ltac:(by vm_compute))
    as (e & He & Hp & _).
  exists e. split; [exact He|exact Hp].
Defined.

End Lifecycle.

Module Aliases.

Inductive FeedAliasKind : Type := Rename | Merge | Retirement.

#[export] Instance kind_eq_dec : EqDecision FeedAliasKind.
Proof. solve_decision. Defined.

Record FeedAliasEntry : Type := mkAlias {
  al_alias : string;
  al_successor : option string;
  al_kind : FeedAliasKind;
  al_sunsetAt : date_text;
  al_notice : string;
  al_registeredAt : date_text;
  al_registeredBy : string;
}.

Record FeedAliasResolution : Type := mkResolution {
  ar_alias : string;
  ar_resolvedFeed : option string;
  ar_known : bool;
  ar_expired : bool;
  ar_redirected : bool;
  ar_kind : option FeedAliasKind;
  ar_notice : option string;
  ar_sunsetAt : option date_text;
}.

Record FeedAliasMetadata : Type := mkAliasMeta {
  am_requestedAlias : string;
  am_canonicalFeed : string;
  am_aliasKind : option FeedAliasKind;
  am_notice : string;
  am_sunsetAt : date_text;
  am_deprecated : bool;
}.

Inductive FeedAliasErrorCode : Type :=
| ALIAS_EXISTS | INVALID_ALIAS | INVALID_SUCCESSOR | INVALID_SUNSET | ALIAS_NOT_FOUND.

Definition alias_registry : Type := jsmap string FeedAliasEntry.

Definition normalize (alias : string) : string := toUpperCase (trim alias).

(** [Date.parse]: [None] is [NaN]. *)
Definition date_parse (d : date_text) : option Z :=
  match d with DInstant ms => Some ms | _ => None end.

(** [a <= b] on the numbers [Date.parse] returns: false when either is [NaN]. *)
Definition ms_leb (a b : option Z) : bool :=
  match a, b with Some a, Some b => a <=? b | _, _ => false end.

Definition blank_successor (s : option string) : bool :=
  match s with Some s => is_blank s | None => false end.

Definition register (entry : FeedAliasEntry)
    : M alias_registry FeedAliasErrorCode FeedAliasEntry :=
  let alias := normalize (al_alias entry) in
  require (negb (bool_decide (alias = EmptyString))) INVALID_ALIAS ;;
  require (negb (blank_successor (al_successor entry))) INVALID_SUCCESSOR ;;
  require (negb (bool_decide (al_kind entry = Merge) && bool_decide (al_successor entry = None)))
    INVALID_SUCCESSOR ;;
  require (negb (bool_decide (al_kind entry = Retirement) &&
                 negb (bool_decide (al_successor entry = None)))) INVALID_SUCCESSOR ;;
  let sunset := date_parse (al_sunsetAt entry) in
  require (negb (bool_decide (sunset = None))) INVALID_SUNSET ;;
  require (negb (ms_leb sunset (date_parse (al_registeredAt entry)))) INVALID_SUNSET ;;
  present ← gets (jm_has alias);
  require (negb present) ALIAS_EXISTS ;;
  let stored :=
    mkAlias alias (trim <$> al_successor entry) (al_kind entry) (al_sunsetAt entry)
      (al_notice entry) (al_registeredAt entry) (al_registeredBy entry) in
  modify (jm_set alias stored) ;;
  mret stored.

Definition get (alias : string) (reg : alias_registry) : option FeedAliasEntry :=
  jm_get (normalize alias) reg.

Definition remove (alias : string) (reg : alias_registry) : alias_registry * bool :=
  (jm_delete (normalize alias) reg, jm_has (normalize alias) reg).

Definition resolveFeedAlias (reg : alias_registry) (alias : string) (now : Z)
    : FeedAliasResolution :=
  let normalized := normalize alias in
  match get normalized reg with
  | None => mkResolution normalized None false false false None None None
  | Some entry =>
      let expired := ms_leb (date_parse (al_sunsetAt entry)) (Some now) in
      mkResolution normalized (al_successor entry) true expired
        (negb (bool_decide (al_successor entry = None)))
        (Some (al_kind entry)) (Some (al_notice entry)) (Some (al_sunsetAt entry))
  end.

Definition expiredFeedAliases (reg : alias_registry) (now : Z) : list FeedAliasEntry :=
  filter (λ e, ms_leb (date_parse (al_sunsetAt e)) (Some now) = true) (jm_values reg).

Definition aliasMetadata (r : FeedAliasResolution) : option FeedAliasMetadata :=
  if negb (ar_known r) then None
  else
    feed ← ar_resolvedFeed r;
    Some (mkAliasMeta (ar_alias r) feed (ar_kind r) (default EmptyString (ar_notice r))
            (default DBlank (ar_sunsetAt r)) (ar_expired r)).

Lemma normalize_idemp s : normalize (normalize s) = normalize s.
Proof. unfold normalize. by rewrite trim_toUpperCase, toUpperCase_idemp, trim_idemp. Qed.

(** Registering an alias round-trips through resolution: a registration
    succeeds only for a bounded window that ends after it starts; afterwards
    every spelling of the alias (case, surrounding spaces) resolves to the
    trimmed successor, before and after the sunset, which only raises the
    [expired] flag; all other aliases resolve as before; and the alias cannot
    be registered again until it is removed. *)
Theorem alias_roundtrip entry reg reg' stored spelling now :
  register entry reg = (reg', Ok stored) →
  normalize spelling = normalize (al_alias entry) →
  ∃ sunset, date_parse (al_sunsetAt entry) = Some sunset ∧
    (∀ t0, date_parse (al_registeredAt entry) = Some t0 → t0 < sunset) ∧
    resolveFeedAlias reg' spelling now =
      mkResolution (normalize (al_alias entry)) (trim <$> al_successor entry) true
        (sunset <=? now) (negb (bool_decide (al_kind entry = Retirement)) &&
                          negb (bool_decide (al_successor entry = None)))
        (Some (al_kind entry)) (Some (al_notice entry)) (Some (al_sunsetAt entry)) ∧
    (∀ other, normalize other ≠ normalize (al_alias entry) →
      resolveFeedAlias reg' other now = resolveFeedAlias reg other now) ∧
    (∀ entry', normalize (al_alias entry') = normalize (al_alias entry) →
      is_ok (snd (register entry' reg')) = false) ∧
    jm_has (normalize spelling) (fst (remove spelling reg')) = false.
Proof.
  intros Hreg Hsp. unfold register in Hreg. inv_ok. to_prop.
  destruct (date_parse (al_sunsetAt entry)) as [sunset|] eqn:Es; [|done].
  exists sunset. split_and!; [done| | | | |].
  - intros t0 Ht0. rewrite Ht0 in *. simpl in *. to_prop. lia.
  - unfold resolveFeedAlias, get. rewrite normalize_idemp, Hsp, jm_get_set_eq. simpl.
    rewrite Es. simpl. f_equal.
    destruct (al_successor entry); simpl; [|by rewrite andb_false_r].
    rewrite andb_true_r. match goal with H : bool_decide (_ = Retirement) && _ = false |- _ =>
      rewrite andb_true_r in H; by rewrite H end.
  - intros other Hne. unfold resolveFeedAlias, get. rewrite normalize_idemp.
    by rewrite jm_get_set_ne by done.
  - intros entry' He. destruct (register entry' _) as [s' [st'|]] eqn:E; [|done].
    exfalso. unfold register in E. inv_ok. rewrite He in *. to_prop.
    match goal with H : jm_has _ (jm_set _ _ _) = false |- _ =>
      apply jm_has_false in H; by rewrite jm_get_set_eq in H end.
  - unfold remove. simpl. apply jm_has_false. by rewrite jm_get_delete_eq.
Qed.

Definition demo_alias : FeedAliasEntry :=
  mkAlias " xlm-usd " (Some " XLM/USD"%string) Rename (DInstant 1000) "renamed" (DInstant 10) "alice".

Lemma alias_roundtrip_witness :
  ar_resolvedFeed (resolveFeedAlias (fst (register demo_alias jm_empty)) "Xlm-Usd" 5000)
    = Some "XLM/USD"%string.
Proof.
  destruct (alias_roundtrip demo_alias jm_empty (fst (register demo_alias jm_empty))
    (mkAlias "XLM-USD" (Some "XLM/USD"%string) Rename (DInstant 1000) "renamed" (DInstant 10) "alice")
    "Xlm-Usd" 5000 ltac:(vm_compute; reflexivity) ltac:(vm_compute; reflexivity))
    as (sunset & _ & _ & Hres & _).
  rewrite Hres. vm_compute. reflexivity.
Defined.

End Aliases.
