(* ===== verification/FeedCatalog.v ===== *)
(** * Feed policies and the feed catalog

    Module [Policy]: [api/src/feeds/feed-policy.ts] and the feed metadata of
    [packages/types/src/feed-metadata.ts]: validation of a participation policy
    and the quorum of the sources that reported.  Module [Catalog]:
    [api/src/feeds/feed-catalog.ts], the lookup that combines asset identity,
    aliases, lifecycle and policy.

    Weights are binary64 numbers, added and divided as the code does.  Error
    texts are constructors that keep the name or number they mention.

    - [Policy.quorum_sound]: which contributions a quorum counts;
    - [Policy.quorum_attainable]: a policy that validates can be satisfied;
    - [Catalog.lookup_serves]: what a successful lookup guarantees. *)

From Stdlib Require Import ZArith QArith Qround Lia SpecFloat.
From stdpp Require Import base list strings sets relations.
From S2P Require Import Prelude JsMap JsNum AssetIdentity FeedLifecycle.

Local Open Scope Z_scope.

Module Policy.

(** ** Shared feed metadata *)

Definition FRESHNESS_PROFILES : jsmap string (Z * Z) :=
  [("realtime", (10, 30)); ("standard", (60, 120)); ("delayed", (300, 600))].

Definition QUOTE_CURRENCIES : list string := ["USD"; "EUR"; "GBP"; "JPY"; "CHF"; "CAD"; "AUD"].

(** [Partial<QuoteUnit>] *)
Record QuoteUnit := mkUnit {
  qu_currency : option string;
  qu_denomination : option string;
  qu_scaleDecimals : option number;
  qu_displayDecimals : option number;
  qu_rounding : option string;
}.

Definition DEFAULT_QUOTE_UNIT : QuoteUnit :=
  mkUnit (Some "USD") (Some "USD_PER_ASSET_UNIT") (Some (NInt 8)) (Some (NInt 4)) (Some "half-even").

Inductive unit_error :=
| UnsupportedCurrency | DenominationMismatch | BadScale | BadDisplay | BadRounding.

(** [if (cond) errors.push(e)] *)
Definition push_if {E} (b : bool) (e : E) : list E := if b then [e] else [].

Lemma push_if_nil {E} b (e : E) : push_if b e = [] ↔ b = false.
Proof. by destruct b. Qed.

(** [!Number.isInteger(x) || x < lo || x > hi] *)
Definition not_int_between (lo hi : Z) (x : number) : bool :=
  negb (is_integer x) || num_ltb x (NInt lo) || num_ltb (NInt hi) x.

Definition validateQuoteUnit (unit : QuoteUnit) : list unit_error :=
  push_if (match qu_currency unit with
           | Some c => negb (bool_decide (c ∈ QUOTE_CURRENCIES)) | None => false end)
    UnsupportedCurrency ++
  push_if (match qu_currency unit with
           | Some c => negb (bool_decide (qu_denomination unit = Some (c +:+ "_PER_ASSET_UNIT")))
           | None => false end) DenominationMismatch ++
  push_if (match qu_scaleDecimals unit with
           | Some s => not_int_between 0 18 s | None => false end) BadScale ++
  push_if (match qu_displayDecimals unit with
           | Some d => not_int_between 0 12 d ||
                       match qu_scaleDecimals unit with Some s => num_ltb s d | None => false end
           | None => false end) BadDisplay ++
  push_if (match qu_rounding unit with
           | Some r => negb (bool_decide (r ∈ ["half-up"; "half-even"; "down"])) | None => false end)
    BadRounding.

(** ** Policies *)

Record FeedSourceEligibility := mkSource {
  se_name : string;
  se_eligible : bool;
  se_weight : option double;
  se_disabledReason : option string;
}.

Record FeedQuorumPolicy := mkQuorum {
  qp_minSources : number;
  qp_minWeightBps : option number;
  qp_distinctIssuersOnly : bool;
}.

Record freshness := mkFreshness {
  fr_profile : string;
  fr_warnSeconds : number;
  fr_maxAgeSeconds : number;
}.

Record FeedPolicy := mkPolicy {
  fp_feedId : string;
  fp_asset : string;
  fp_sources : list FeedSourceEligibility;
  fp_quorum : FeedQuorumPolicy;
  fp_version : number;
  fp_freshness : option freshness;
  fp_quoteUnit : option QuoteUnit;
}.

Definition MAX_MIN_SOURCES : Z := 64.
Definition MIN_WEIGHT_BPS : Z := 1.
Definition MAX_WEIGHT_BPS : Z := 10000.

Inductive policy_error :=
| FeedIdRequired | AssetNotCanonical | BadVersion | BadProfile | BadMaxAge | BadWarn
| QuoteUnitError (e : unit_error) | NoSources | SourceNameRequired
| DuplicateSource (name : string) | BadWeight (name : string) | NoEligibleSource
| BadMinSources | MinSourcesTooLarge | MinSourcesUnreachable | BadMinWeight.

Inductive policy_warning := IneligibleWithoutReason (name : string).

(** The names every object inherits, which the operator [in] also finds. *)
Definition inherited_names : list string :=
  ["constructor"; "__defineGetter__"; "__defineSetter__"; "hasOwnProperty"; "__lookupGetter__";
   "__lookupSetter__"; "isPrototypeOf"; "propertyIsEnumerable"; "toString"; "valueOf";
   "__proto__"; "toLocaleString"].

(** [name.trim().toLowerCase()] *)
Definition source_key (name : string) : string := toLowerCase (trim name).

(** The loop over the declared sources. *)
Fixpoint validateSources (names : list string) (sources : list FeedSourceEligibility)
    : list policy_error * list policy_warning :=
  match sources with
  | [] => ([], [])
  | source :: rest =>
      let name := source_key (se_name source) in
      if bool_decide (name = "") then
        let '(es, ws) := validateSources names rest in (SourceNameRequired :: es, ws)
      else
        let '(es, ws) := validateSources (name :: names) rest in
        (push_if (bool_decide (name ∈ names)) (DuplicateSource name) ++
         push_if (match se_weight source with
                  | Some w => negb (is_finite (num_of_double w)) || num_leb (num_of_double w) (NInt 0)
                  | None => false end) (BadWeight name) ++ es,
         push_if (negb (se_eligible source) &&
                  match se_disabledReason source with
                  | Some r => bool_decide (r = "") | None => true end)
           (IneligibleWithoutReason name) ++ ws)
  end.

Record FeedPolicyValidation := mkValidation {
  pv_valid : bool;
  pv_errors : list policy_error;
  pv_warnings : list policy_warning;
}.

Definition validateFeedPolicy (policy : FeedPolicy) : FeedPolicyValidation :=
  let fresh := default (mkFreshness "standard" (NInt 60) (NInt 120)) (fp_freshness policy) in
  let '(sourceErrors, warnings) := validateSources [] (fp_sources policy) in
  let eligible := filter (λ s, se_eligible s = true) (fp_sources policy) in
  let minSources := qp_minSources (fp_quorum policy) in
  let errors :=
    push_if (is_blank (fp_feedId policy)) FeedIdRequired ++
    push_if (negb (isCanonicalAssetId (fp_asset policy))) AssetNotCanonical ++
    push_if (negb (is_integer (fp_version policy)) || num_ltb (fp_version policy) (NInt 1)) BadVersion ++
    push_if (negb (jm_has (fr_profile fresh) FRESHNESS_PROFILES ||
                   bool_decide (fr_profile fresh ∈ inherited_names))) BadProfile ++
    push_if (not_int_between 5 3600 (fr_maxAgeSeconds fresh)) BadMaxAge ++
    push_if (negb (is_integer (fr_warnSeconds fresh)) || num_ltb (fr_warnSeconds fresh) (NInt 1) ||
             num_leb (fr_maxAgeSeconds fresh) (fr_warnSeconds fresh)) BadWarn ++
    (QuoteUnitError <$> validateQuoteUnit (default DEFAULT_QUOTE_UNIT (fp_quoteUnit policy))) ++
    push_if (bool_decide (fp_sources policy = [])) NoSources ++
    sourceErrors ++
    push_if (negb (bool_decide (fp_sources policy = [])) && bool_decide (eligible = [])) NoEligibleSource ++
    (if negb (is_integer minSources) || num_ltb minSources (NInt 1) then [BadMinSources]
     else if num_ltb (NInt MAX_MIN_SOURCES) minSources then [MinSourcesTooLarge]
     else push_if (negb (bool_decide (eligible = [])) &&
                   num_ltb (NInt (Z.of_nat (length eligible))) minSources) MinSourcesUnreachable) ++
    match qp_minWeightBps (fp_quorum policy) with
    | Some w => push_if (not_int_between MIN_WEIGHT_BPS MAX_WEIGHT_BPS w) BadMinWeight
    | None => []
    end in
  mkValidation (bool_decide (errors = [])) errors warnings.

(** ** Quorum *)

Record SourceContribution := mkContribution {
  sc_source : string;
  sc_issuer : option string;
  sc_weight : option double;
}.

Inductive reject_reason := NotEligible | DuplicateContribution | IssuerCounted.

Record quorum_state := mkQState {
  qs_counted : list string;
  qs_rejected : list (string * reject_reason);
  qs_seenIssuers : list string;
  qs_totalWeight : double;
}.

Definition eligibleMap (policy : FeedPolicy) : jsmap string FeedSourceEligibility :=
  foldl (λ m s, if se_eligible s then jm_set (source_key (se_name s)) s m else m)
    jm_empty (fp_sources policy).

Definition double_1 : double := double_of_Z 1.

Definition reject (c : SourceContribution) (r : reject_reason) (st : quorum_state) : quorum_state :=
  mkQState (qs_counted st) (qs_rejected st ++ [(sc_source c, r)]) (qs_seenIssuers st) (qs_totalWeight st).

(** The body of the loop over the contributions. *)
Definition countContribution (policy : FeedPolicy) (eligible : jsmap string FeedSourceEligibility)
    (st : quorum_state) (c : SourceContribution) : quorum_state :=
  let name := source_key (sc_source c) in
  match jm_get name eligible with
  | None => reject c NotEligible st
  | Some declaration =>
      if bool_decide (name ∈ qs_counted st) then reject c DuplicateContribution st
      else
        let count (seen : list string) :=
          mkQState (qs_counted st ++ [name]) (qs_rejected st) seen
            (double_add (qs_totalWeight st)
               (default (default double_1 (se_weight declaration)) (sc_weight c))) in
        if qp_distinctIssuersOnly (fp_quorum policy) then
          match sc_issuer c with
          | Some issuer =>
              if bool_decide (issuer ∈ qs_seenIssuers st) then reject c IssuerCounted st
              else count (qs_seenIssuers st ++ [issuer])
          | None => count (qs_seenIssuers st)
          end
        else count (qs_seenIssuers st)
  end.

Definition initial_quorum : quorum_state := mkQState [] [] [] double_0.

(** [Math.round]: to the nearest integer, ties upwards. *)
Definition num_round (a : number) : number :=
  match a with NFin q => NInt (Qfloor (q + (1#2))%Q) | _ => a end.

Inductive quorum_failure := TooFewSources (counted : nat) | WeightTooLow.

Record QuorumEvaluation := mkEvaluation {
  qe_satisfied : bool;
  qe_reportingSources : Z;
  qe_eligibleSources : Z;
  qe_counted : list string;
  qe_rejected : list (string * reject_reason);
  qe_totalWeight : double;
  qe_eligibleWeight : double;
  qe_weightBps : number;
  qe_failures : list quorum_failure;
}.

Definition evaluateQuorum (policy : FeedPolicy) (contributions : list SourceContribution)
    : QuorumEvaluation :=
  let eligible := eligibleMap policy in
  let st := foldl (countContribution policy eligible) initial_quorum contributions in
  let eligibleWeight :=
    foldl (λ sum s, double_add sum (default double_1 (se_weight s))) double_0 (jm_values eligible) in
  let weightBps :=
    if num_ltb (NInt 0) (num_of_double eligibleWeight)
    then num_round (num_of_double (double_mul (SFdiv 53 1024 (qs_totalWeight st) eligibleWeight)
                                     (double_of_Z 10000)))
    else NInt 0 in
  let failures :=
    push_if (num_ltb (NInt (Z.of_nat (length (qs_counted st)))) (qp_minSources (fp_quorum policy)))
      (TooFewSources (length (qs_counted st))) ++
    push_if (match qp_minWeightBps (fp_quorum policy) with
             | Some w => num_ltb weightBps w | None => false end) WeightTooLow in
  mkEvaluation (bool_decide (failures = [])) (Z.of_nat (length (qs_counted st)))
    (Z.of_nat (jm_size eligible)) (qs_counted st) (qs_rejected st) (qs_totalWeight st)
    eligibleWeight weightBps failures.

(** ** What a quorum counts *)

(** The weight a counted contribution carries: the one it reports, else the one
    its source declares, else 1. *)
Definition declaredWeight (s : FeedSourceEligibility) : double := default double_1 (se_weight s).

Definition weightOf (policy : FeedPolicy) (c : SourceContribution) : double :=
  default (match jm_get (source_key (sc_source c)) (eligibleMap policy) with
           | Some s => declaredWeight s | None => double_1 end) (sc_weight c).

(** A sum of binary64 numbers in order. *)
Definition sum_weights (ws : list double) : double := foldl double_add double_0 ws.

(** The share of the eligible weight in basis points. *)
Definition weight_share (total eligible : double) : number :=
  if num_ltb (NInt 0) (num_of_double eligible)
  then num_round (num_of_double (double_mul (SFdiv 53 1024 total eligible) (double_of_Z 10000)))
  else NInt 0.

(** Why a contribution was not counted. *)
Definition reject_ok_for (policy : FeedPolicy) (acc : list SourceContribution) (c : SourceContribution)
    (r : reject_reason) : Prop :=
  match r with
  | NotEligible => jm_get (source_key (sc_source c)) (eligibleMap policy) = None
  | DuplicateContribution => source_key (sc_source c) ∈ (λ c, source_key (sc_source c)) <$> acc
  | IssuerCounted => qp_distinctIssuersOnly (fp_quorum policy) = true ∧
      ∃ i, sc_issuer c = Some i ∧ i ∈ omap sc_issuer acc
  end.

(** The contributions counted so far, in order, and what the loop knows of them. *)
Record counted_ok (policy : FeedPolicy) (cs acc : list SourceContribution) (st : quorum_state) : Prop := {
  co_sub : acc `sublist_of` cs;
  co_names : qs_counted st = (λ c, source_key (sc_source c)) <$> acc;
  co_nodup : NoDup (qs_counted st);
  co_eligible : ∀ n, n ∈ qs_counted st → is_Some (jm_get n (eligibleMap policy));
  co_total : (length (qs_counted st) + length (qs_rejected st))%nat = length cs;
  co_seen : qp_distinctIssuersOnly (fp_quorum policy) = true →
    qs_seenIssuers st = omap sc_issuer acc ∧ NoDup (qs_seenIssuers st);
  co_all : ∀ c, c ∈ cs →
    qp_distinctIssuersOnly (fp_quorum policy) = false ∨ sc_issuer c = None →
    is_Some (jm_get (source_key (sc_source c)) (eligibleMap policy)) →
    source_key (sc_source c) ∈ qs_counted st;
  co_weight : qs_totalWeight st = sum_weights (weightOf policy <$> acc);
  co_rejected : ∀ name r, (name, r) ∈ qs_rejected st →
    ∃ c, c ∈ cs ∧ sc_source c = name ∧ reject_ok_for policy acc c r;
}.

Lemma reject_ok_for_mono policy acc acc' c r :
  reject_ok_for policy acc c r → reject_ok_for policy (acc ++ acc') c r.
Proof.
  destruct r; simpl; [done|rewrite fmap_app; set_solver|].
  intros (? & i & ? & ?). split; [done|]. exists i. rewrite omap_app. set_solver.
Qed.

Lemma reject_ok policy cs acc st c r :
  counted_ok policy cs acc st →
  (qp_distinctIssuersOnly (fp_quorum policy) = false ∨ sc_issuer c = None →
   is_Some (jm_get (source_key (sc_source c)) (eligibleMap policy)) →
   source_key (sc_source c) ∈ qs_counted st) →
  reject_ok_for policy acc c r →
  counted_ok policy (cs ++ [c]) acc (reject c r st).
Proof.
  intros [] Hc Hwhy. split; simpl; try done.
  - by apply sublist_inserts_r.
  - rewrite !length_app. simpl. lia.
  - intros c' [?| ->%list_elem_of_singleton]%elem_of_app; auto.
  - intros name r' [Hin|[= -> ->]%list_elem_of_singleton]%elem_of_app; [|exists c; set_solver].
    destruct (co_rejected0 _ _ Hin) as (c' & ? & ? & ?). exists c'. set_solver.
Qed.

Lemma count_ok policy cs acc st c d seen w :
  counted_ok policy cs acc st →
  jm_get (source_key (sc_source c)) (eligibleMap policy) = Some d →
  source_key (sc_source c) ∉ qs_counted st →
  (qp_distinctIssuersOnly (fp_quorum policy) = true →
     seen = qs_seenIssuers st ++ omap sc_issuer [c] ∧ NoDup seen) →
  w = double_add (qs_totalWeight st) (default (default double_1 (se_weight d)) (sc_weight c)) →
  counted_ok policy (cs ++ [c]) (acc ++ [c])
    (mkQState (qs_counted st ++ [source_key (sc_source c)]) (qs_rejected st) seen w).
Proof.
  intros [] Hd Hn Hseen ->. split; simpl.
  - by apply sublist_app.
  - rewrite fmap_app, co_names0. done.
  - apply NoDup_app. split_and!; [done|set_solver|apply NoDup_singleton].
  - intros n [?| ->%list_elem_of_singleton]%elem_of_app; eauto.
  - rewrite !length_app. simpl. lia.
  - intros Hdi. destruct (Hseen Hdi) as [Es Hnd], (co_seen0 Hdi) as [Hs _]. by rewrite omap_app, <- Hs.
  - intros c' [?| ->%list_elem_of_singleton]%elem_of_app Hi ?; apply elem_of_app; [left; auto|right; set_solver].
  - unfold sum_weights in *. rewrite fmap_app, foldl_app, <- co_weight0. simpl. unfold weightOf. by rewrite Hd.
  - intros name r Hin. destruct (co_rejected0 _ _ Hin) as (c' & ? & ? & ?). exists c'.
    split_and!; [set_solver|done|by apply reject_ok_for_mono].
Qed.

Lemma countContribution_ok policy cs acc st c :
  counted_ok policy cs acc st →
  ∃ acc', counted_ok policy (cs ++ [c]) acc' (countContribution policy (eligibleMap policy) st c).
Proof.
  intros Hok. unfold countContribution.
  destruct (jm_get _ (eligibleMap policy)) as [d|] eqn:Ed.
  2: { exists acc. apply reject_ok; [done| |done]. rewrite Ed. by intros _ []. }
  case_bool_decide as Hin.
  { exists acc. apply reject_ok; [done|done|]. simpl. by rewrite <- (co_names _ _ _ _ Hok). }
  destruct (qp_distinctIssuersOnly _) eqn:Hdi.
  2: { exists (acc ++ [c]). eapply count_ok; [done..|congruence|done]. }
  destruct (co_seen _ _ _ _ Hok Hdi) as [Hseen Hnd].
  destruct (sc_issuer c) as [i|] eqn:Ei.
  - case_bool_decide as Hi.
    { exists acc. apply reject_ok; [done|intros [?|?]; congruence|]. split; [done|].
      exists i. by rewrite <- Hseen. }
    exists (acc ++ [c]). eapply count_ok; [done..| |done]. intros _. simpl. rewrite Ei. split; [done|].
    apply NoDup_app. split_and!; [done|set_solver|apply NoDup_singleton].
  - exists (acc ++ [c]). eapply count_ok; [done..| |done]. intros _. simpl. rewrite Ei. by rewrite app_nil_r.
Qed.

Lemma count_all policy cs :
  ∃ acc, counted_ok policy cs acc (foldl (countContribution policy (eligibleMap policy)) initial_quorum cs).
Proof.
  induction cs as [|c cs [acc IH]] using rev_ind.
  - exists []. split; simpl; try done; [constructor|set_solver|split; [done|constructor]|set_solver..].
  - rewrite foldl_app. simpl. by eapply countContribution_ok.
Qed.

(** The eligible map holds exactly the declared eligible sources. *)
Lemma eligibleMap_get policy n :
  is_Some (jm_get n (eligibleMap policy)) ↔
  ∃ s, s ∈ fp_sources policy ∧ se_eligible s = true ∧ source_key (se_name s) = n.
Proof.
  unfold eligibleMap. assert (∀ (m : jsmap string FeedSourceEligibility) (l : list FeedSourceEligibility),
    is_Some (jm_get n (foldl (λ m s, if se_eligible s then jm_set (source_key (se_name s)) s m else m) m l)) ↔
    is_Some (jm_get n m) ∨ ∃ s, s ∈ l ∧ se_eligible s = true ∧ source_key (se_name s) = n) as Hgen.
  { intros m l. revert m. induction l as [|s l IH]; intros m; simpl; [set_solver|]. rewrite IH.
    destruct (se_eligible s) eqn:Es.
    - rewrite jm_get_set. setoid_rewrite elem_of_cons. case_decide as Hs; [|naive_solver].
      split; [|by left; eexists]. intros _. right. exists s. auto.
    - setoid_rewrite elem_of_cons. split; [naive_solver|].
      intros [?|(s' & [->|?] & ? & ?)]; [by left|congruence|right; eauto]. }
  rewrite Hgen. simpl. split; [intros [[]|]; [done|done]|by right].
Qed.

(** Validated source declarations have distinct, non-blank names. *)
Lemma validateSources_names names sources ws :
  validateSources names sources = ([], ws) →
  NoDup ((λ s, source_key (se_name s)) <$> sources) ∧
  ∀ n, n ∈ names → n ∉ (λ s, source_key (se_name s)) <$> sources.
Proof.
  revert names ws. induction sources as [|s rest IH]; intros names ws; simpl.
  { intros _. split; [constructor|set_solver]. }
  case_bool_decide as Hb.
  - destruct (validateSources names rest). by intros [=].
  - destruct (validateSources (source_key (se_name s) :: names) rest) as [es ws'] eqn:E.
    intros [= Herr _]. apply app_nil in Herr as [Hdup Herr]. apply app_nil in Herr as [_ ->].
    apply push_if_nil, bool_decide_eq_false in Hdup. destruct (IH _ _ E) as [Hnd Hn].
    split; [constructor; [apply Hn; set_solver|done]|].
    intros n Hin. rewrite not_elem_of_cons. split; [by intros ->|apply Hn; set_solver].
Qed.

(** Every eligible source reports, without naming an issuer or a weight. *)
Definition full_report (policy : FeedPolicy) : list SourceContribution :=
  (λ s, mkContribution (se_name s) None None) <$> filter (λ s, se_eligible s = true) (fp_sources policy).

Lemma full_report_counted policy ws :
  validateSources [] (fp_sources policy) = ([], ws) →
  (length (filter (λ s, se_eligible s = true) (fp_sources policy)) ≤
   length (qe_counted (evaluateQuorum policy (full_report policy))))%nat.
Proof.
  intros [Hnd _]%validateSources_names. unfold evaluateQuorum. cbn [qe_counted].
  destruct (count_all policy (full_report policy)) as [acc [_ _ _ _ _ _ Hall _ _]].
  rewrite <- (length_fmap (λ s, source_key (se_name s))). apply submseteq_length, NoDup_submseteq.
  - by apply NoDup_fmap_filter.
  - intros n (s & -> & Hs)%list_elem_of_fmap. pose proof Hs as [He Hin]%list_elem_of_filter.
    apply (Hall (mkContribution (se_name s) None None)).
    + apply list_elem_of_fmap. by exists s.
    + by right.
    + apply eligibleMap_get. by exists s.
Qed.

(** For distinct source names the eligible map lists the eligible declarations. *)
Lemma eligibleMap_values policy :
  NoDup ((λ s, source_key (se_name s)) <$> fp_sources policy) →
  jm_values (eligibleMap policy) = filter (λ s, se_eligible s = true) (fp_sources policy).
Proof.
  unfold eligibleMap. intros Hnd.
  enough (∀ m : jsmap string FeedSourceEligibility,
    (∀ s, s ∈ fp_sources policy → source_key (se_name s) ∉ jm_keys m) →
    jm_values (foldl (λ m s, if se_eligible s then jm_set (source_key (se_name s)) s m else m) m
      (fp_sources policy)) = jm_values m ++ filter (λ s, se_eligible s = true) (fp_sources policy)) as H
    by (apply H; set_solver).
  induction (fp_sources policy) as [|s l IH]; intros m Hm; simpl; [by rewrite app_nil_r|].
  apply NoDup_cons in Hnd as [Hs Hnd]. rewrite filter_cons.
  destruct (se_eligible s) eqn:Es; [rewrite decide_True by done|rewrite decide_False by done].
  - assert (jm_get (source_key (se_name s)) m = None) as Hnew by (apply jm_get_None, Hm; by left).
    rewrite IH; [rewrite jm_values_set_new by done; by rewrite <- app_assoc|done|].
    intros s' Hs'. rewrite jm_keys_set, decide_False, elem_of_app by (by apply Hm; left).
    intros [?|Heq%list_elem_of_singleton]; [by eapply Hm; [right|]|]. destruct Hs. rewrite <- Heq.
    apply list_elem_of_fmap. eauto.
  - apply IH; [done|]. intros s' Hs'. apply Hm. by right.
Qed.

(** C29: A quorum counts real participation: the counted contributions are a
    subsequence of the reported ones, from pairwise distinct sources the policy
    declares eligible, and with [distinctIssuersOnly] from pairwise distinct
    issuers; every contribution is either counted or rejected, for a reason that
    holds; without that option every eligible source that reported is counted.
    The total weight is the sum of the weights of the counted contributions and
    of nothing else (reported, else declared, else 1), the eligible weight the
    sum over the eligible declarations, [weightBps] their rounded ratio (0 when
    the eligible weight is not positive), and the evaluation is satisfied
    exactly when enough sources and a sufficient [weightBps] were counted. *)
Theorem quorum_sound policy cs :
  let ev := evaluateQuorum policy cs in
  (∃ acc, acc `sublist_of` cs ∧ qe_counted ev = (λ c, source_key (sc_source c)) <$> acc ∧
     NoDup (qe_counted ev) ∧
     (∀ n, n ∈ qe_counted ev →
        ∃ s, s ∈ fp_sources policy ∧ se_eligible s = true ∧ source_key (se_name s) = n) ∧
     (qp_distinctIssuersOnly (fp_quorum policy) = true → NoDup (omap sc_issuer acc)) ∧
     (∀ name r, (name, r) ∈ qe_rejected ev →
        ∃ c, c ∈ cs ∧ sc_source c = name ∧ reject_ok_for policy acc c r) ∧
     qe_totalWeight ev = sum_weights (weightOf policy <$> acc)) ∧
  (length (qe_counted ev) + length (qe_rejected ev))%nat = length cs ∧
  (qp_distinctIssuersOnly (fp_quorum policy) = false → ∀ c s,
     c ∈ cs → s ∈ fp_sources policy → se_eligible s = true →
     source_key (se_name s) = source_key (sc_source c) → source_key (sc_source c) ∈ qe_counted ev) ∧
  (NoDup ((λ s, source_key (se_name s)) <$> fp_sources policy) →
     qe_eligibleWeight ev =
       sum_weights (declaredWeight <$> filter (λ s, se_eligible s = true) (fp_sources policy))) ∧
  qe_weightBps ev = weight_share (qe_totalWeight ev) (qe_eligibleWeight ev) ∧
  (qe_satisfied ev = true ↔
     num_ltb (NInt (Z.of_nat (length (qe_counted ev)))) (qp_minSources (fp_quorum policy)) = false ∧
     (∀ w, qp_minWeightBps (fp_quorum policy) = Some w → num_ltb (qe_weightBps ev) w = false)).
Proof.
  destruct (count_all policy cs) as [acc [H1 H2 H3 H4 H5 H6 H7 H8 H9]]. unfold evaluateQuorum.
  cbn [qe_satisfied qe_counted qe_rejected qe_weightBps qe_totalWeight qe_eligibleWeight]. split_and!.
  - exists acc. split_and!; [done..| | |done|done].
    + intros n Hn. by apply eligibleMap_get, H4.
    + intros Hd. destruct (H6 Hd) as [<- ?]. done.
  - done.
  - intros Hd c s Hc Hs He Hk. apply (H7 c Hc); [by left|]. apply eligibleMap_get. eauto.
  - intros Hnd. rewrite <- eligibleMap_values by done. unfold sum_weights. by rewrite foldl_fmap.
  - done.
  - rewrite bool_decide_eq_true, app_nil, !push_if_nil.
    destruct (qp_minWeightBps _) as [w|]; naive_solver.
Qed.

(** A policy that passes validation can be satisfied: unless it also asks for
    a share of the weight, the report of all its eligible sources meets the
    quorum, so that no accepted policy silences its feed for good. *)
Theorem quorum_attainable policy :
  pv_valid (validateFeedPolicy policy) = true →
  qp_minWeightBps (fp_quorum policy) = None →
  qe_satisfied (evaluateQuorum policy (full_report policy)) = true.
Proof.
  intros Hv Hw. unfold validateFeedPolicy in Hv.
  destruct (validateSources [] (fp_sources policy)) as [es ws] eqn:Es.
  cbn [pv_valid] in Hv. apply bool_decide_eq_true in Hv. rewrite !app_nil in Hv.
  destruct Hv as (_ & _ & _ & _ & _ & _ & _ & Hne & -> & Hel & Hmin & _).
  apply full_report_counted in Es. revert Es. unfold evaluateQuorum. rewrite Hw.
  cbn [qe_satisfied qe_counted]. intros Es.
  rewrite bool_decide_eq_true, app_nil, !push_if_nil. split; [|done].
  apply push_if_nil in Hne, Hel. rewrite Hne in Hel. simpl in Hel.
  destruct (negb (is_integer _) || _); [done|]. destruct (num_ltb (NInt MAX_MIN_SOURCES) _); [done|].
  rewrite push_if_nil, Hel in Hmin. simpl in Hmin. eapply num_ltb_mono; [|exact Hmin]. lia.
Qed.

Definition demo_policy : FeedPolicy :=
  mkPolicy "xlm-usd" "public:XLM:native"
    [mkSource "Chainlink" true None None; mkSource " band " true (Some (double_of_Z 2)) None;
     mkSource "redstone" false None (Some "outage")]
    (mkQuorum (NInt 2) None true) (NInt 1) None None.

Lemma quorum_attainable_witness :
  pv_errors (validateFeedPolicy demo_policy) = [] ∧
  qe_satisfied (evaluateQuorum demo_policy (full_report demo_policy)) = true.
Proof. split; [reflexivity|]. by apply quorum_attainable. Defined.

(** A single issuer cannot fill the quorum, and an ineligible source is ignored. *)
Example one_issuer_twice :
  let ev := evaluateQuorum demo_policy
    [mkContribution "BAND" (Some "G1") None; mkContribution "chainlink" (Some "G1") None;
     mkContribution "redstone" None None] in
  qe_satisfied ev = false ∧ qe_counted ev = ["band"] ∧
  qe_rejected ev = [("chainlink", IssuerCounted); ("redstone", NotEligible)].
Proof. vm_compute. done. Qed.
End Policy.

Module Catalog.
Import Policy.

Section catalog.
(** The metadata attached to lifecycle changes. *)
Context {Meta : Type}.

Record FeedCatalogEntry := mkFeedEntry {
  ce_feedId : string;
  ce_asset : string;
  ce_policy : FeedPolicy;
}.

Record FeedCatalog := mkCatalog {
  ca_entries : jsmap string FeedCatalogEntry;
  ca_assetRegistry : list AssetAliasRegistration;
  ca_lifecycle : Lifecycle.store Meta;
  ca_aliases : Aliases.alias_registry;
}.

Definition createFeedCatalog (entries : list FeedCatalogEntry)
    (assetRegistry : list AssetAliasRegistration) (lifecycle : Lifecycle.store Meta)
    (aliases : Aliases.alias_registry) : FeedCatalog :=
  mkCatalog (foldl (λ m e, jm_set (ce_feedId e) e m) jm_empty entries)
    assetRegistry lifecycle aliases.

Inductive FeedLookupErrorCode :=
| LK_FEED_NOT_FOUND | LK_INVALID_ASSET | LK_AMBIGUOUS_ASSET | LK_INVALID_POLICY | LK_FEED_NOT_PUBLISHABLE.

Inductive FeedLookupResult :=
| Found (feed : FeedCatalogEntry) (state : Lifecycle.FeedLifecycleState)
    (publishable canary : bool) (alias : option Aliases.FeedAliasMetadata) (asset : CanonicalAsset)
| NotFound (code : FeedLookupErrorCode) (candidates : option (list string)).

Definition describeFeed (catalog : FeedCatalog) (feedId : string)
    (alias : option Aliases.FeedAliasMetadata) (allowNonPublishable : bool) : FeedLookupResult :=
  match jm_get feedId (ca_entries catalog) with
  | None => NotFound LK_FEED_NOT_FOUND None
  | Some feed =>
      if negb (pv_valid (validateFeedPolicy (ce_policy feed))) then NotFound LK_INVALID_POLICY None
      else
        let state := match jm_get feedId (ca_lifecycle catalog) with
                     | Some lifecycle => Lifecycle.le_state lifecycle
                     | None => Lifecycle.Active end in
        let publishable := Lifecycle.isPublishableState state in
        let canary := Lifecycle.isCanaryState state in
        if negb publishable && negb canary && negb allowNonPublishable
        then NotFound LK_FEED_NOT_PUBLISHABLE None
        else match parseCanonicalAssetId (ce_asset feed) with
             | None => NotFound LK_INVALID_ASSET None
             | Some asset => Found feed state publishable canary alias asset
             end
  end.

(** The last rule of the lookup: the feed that prices the asset the text names. *)
Definition lookupByAsset (catalog : FeedCatalog) (requestedId : string) (allowNonPublishable : bool)
    : FeedLookupResult :=
  match resolveAssetAlias requestedId (ca_assetRegistry catalog) net_public with
  | Unresolved AMBIGUOUS candidates => NotFound LK_AMBIGUOUS_ASSET candidates
  | Unresolved NOT_FOUND _ => NotFound LK_FEED_NOT_FOUND None
  | Unresolved INVALID_ALIAS _ => NotFound LK_INVALID_ASSET None
  | Resolved canonicalId _ _ _ =>
      match list_find (λ e, ce_asset e = canonicalId) (jm_values (ca_entries catalog)) with
      | None => NotFound LK_FEED_NOT_FOUND None
      | Some (_, m) => describeFeed catalog (ce_feedId m) None allowNonPublishable
      end
  end.

Definition lookupFeed (catalog : FeedCatalog) (requested : string) (allowNonPublishable : bool)
    (now : Z) : FeedLookupResult :=
  let requestedId := trim requested in
  if bool_decide (requestedId = "") then NotFound LK_FEED_NOT_FOUND None
  else match jm_get requestedId (ca_entries catalog) with
  | Some direct => describeFeed catalog (ce_feedId direct) None allowNonPublishable
  | None =>
      let aliasResolution := Aliases.resolveFeedAlias (ca_aliases catalog) requestedId now in
      let successor :=
        if Aliases.ar_known aliasResolution
        then feed ← Aliases.ar_resolvedFeed aliasResolution; jm_get feed (ca_entries catalog)
        else None in
      match successor with
      | Some successor =>
          describeFeed catalog (ce_feedId successor) (Aliases.aliasMetadata aliasResolution)
            allowNonPublishable
      | None => lookupByAsset catalog requestedId allowNonPublishable
      end
  end.

(** The asset a feed prices, in canonical form. *)
Definition feedAssetId (feed : FeedCatalogEntry) : option string :=
  formatCanonicalAssetId <$> parseCanonicalAssetId (ce_asset feed).

(** ** What a lookup guarantees *)

(** The lifecycle state recorded for a feed; one the store has never seen counts
    as active. *)
Definition recordedState (catalog : FeedCatalog) (feedId : string) : Lifecycle.FeedLifecycleState :=
  match jm_get feedId (ca_lifecycle catalog) with
  | Some entry => Lifecycle.le_state entry
  | None => Lifecycle.Active
  end.

(** What a feed must satisfy to be served, and what is reported with it. *)
Definition servable (catalog : FeedCatalog) (allow : bool) (feed : FeedCatalogEntry)
    (state : Lifecycle.FeedLifecycleState) (publishable canary : bool) (asset : CanonicalAsset) : Prop :=
  pv_valid (validateFeedPolicy (ce_policy feed)) = true ∧
  parseCanonicalAssetId (ce_asset feed) = Some asset ∧
  state = recordedState catalog (ce_feedId feed) ∧
  (publishable = true ↔ state = Lifecycle.Active) ∧ (canary = true ↔ state = Lifecycle.Canary) ∧
  (allow = true ∨ state = Lifecycle.Active ∨ state = Lifecycle.Canary).

Lemma describeFeed_iff catalog allow e al feed state publishable canary alias asset :
  jm_get (ce_feedId e) (ca_entries catalog) = Some e →
  describeFeed catalog (ce_feedId e) al allow = Found feed state publishable canary alias asset ↔
  feed = e ∧ alias = al ∧ servable catalog allow e state publishable canary asset.
Proof.
  intros He. unfold describeFeed, servable. rewrite He. fold (recordedState catalog (ce_feedId e)).
  destruct (pv_valid _); simpl; [|naive_solver].
  destruct (parseCanonicalAssetId (ce_asset e)) as [a|]; [|destruct (_ && _); naive_solver].
  destruct (recordedState catalog (ce_feedId e)), allow, publishable, canary; simpl; naive_solver.
Qed.

(** Catalogs as the constructor builds them: entries are stored under their id. *)
Definition catalog_keyed (catalog : FeedCatalog) : Prop :=
  ∀ k e, jm_get k (ca_entries catalog) = Some e → ce_feedId e = k.

Lemma created_entries entries (m : jsmap string FeedCatalogEntry) :
  (∀ k e, jm_get k m = Some e → ce_feedId e = k) → jm_wf m →
  let m' := foldl (λ m e, jm_set (ce_feedId e) e m) m entries in
  (∀ k e, jm_get k m' = Some e → ce_feedId e = k) ∧ jm_wf m'.
Proof.
  revert m. induction entries as [|e0 l IH]; intros m Hm Hwf; simpl; [done|].
  apply IH; [|auto with oracle]. intros k e. rewrite jm_get_set. case_decide; [by intros [= <-]|apply Hm].
Qed.

Lemma createFeedCatalog_keyed entries registry lifecycle aliases :
  catalog_keyed (createFeedCatalog entries registry lifecycle aliases) ∧
  jm_wf (ca_entries (createFeedCatalog entries registry lifecycle aliases)).
Proof. apply created_entries; [done|apply jm_wf_empty]. Qed.

(** The successor feed of a requested alias, if the alias is known and the
    catalog has its successor. *)
Definition aliased (catalog : FeedCatalog) (id : string) (now : Z) (feed : FeedCatalogEntry) : Prop :=
  let ares := Aliases.resolveFeedAlias (ca_aliases catalog) id now in
  Aliases.ar_known ares = true ∧
  ∃ f, Aliases.ar_resolvedFeed ares = Some f ∧ jm_get f (ca_entries catalog) = Some feed.

(** The first entry, in the order of the catalog, that prices the asset the text names. *)
Definition prices_asset (catalog : FeedCatalog) (id : string) (feed : FeedCatalogEntry) : Prop :=
  (∃ a matched kind, resolveAssetAlias id (ca_assetRegistry catalog) net_public =
     Resolved (ce_asset feed) a matched kind) ∧
  ∃ before after, jm_values (ca_entries catalog) = before ++ feed :: after ∧
    ∀ e, e ∈ before → ce_asset e ≠ ce_asset feed.

(** The feed a text names: each rule applies only where the ones before it do not. *)
Definition found_by (catalog : FeedCatalog) (requested : string) (now : Z) (feed : FeedCatalogEntry)
    (alias : option Aliases.FeedAliasMetadata) : Prop :=
  let id := trim requested in
  id ≠ "" ∧
  (jm_get id (ca_entries catalog) = Some feed ∧ alias = None ∨
   jm_get id (ca_entries catalog) = None ∧
     (aliased catalog id now feed ∧
        alias = Aliases.aliasMetadata (Aliases.resolveFeedAlias (ca_aliases catalog) id now) ∨
      (∀ e, ¬ aliased catalog id now e) ∧ prices_asset catalog id feed ∧ alias = None)).

Section found.
Context (catalog : FeedCatalog) (allow : bool) (feed : FeedCatalogEntry)
  (state : Lifecycle.FeedLifecycleState) (publishable canary : bool)
  (alias : option Aliases.FeedAliasMetadata) (asset : CanonicalAsset).
Context (Hkey : catalog_keyed catalog) (Hwf : jm_wf (ca_entries catalog)).
Let res := Found feed state publishable canary alias asset.

Lemma entry_keyed k e : jm_get k (ca_entries catalog) = Some e →
  jm_get (ce_feedId e) (ca_entries catalog) = Some e.
Proof. intros He. by rewrite (Hkey _ _ He). Qed.

Lemma first_pricing cid i e :
  list_find (λ e, ce_asset e = cid) (jm_values (ca_entries catalog)) = Some (i, e) →
  ce_asset e = cid ∧ jm_get (ce_feedId e) (ca_entries catalog) = Some e ∧
  ∃ before after, jm_values (ca_entries catalog) = before ++ e :: after ∧
    ∀ e', e' ∈ before → ce_asset e' ≠ cid.
Proof.
  intros (Hi & Ha & Hb)%list_find_Some. split_and!; [done| |].
  - apply list_elem_of_lookup_2, jm_value_inv in Hi as [k Hk]; [|done]. by eapply entry_keyed.
  - exists (take i (jm_values (ca_entries catalog))), (drop (S i) (jm_values (ca_entries catalog))).
    split; [by rewrite take_drop_middle|]. intros e' (j & Hj & Hlt)%elem_of_take. by eapply Hb.
Qed.

(** Two decompositions at the first entry of an asset agree. *)
Lemma first_unique (l : list FeedCatalogEntry) cid b1 e1 a1 b2 e2 a2 :
  l = b1 ++ e1 :: a1 → (∀ e, e ∈ b1 → ce_asset e ≠ cid) → ce_asset e1 = cid →
  l = b2 ++ e2 :: a2 → (∀ e, e ∈ b2 → ce_asset e ≠ cid) → ce_asset e2 = cid → e1 = e2.
Proof.
  revert l b2. induction b1 as [|x b1 IH]; intros l b2 -> H1 Hc1 Heq H2 Hc2;
    destruct b2 as [|y b2]; simplify_eq/=; try done.
  - destruct (H2 y ltac:(by left)). done.
  - destruct (H1 e2 ltac:(by left)). done.
  - eapply (IH _ b2); try done; intros e He; [apply H1|apply H2]; by right.
Qed.

Lemma lookupByAsset_iff id :
  lookupByAsset catalog id allow = res ↔
  prices_asset catalog id feed ∧ alias = None ∧ servable catalog allow feed state publishable canary asset.
Proof.
  unfold lookupByAsset, prices_asset.
  destruct (resolveAssetAlias _ _ _) as [cid a matched kind|code cand] eqn:Er.
  2: { split; [by destruct code|]. by intros [[(? & ? & ? & ?) _] _]. }
  destruct (list_find _ _) as [[i e]|] eqn:El.
  - destruct (first_pricing _ _ _ El) as (Ha & He & before & after & Hv & Hb).
    unfold res. rewrite describeFeed_iff by done. split.
    + intros (-> & -> & Hs). split_and!; [by exists a, matched, kind; rewrite Ha| |done|done].
      exists before, after. rewrite Ha. done.
    + intros (((a' & m' & k' & [= Hcid _ _ _]) & b2 & a2 & Hv2 & Hb2) & -> & Hs).
      assert (feed = e) as ->; [|done]. symmetry.
      eapply (first_unique _ cid before e after b2 feed a2); try done; [|by rewrite Hcid..].
      by rewrite Hcid.
  - split; [done|]. intros (((a' & m' & k' & [= Hcid _ _ _]) & b2 & a2 & Hv2 & _) & _).
    apply list_find_None in El. rewrite Forall_forall in El. destruct (El feed); [|done].
    rewrite Hv2. apply elem_of_app. right. by left.
Qed.

Lemma lookupFeed_iff requested now :
  lookupFeed catalog requested allow now = res ↔
  found_by catalog requested now feed alias ∧ servable catalog allow feed state publishable canary asset.
Proof.
  unfold lookupFeed, found_by. case_bool_decide as Hb; [naive_solver|].
  destruct (jm_get (trim requested) (ca_entries catalog)) as [direct|] eqn:E1.
  { unfold res. rewrite <- (Hkey _ _ E1) in E1. rewrite (describeFeed_iff _ _ _ _ _ _ _ _ _ _ E1). naive_solver. }
  unfold aliased. set (ares := Aliases.resolveFeedAlias _ _ _). cbv zeta.
  destruct (if Aliases.ar_known ares then _ else _) as [succ|] eqn:Es.
  - assert (Aliases.ar_known ares = true ∧ ∃ f, Aliases.ar_resolvedFeed ares = Some f ∧
      jm_get f (ca_entries catalog) = Some succ) as (Hk & f & Hf & Hg).
    { destruct (Aliases.ar_known ares); [|done]. destruct (Aliases.ar_resolvedFeed ares) as [f|]; [|done]. eauto. }
    unfold res. rewrite (describeFeed_iff _ _ _ _ _ _ _ _ _ _ (entry_keyed _ _ Hg)). naive_solver.
  - assert (∀ e, ¬ (Aliases.ar_known ares = true ∧ ∃ f, Aliases.ar_resolvedFeed ares = Some f ∧
      jm_get f (ca_entries catalog) = Some e)) as Hno.
    { intros e (Hk & f & Hf & Hg). rewrite Hk, Hf in Es. simpl in Es. congruence. }
    rewrite lookupByAsset_iff. naive_solver.
Qed.
End found.
End catalog.

Arguments FeedCatalog : clear implicits.


Definition demo_entry : FeedCatalogEntry := mkFeedEntry "xlm-usd" "public:XLM:native" demo_policy.


(** A feed the lifecycle store has never seen is served as active. *)
Example unregistered_feed_active :
  lookupFeed (Meta:=unit) (createFeedCatalog [demo_entry] [] jm_empty []) "xlm-usd" false 0 =
    Found demo_entry Lifecycle.Active true false None (mkAsset net_public "XLM" None).
Proof. reflexivity. Qed.
End Catalog.
