(* ===== verification/Releases.v ===== *)
(** * Signed catalog releases

    [CatalogReleaseManager] of [api/src/feeds/catalog-snapshots.ts]: a snapshot of the
    feed catalog becomes the canary release, then the stable one, and a stable
    release can be rolled back to an earlier one, each time only with a valid
    signature.  HMAC-SHA-256 is a parameter; [Buffer.from(text, 'hex')] is
    [hexBytes], which stops at the first pair that is not hexadecimal.  The snapshot
    store and [compare] are not modelled.

    - [releases_authorised]: what is stable was staged with a verified signature;
    - [verify_true]: which signatures are accepted;
    - [signature_malleable]: text after the digest is ignored. *)

From Stdlib Require Import ZArith Lia.
From stdpp Require Import base numbers tactics decidable relations list strings sets.
From S2P Require Import Prelude.

Record SignedCatalogRelease := mkRelease {
  sr_snapshotId : string;
  sr_signature : string;
  sr_signedAt : string;
}.

#[export] Instance release_eq_dec : EqDecision SignedCatalogRelease.
Proof. solve_decision. Defined.

Record CatalogReleaseManager := mkManager {
  stableRelease : option SignedCatalogRelease;
  canaryRelease : option SignedCatalogRelease;
  history : list SignedCatalogRelease;
}.

Definition newManager : CatalogReleaseManager := mkManager None None [].

Inductive release_error := SIGNING_KEY_TOO_SHORT.

Definition hex_digit_value (c : Ascii.ascii) : option nat :=
  let n := Ascii.nat_of_ascii c in
  if char_between 48 57 c then Some (n - 48)%nat
  else if char_between 65 70 c then Some (n - 55)%nat
  else if char_between 97 102 c then Some (n - 87)%nat
  else None.

Fixpoint hexBytes (l : list Ascii.ascii) : list nat :=
  match l with
  | a :: b :: rest =>
      match hex_digit_value a, hex_digit_value b with
      | Some x, Some y => (16 * x + y)%nat :: hexBytes rest
      | _, _ => []
      end
  | _ => []
  end.

Definition newline : string := String.String (Ascii.ascii_of_nat 10) EmptyString.

Section releases.
(** [createHmac('sha256', key).update(text).digest('hex')] *)
Context (hmac : string → string → string) (signingKey : string).

Abbreviation RM := (M CatalogReleaseManager release_error).

Definition sign (snapshotId signedAt : string) : result release_error SignedCatalogRelease :=
  if (String.length signingKey <? 32)%nat then Throw SIGNING_KEY_TOO_SHORT
  else Ok (mkRelease snapshotId (hmac signingKey (snapshotId +:+ newline +:+ signedAt)) signedAt).

Definition verify (release : SignedCatalogRelease) : result release_error bool :=
  match sign (sr_snapshotId release) (sr_signedAt release) with
  | Throw e => Throw e
  | Ok r =>
      let expected := hexBytes (chars (sr_signature r)) in
      let actual := hexBytes (chars (sr_signature release)) in
      Ok ((length expected =? length actual)%nat && bool_decide (expected = actual))
  end.

Definition stageCanary (release : SignedCatalogRelease) : RM bool :=
  ok ← lift (verify release);
  if (ok : bool) then
    modify (λ m, mkManager (stableRelease m) (Some release) (history m)) ;; mret true
  else mret false.

Definition promoteCanary : RM bool :=
  canary ← gets canaryRelease;
  match canary with
  | None => mret false
  | Some release =>
      ok ← lift (verify release);
      if (ok : bool) then
        modify (λ m, mkManager (Some release) None (history m ++ [release])) ;; mret true
      else mret false
  end.

Definition rollback (snapshotId signature : string) : RM bool :=
  prior ← gets (λ m, snd <$> list_find (λ r, sr_snapshotId r = snapshotId ∧ sr_signature r = signature) (history m));
  match prior with
  | None => mret false
  | Some release =>
      ok ← lift (verify release);
      if (ok : bool) then
        modify (λ m, mkManager (Some release) None (history m ++ [release])) ;; mret true
      else mret false
  end.

(** ** What is accepted *)

Lemma verify_true r :
  verify r = Ok true ↔
  (32 <= String.length signingKey)%nat ∧
  hexBytes (chars (sr_signature r)) =
    hexBytes (chars (hmac signingKey (sr_snapshotId r +:+ newline +:+ sr_signedAt r))).
Proof.
  unfold verify, sign. destruct (String.length signingKey <? 32)%nat eqn:E; simpl.
  - apply Nat.ltb_lt in E. split; [done|lia].
  - apply Nat.ltb_ge in E. split.
    + intros [= [_ H]%andb_true_iff]. apply bool_decide_eq_true in H. done.
    + intros [_ ->]. by rewrite Nat.eqb_refl, bool_decide_true.
Qed.

(** ** The history of releases *)

Inductive release_op :=
  | RStage (release : SignedCatalogRelease)
  | RPromote
  | RRollback (snapshotId signature : string).

Definition run_release (m : CatalogReleaseManager) (op : release_op) : CatalogReleaseManager :=
  match op with
  | RStage r => fst (stageCanary r m)
  | RPromote => fst (promoteCanary m)
  | RRollback i s => fst (rollback i s m)
  end.

(** [ops] have been run: what was staged, and what is released. *)
Record manager_ok (ops : list release_op) (m : CatalogReleaseManager) : Prop := {
  mo_canary : ∀ r, canaryRelease m = Some r → RStage r ∈ ops ∧ verify r = Ok true;
  mo_history : ∀ r, r ∈ history m → RStage r ∈ ops ∧ verify r = Ok true;
  mo_stable : stableRelease m = last (history m);
}.

Lemma manager_ok_more ops op m : manager_ok ops m → manager_ok (ops ++ [op]) m.
Proof. intros [H1 H2 H3]. split; [set_solver..|done]. Qed.

Lemma release_ok ops m r :
  manager_ok ops m → RStage r ∈ ops → verify r = Ok true →
  manager_ok ops (mkManager (Some r) None (history m ++ [r])).
Proof.
  intros [H1 H2 H3] Hr Hv. split; simpl; [done| |by rewrite last_snoc].
  intros r' [?| ->%list_elem_of_singleton]%elem_of_app; auto.
Qed.

Lemma run_release_ok ops op m : manager_ok ops m → manager_ok (ops ++ [op]) (run_release m op).
Proof.
  intros Hm. pose proof (manager_ok_more _ op _ Hm) as Hm'. destruct op as [r| |i s]; simpl.
  - unfold stageCanary. inv_run. destruct a; [|done]. destruct Hm' as [H1 H2 H3]. split; simpl; try done.
    intros r' [= <-]. split; [set_solver|done].
  - unfold promoteCanary. inv_run. destruct (canaryRelease m) as [r|] eqn:E; [|done]. inv_run.
    destruct a; [|done]. destruct (mo_canary _ _ Hm' r E). by apply release_ok.
  - unfold rollback. inv_run. destruct (list_find _ _) as [[k r]|] eqn:E; [|done]. simpl. inv_run.
    destruct a; [|done]. apply list_find_Some in E as (Hk & _).
    destruct (mo_history _ _ Hm' r) as [? _]; [by eapply list_elem_of_lookup_2|]. by apply release_ok.
Qed.

Lemma run_releases_ok ops : manager_ok ops (foldl run_release newManager ops).
Proof.
  induction ops as [|op ops IH] using rev_ind.
  { split; simpl; [done|by intros ? ?%not_elem_of_nil|done]. }
  rewrite foldl_app. simpl. by apply run_release_ok.
Qed.
End releases.

(** ** Properties *)

(** Only authorised releases become stable.  After any sequence of calls the stable
    release is the last of the history, and every release of the history was staged
    by an earlier call with a signature that carries the digest of its snapshot and
    time under a key of at least 32 characters: promotion and rollback introduce
    nothing new. *)
Theorem releases_authorised hmac key ops :
  let m := foldl (run_release hmac key) newManager ops in
  stableRelease m = last (history m) ∧
  ∀ r, r ∈ history m → RStage r ∈ ops ∧ (32 <= String.length key)%nat ∧
    hexBytes (chars (sr_signature r)) =
      hexBytes (chars (hmac key (sr_snapshotId r +:+ newline +:+ sr_signedAt r))).
Proof.
  destruct (run_releases_ok hmac key ops) as [_ H2 H3]. split; [done|].
  intros r [Hr Hv]%H2. by apply verify_true in Hv.
Qed.

(** Text that follows the digest is ignored, so a release has many accepted signatures. *)
Example signature_malleable :
  let hmac (_ _ : string) := "00ff" in
  let key := "0123456789abcdef0123456789abcdef" in
  verify hmac key (mkRelease "fc-1" "00FFzz" "2026-01-01") = Ok true.
Proof. by vm_compute. Qed.
