(* ===== verification/Webhooks.v ===== *)
(** * Webhook delivery

    Models [api/src/webhooks/webhook-service.ts]: registrations, the triggers
    that fire on price updates, and the in-process delivery queue with one FIFO
    per destination, a global bound on concurrent deliveries, retries with
    exponential backoff, a circuit breaker per destination, dead letters and
    their replay.

    Registrations, queues, jobs and timers are objects the code shares: a
    delivery that is under way keeps its registration and its queue even when
    they have left the maps.  They live in heaps under numbers; the maps of the
    class hold such numbers.  A delivery is split at the request it awaits: the
    list [ws_running] holds the deliveries under way, and the event [Outcome]
    resumes one of them with the response or the error.  Timers fire by the event
    [Fire].  The bookkeeping around one response, which awaits nothing but its
    own log entry, is one step.  The shared store of the registrations is an
    input of [Refresh]; of the store's other content only the dead letters are
    kept.  HMAC-SHA-256, JSON text and the outbound URL check are arguments;
    metrics (but for the count of dropped
    jobs), log lines and the copy of secrets in Vault are left out.

    The theorems: the deliveries under way never exceed the bound and no two
    belong to one queue; after a pass nothing that could start is left waiting;
    as long as no backlog overflows, no job is lost and none is attempted more
    often than configured; every request is signed so that the verifier accepts
    it.  Examples record what the code does otherwise: an overflow loses a job
    that was never attempted, a refresh during a delivery keeps the circuit
    closed, and an entry can be replayed twice. *)

From Stdlib Require Import ZArith QArith Lia.
From stdpp Require Import base tactics decidable numbers list sets strings gmap.
From S2P Require Import Prelude JsMap JsNum Json Releases.

Local Open Scope Z_scope.

Create HintDb webhooks.

(** ** Data *)

Inductive WebhookTriggerType : Type := threshold | interval.
Inductive WebhookCircuitState : Type := circuit_closed | circuit_open | circuit_half_open.
#[export] Instance WebhookCircuitState_eq_dec : EqDecision WebhookCircuitState.
Proof. solve_decision. Defined.
Inductive webhook_status : Type := wh_healthy | wh_degraded | wh_dead_letter.

Record WebhookTrigger : Type := mkTrigger {
  tr_type : WebhookTriggerType;
  tr_asset : string;
  tr_value : double;
}.

Record WebhookRegistration : Type := mkWebhook {
  wr_id : string;
  wr_url : string;
  wr_apiKeyPrefix : string;
  wr_trigger : WebhookTrigger;
  wr_secret : string;
  wr_verificationKey : string;
  wr_active : bool;
  wr_status : webhook_status;
  wr_circuit : WebhookCircuitState;
  wr_nextProbeAt : option Z;
  wr_createdAt : Z;
  wr_lastTriggeredAt : option Z;
  wr_lastPrice : option double;
  wr_lastFailure : option string;
  wr_failureCount : Z;
}.

Definition payload : Type := jsmap string json.

Record DeliveryJob : Type := mkJob {
  jb_webhookId : string;
  jb_payload : payload;
  jb_attempt : Z;
  jb_succeeded : bool;
  jb_settled : bool;                 (* whether [resolve] was called *)
}.

Record DestinationQueue : Type := mkDest {
  dq_webhookId : string;
  dq_pending : list Z;               (* jobs *)
  dq_running : bool;
  dq_timer : option Z;               (* a timer *)
  dq_consecutiveFailures : Z;
}.

Inductive timer_kind : Type := retry_timer | probe_timer.
#[export] Instance timer_kind_eq_dec : EqDecision timer_kind.
Proof. solve_decision. Defined.

Record timer : Type := mkTimer {
  tm_dest : Z;
  tm_kind : timer_kind;
  tm_due : Z;
}.

Record WebhookDeliveryLog : Type := mkLog {
  dl_webhookId : string;
  dl_url : string;
  dl_attempt : Z;
  dl_success : bool;
  dl_statusCode : option Z;
  dl_error : option string;
  dl_timestamp : Z;
}.

Record DeadLetterEntry : Type := mkDeadLetter {
  de_id : Z;
  de_webhookId : string;
  de_apiKeyPrefix : string;
  de_url : string;
  de_trigger : WebhookTrigger;
  de_payload : payload;
  de_attempts : Z;
  de_failure : string;
  de_createdAt : Z;
  de_resolvedAt : option Z;
  de_replayId : option string;
}.

(** A delivery under way: what the suspended [runJob] holds. *)
Record delivery : Type := mkDelivery {
  dv_dest : Z;
  dv_webhook : Z;
  dv_job : Z;
  dv_attempt : Z;
}.

(** A request handed to [fetch]. *)
Record webhook_request : Type := mkRequest {
  rq_webhookId : string;
  rq_url : string;
  rq_body : string;
  rq_signature : string;
}.

Record WebhookConfig : Type := mkWebhookConfig {
  wc_baseDelayMs : Z;
  wc_maxDelayMs : Z;
  wc_maxRetries : Z;
  wc_minIntervalMs : Z;
  wc_maxConcurrent : Z;
  wc_maxPendingPerDestination : Z;
  wc_circuitFailureThreshold : Z;
  wc_circuitCooldownMs : Z;
}.

(** Where a replay stands: it has read its entry, or waits for its job. *)
Inductive replay_stage : Type :=
| ReplayRead (entry : option DeadLetterEntry)
| ReplayWaiting (entry : DeadLetterEntry) (webhook job : Z).

Inductive ReplayStatus : Type := replayed | duplicate | missing | failed | in_flight.

Record service : Type := mkService {
  ws_regs : gmap Z WebhookRegistration;       (* the registration objects *)
  ws_webhooks : jsmap string Z;
  ws_queues : gmap Z DestinationQueue;        (* the queue objects *)
  ws_dests : jsmap string Z;
  ws_jobs : gmap Z DeliveryJob;
  ws_timers : gmap Z timer;                   (* the timers that will fire *)
  ws_inFlight : Z;
  ws_running : list delivery;
  ws_ring : list WebhookDeliveryLog;
  ws_deadLetters : list DeadLetterEntry;
  ws_replaying : list Z;
  ws_replays : jsmap string replay_stage;
  ws_results : list (string * ReplayStatus);
  ws_sent : list webhook_request;
  ws_next : Z;                                (* the next fresh number *)
  ws_dropped : Z;                             (* webhookJobsDroppedTotal *)
}.

Definition newService : service :=
  mkService ∅ jm_empty ∅ jm_empty ∅ ∅ 0 [] [] [] [] jm_empty [] [] 0 0.

#[export] Instance registration_inhabited : Inhabited WebhookRegistration.
Proof.
  exact (populate (mkWebhook "" "" "" (mkTrigger interval "" double_0) "" "" false wh_healthy
    circuit_closed None 0 None None None 0)).
Defined.
#[export] Instance queue_inhabited : Inhabited DestinationQueue.
Proof. exact (populate (mkDest "" [] false None 0)). Defined.
#[export] Instance job_inhabited : Inhabited DeliveryJob.
Proof. exact (populate (mkJob "" [] 0 false true)). Defined.

(** *** Assignments to fields of objects *)

Definition update_reg (o : Z) (f : WebhookRegistration → WebhookRegistration) (s : service) : service :=
  mkService (<[o := f (ws_regs s !!! o)]> (ws_regs s)) (ws_webhooks s) (ws_queues s) (ws_dests s)
    (ws_jobs s) (ws_timers s) (ws_inFlight s) (ws_running s) (ws_ring s) (ws_deadLetters s)
    (ws_replaying s) (ws_replays s) (ws_results s) (ws_sent s) (ws_next s) (ws_dropped s).
Definition set_webhooks (m : jsmap string Z) (s : service) : service :=
  mkService (ws_regs s) m (ws_queues s) (ws_dests s)
    (ws_jobs s) (ws_timers s) (ws_inFlight s) (ws_running s) (ws_ring s) (ws_deadLetters s)
    (ws_replaying s) (ws_replays s) (ws_results s) (ws_sent s) (ws_next s) (ws_dropped s).
Definition update_queue (d : Z) (f : DestinationQueue → DestinationQueue) (s : service) : service :=
  mkService (ws_regs s) (ws_webhooks s) (<[d := f (ws_queues s !!! d)]> (ws_queues s)) (ws_dests s)
    (ws_jobs s) (ws_timers s) (ws_inFlight s) (ws_running s) (ws_ring s) (ws_deadLetters s)
    (ws_replaying s) (ws_replays s) (ws_results s) (ws_sent s) (ws_next s) (ws_dropped s).
Definition set_dests (m : jsmap string Z) (s : service) : service :=
  mkService (ws_regs s) (ws_webhooks s) (ws_queues s) m
    (ws_jobs s) (ws_timers s) (ws_inFlight s) (ws_running s) (ws_ring s) (ws_deadLetters s)
    (ws_replaying s) (ws_replays s) (ws_results s) (ws_sent s) (ws_next s) (ws_dropped s).
Definition set_jobs (m : gmap Z DeliveryJob) (s : service) : service :=
  mkService (ws_regs s) (ws_webhooks s) (ws_queues s) (ws_dests s)
    m (ws_timers s) (ws_inFlight s) (ws_running s) (ws_ring s) (ws_deadLetters s)
    (ws_replaying s) (ws_replays s) (ws_results s) (ws_sent s) (ws_next s) (ws_dropped s).
Definition set_timers (m : gmap Z timer) (s : service) : service :=
  mkService (ws_regs s) (ws_webhooks s) (ws_queues s) (ws_dests s)
    (ws_jobs s) m (ws_inFlight s) (ws_running s) (ws_ring s) (ws_deadLetters s)
    (ws_replaying s) (ws_replays s) (ws_results s) (ws_sent s) (ws_next s) (ws_dropped s).
Definition set_flight (n : Z) (r : list delivery) (s : service) : service :=
  mkService (ws_regs s) (ws_webhooks s) (ws_queues s) (ws_dests s)
    (ws_jobs s) (ws_timers s) n r (ws_ring s) (ws_deadLetters s)
    (ws_replaying s) (ws_replays s) (ws_results s) (ws_sent s) (ws_next s) (ws_dropped s).
Definition set_ring (r : list WebhookDeliveryLog) (s : service) : service :=
  mkService (ws_regs s) (ws_webhooks s) (ws_queues s) (ws_dests s)
    (ws_jobs s) (ws_timers s) (ws_inFlight s) (ws_running s) r (ws_deadLetters s)
    (ws_replaying s) (ws_replays s) (ws_results s) (ws_sent s) (ws_next s) (ws_dropped s).
Definition set_deadLetters (l : list DeadLetterEntry) (s : service) : service :=
  mkService (ws_regs s) (ws_webhooks s) (ws_queues s) (ws_dests s)
    (ws_jobs s) (ws_timers s) (ws_inFlight s) (ws_running s) (ws_ring s) l
    (ws_replaying s) (ws_replays s) (ws_results s) (ws_sent s) (ws_next s) (ws_dropped s).
Definition set_replays (l : list Z) (m : jsmap string replay_stage) (r : list (string * ReplayStatus))
    (s : service) : service :=
  mkService (ws_regs s) (ws_webhooks s) (ws_queues s) (ws_dests s)
    (ws_jobs s) (ws_timers s) (ws_inFlight s) (ws_running s) (ws_ring s) (ws_deadLetters s)
    l m r (ws_sent s) (ws_next s) (ws_dropped s).
Definition add_sent (r : webhook_request) (s : service) : service :=
  mkService (ws_regs s) (ws_webhooks s) (ws_queues s) (ws_dests s)
    (ws_jobs s) (ws_timers s) (ws_inFlight s) (ws_running s) (ws_ring s) (ws_deadLetters s)
    (ws_replaying s) (ws_replays s) (ws_results s) (ws_sent s ++ [r]) (ws_next s) (ws_dropped s).
Definition take_fresh (s : service) : service :=
  mkService (ws_regs s) (ws_webhooks s) (ws_queues s) (ws_dests s)
    (ws_jobs s) (ws_timers s) (ws_inFlight s) (ws_running s) (ws_ring s) (ws_deadLetters s)
    (ws_replaying s) (ws_replays s) (ws_results s) (ws_sent s) (ws_next s + 1) (ws_dropped s).

Definition count_dropped (s : service) : service :=
  mkService (ws_regs s) (ws_webhooks s) (ws_queues s) (ws_dests s)
    (ws_jobs s) (ws_timers s) (ws_inFlight s) (ws_running s) (ws_ring s) (ws_deadLetters s)
    (ws_replaying s) (ws_replays s) (ws_results s) (ws_sent s) (ws_next s) (ws_dropped s + 1).

Definition settle (j : Z) (s : service) : service :=
  let b := ws_jobs s !!! j in
  set_jobs (<[j := mkJob (jb_webhookId b) (jb_payload b) (jb_attempt b) (jb_succeeded b) true]>
    (ws_jobs s)) s.

Definition set_pending (l : list Z) (q : DestinationQueue) : DestinationQueue :=
  mkDest (dq_webhookId q) l (dq_running q) (dq_timer q) (dq_consecutiveFailures q).
Definition set_running (b : bool) (q : DestinationQueue) : DestinationQueue :=
  mkDest (dq_webhookId q) (dq_pending q) b (dq_timer q) (dq_consecutiveFailures q).
Definition set_timer (t : option Z) (q : DestinationQueue) : DestinationQueue :=
  mkDest (dq_webhookId q) (dq_pending q) (dq_running q) t (dq_consecutiveFailures q).
Definition set_failures (n : Z) (q : DestinationQueue) : DestinationQueue :=
  mkDest (dq_webhookId q) (dq_pending q) (dq_running q) (dq_timer q) n.

Definition set_circuit (c : WebhookCircuitState) (probe : option Z) (w : WebhookRegistration)
    : WebhookRegistration :=
  mkWebhook (wr_id w) (wr_url w) (wr_apiKeyPrefix w) (wr_trigger w) (wr_secret w)
    (wr_verificationKey w) (wr_active w) (wr_status w) c probe (wr_createdAt w)
    (wr_lastTriggeredAt w) (wr_lastPrice w) (wr_lastFailure w) (wr_failureCount w).
Definition set_health (st : webhook_status) (failure : option string) (n : Z) (w : WebhookRegistration)
    : WebhookRegistration :=
  mkWebhook (wr_id w) (wr_url w) (wr_apiKeyPrefix w) (wr_trigger w) (wr_secret w)
    (wr_verificationKey w) (wr_active w) st (wr_circuit w) (wr_nextProbeAt w) (wr_createdAt w)
    (wr_lastTriggeredAt w) (wr_lastPrice w) failure n.
Definition set_trigger_state (t : option Z) (p : option double) (w : WebhookRegistration)
    : WebhookRegistration :=
  mkWebhook (wr_id w) (wr_url w) (wr_apiKeyPrefix w) (wr_trigger w) (wr_secret w)
    (wr_verificationKey w) (wr_active w) (wr_status w) (wr_circuit w) (wr_nextProbeAt w)
    (wr_createdAt w) t p (wr_lastFailure w) (wr_failureCount w).

(** ** Signatures *)

Section webhooks.
Variable hmac : string → string → string.       (* createHmac('sha256', key).update(text).digest('hex') *)
Variable stringify : json → string.              (* JSON.stringify *)
Variable c : WebhookConfig.

Definition signWebhookPayload (secret body : string) : string := hmac secret body.

Definition buildWebhookBody (webhookId : string) (p : payload) : string :=
  stringify (JObj (fold_left (λ m '(k, v), jm_set k v m) p [("webhookId", JStr webhookId)])).

Definition signaturePrefix : string := "sha256=".

(** [signature.startsWith('sha256=') ? signature.slice(...) : signature] *)
Definition stripPrefix (signature : string) : string :=
  if String.prefix signaturePrefix signature
  then String.substring 7 (String.length signature - 7) signature
  else signature.

Definition verifyWebhookSignature (secret body signature : string) : bool :=
  if bool_decide (secret = "") || bool_decide (body = "") || bool_decide (signature = "") then false
  else
    let expected := hexBytes (chars (signWebhookPayload secret body)) in
    let actual := hexBytes (chars (stripPrefix signature)) in
    (length expected =? length actual)%nat && bool_decide (expected = actual).

(** ** The queue *)

Definition backoffDelayMs (attempt : Z) : Z :=
  Z.min (wc_baseDelayMs c * 2 ^ (attempt - 1)) (wc_maxDelayMs c).

Definition maxRingEntries : Z := 2000.

Definition logDelivery (entry : WebhookDeliveryLog) (s : service) : service :=
  let r := ws_ring s ++ [entry] in
  set_ring (if maxRingEntries <? Z.of_nat (length r) then tail r else r) s.

(** [this.webhooks.get(id)], an object *)
Definition webhookOf (id : string) (s : service) : option Z := jm_get id (ws_webhooks s).

Definition openCircuit (o : Z) (s : service) : bool :=
  bool_decide (wr_circuit (ws_regs s !!! o) = circuit_open).

Definition ready (s : service) (d : Z) : bool :=
  let q := ws_queues s !!! d in
  negb (dq_running q) && negb (bool_decide (is_Some (dq_timer q))) &&
  negb (bool_decide (dq_pending q = [])) &&
  match webhookOf (dq_webhookId q) s with
  | None => false
  | Some o => negb (openCircuit o s)
  end.

Definition nextReady (s : service) : option Z := List.find (ready s) (jm_values (ws_dests s)).

(** What [attemptOnce] sends before it waits for the response. *)
Definition sendRequest (o j : Z) (s : service) : service :=
  let w := ws_regs s !!! o in
  let body := buildWebhookBody (wr_id w) (jb_payload (ws_jobs s !!! j)) in
  add_sent (mkRequest (wr_id w) (wr_url w) body
              (signaturePrefix +:+ signWebhookPayload (wr_secret w) body)) s.

(** [runJob], up to the request. *)
Definition runJob (d : Z) (s : service) : service :=
  let q := ws_queues s !!! d in
  match dq_pending q, webhookOf (dq_webhookId q) s with
  | j :: _, Some o =>
      let b := ws_jobs s !!! j in
      let attempt := jb_attempt b + 1 in
      let s1 := update_queue d (set_running true) s in
      let s2 := set_jobs (<[j := mkJob (jb_webhookId b) (jb_payload b) attempt (jb_succeeded b)
                                   (jb_settled b)]> (ws_jobs s1)) s1 in
      sendRequest o j
        (set_flight (ws_inFlight s + 1) (ws_running s ++ [mkDelivery d o j attempt]) s2)
  | _, _ => update_queue d (set_running false) s
  end.

Definition maxConcurrent : Z := Z.max 1 (wc_maxConcurrent c).

(** The loop of [pump]; every pass starts a delivery, so the free slots bound
    their number. *)
Fixpoint pumpLoop (fuel : nat) (s : service) : service :=
  match fuel with
  | O => s
  | S fuel =>
      if ws_inFlight s <? maxConcurrent then
        match nextReady s with
        | None => s
        | Some d => pumpLoop fuel (runJob d s)
        end
      else s
  end.
Definition pump (s : service) : service := pumpLoop (Z.to_nat (maxConcurrent - ws_inFlight s)) s.

Definition setTimer (now : Z) (d : Z) (delayMs : Z) (kind : timer_kind) (s : service) : service :=
  let t := ws_next s in
  update_queue d (set_timer (Some t))
    (set_timers (<[t := mkTimer d kind (now + delayMs)]> (ws_timers s)) (take_fresh s)).

Definition schedule (now : Z) (d : Z) (s : service) : service :=
  let q := ws_queues s !!! d in
  pump
    (match dq_timer q, webhookOf (dq_webhookId q) s with
     | None, Some o =>
         if openCircuit o s && negb (bool_decide (dq_pending q = [])) then
           let wait := Z.max 0 (default now (wr_nextProbeAt (ws_regs s !!! o)) - now) in
           setTimer now d wait probe_timer s
         else s
     | _, _ => s
     end).

(** The callback of a timer. *)
Definition fireTimer (t : Z) (s : service) : service :=
  match ws_timers s !! t with
  | None => s
  | Some tm =>
      let d := tm_dest tm in
      let s1 := update_queue d (set_timer None) (set_timers (delete t (ws_timers s)) s) in
      pump
        (match tm_kind tm, webhookOf (dq_webhookId (ws_queues s1 !!! d)) s1 with
         | probe_timer, Some o =>
             if openCircuit o s1
             then update_reg o (λ w, set_circuit circuit_half_open (wr_nextProbeAt w) w) s1
             else s1
         | _, _ => s1
         end)
  end.

(** [destination(webhookId)], which creates a missing queue. *)
Definition destination (webhookId : string) (s : service) : service * Z :=
  match jm_get webhookId (ws_dests s) with
  | Some d => (s, d)
  | None =>
      let d := ws_next s in
      (set_dests (jm_set webhookId d (ws_dests s))
         (update_queue d (λ _, mkDest webhookId [] false None 0) (take_fresh s)), d)
  end.

(** [makeJob] *)
Definition makeJob (webhookId : string) (p : payload) (s : service) : service * Z :=
  let j := ws_next s in
  (set_jobs (<[j := mkJob webhookId p 0 false false]> (ws_jobs s)) (take_fresh s), j).

(** The backlog is full: the oldest job is dropped. *)
Definition dropBacklog (d : Z) (s : service) : service :=
  count_dropped
    (match dq_pending (ws_queues s !!! d) with
     | [] => s
     | j :: rest => settle j (update_queue d (set_pending rest) s)
     end).

Definition enqueue (now : Z) (o : Z) (p : payload) (s : service) : service * Z :=
  let id := wr_id (ws_regs s !!! o) in
  let '(s1, d) := destination id s in
  let full := wc_maxPendingPerDestination c <=? Z.of_nat (length (dq_pending (ws_queues s1 !!! d))) in
  let s2 := if full then dropBacklog d s1 else s1 in
  let '(s3, j) := makeJob id p s2 in
  (schedule now d (update_queue d (λ q, set_pending (dq_pending q ++ [j]) q) s3), j).

(** *** The outcome of a delivery *)

Inductive outcome : Type := HttpStatus (status : Z) | TransportError (message : string).

(** [res.ok] *)
Definition succeeds (x : outcome) : bool :=
  match x with HttpStatus n => (200 <=? n) && (n <=? 299) | TransportError _ => false end.

(** The part of [attemptOnce] after the response; [numText] is the text of a number. *)
Definition recordAttempt (now : Z) (numText : Z → string) (v : delivery) (x : outcome) (s : service)
    : service :=
  let o := dv_webhook v in
  let w := ws_regs s !!! o in
  let log status error := mkLog (wr_id w) (wr_url w) (dv_attempt v) (succeeds x) status error now in
  match x with
  | HttpStatus n =>
      update_reg o
        (if succeeds x then set_health wh_healthy None 0
         else set_health wh_degraded
                (Some (if (300 <=? n) && (n <? 400) then "redirect-not-followed"
                       else "HTTP " +:+ numText n))
                (wr_failureCount w + 1))
        (logDelivery (log (Some n) None) s)
  | TransportError m =>
      logDelivery (log None (Some m))
        (update_reg o (set_health wh_degraded (Some m) (wr_failureCount w + 1)) s)
  end.

(** [deadLetter]; [stored] is whether the store takes the entry. *)
Definition deadLetter (now : Z) (stored : bool) (v : delivery) (s : service) : service :=
  let w := ws_regs s !!! dv_webhook v in
  let entry := mkDeadLetter (ws_next s) (wr_id w) (wr_apiKeyPrefix w) (wr_url w) (wr_trigger w)
                 (jb_payload (ws_jobs s !!! dv_job v)) (dv_attempt v)
                 (match wr_lastFailure w with
                  | Some f => if bool_decide (f = "") then "Delivery failed" else f
                  | None => "Delivery failed"
                  end) now None None in
  if stored then set_deadLetters (ws_deadLetters s ++ [entry]) (take_fresh s) else take_fresh s.

Definition popJob (d : Z) (s : service) : service :=
  update_queue d (λ q, set_pending (tail (dq_pending q)) q) s.

(** The three branches of [runJob] after the attempt; the second component is
    the delay of a retry. *)
Definition concludeJob (now : Z) (stored : bool) (v : delivery) (ok : bool) (s : service)
    : service * option Z :=
  let d := dv_dest v in
  let o := dv_webhook v in
  if ok then
    let s1 := update_reg o (set_circuit circuit_closed None)
                (update_queue d (set_failures 0) (popJob d s)) in
    let b := ws_jobs s1 !!! dv_job v in
    (set_jobs (<[dv_job v := mkJob (jb_webhookId b) (jb_payload b) (jb_attempt b) true true]>
       (ws_jobs s1)) s1, None)
  else if dv_attempt v <? wc_maxRetries c then (s, Some (backoffDelayMs (dv_attempt v)))
  else
    let s1 := update_reg o (λ w, set_health wh_dead_letter (wr_lastFailure w) (wr_failureCount w) w)
                (popJob d s) in
    let s2 := update_queue d (λ q, set_failures (dq_consecutiveFailures q + 1) q) s1 in
    let s3 := settle (dv_job v) (deadLetter now stored v s2) in
    (if (wc_circuitFailureThreshold c <=? dq_consecutiveFailures (ws_queues s3 !!! d)) &&
        negb (openCircuit o s3)
     then update_reg o (set_circuit circuit_open (Some (now + wc_circuitCooldownMs c))) s3
     else s3, None).

(** [runJob] from the response on. *)
Definition finishJob (now : Z) (stored : bool) (numText : Z → string) (v : delivery) (x : outcome)
    (rest : list delivery) (s : service) : service :=
  let d := dv_dest v in
  let '(s1, retryDelayMs) :=
    concludeJob now stored v (succeeds x) (recordAttempt now numText v x s) in
  let s2 := set_flight (ws_inFlight s1 - 1) rest (update_queue d (set_running false) s1) in
  match retryDelayMs with
  | Some delay => pump (setTimer now d delay retry_timer s2)
  | None => schedule now d s2
  end.

(** ** Registrations *)

(** [register]; the identifier, the secret, its hash and the verdict of the
    outbound URL check are inputs, [None] is the exception of the check. *)
Definition register (now : Z) (permitted : bool) (id secret key url apiKeyPrefix : string)
    (trigger : WebhookTrigger) (s : service) : service * option Z :=
  if negb permitted then (s, None)
  else
    let o := ws_next s in
    let w := mkWebhook id url apiKeyPrefix trigger secret key true wh_healthy circuit_closed None now
               None None None 0 in
    (set_webhooks (jm_set id o (ws_webhooks s)) (update_reg o (λ _, w) (take_fresh s)), Some o).

(** [list(apiKeyPrefix)] *)
Definition listWebhooks (apiKeyPrefix : string) (s : service) : list WebhookRegistration :=
  let all := (λ o, ws_regs s !!! o) <$> jm_values (ws_webhooks s) in
  if bool_decide (apiKeyPrefix = "") then all
  else List.filter (λ w, bool_decide (wr_apiKeyPrefix w = apiKeyPrefix)) all.

Definition clear_timer (t : option Z) (s : service) : service :=
  match t with Some t => set_timers (delete t (ws_timers s)) s | None => s end.

(** [clearTimeout(dest.timer); dest.pending.forEach((job) => job.resolve())] *)
Definition abandon (d : Z) (s : service) : service :=
  let q := ws_queues s !!! d in
  fold_left (λ s j, settle j s) (dq_pending q) (clear_timer (dq_timer q) s).

Definition dropDestination (id : string) (s : service) : service :=
  match jm_get id (ws_dests s) with
  | None => s
  | Some d => set_dests (jm_delete id (ws_dests s)) (abandon d s)
  end.

Definition remove (id : string) (s : service) : service * bool :=
  match webhookOf id s with
  | None => (s, false)
  | Some _ => (dropDestination id (set_webhooks (jm_delete id (ws_webhooks s)) s), true)
  end.

(** The record of the store with the runtime fields of the mirror. *)
Definition mergeRecord (existing : option WebhookRegistration) (r : WebhookRegistration)
    : WebhookRegistration :=
  let circuit := match existing with Some w => wr_circuit w | None => circuit_closed end in
  let probe := existing ≫= wr_nextProbeAt in
  let keep {A} (f : WebhookRegistration → option A) : option A :=
    match existing ≫= f with Some v => Some v | None => f r end in
  mkWebhook (wr_id r) (wr_url r) (wr_apiKeyPrefix r) (wr_trigger r) (wr_secret r)
    (wr_verificationKey r) (wr_active r)
    (match existing with Some w => wr_status w | None => wr_status r end) circuit probe
    (wr_createdAt r) (keep wr_lastTriggeredAt) (keep wr_lastPrice) (keep wr_lastFailure)
    (match existing with Some w => wr_failureCount w | None => wr_failureCount r end).

(** The loop of [mergeIntoMirror]: a fresh object per record. *)
Definition mergeOne (old : jsmap string Z) (acc : service * jsmap string Z)
    (r : WebhookRegistration) : service * jsmap string Z :=
  let '(s, next) := acc in
  let o := ws_next s in
  let existing := (λ e, ws_regs s !!! e) <$> jm_get (wr_id r) old in
  (update_reg o (λ _, mergeRecord existing r) (take_fresh s), jm_set (wr_id r) o next).

Definition mergeIntoMirror (records : list WebhookRegistration) (s : service) : service :=
  let '(s', next) := fold_left (mergeOne (ws_webhooks s)) records (s, jm_empty) in
  set_webhooks next s'.

(** ** Triggers *)

(** Whether the trigger fires; the registration with its price is updated before. *)
Definition triggers (now : Z) (price : double) (w : WebhookRegistration) : bool :=
  match tr_type (wr_trigger w) with
  | threshold =>
      match wr_lastPrice w with
      | None => false
      | Some prev =>
          let pctChange := double_mul (double_abs (double_div (double_sub price prev) prev))
                             (double_of_Z 100) in
          negb (double_ltb pctChange (tr_value (wr_trigger w)))
      end
  | interval =>
      let minInterval := double_max (tr_value (wr_trigger w)) (double_of_Z (wc_minIntervalMs c)) in
      match wr_lastTriggeredAt w with
      | Some t => (t =? 0) || negb (num_ltb (NInt (now - t)) (num_of_double minInterval))
      | None => true
      end
  end.

Definition priceFor (now : Z) (asset : string) (price : double) (s : service) (o : Z) : service :=
  let w := ws_regs s !!! o in
  if negb (wr_active w) || negb (bool_decide (tr_asset (wr_trigger w) = asset)) then s
  else
    let lastPrice := match tr_type (wr_trigger w) with
                     | threshold => Some price
                     | interval => wr_lastPrice w
                     end in
    let s1 := update_reg o (set_trigger_state (wr_lastTriggeredAt w) lastPrice) s in
    if triggers now price w then
      fst (enqueue now o
             [("asset", JStr asset); ("price", JNum (num_of_double price));
              ("timestamp", JNum (NInt (now / 1000)))]
             (update_reg o (set_trigger_state (Some now) lastPrice) s1))
    else s1.

Definition handlePriceUpdate (now : Z) (asset : string) (price : double) (s : service) : service :=
  fold_left (priceFor now asset price) (jm_values (ws_webhooks s)) s.

(** ** Replays *)

Definition deadLetterOf (id : Z) (s : service) : option DeadLetterEntry :=
  List.find (λ e, de_id e =? id) (ws_deadLetters s).

(** [replay] reads its entry from the store. *)
Definition readReplay (key : string) (id : Z) (s : service) : service :=
  set_replays (ws_replaying s) (jm_set key (ReplayRead (deadLetterOf id s)) (ws_replays s))
    (ws_results s) s.

Definition answer (key : string) (r : ReplayStatus) (s : service) : service :=
  set_replays (ws_replaying s) (jm_delete key (ws_replays s)) (ws_results s ++ [(key, r)]) s.

(** It continues with the entry it read, up to [await job.done]. *)
Definition resumeReplay (now : Z) (key : string) (s : service) : service :=
  match jm_get key (ws_replays s) with
  | Some (ReplayRead None) => answer key missing s
  | Some (ReplayRead (Some e)) =>
      if bool_decide (is_Some (de_resolvedAt e)) then answer key duplicate s
      else if bool_decide (de_id e ∈ ws_replaying s) then answer key in_flight s
      else
        match webhookOf (de_webhookId e) s with
        | None => answer key failed s
        | Some o =>
            let s1 := set_replays (ws_replaying s ++ [de_id e]) (ws_replays s) (ws_results s) s in
            let '(s2, j) := enqueue now o (de_payload e) s1 in
            set_replays (ws_replaying s2) (jm_set key (ReplayWaiting e o j) (ws_replays s2))
              (ws_results s2) s2
        end
  | _ => s
  end.

(** Its job has settled; [stored] is whether the store takes the resolved entry. *)
Definition settleReplay (now : Z) (key : string) (stored : bool) (s : service) : service :=
  match jm_get key (ws_replays s) with
  | Some (ReplayWaiting e o j) =>
      if negb (jb_settled (ws_jobs s !!! j)) then s
      else
        let s1 := set_replays (List.filter (λ i, negb (i =? de_id e)) (ws_replaying s))
                    (ws_replays s) (ws_results s) s in
        if negb (jb_succeeded (ws_jobs s !!! j)) then answer key failed s1
        else if stored then
          let resolved := mkDeadLetter (de_id e) (de_webhookId e) (de_apiKeyPrefix e) (de_url e)
                            (de_trigger e) (de_payload e) (de_attempts e) (de_failure e)
                            (de_createdAt e) (Some now) (Some key) in
          answer key replayed
            (set_deadLetters ((λ x, if de_id x =? de_id e then resolved else x) <$> ws_deadLetters s1) s1)
        else answer key failed s1
  | _ => s
  end.

(** [reset()], with the store cleared. *)
Definition resetService (s : service) : service :=
  let s1 := fold_left (λ s d, abandon d s) (jm_values (ws_dests s)) s in
  set_deadLetters [] (set_replays [] (ws_replays s1) (ws_results s1)
    (set_ring [] (set_flight 0 (ws_running s1) (set_webhooks jm_empty (set_dests jm_empty s1))))).

(** ** Events *)

Inductive event : Type :=
| Register (now : Z) (permitted : bool) (id secret key url apiKeyPrefix : string) (t : WebhookTrigger)
| Remove (id : string)
| Refresh (records : list WebhookRegistration)
| Price (now : Z) (asset : string) (price : double)
| Deliver (now : Z) (webhook : Z) (p : payload)
| Fire (t : Z)
| Outcome (now : Z) (stored : bool) (i : nat) (x : outcome)   (* of the [i]-th delivery under way *)
| ReadReplay (key : string) (id : Z)
| ResumeReplay (now : Z) (key : string)
| SettleReplay (now : Z) (key : string) (stored : bool).

Variable numText : Z → string.

Definition step (s : service) (e : event) : service :=
  match e with
  | Register now ok id secret key url prefix t => fst (register now ok id secret key url prefix t s)
  | Remove id => fst (remove id s)
  | Refresh records => mergeIntoMirror records s
  | Price now asset price => handlePriceUpdate now asset price s
  | Deliver now o p => if bool_decide (is_Some (ws_regs s !! o)) then fst (enqueue now o p s) else s
  | Fire t => fireTimer t s
  | Outcome now stored i x =>
      match ws_running s !! i with
      | Some v => finishJob now stored numText v x (delete i (ws_running s)) s
      | None => s
      end
  | ReadReplay key id => readReplay key id s
  | ResumeReplay now key => resumeReplay now key s
  | SettleReplay now key stored => settleReplay now key stored s
  end.

Definition run_webhooks (es : list event) (s : service) : service := fold_left step es s.
End webhooks.

(** ** Deliveries under way *)

Section concurrency.
Variable hmac : string → string → string.
Variable stringify : json → string.
Variable c : WebhookConfig.
Variable numText : Z → string.

Definition busy (s : service) (d : Z) : bool := dq_running (ws_queues s !!! d).

(** The counter counts the deliveries under way, at most as many as allowed;
    each belongs to a queue of its own, which is marked as running, and no other
    queue is. *)
Record flight_ok (s : service) : Prop := {
  fl_count : ws_inFlight s = Z.of_nat (length (ws_running s));
  fl_bound : ws_inFlight s <= maxConcurrent c;
  fl_nodup : NoDup (dv_dest <$> ws_running s);
  fl_busy d : busy s d = true ↔ d ∈ dv_dest <$> ws_running s;
  fl_fresh d : d ∈ dv_dest <$> ws_running s → d < ws_next s;
  fl_dests d : d ∈ jm_values (ws_dests s) → d < ws_next s;
}.

(** A change that leaves the deliveries alone. *)
Record idle (s s' : service) : Prop := {
  id_flight : ws_inFlight s' = ws_inFlight s;
  id_running : ws_running s' = ws_running s;
  id_busy d : busy s' d = busy s d;
  id_next : ws_next s <= ws_next s';
  id_dests d : d ∈ jm_values (ws_dests s') → d ∈ jm_values (ws_dests s);
}.

Lemma idle_refl s : idle s s.
Proof. by split. Qed.
Lemma idle_trans s1 s2 s3 : idle s1 s2 → idle s2 s3 → idle s1 s3.
Proof. intros [] []. split; try congruence; [lia|auto]. Qed.

Lemma idle_ok s s' : flight_ok s → idle s s' → flight_ok s'.
Proof.
  intros [] []. split; try congruence; intros d.
  - rewrite id_busy0, id_running0. done.
  - rewrite id_running0. intros ?%fl_fresh0. lia.
  - intros ?%id_dests0%fl_dests0. lia.
Qed.

Lemma busy_update d f s d' :
  busy (update_queue d f s) d' =
    if decide (d' = d) then dq_running (f (ws_queues s !!! d)) else busy s d'.
Proof.
  unfold busy, update_queue. simpl. case_decide as E; subst;
    [by rewrite lookup_total_insert_eq|by rewrite lookup_total_insert_ne].
Qed.

(** The assignments that touch neither the flags nor the deliveries. *)
Lemma idle_queue s0 d f s :
  (∀ q, dq_running (f q) = dq_running q) → idle s0 s → idle s0 (update_queue d f s).
Proof.
  intros Hf H. eapply idle_trans; [done|]. split; try done. intros d'. rewrite busy_update.
  case_decide; subst; [apply Hf|done].
Qed.
Lemma idle_reg s0 o f s : idle s0 s → idle s0 (update_reg o f s).
Proof. intros H. by apply (idle_trans _ s). Qed.
Lemma idle_webhooks s0 m s : idle s0 s → idle s0 (set_webhooks m s).
Proof. intros H. by apply (idle_trans _ s). Qed.
Lemma idle_jobs s0 m s : idle s0 s → idle s0 (set_jobs m s).
Proof. intros H. by apply (idle_trans _ s). Qed.
Lemma idle_timers s0 m s : idle s0 s → idle s0 (set_timers m s).
Proof. intros H. by apply (idle_trans _ s). Qed.
Lemma idle_ring s0 m s : idle s0 s → idle s0 (set_ring m s).
Proof. intros H. by apply (idle_trans _ s). Qed.
Lemma idle_deadLetters s0 m s : idle s0 s → idle s0 (set_deadLetters m s).
Proof. intros H. by apply (idle_trans _ s). Qed.
Lemma idle_replays s0 l m r s : idle s0 s → idle s0 (set_replays l m r s).
Proof. intros H. by apply (idle_trans _ s). Qed.
Lemma idle_sent s0 r s : idle s0 s → idle s0 (add_sent r s).
Proof. intros H. by apply (idle_trans _ s). Qed.
Lemma idle_fresh s0 s : idle s0 s → idle s0 (take_fresh s).
Proof. intros H. apply (idle_trans _ s); [done|]. split; try done. simpl. lia. Qed.
Lemma idle_dropped s0 s : idle s0 s → idle s0 (count_dropped s).
Proof. intros H. by apply (idle_trans _ s). Qed.
Hint Resolve idle_dropped idle_refl idle_queue idle_reg idle_webhooks idle_jobs idle_timers idle_ring
  idle_deadLetters idle_replays idle_sent idle_fresh : webhooks.

Lemma idle_settle s0 j s : idle s0 s → idle s0 (settle j s).
Proof. unfold settle. auto with webhooks. Qed.
Lemma idle_fold {A} (f : service → A → service) s0 l s :
  (∀ s x, idle s0 s → idle s0 (f s x)) → idle s0 s → idle s0 (fold_left f l s).
Proof. intros Hf. revert s. induction l as [|x l IH]; intros s H; simpl; auto. Qed.
Lemma idle_timer s0 now d delay k s : idle s0 s → idle s0 (setTimer now d delay k s).
Proof. unfold setTimer. auto with webhooks. Qed.
Lemma idle_clear s0 t s : idle s0 s → idle s0 (clear_timer t s).
Proof. destruct t; simpl; auto with webhooks. Qed.
Hint Resolve idle_settle idle_timer idle_clear : webhooks.
Lemma idle_abandon s0 d s : idle s0 s → idle s0 (abandon d s).
Proof. intros H. unfold abandon. apply idle_fold; auto with webhooks. Qed.
Lemma idle_pop s0 d s : idle s0 s → idle s0 (popJob d s).
Proof. intros H. unfold popJob. by apply idle_queue. Qed.
Lemma idle_record s0 now v x s : idle s0 s → idle s0 (recordAttempt now numText v x s).
Proof. intros H. unfold recordAttempt, logDelivery. destruct x; auto with webhooks. Qed.
Lemma idle_deadLetter s0 now st v s : idle s0 s → idle s0 (deadLetter now st v s).
Proof. intros H. unfold deadLetter. destruct st; auto with webhooks. Qed.
Hint Resolve idle_abandon idle_pop idle_record idle_deadLetter : webhooks.
Lemma idle_conclude s0 now st v ok s : idle s0 s → idle s0 (concludeJob c now st v ok s).1.
Proof.
  intros H. unfold concludeJob. destruct ok; simpl; [auto 8 with webhooks|].
  destruct (_ <? _); simpl; [done|]. destruct (_ && _); simpl; auto 10 with webhooks.
Qed.
Lemma idle_drop s0 d s : idle s0 s → idle s0 (dropBacklog d s).
Proof. intros H. unfold dropBacklog. apply idle_dropped. destruct (dq_pending _); auto with webhooks. Qed.
Hint Resolve idle_drop : webhooks.

(** *** Starting deliveries *)

Lemma nextReady_spec s d :
  nextReady s = Some d → d ∈ jm_values (ws_dests s) ∧ ready s d = true.
Proof. unfold nextReady. intros [Hin Hr]%List.find_some. by rewrite list_elem_of_In. Qed.

Lemma ready_spec s d :
  ready s d = true →
  busy s d = false ∧ dq_timer (ws_queues s !!! d) = None ∧
  (∃ j rest, dq_pending (ws_queues s !!! d) = j :: rest) ∧
  ∃ o, webhookOf (dq_webhookId (ws_queues s !!! d)) s = Some o ∧ openCircuit o s = false.
Proof.
  unfold ready, busy. rewrite !andb_true_iff, !negb_true_iff, !bool_decide_eq_false.
  intros [[[Hb Ht] Hp] Hw]. split; [done|]. split; [by apply eq_None_not_Some|].
  split; [destruct (dq_pending _); [done|by eauto]|].
  destruct (webhookOf _ s) as [o|]; [|done]. apply negb_true_iff in Hw. by eauto.
Qed.

(** What [runJob] does on a queue that is ready. *)
Lemma runJob_spec s d :
  ready s d = true →
  ∃ o j rest, dq_pending (ws_queues s !!! d) = j :: rest ∧
    webhookOf (dq_webhookId (ws_queues s !!! d)) s = Some o ∧
    let s' := runJob hmac stringify d s in
    let attempt := jb_attempt (ws_jobs s !!! j) + 1 in
    ws_inFlight s' = ws_inFlight s + 1 ∧
    ws_running s' = ws_running s ++ [mkDelivery d o j attempt] ∧
    ws_queues s' = <[d := set_running true (ws_queues s !!! d)]> (ws_queues s) ∧
    ws_next s' = ws_next s ∧ ws_dests s' = ws_dests s ∧
    ws_webhooks s' = ws_webhooks s ∧ ws_regs s' = ws_regs s ∧
    ws_jobs s' = <[j := mkJob (jb_webhookId (ws_jobs s !!! j)) (jb_payload (ws_jobs s !!! j)) attempt
                          (jb_succeeded (ws_jobs s !!! j)) (jb_settled (ws_jobs s !!! j))]> (ws_jobs s).
Proof.
  intros (_ & _ & (j & rest & Hp) & o & Hw & _)%ready_spec. exists o, j, rest.
  split; [done|]. split; [done|]. unfold runJob. rewrite Hp, Hw. done.
Qed.

Lemma runJob_ok s d :
  flight_ok s → nextReady s = Some d → ws_inFlight s < maxConcurrent c →
  flight_ok (runJob hmac stringify d s).
Proof.
  intros Hok [Hin Hr]%nextReady_spec Hlt.
  assert (busy s d = false) as Hb by apply (ready_spec _ _ Hr).
  destruct (runJob_spec s d Hr) as (o & j & rest & _ & _ & Hs). cbn zeta in Hs.
  set (s' := runJob _ _ _ _) in *. clearbody s'.
  destruct Hs as (Hi & Hrun & Hq & Hn & Hd & _). destruct Hok.
  assert (∀ d', busy s' d' = if decide (d' = d) then true else busy s d') as Hbusy.
  { intros d'. unfold busy. rewrite Hq. case_decide; subst;
      [by rewrite lookup_total_insert_eq|by rewrite lookup_total_insert_ne]. }
  split; rewrite ?Hi, ?Hrun, ?Hn, ?Hd, ?fmap_app; simpl.
  - rewrite length_app. simpl. lia.
  - lia.
  - apply NoDup_app. split; [done|]. split; [|apply NoDup_singleton].
    intros x Hx Hx'%list_elem_of_singleton. subst. apply fl_busy0 in Hx. congruence.
  - intros d'. rewrite Hbusy, elem_of_app, list_elem_of_singleton. case_decide; [naive_solver|].
    rewrite fl_busy0. naive_solver.
  - intros d'. rewrite elem_of_app, list_elem_of_singleton. intros [?| ->]; auto.
  - done.
Qed.

Lemma pumpLoop_ok n s : flight_ok s → flight_ok (pumpLoop hmac stringify c n s).
Proof.
  revert s. induction n as [|n IH]; intros s H; simpl; [done|].
  destruct (Z.ltb_spec (ws_inFlight s) (maxConcurrent c)); [|done].
  destruct (nextReady s) as [d|] eqn:E; [|done]. by apply IH, runJob_ok.
Qed.

(** After the loop the slots are taken or no queue is ready. *)
Definition saturated (s : service) : Prop := ws_inFlight s = maxConcurrent c ∨ nextReady s = None.

Lemma pumpLoop_saturated n s :
  ws_inFlight s <= maxConcurrent c → maxConcurrent c - ws_inFlight s <= Z.of_nat n →
  saturated (pumpLoop hmac stringify c n s).
Proof.
  revert s. induction n as [|n IH]; intros s Hle Hn; simpl; [left; lia|].
  destruct (Z.ltb_spec (ws_inFlight s) (maxConcurrent c)); [|left; lia].
  destruct (nextReady s) as [d|] eqn:E; [|by right].
  apply nextReady_spec in E as [_ Hr]. destruct (runJob_spec s d Hr) as (? & ? & ? & _ & _ & Hi & _).
  apply IH; rewrite Hi; lia.
Qed.

Lemma pump_ok s : flight_ok s → flight_ok (pump hmac stringify c s).
Proof. apply pumpLoop_ok. Qed.
Lemma pump_saturated s : flight_ok s → saturated (pump hmac stringify c s).
Proof. intros H. apply pumpLoop_saturated; [apply H|]. pose proof (fl_bound _ H). lia. Qed.

Lemma schedule_ok now d s :
  flight_ok s → flight_ok (schedule hmac stringify c now d s) ∧
    saturated (schedule hmac stringify c now d s).
Proof.
  intros H. unfold schedule.
  assert (idle s (match dq_timer (ws_queues s !!! d), webhookOf (dq_webhookId (ws_queues s !!! d)) s with
     | None, Some o =>
         if openCircuit o s && negb (bool_decide (dq_pending (ws_queues s !!! d) = []))
         then setTimer now d (Z.max 0 (default now (wr_nextProbeAt (ws_regs s !!! o)) - now)) probe_timer s
         else s
     | _, _ => s
     end)) as Hi%(idle_ok s); [|split; [by apply pump_ok|by apply pump_saturated]|done].
  destruct (dq_timer _); [apply idle_refl|]. destruct (webhookOf _ s); [|apply idle_refl].
  destruct (_ && _); auto with webhooks.
Qed.

Lemma fireTimer_ok t s :
  flight_ok s → flight_ok (fireTimer hmac stringify c t s) ∧
    (is_Some (ws_timers s !! t) → saturated (fireTimer hmac stringify c t s)).
Proof.
  intros H. unfold fireTimer. destruct (ws_timers s !! t) as [tm|]; [|by split; [done|intros []]].
  set (s1 := update_queue _ _ _). assert (idle s s1) as H1 by (subst s1; auto with webhooks).
  clearbody s1.
  assert (flight_ok (match tm_kind tm, webhookOf (dq_webhookId (ws_queues s1 !!! tm_dest tm)) s1 with
         | probe_timer, Some o =>
             if openCircuit o s1
             then update_reg o (λ w, set_circuit circuit_half_open (wr_nextProbeAt w) w) s1
             else s1
         | _, _ => s1
         end)).
  { eapply idle_ok; [done|]. destruct (tm_kind tm); [done|]. destruct (webhookOf _ s1); [|done].
    destruct (openCircuit _ s1); auto with webhooks. }
  split; [by apply pump_ok|]. intros _. by apply pump_saturated.
Qed.

Lemma destination_ok id s s' d :
  flight_ok s → destination id s = (s', d) → flight_ok s'.
Proof.
  intros H. unfold destination. destruct (jm_get id (ws_dests s)) as [d'|]; [by intros [= <- <-]|].
  intros [= <- <-]. destruct H.
  assert (ws_next s ∉ dv_dest <$> ws_running s) as Hnew by (intros ?%fl_fresh0; lia).
  split; try done; cbn [ws_running ws_next set_dests update_queue take_fresh ws_dests].
  - intros d. change (busy (set_dests _ ?x) d) with (busy x d). rewrite busy_update. simpl.
    case_decide; [subst; naive_solver|apply fl_busy0].
  - intros d ?%fl_fresh0. lia.
  - intros d [->|?%fl_dests0]%jm_values_set; lia.
Qed.

Lemma enqueue_ok now o p s :
  flight_ok s → flight_ok (enqueue hmac stringify c now o p s).1 ∧
    saturated (enqueue hmac stringify c now o p s).1.
Proof.
  intros H. unfold enqueue. destruct (destination _ s) as [s1 d] eqn:Hd.
  apply (destination_ok _ _ _ _ H) in Hd. simpl. apply schedule_ok.
  eapply idle_ok; [exact Hd|]. apply idle_queue; [done|]. destruct (_ <=? _); auto with webhooks.
Qed.

(** *** Ending deliveries *)

(** The delivery [v] under way leaves, and its queue is free again. *)
Lemma release_delivery s s1 i v :
  flight_ok s → ws_running s !! i = Some v → idle s s1 →
  flight_ok (set_flight (ws_inFlight s1 - 1) (delete i (ws_running s))
               (update_queue (dv_dest v) (set_running false) s1)).
Proof.
  intros [] Hi []. apply delete_Permutation in Hi as Hp.
  apply (fmap_Permutation dv_dest) in Hp as Hpd. rewrite fmap_cons in Hpd.
  rewrite Hpd in fl_nodup0. apply NoDup_cons in fl_nodup0 as [Hn Hnd].
  split; cbn [ws_inFlight ws_running ws_next ws_dests set_flight update_queue].
  - apply Permutation_length in Hp. simpl in Hp. lia.
  - lia.
  - done.
  - intros d. change (busy (set_flight _ _ ?x) d) with (busy x d). rewrite busy_update. simpl.
    case_decide as E; [subst; naive_solver|]. rewrite id_busy0, fl_busy0, Hpd, elem_of_cons.
    naive_solver.
  - intros d Hd. assert (d ∈ dv_dest <$> ws_running s) as ?%fl_fresh0; [|lia].
    rewrite Hpd. by right.
  - intros d ?%id_dests0%fl_dests0. lia.
Qed.

Lemma finishJob_ok now st i v x s :
  flight_ok s → ws_running s !! i = Some v →
  let s' := finishJob hmac stringify c now st numText v x (delete i (ws_running s)) s in
  flight_ok s' ∧ saturated s'.
Proof.
  intros H Hi. cbn zeta. unfold finishJob.
  destruct (concludeJob _ _ _ _ _ _) as [s1 delay] eqn:E.
  assert (idle s s1) as H1.
  { replace s1 with (concludeJob c now st v (succeeds x) (recordAttempt now numText v x s)).1
      by (by rewrite E). apply idle_conclude. auto with webhooks. }
  apply (release_delivery _ _ _ _ H Hi) in H1. destruct delay as [delay|]; [|by apply schedule_ok].
  assert (flight_ok (setTimer now (dv_dest v) delay retry_timer
    (set_flight (ws_inFlight s1 - 1) (delete i (ws_running s))
       (update_queue (dv_dest v) (set_running false) s1)))) by (eapply idle_ok; [exact H1|]; auto with webhooks).
  split; [by apply pump_ok|by apply pump_saturated].
Qed.

(** *** Runs *)

Lemma dropDestination_ok id s : flight_ok s → flight_ok (dropDestination id s).
Proof.
  intros H. unfold dropDestination. destruct (jm_get id (ws_dests s)) as [d|]; [|done].
  assert (idle s (abandon d s)) as Ha by auto with webhooks. eapply idle_ok; [done|].
  destruct Ha. split; try done. simpl. intros d' Hd'. by eapply jm_values_delete.
Qed.

Lemma mergeIntoMirror_idle rs s : idle s (mergeIntoMirror rs s).
Proof.
  unfold mergeIntoMirror. destruct (fold_left _ _ _) as [s' next] eqn:E.
  apply idle_webhooks. revert E. generalize (@jm_empty string Z) as acc.
  assert (idle s s) as H by apply idle_refl. revert H. generalize s at 2 4 as s1.
  induction rs as [|r rs IH]; intros s1 H acc; simpl; [by intros [= <- <-]|].
  apply IH. auto with webhooks.
Qed.

Lemma price_ok now asset price os s :
  flight_ok s → flight_ok (fold_left (priceFor hmac stringify c now asset price) os s).
Proof.
  revert s. induction os as [|o os IH]; intros s H; simpl; [done|]. apply IH. unfold priceFor.
  destruct (_ || _); [done|]. cbn zeta. destruct (triggers _ _ _ _).
  - apply enqueue_ok. eapply idle_ok; [exact H|]; auto with webhooks.
  - eapply idle_ok; [exact H|]; auto with webhooks.
Qed.

Lemma resumeReplay_ok now key s : flight_ok s → flight_ok (resumeReplay hmac stringify c now key s).
Proof.
  intros H. unfold resumeReplay, answer.
  destruct (jm_get key (ws_replays s)) as [[[e|]|]|]; try (eapply idle_ok; [done|]; auto with webhooks; fail).
  repeat (case_bool_decide; [eapply idle_ok; [done|]; auto with webhooks|]).
  destruct (webhookOf _ s) as [o|]; [|eapply idle_ok; [done|]; auto with webhooks].
  set (s1 := set_replays _ _ _ s).
  assert (flight_ok s1) as Hs1 by (eapply idle_ok; [exact H|]; subst s1; auto with webhooks).
  destruct (enqueue_ok now o (de_payload e) s1 Hs1) as [Hs2 _].
  destruct (enqueue _ _ _ _ _ _ s1) as [s2 j]. eapply idle_ok; [exact Hs2|]. auto with webhooks.
Qed.

Lemma settleReplay_idle now key st s : idle s (settleReplay now key st s).
Proof.
  unfold settleReplay, answer. destruct (jm_get key (ws_replays s)) as [[|e o j]|]; try apply idle_refl.
  destruct (negb _); [apply idle_refl|]. cbn zeta. destruct (negb _); [auto with webhooks|].
  destruct st; auto with webhooks.
Qed.

Lemma hook_step_ok e s : flight_ok s → flight_ok (step hmac stringify c numText s e).
Proof.
  intros H. destruct e; cbn [step].
  - unfold register. destruct (negb _); [done|]. eapply idle_ok; [done|]. simpl. auto with webhooks.
  - unfold remove. destruct (webhookOf _ s); [|done]. simpl. apply dropDestination_ok.
    eapply idle_ok; [done|]. auto with webhooks.
  - eapply idle_ok; [done|]. apply mergeIntoMirror_idle.
  - by apply price_ok.
  - case_bool_decide; [by apply enqueue_ok|done].
  - by apply fireTimer_ok.
  - destruct (ws_running s !! i) as [v|] eqn:E; [|done]. by apply finishJob_ok.
  - eapply idle_ok; [done|]. unfold readReplay. auto with webhooks.
  - by apply resumeReplay_ok.
  - eapply idle_ok; [done|]. apply settleReplay_idle.
Qed.

Lemma newService_ok : flight_ok newService.
Proof.
  split; simpl; try done.
  - unfold maxConcurrent. lia.
  - by apply NoDup_nil.
  - intros d. unfold busy. simpl. rewrite lookup_total_empty. simpl. split; [done|]. by intros ?%not_elem_of_nil.
  - intros d. by intros ?%not_elem_of_nil.
  - intros d. by intros ?%not_elem_of_nil.
Qed.

Lemma run_webhooks_ok es s :
  flight_ok s → flight_ok (run_webhooks hmac stringify c numText es s).
Proof.
  unfold run_webhooks. revert s. induction es as [|e es IH]; intros s H; simpl; [done|].
  by apply IH, hook_step_ok.
Qed.

(** Whether an event ends with a pass over the queues. *)
Definition pumps (s : service) (e : event) : bool :=
  match e with
  | Deliver _ o _ => bool_decide (is_Some (ws_regs s !! o))
  | Fire t => bool_decide (is_Some (ws_timers s !! t))
  | Outcome _ _ i _ => bool_decide (is_Some (ws_running s !! i))
  | _ => false
  end.

(** in every interleaving of price updates, deliveries, responses, timers,
    registrations, removals, refreshes and replays at most the configured number
    of requests is under way, the counter is exact, no two requests belong to one
    queue, and when an event has passed over the queues either all slots are taken
    or nothing is left that could start. *)
Theorem deliveries_bounded es e :
  let s := run_webhooks hmac stringify c numText es newService in
  ws_inFlight s = Z.of_nat (length (ws_running s)) ∧
  ws_inFlight s <= maxConcurrent c ∧
  NoDup (dv_dest <$> ws_running s) ∧
  let s' := step hmac stringify c numText s e in
  pumps s e = true → ws_inFlight s' = maxConcurrent c ∨ nextReady s' = None.
Proof.
  intros s. assert (flight_ok s) as H by (apply run_webhooks_ok, newService_ok).
  split_and!; [apply H..|]. intros s' Hp. subst s'. unfold pumps in Hp.
  destruct e; try done; apply bool_decide_eq_true in Hp; cbn [step].
  - rewrite bool_decide_true by done. by apply enqueue_ok.
  - by apply fireTimer_ok.
  - destruct Hp as [v Hv]. rewrite Hv. by apply finishJob_ok.
Qed.
End concurrency.

(** ** Jobs *)

Section jobs.
Variable hmac : string → string → string.
Variable stringify : json → string.
Variable c : WebhookConfig.
Variable numText : Z → string.

Definition pend (s : service) (d : Z) : list Z := dq_pending (ws_queues s !!! d).
Definition attemptsOf (s : service) (j : Z) : Z := jb_attempt (ws_jobs s !!! j).

(** The number of attempts a job may get; the first one is always made. *)
Definition attemptLimit : Z := Z.max 1 (wc_maxRetries c).

(** Why a job may be settled: it was delivered, it used all its attempts, or its
    webhook is one of those that were removed. *)
Definition justified (gone : list string) (b : DeliveryJob) : Prop :=
  jb_succeeded b = true ∨ jb_attempt b = attemptLimit ∨ jb_webhookId b ∈ gone.

Definition settled_ok (gone : list string) (b : DeliveryJob) : Prop :=
  jb_settled b = true ∧ justified gone b.

(** A job is settled or waits in the queue of its webhook, the job of a delivery
    under way heads its queue, and nobody gets more attempts than the limit. *)
Record jobs_ok (gone : list string) (s : service) : Prop := {
  jo_queued j b : ws_jobs s !! j = Some b → settled_ok gone b ∨
    ∃ d, jm_get (jb_webhookId b) (ws_dests s) = Some d ∧ j ∈ pend s d;
  jo_inj i i' d : jm_get i (ws_dests s) = Some d → jm_get i' (ws_dests s) = Some d → i = i';
  jo_known d j : j ∈ pend s d → is_Some (ws_jobs s !! j);
  jo_head v : v ∈ ws_running s → head (pend s (dv_dest v)) = Some (dv_job v);
  jo_attempt v : v ∈ ws_running s →
    attemptsOf s (dv_job v) = dv_attempt v ∧ 1 <= dv_attempt v <= attemptLimit;
  jo_limit j : attemptsOf s j <= attemptLimit;
  jo_nonneg j : 0 <= attemptsOf s j;
  jo_left d j : j ∈ pend s d → attemptsOf s j = attemptLimit →
    ∃ v, v ∈ ws_running s ∧ dv_job v = j;
  jo_nodup d : NoDup (pend s d);
  jo_disjoint d d' j : j ∈ pend s d → j ∈ pend s d' → d = d';
  jo_newjob j : is_Some (ws_jobs s !! j) → j < ws_next s;
  jo_newqueue d j : j ∈ pend s d → d < ws_next s;
}.

(** A change that leaves deliveries and jobs alone. *)
Record quiet (s s' : service) : Prop := {
  qu_running : ws_running s' = ws_running s;
  qu_jobs : ws_jobs s' = ws_jobs s;
  qu_pend d : pend s' d = pend s d;
  qu_dests : ws_dests s' = ws_dests s;
  qu_next : ws_next s <= ws_next s';
  qu_dropped : ws_dropped s' = ws_dropped s;
}.

Lemma quiet_refl s : quiet s s.
Proof. by split. Qed.
Lemma quiet_trans s1 s2 s3 : quiet s1 s2 → quiet s2 s3 → quiet s1 s3.
Proof. intros [] []. split; try congruence. lia. Qed.

Lemma quiet_ok gone s s' : jobs_ok gone s → quiet s s' → jobs_ok gone s'.
Proof.
  intros [] []. unfold attemptsOf in *. split; unfold attemptsOf; rewrite ?qu_running0, ?qu_jobs0, ?qu_dests0;
    try done; intros; rewrite ?qu_pend0 in *; eauto.
  - destruct (jo_queued0 _ _ H) as [?|(d & ? & ?)]; [by left|right]. exists d. by rewrite qu_pend0.
  - specialize (jo_newjob0 _ H). lia.
  - specialize (jo_newqueue0 _ _ H). lia.
Qed.

Lemma pend_update d f s d' :
  pend (update_queue d f s) d' = if decide (d' = d) then dq_pending (f (ws_queues s !!! d)) else pend s d'.
Proof.
  unfold pend, update_queue. simpl. case_decide as E; subst;
    [by rewrite lookup_total_insert_eq|by rewrite lookup_total_insert_ne].
Qed.

Lemma quiet_queue s0 d f s :
  (∀ q, dq_pending (f q) = dq_pending q) → quiet s0 s → quiet s0 (update_queue d f s).
Proof.
  intros Hf H. eapply quiet_trans; [done|]. split; try done. intros d'. rewrite pend_update.
  case_decide; subst; [apply Hf|done].
Qed.
Lemma quiet_reg s0 o f s : quiet s0 s → quiet s0 (update_reg o f s).
Proof. intros H. by apply (quiet_trans _ s). Qed.
Lemma quiet_webhooks s0 m s : quiet s0 s → quiet s0 (set_webhooks m s).
Proof. intros H. by apply (quiet_trans _ s). Qed.
Lemma quiet_timers s0 m s : quiet s0 s → quiet s0 (set_timers m s).
Proof. intros H. by apply (quiet_trans _ s). Qed.
Lemma quiet_ring s0 m s : quiet s0 s → quiet s0 (set_ring m s).
Proof. intros H. by apply (quiet_trans _ s). Qed.
Lemma quiet_deadLetters s0 m s : quiet s0 s → quiet s0 (set_deadLetters m s).
Proof. intros H. by apply (quiet_trans _ s). Qed.
Lemma quiet_replays s0 l m r s : quiet s0 s → quiet s0 (set_replays l m r s).
Proof. intros H. by apply (quiet_trans _ s). Qed.
Lemma quiet_fresh s0 s : quiet s0 s → quiet s0 (take_fresh s).
Proof. intros H. apply (quiet_trans _ s); [done|]. split; try done. simpl. lia. Qed.
Hint Resolve quiet_refl quiet_queue quiet_reg quiet_webhooks quiet_timers quiet_ring
  quiet_deadLetters quiet_replays quiet_fresh : webhooks.
Lemma quiet_timer s0 now d delay k s : quiet s0 s → quiet s0 (setTimer now d delay k s).
Proof. unfold setTimer. auto with webhooks. Qed.
Lemma quiet_clear s0 t s : quiet s0 s → quiet s0 (clear_timer t s).
Proof. destruct t; simpl; auto with webhooks. Qed.
Lemma quiet_record s0 now v x s : quiet s0 s → quiet s0 (recordAttempt now numText v x s).
Proof. intros H. unfold recordAttempt, logDelivery. destruct x; auto with webhooks. Qed.
Lemma quiet_deadLetter s0 now st v s : quiet s0 s → quiet s0 (deadLetter now st v s).
Proof. intros H. unfold deadLetter. destruct st; auto with webhooks. Qed.
Hint Resolve quiet_timer quiet_clear quiet_record quiet_deadLetter : webhooks.

(** *** Starting an attempt *)

Lemma head_elem {A} (l : list A) x : head l = Some x → x ∈ l.
Proof. destruct l; [done|]. intros [= ->]. by left. Qed.

Lemma attempts_insert s s' j b :
  ws_jobs s' = <[j := b]> (ws_jobs s) →
  ∀ j', attemptsOf s' j' = if decide (j' = j) then jb_attempt b else attemptsOf s j'.
Proof.
  intros H j'. unfold attemptsOf. rewrite H. case_decide; subst;
    [by rewrite lookup_total_insert_eq|by rewrite lookup_total_insert_ne].
Qed.

Lemma runJob_jobs gone s d :
  flight_ok c s → jobs_ok gone s → ready s d = true → jobs_ok gone (runJob hmac stringify d s).
Proof.
  intros Hf Hj Hr. assert (busy s d = false) as Hb by apply (ready_spec _ _ Hr).
  destruct (runJob_spec hmac stringify s d Hr) as (o & j & rest & Hp & _ & Hs). cbn zeta in Hs.
  set (s' := runJob _ _ _ _) in *. clearbody s'.
  destruct Hs as (_ & Hrun & Hq & Hn & Hd & _ & _ & Hjobs).
  assert (∀ d', pend s' d' = pend s d') as Hpend.
  { intros d'. unfold pend. rewrite Hq. destruct (decide (d' = d)) as [->|];
      [by rewrite lookup_total_insert_eq|by rewrite lookup_total_insert_ne]. }
  pose proof (attempts_insert _ _ _ _ Hjobs) as Hat. simpl in Hat.
  assert (j ∈ pend s d) as Hjd by (unfold pend; rewrite Hp; by left).
  assert (∀ v, v ∈ ws_running s → dv_job v ≠ j) as Hother.
  { intros v Hv Heq. assert (dv_dest v = d) as <-.
    { eapply (jo_disjoint _ _ Hj); [|done]. rewrite <- Heq. by apply head_elem, (jo_head _ _ Hj). }
    assert (busy s (dv_dest v) = true); [|congruence]. apply (fl_busy _ _ Hf).
    apply list_elem_of_fmap. eauto. }
  assert (attemptsOf s j < attemptLimit) as Hlt.
  { pose proof (jo_limit _ _ Hj j). destruct (decide (attemptsOf s j = attemptLimit)) as [E|]; [|lia].
    destruct (jo_left _ _ Hj _ _ Hjd E) as (v & Hv & <-). by destruct (Hother v Hv). }
  pose proof (jo_nonneg _ _ Hj j) as Hnn. change (jb_attempt (ws_jobs s !!! j)) with (attemptsOf s j) in Hat, Hrun.
  destruct Hj. split; intros *; rewrite ?Hpend, ?Hrun, ?Hn, ?Hd; eauto.
  - rewrite Hjobs. intros Hb'. destruct (decide (j0 = j)) as [->|Hne].
    + rewrite lookup_insert_eq in Hb'. injection Hb' as <-. cbn [jb_settled jb_webhookId].
      destruct (jo_known0 d j Hjd) as [b0 Hb0]. rewrite (lookup_total_correct _ _ _ Hb0).
      assert (jb_attempt b0 < attemptLimit) as Hlt0
        by (unfold attemptsOf in Hlt; by rewrite (lookup_total_correct _ _ _ Hb0) in Hlt).
      destruct (jo_queued0 j b0 Hb0) as [[? [?|[?|?]]]|(d1 & ? & ?)]; [..|right; exists d1; by rewrite Hpend].
      * left. split; [done|]. by left.
      * lia.
      * left. split; [done|]. by right; right.
    + rewrite lookup_insert_ne in Hb' by done.
      destruct (jo_queued0 _ _ Hb') as [?|(d1 & ? & ?)]; [by left|right]. exists d1. by rewrite Hpend.
  - intros ?%jo_known0. rewrite Hjobs. apply lookup_insert_is_Some'. by right.
  - rewrite elem_of_app, list_elem_of_singleton. intros [?| ->]; [by apply jo_head0|].
    simpl. unfold pend. by rewrite Hp.
  - rewrite elem_of_app, list_elem_of_singleton. intros [Hv| ->]; rewrite Hat.
    + rewrite decide_False by (by apply Hother). by apply jo_attempt0.
    + simpl. rewrite decide_True by done. lia.
  - rewrite Hat. case_decide; [lia|apply jo_limit0].
  - rewrite Hat. case_decide; [lia|apply jo_nonneg0].
  - rewrite Hat. intros Hin. case_decide as E.
    + subst. intros _. exists (mkDelivery d o j (attemptsOf s j + 1)). split; [|done].
      apply elem_of_app. right. by apply list_elem_of_singleton.
    + intros Hlim. destruct (jo_left0 _ _ Hin Hlim) as (v & ? & ?). exists v.
      split; [|done]. apply elem_of_app. by left.
  - rewrite Hjobs. intros [->|?]%lookup_insert_is_Some'; [|by apply jo_newjob0].
    apply jo_newjob0. by eapply jo_known0.
Qed.

Lemma pump_jobs gone s : flight_ok c s → jobs_ok gone s → jobs_ok gone (pump hmac stringify c s).
Proof.
  unfold pump. generalize (Z.to_nat (maxConcurrent c - ws_inFlight s)) as n. intros n. revert s.
  induction n as [|n IH]; intros s Hf Hj; simpl; [done|].
  destruct (Z.ltb_spec (ws_inFlight s) (maxConcurrent c)); [|done].
  destruct (nextReady s) as [d|] eqn:E; [|done]. apply IH; [by apply runJob_ok|].
  apply runJob_jobs; [done..|]. by apply nextReady_spec in E as [_ ?].
Qed.

(** *** Ending an attempt *)

(** A delivery leaves: its job is kept for a retry, or it is settled and leaves
    its queue. *)
Definition concluded (v : delivery) (s s' : service) : Prop :=
  (dv_attempt v < wc_maxRetries c ∧ ws_jobs s' = ws_jobs s ∧ ∀ d, pend s' d = pend s d) ∨
  (∃ b, ws_jobs s' = <[dv_job v := b]> (ws_jobs s) ∧ jb_settled b = true ∧
     (jb_succeeded b = true ∨ wc_maxRetries c <= dv_attempt v) ∧
     jb_attempt b = attemptsOf s (dv_job v) ∧
     ∀ d, pend s' d = if decide (d = dv_dest v) then tail (pend s d) else pend s d).

Lemma tail_elem {A} (l : list A) x : x ∈ tail l → x ∈ l.
Proof. destruct l; [done|]. by right. Qed.

Lemma concluded_jobs gone s s' i v :
  flight_ok c s → jobs_ok gone s → ws_running s !! i = Some v →
  ws_running s' = delete i (ws_running s) → ws_dests s' = ws_dests s → ws_next s <= ws_next s' →
  concluded v s s' → jobs_ok gone s'.
Proof.
  intros Hf Hj Hi Hrun Hd Hn Hc. apply delete_Permutation in Hi as Hp.
  assert (∀ v', v' ∈ ws_running s ↔ v' = v ∨ v' ∈ ws_running s') as Hmem.
  { intros v'. rewrite Hrun, Hp at 1. apply elem_of_cons. }
  assert (∀ v', v' ∈ ws_running s' → dv_dest v' ≠ dv_dest v) as Hdest.
  { intros v' Hv' Heq. pose proof (fl_nodup _ _ Hf) as Hnd.
    rewrite Hp, fmap_cons in Hnd. apply NoDup_cons in Hnd as [Hn' _].
    apply Hn'. rewrite <- Heq. apply list_elem_of_fmap. rewrite <- Hrun. eauto. }
  assert (v ∈ ws_running s) as Hv by (apply Hmem; by left).
  destruct (jo_attempt _ _ Hj v Hv) as [Hat Hrange].
  assert (pend s (dv_dest v) = dv_job v :: tail (pend s (dv_dest v))) as Hpv.
  { pose proof (jo_head _ _ Hj v Hv) as H. destruct (pend s (dv_dest v)); [done|]. by injection H as ->. }
  destruct Hc as [(Hlt & Hjobs & Hpend)|(b & Hjobs & Hset & Hwhy & Hb & Hpend)]; destruct Hj.
  - assert (∀ j, attemptsOf s' j = attemptsOf s j) as Hat' by (intros j; unfold attemptsOf; by rewrite Hjobs).
    split; intros *; rewrite ?Hpend, ?Hjobs, ?Hd, ?Hat'; eauto.
    + intros Hb. destruct (jo_queued0 _ _ Hb) as [?|(d & ? & ?)]; [by left|right]. exists d. by rewrite Hpend.
    + intros H. apply jo_head0, Hmem. by right.
    + intros H. apply jo_attempt0, Hmem. by right.
    + intros Hin Hlim. destruct (jo_left0 _ _ Hin Hlim) as (v' & [-> |Hv']%Hmem & <-); [|by eauto].
      unfold attemptLimit in *. lia.
    + intros ?%jo_newjob0. lia.
    + intros ?%jo_newqueue0. lia.
  - pose proof (attempts_insert _ _ _ _ Hjobs) as Hat'.
    assert (∀ j, attemptsOf s' j = attemptsOf s j) as Hsame.
    { intros j. rewrite Hat'. case_decide; [by subst|done]. }
    assert (∀ d j, j ∈ pend s' d → j ∈ pend s d ∧ j ≠ dv_job v) as Hsub.
    { intros d j. rewrite Hpend. case_decide as E; [subst|].
      - intros Hin. split; [by apply tail_elem|]. intros ->.
        pose proof (jo_nodup0 (dv_dest v)) as Hnd. rewrite Hpv in Hnd. by apply NoDup_cons in Hnd as [? _].
      - intros Hin. split; [done|]. intros ->. apply E. eapply jo_disjoint0; [done|]. rewrite Hpv. by left. }
    split; intros *; rewrite ?Hd, ?Hsame; eauto.
    + rewrite Hjobs. destruct (decide (j = dv_job v)) as [->|Hne].
      { rewrite lookup_insert_eq. intros [= <-]. left. split; [done|].
        destruct Hwhy as [?|?]; [by left|right; left]. rewrite Hb, Hat. unfold attemptLimit in *. lia. }
      rewrite lookup_insert_ne by done. intros Hb'.
      destruct (jo_queued0 _ _ Hb') as [?|(d & ? & Hin)]; [by left|right]. exists d. split; [done|].
      rewrite Hpend. case_decide; [subst|done]. rewrite Hpv in Hin. by apply elem_of_cons in Hin as [?|?].
    + intros [Hin _]%Hsub. apply jo_known0 in Hin. rewrite Hjobs. apply lookup_insert_is_Some'. by right.
    + intros H. rewrite Hpend, decide_False by (by apply Hdest). apply jo_head0, Hmem. by right.
    + intros H. apply jo_attempt0, Hmem. by right.
    + intros [Hin Hne]%Hsub Hlim. destruct (jo_left0 _ _ Hin Hlim) as (v' & [-> |Hv']%Hmem & <-); [done|].
      eauto.
    + rewrite Hpend. case_decide; [|done]. pose proof (jo_nodup0 d) as Hnd. destruct (pend s d); [done|].
      by apply NoDup_cons in Hnd as [_ ?].
    + intros [? _]%Hsub [? _]%Hsub. eauto.
    + rewrite Hjobs. intros [<-|H]%lookup_insert_is_Some'; [|apply jo_newjob0 in H; lia].
      enough (dv_job v < ws_next s) by lia. apply jo_newjob0. eapply (jo_known0 (dv_dest v)).
      rewrite Hpv. by left.
    + intros [?%jo_newqueue0 _]%Hsub. lia.
Qed.

(** What a step keeps besides the jobs. *)
Record framed (s s' : service) : Prop := {
  fr_dests : ws_dests s' = ws_dests s;
  fr_next : ws_next s <= ws_next s';
  fr_dropped : ws_dropped s' = ws_dropped s;
}.

Lemma conclude_concluded now st v ok s :
  concluded v s (concludeJob c now st v ok s).1 ∧ framed s (concludeJob c now st v ok s).1.
Proof.
  unfold concludeJob. destruct ok; cbn [fst].
  - split; [|by split]. right. eexists. split; [reflexivity|]. split_and!; try done; [by left|]. intros d.
    change (pend (set_jobs _ ?x) d) with (pend x d).
    change (pend (update_reg _ _ ?x) d) with (pend x d). unfold popJob. rewrite !pend_update.
    case_decide; [subst|done]. simpl. by rewrite lookup_total_insert_eq.
  - destruct (Z.ltb_spec (dv_attempt v) (wc_maxRetries c)); cbn [fst]; [split; [by left|by split]|].
    set (s2 := update_queue _ _ (update_reg _ _ _)).
    assert (ws_jobs (deadLetter now st v s2) = ws_jobs s ∧
      (∀ d, pend (deadLetter now st v s2) d = pend s2 d) ∧ framed s (deadLetter now st v s2)) as (Hj & Hp & Hfr).
    { destruct st; split_and!; try done; split; try done; simpl; lia. }
    assert (concluded v s (settle (dv_job v) (deadLetter now st v s2)) ∧
      framed s (settle (dv_job v) (deadLetter now st v s2))) as [Hc Hf].
    { split; [|destruct Hfr; by split]. right.
      eexists. split; [unfold settle; cbn [ws_jobs set_jobs]; rewrite Hj; reflexivity|].
      split_and!; [done|by right|done|]. intros d.
      change (pend (settle _ ?x) d) with (pend x d). rewrite Hp. subst s2. rewrite pend_update.
      change (pend (update_reg _ _ ?x) d) with (pend x d). unfold popJob. rewrite pend_update.
      case_decide; [subst|done]. simpl. by rewrite lookup_total_insert_eq. }
    destruct (_ && _); (split; [|destruct Hf; by split]); exact Hc.
Qed.

Lemma pump_dropped s : ws_dropped (pump hmac stringify c s) = ws_dropped s.
Proof.
  unfold pump. generalize (Z.to_nat (maxConcurrent c - ws_inFlight s)) as n. intros n. revert s.
  induction n as [|n IH]; intros s; simpl; [done|]. destruct (_ <? _); [|done].
  destruct (nextReady s) as [d|]; [|done]. rewrite IH. unfold runJob.
  destruct (dq_pending _); [done|]. by destruct (webhookOf _ s).
Qed.

Lemma schedule_quiet now d s :
  ∃ s1, quiet s s1 ∧ idle s s1 ∧ schedule hmac stringify c now d s = pump hmac stringify c s1.
Proof.
  unfold schedule. eexists. split_and!; [..|reflexivity];
    (destruct (dq_timer _); [by split|]); (destruct (webhookOf _ s); [|by split]);
    destruct (_ && _); auto using idle_refl, idle_timer with webhooks.
Qed.

(** The jobs after a step, provided no backlog overflowed. *)
Definition jobs_inv (gone : list string) (s : service) : Prop := 0 <= ws_dropped s ∧ (ws_dropped s = 0 → jobs_ok gone s).

Lemma schedule_jobs gone now d s :
  flight_ok c s → jobs_inv gone s → jobs_inv gone (schedule hmac stringify c now d s).
Proof.
  intros Hf [H0 Hj]. destruct (schedule_quiet now d s) as (s1 & Hq & Hi & ->). unfold jobs_inv.
  rewrite pump_dropped, (qu_dropped _ _ Hq). split; [done|]. intros E. apply pump_jobs.
  - by eapply idle_ok.
  - eapply quiet_ok; eauto.
Qed.

Lemma quiet_inv gone s s' : jobs_inv gone s → quiet s s' → jobs_inv gone s'.
Proof.
  intros [H0 Hj] Hq. unfold jobs_inv. rewrite (qu_dropped _ _ Hq). split; [done|]. intros E.
  eapply quiet_ok; eauto.
Qed.

Lemma finishJob_jobs gone now st i v x s :
  flight_ok c s → jobs_inv gone s → ws_running s !! i = Some v →
  jobs_inv gone (finishJob hmac stringify c now st numText v x (delete i (ws_running s)) s).
Proof.
  intros Hf [H0 Hj] Hi. unfold finishJob.
  assert (quiet s (recordAttempt now numText v x s)) as Hq by auto with webhooks.
  assert (idle s (recordAttempt now numText v x s)) as Hid by auto using idle_refl, idle_record.
  set (s0 := recordAttempt now numText v x s) in *. clearbody s0.
  pose proof (conclude_concluded now st v (succeeds x) s0) as [Hc Hfr].
  pose proof (idle_conclude c s0 now st v (succeeds x) s0 (idle_refl _)) as Hid1.
  destruct (concludeJob c now st v (succeeds x) s0) as [s1 delay]. cbn [fst] in Hc, Hfr, Hid1.
  set (s2 := set_flight _ _ _).
  assert (jobs_inv gone s2) as Hs2.
  { split; [change (0 <= ws_dropped s1); rewrite (fr_dropped _ _ Hfr), (qu_dropped _ _ Hq); done|].
    change (ws_dropped s2) with (ws_dropped s1). rewrite (fr_dropped _ _ Hfr), (qu_dropped _ _ Hq).
    intros E. apply (concluded_jobs gone s0 s2 i v).
    - by eapply idle_ok.
    - eapply quiet_ok; eauto.
    - by rewrite (qu_running _ _ Hq).
    - by rewrite (qu_running _ _ Hq).
    - apply (fr_dests _ _ Hfr).
    - apply (fr_next _ _ Hfr).
    - assert (∀ d, pend s2 d = pend s1 d) as Hp.
      { intros d. change (pend (update_queue (dv_dest v) (set_running false) s1) d = pend s1 d).
        rewrite pend_update. case_decide; by subst. }
      destruct Hc as [(? & ? & Hpd)|(b & ? & ? & ? & ? & Hpd)]; [left|right; exists b]; split_and!; try done;
        intros d; by rewrite Hp. }
  assert (flight_ok c s2) as Hf2.
  { subst s2. eapply release_delivery; [done..|]. by eapply idle_trans. }
  clearbody s2. destruct delay as [delay|]; [|by apply schedule_jobs].
  assert (quiet s2 (setTimer now (dv_dest v) delay retry_timer s2)) as Hqt by auto with webhooks.
  destruct (quiet_inv _ _ _ Hs2 Hqt) as [Hd Hjt]. unfold jobs_inv. rewrite pump_dropped. split; [done|].
  intros E. apply pump_jobs; [|by apply Hjt]. eapply idle_ok; [done|]. auto using idle_refl, idle_timer.
Qed.

Lemma fireTimer_jobs gone t s : flight_ok c s → jobs_inv gone s → jobs_inv gone (fireTimer hmac stringify c t s).
Proof.
  intros Hf Hj. unfold fireTimer. destruct (ws_timers s !! t) as [tm|]; [|done].
  set (s1 := update_queue _ _ _).
  assert (quiet s s1 ∧ idle s s1) as [Hq Hi]
    by (subst s1; split; [auto with webhooks|]; apply idle_queue, idle_timers, idle_refl; done).
  clearbody s1. set (s2 := match tm_kind tm with retry_timer => _ | probe_timer => _ end).
  assert (quiet s s2 ∧ idle s s2) as [Hq2 Hi2].
  { subst s2. destruct (tm_kind tm); [done|]. destruct (webhookOf _ s1); [|done].
    destruct (openCircuit _ s1); [|done]. split; auto using idle_reg with webhooks. }
  destruct (quiet_inv _ _ _ Hj Hq2) as [Hd Hjt]. unfold jobs_inv. rewrite pump_dropped. split; [done|].
  intros E. apply pump_jobs; [by eapply idle_ok|by apply Hjt].
Qed.

(** *** New jobs *)

Lemma destination_jobs gone id s s' d :
  flight_ok c s → jobs_inv gone s → destination id s = (s', d) →
  jobs_inv gone s' ∧ jm_get id (ws_dests s') = Some d ∧ d < ws_next s'.
Proof.
  intros Hf [H0 Hj]. unfold destination. destruct (jm_get id (ws_dests s)) as [d'|] eqn:E.
  { intros [= <- <-]. split_and!; [done..|]. apply (fl_dests _ _ Hf). by eapply jm_value_elem. }
  intros [= <- <-]. cbn [ws_dests set_dests ws_next update_queue take_fresh].
  rewrite jm_get_set_eq. split_and!; [|done|lia]. split; [done|]. intros Hd. specialize (Hj Hd).
  set (s' := set_dests _ _).
  assert (∀ d, pend s' d = pend s d) as Hp.
  { intros d. subst s'. change (pend (set_dests _ ?x) d) with (pend x d). rewrite pend_update. simpl.
    case_decide; [subst|done]. destruct (pend s (ws_next s)) as [|j l] eqn:El; [done|].
    assert (ws_next s < ws_next s); [|lia]. apply (jo_newqueue _ _ Hj _ j). rewrite El. by left. }
  destruct Hj. split; intros *; rewrite ?Hp; eauto.
  - intros Hb. destruct (jo_queued0 _ _ Hb) as [?|(d & Hd' & ?)]; [by left|right]. exists d.
    rewrite Hp. split; [|done]. simpl. rewrite jm_get_set_ne; [done|]. intros Heq. congruence.
  - simpl. assert (∀ i, jm_get i (ws_dests s) = Some (ws_next s) → False) as Hnew.
    { intros i0 Hi%jm_value_elem%(fl_dests _ _ Hf). lia. }
    rewrite !jm_get_set. repeat case_decide; intros; simplify_eq; eauto; exfalso; eauto.
  - intros ?%jo_newjob0. simpl. lia.
  - intros ?%jo_newqueue0. simpl. lia.
Qed.

Lemma dropBacklog_dropped d s : ws_dropped (dropBacklog d s) = ws_dropped s + 1.
Proof. unfold dropBacklog. by destruct (dq_pending _). Qed.

(** A new job joins the queue [d] of its webhook. *)
Definition pushJob (id : string) (p : payload) (d : Z) (s : service) : service :=
  let '(s3, j) := makeJob id p s in update_queue d (λ q, set_pending (dq_pending q ++ [j]) q) s3.

Lemma pushJob_jobs gone id p d s :
  jm_get id (ws_dests s) = Some d → d < ws_next s → jobs_ok gone s → jobs_ok gone (pushJob id p d s).
Proof.
  intros Hd Hlt Hj. set (j := ws_next s). set (s' := pushJob id p d s).
  assert (ws_jobs s' = <[j := mkJob id p 0 false false]> (ws_jobs s)) as Hjobs by done.
  assert (∀ d', pend s' d' = if decide (d' = d) then pend s d ++ [j] else pend s d') as Hp.
  { intros d'. subst s'. unfold pushJob, makeJob. rewrite pend_update. done. }
  assert (ws_running s' = ws_running s ∧ ws_dests s' = ws_dests s ∧ ws_next s' = ws_next s + 1)
    as (Hrun & Hds & Hn) by done.
  pose proof (attempts_insert _ _ _ _ Hjobs) as Hat. simpl in Hat. clearbody s'.
  assert (∀ d', j ∉ pend s d') as Hnew.
  { intros d' Hin. apply (jo_known _ _ Hj) in Hin. apply (jo_newjob _ _ Hj) in Hin. unfold j in Hin. lia. }
  assert (∀ d' x, x ∈ pend s' d' → x = j ∧ d' = d ∨ x ∈ pend s d' ∧ x ≠ j) as Hin.
  { intros d' x. rewrite Hp. case_decide; subst; rewrite ?elem_of_app, ?list_elem_of_singleton.
    - intros [Hx| ->]; [|by left]. right. split; [done|]. intros ->. by eapply Hnew.
    - intros Hx. right. split; [done|]. intros ->. by eapply Hnew. }
  assert (∀ d' x, x ∈ pend s d' → x ∈ pend s' d') as Hkeep.
  { intros d' x Hx. rewrite Hp. case_decide; [subst|done]. apply elem_of_app. by left. }
  assert (∀ v, v ∈ ws_running s → dv_job v ≠ j) as Hrunj.
  { intros v Hv E. apply (Hnew (dv_dest v)). rewrite <- E. by apply head_elem, (jo_head _ _ Hj). }
  pose proof (Z.le_max_l 1 (wc_maxRetries c)) as Hlim. fold attemptLimit in Hlim.
  destruct Hj. split; intros *; rewrite ?Hrun, ?Hds, ?Hn; eauto.
  - rewrite Hjobs. destruct (decide (j0 = j)) as [->|Hne].
    + rewrite lookup_insert_eq. intros [= <-]. right. exists d. split; [done|]. rewrite Hp, decide_True by done.
      apply elem_of_app. right. by apply list_elem_of_singleton.
    + rewrite lookup_insert_ne by done. intros Hb.
      destruct (jo_queued0 _ _ Hb) as [?|(d' & ? & ?)]; [by left|right]. eauto.
  - rewrite Hjobs. intros [[-> _]|[H _]]%Hin; apply lookup_insert_is_Some'; [by left|right]. eauto.
  - intros Hv. rewrite Hp. pose proof (jo_head0 v Hv) as Hh. case_decide as E; [|done].
    rewrite <- E. by destruct (pend s (dv_dest v)).
  - intros Hv. rewrite Hat, decide_False by (by apply Hrunj). by apply jo_attempt0.
  - rewrite Hat. case_decide; [lia|apply jo_limit0].
  - rewrite Hat. case_decide; [lia|apply jo_nonneg0].
  - rewrite Hat. intros [[-> _]|[H Hne]]%Hin.
    + rewrite decide_True by done. lia.
    + rewrite decide_False by done. eauto.
  - rewrite Hp. case_decide; [|done]. apply NoDup_app. split; [done|].
    split; [|apply NoDup_singleton]. intros x Hx ->%list_elem_of_singleton. by eapply Hnew.
  - intros [[-> ->]|[H1 ?]]%Hin [[? ->]|[H2 ?]]%Hin; try done. eauto.
  - rewrite Hjobs. intros [<-|H]%lookup_insert_is_Some'; [unfold j; lia|]. apply jo_newjob0 in H. lia.
  - intros [[_ ->]|[H _]]%Hin; [lia|]. apply jo_newqueue0 in H. lia.
Qed.

Lemma enqueue_jobs gone now o p s :
  flight_ok c s → jobs_inv gone s → jobs_inv gone (enqueue hmac stringify c now o p s).1.
Proof.
  intros Hf Hj. unfold enqueue. destruct (destination _ s) as [s1 d] eqn:Hd.
  destruct (destination_jobs _ _ _ _ _ Hf Hj Hd) as ([H0 Hj1] & Hget & Hlt).
  pose proof (destination_ok hmac c _ _ _ _ Hf Hd) as Hf1.
  set (full := _ <=? _). set (id := wr_id _) in *.
  assert (idle s1 (pushJob id p d (if full then dropBacklog d s1 else s1))) as Hi.
  { unfold pushJob. simpl. apply idle_queue; [done|]. apply idle_jobs, idle_fresh.
    destruct full; [apply idle_drop|]; apply idle_refl. }
  change (jobs_inv gone (schedule hmac stringify c now d
    (pushJob id p d (if full then dropBacklog d s1 else s1)))).
  apply schedule_jobs; [by eapply idle_ok|].
  destruct full.
  - split; change (ws_dropped (pushJob id p d (dropBacklog d s1))) with (ws_dropped (dropBacklog d s1));
      rewrite dropBacklog_dropped; lia.
  - split; [done|]. intros E. apply pushJob_jobs; auto.
Qed.

(** *** Removed queues *)

(** The jobs of a list are settled; nothing else changes. *)
Record settling (l : list Z) (s s' : service) : Prop := {
  se_frame : framed s s';
  se_running : ws_running s' = ws_running s;
  se_pend d : pend s' d = pend s d;
  se_attempts j : attemptsOf s' j = attemptsOf s j;
  se_known j : is_Some (ws_jobs s' !! j) ↔ is_Some (ws_jobs s !! j);
  se_job j b' : ws_jobs s' !! j = Some b' → ∃ b, ws_jobs s !! j = Some b ∧
    jb_webhookId b' = jb_webhookId b ∧ jb_succeeded b' = jb_succeeded b ∧
    jb_attempt b' = jb_attempt b ∧ (j ∈ l ∨ jb_settled b = true → jb_settled b' = true);
}.

Lemma settle_one j s : is_Some (ws_jobs s !! j) → settling [j] s (settle j s).
Proof.
  intros [b Hb]. pose proof (lookup_total_correct _ _ _ Hb) as Ht. split; try done.
  - intros j'. unfold attemptsOf, settle. simpl. rewrite Ht. destruct (decide (j' = j)) as [->|];
      [by rewrite lookup_total_insert_eq, Ht|by rewrite lookup_total_insert_ne].
  - intros j'. unfold settle. simpl. rewrite lookup_insert_is_Some'. split; [intros [<-|]|]; eauto.
  - intros j' b'. unfold settle. simpl. rewrite Ht. destruct (decide (j' = j)) as [->|Hne].
    + rewrite lookup_insert_eq. intros [= <-]. by exists b.
    + rewrite lookup_insert_ne by done. intros Hb'. exists b'. split_and!; try done.
      intros [?%list_elem_of_singleton|?]; done.
Qed.

Lemma settle_all l s :
  (∀ j, j ∈ l → is_Some (ws_jobs s !! j)) → settling l s (fold_left (λ s j, settle j s) l s).
Proof.
  revert s. induction l as [|j l IH]; intros s Hl; simpl.
  - split; try done. intros j b Hb. exists b. split_and!; try done. intros [[]%not_elem_of_nil|?]; done.
  - destruct (settle_one j s) as [F1 R1 P1 A1 K1 J1]; [apply Hl; by left|].
    destruct (IH (settle j s)) as [F2 R2 P2 A2 K2 J2].
    { intros j' Hj'. apply K1, Hl. by right. }
    destruct F1, F2. split; try congruence; [split; try congruence; lia|..]; intros *.
    + by rewrite K2, K1.
    + intros (b1 & (b0 & ? & ? & ? & ? & Hset1)%J1 & ? & ? & ? & Hset2)%J2. exists b0.
      split_and!; [done|congruence..|].
      intros [[->|?]%elem_of_cons|?]; apply Hset2;
        [right; apply Hset1; left; by apply list_elem_of_singleton|by left|].
      right. apply Hset1. by right.
Qed.

Lemma settled_more gone gone' b : gone ⊆ gone' → settled_ok gone b → settled_ok gone' b.
Proof. intros Hs [? [?|[?|?]]]; split; unfold justified; auto. Qed.

Lemma dropDestination_jobs gone id s :
  jobs_inv gone s → jobs_inv (id :: gone) (dropDestination id s).
Proof.
  intros [H0 Hj]. unfold dropDestination. destruct (jm_get id (ws_dests s)) as [d|] eqn:E.
  2:{ split; [done|]. intros Hz. destruct (Hj Hz). split; try done. intros j b Hb.
      destruct (jo_queued0 _ _ Hb) as [?|?]; [left|by right].
      by eapply settled_more; [|done]; apply list_subseteq_cons. }
  assert (quiet s (clear_timer (dq_timer (ws_queues s !!! d)) s)) as Hq by auto with webhooks.
  unfold abandon. set (s1 := clear_timer _ s) in *. clearbody s1.
  assert (jobs_inv (id :: gone) (set_dests (jm_delete id (ws_dests s))
    (fold_left (λ s j, settle j s) (dq_pending (ws_queues s !!! d)) s1)) ) as H; [|done].
  fold (pend s d). destruct (decide (ws_dropped s = 0)) as [Hz|Hz].
  - specialize (Hj Hz). pose proof (quiet_ok _ _ _ Hj Hq) as Hj1. rewrite <- (qu_pend _ _ Hq).
    destruct (settle_all (pend s1 d) s1) as [[Fd Fn Fo] R P A K J]; [apply (jo_known _ _ Hj1)|].
    set (s2 := fold_left _ _ _) in *. clearbody s2.
    split; [simpl; rewrite Fo, (qu_dropped _ _ Hq); done|]. intros _.
    set (s3 := set_dests _ s2).
    assert (∀ d', pend s3 d' = pend s1 d') as P3 by (intros d'; apply P).
    assert (∀ j, attemptsOf s3 j = attemptsOf s1 j) as A3 by (intros j; apply A).
    destruct Hj1. split; intros *; rewrite ?P3, ?A3; try (change (ws_running s3) with (ws_running s2); rewrite R); eauto.
    + intros (b0 & Hb0 & Hid & Hsu & Hat & Hset)%J.
      destruct (jo_queued0 _ _ Hb0) as [[Hs0 Hw]|(d' & Hd' & Hin)].
      { left. split; [by auto|]. unfold justified in *. rewrite Hsu, Hat, Hid.
        destruct Hw as [?|[?|?]]; [by left|by right; left|right; right; by right]. }
      destruct (decide (jb_webhookId b0 = id)) as [Heq|Hne].
      * left. split; [|right; right; rewrite Hid, Heq; by left]. apply Hset. left.
        rewrite Heq, (qu_dests _ _ Hq), E in Hd'. by injection Hd' as ->.
      * right. exists d'. rewrite P3. split; [|done]. simpl. rewrite Hid, jm_get_delete_ne by done.
        by rewrite <- (qu_dests _ _ Hq).
    + simpl. rewrite !jm_get_delete. repeat case_decide; try done. rewrite <- (qu_dests _ _ Hq). eauto.
    + intros ?%jo_known0. by apply K.
    + intros ?%K%jo_newjob0. change (ws_next s3) with (ws_next s2). lia.
    + intros ?%jo_newqueue0. change (ws_next s3) with (ws_next s2). lia.
  - assert (∀ l s', ws_dropped (fold_left (λ s j, settle j s) l s') = ws_dropped s') as Hd.
    { induction l as [|j l IH]; intros s'; simpl; [done|]. by rewrite IH. }
    split; simpl; rewrite Hd, (qu_dropped _ _ Hq); [done|]. intros ?. lia.
Qed.

(** *** Runs *)

Lemma mergeIntoMirror_quiet rs s : quiet s (mergeIntoMirror rs s).
Proof.
  unfold mergeIntoMirror. destruct (fold_left _ _ _) as [s' next] eqn:E.
  apply quiet_webhooks. revert E. generalize (@jm_empty string Z) as acc.
  assert (quiet s s) as H by apply quiet_refl. revert H. generalize s at 2 4 as s1.
  induction rs as [|r rs IH]; intros s1 H acc; simpl; [by intros [= <- <-]|].
  apply IH. auto with webhooks.
Qed.

Lemma price_jobs gone now asset price os s :
  flight_ok c s → jobs_inv gone s →
  jobs_inv gone (fold_left (priceFor hmac stringify c now asset price) os s).
Proof.
  revert s. induction os as [|o os IH]; intros s Hf Hj; simpl; [done|].
  apply IH; [by apply (price_ok hmac stringify c numText now asset price [o])|]. unfold priceFor.
  destruct (_ || _); [done|]. cbn zeta. destruct (triggers _ _ _ _).
  - apply enqueue_jobs; [eapply idle_ok; [exact Hf|]; auto using idle_refl, idle_reg|].
    eapply quiet_inv; [exact Hj|]. auto with webhooks.
  - eapply quiet_inv; [exact Hj|]. auto with webhooks.
Qed.

Lemma resumeReplay_jobs gone now key s :
  flight_ok c s → jobs_inv gone s → jobs_inv gone (resumeReplay hmac stringify c now key s).
Proof.
  intros Hf Hj. unfold resumeReplay, answer.
  destruct (jm_get key (ws_replays s)) as [[[e|]|]|];
    try (eapply quiet_inv; [exact Hj|]; auto with webhooks; fail).
  repeat (case_bool_decide; [eapply quiet_inv; [exact Hj|]; auto with webhooks|]).
  destruct (webhookOf _ s) as [o|]; [|eapply quiet_inv; [exact Hj|]; auto with webhooks].
  set (s1 := set_replays _ _ _ s).
  assert (jobs_inv gone (enqueue hmac stringify c now o (de_payload e) s1).1) as Hs2.
  { apply enqueue_jobs.
    - eapply idle_ok; [exact Hf|]. subst s1. auto using idle_refl, idle_replays.
    - eapply quiet_inv; [exact Hj|]. subst s1. auto with webhooks. }
  destruct (enqueue _ _ _ _ _ _ s1) as [s2 j]. eapply quiet_inv; [exact Hs2|]. auto with webhooks.
Qed.

Lemma settleReplay_quiet now key st s : quiet s (settleReplay now key st s).
Proof.
  unfold settleReplay, answer. destruct (jm_get key (ws_replays s)) as [[|e o j]|]; try apply quiet_refl.
  destruct (negb _); [apply quiet_refl|]. cbn zeta. destruct (negb _); [auto with webhooks|].
  destruct st; auto with webhooks.
Qed.

Definition removed (es : list event) : list string :=
  omap (λ e, match e with Remove id => Some id | _ => None end) es.

Lemma jobs_ok_more gone id s : jobs_inv gone s → jobs_inv (id :: gone) s.
Proof.
  intros [H0 Hj]. split; [done|]. intros Hz. destruct (Hj Hz). split; try done. intros j b Hb.
  destruct (jo_queued0 _ _ Hb) as [?|?]; [left|by right].
  by eapply settled_more; [|done]; apply list_subseteq_cons.
Qed.

Lemma step_jobs gone e s :
  flight_ok c s → jobs_inv gone s →
  jobs_inv (removed [e] ++ gone) (step hmac stringify c numText s e).
Proof.
  intros Hf Hj. destruct e; cbn [removed omap list_omap app step].
  - unfold register. destruct (negb _); [done|]. eapply quiet_inv; [exact Hj|]. simpl. auto with webhooks.
  - unfold remove. destruct (webhookOf _ s); [|by apply jobs_ok_more]. simpl.
    apply dropDestination_jobs. eapply quiet_inv; [exact Hj|]. auto with webhooks.
  - eapply quiet_inv; [exact Hj|]. apply mergeIntoMirror_quiet.
  - by apply price_jobs.
  - case_bool_decide; [by apply enqueue_jobs|done].
  - by apply fireTimer_jobs.
  - destruct (ws_running s !! i) as [v|] eqn:E; [|done]. by apply finishJob_jobs.
  - eapply quiet_inv; [exact Hj|]. unfold readReplay. auto with webhooks.
  - by apply resumeReplay_jobs.
  - eapply quiet_inv; [exact Hj|]. apply settleReplay_quiet.
Qed.

Lemma newService_jobs : jobs_inv [] newService.
Proof.
  split; [done|]. intros _. assert (∀ d, pend newService d = []) as Hp.
  { intros d. unfold pend. simpl. by rewrite lookup_total_empty. }
  assert (∀ j, attemptsOf newService j = 0) as Ha.
  { intros j. unfold attemptsOf. simpl. by rewrite lookup_total_empty. }
  split; intros *; rewrite ?Hp, ?Ha; simpl; try done; try (by intros ?%not_elem_of_nil).
  - unfold attemptLimit. lia.
  - constructor.
  - by intros [? ?].
Qed.

Lemma run_webhooks_jobs es gone s :
  flight_ok c s → jobs_inv gone s →
  ∃ gone', gone' ⊆ removed es ++ gone ∧ jobs_inv gone' (run_webhooks hmac stringify c numText es s).
Proof.
  revert gone s. induction es as [|e es IH]; intros gone s Hf Hj; simpl; [by exists gone|].
  destruct (IH (removed [e] ++ gone) (step hmac stringify c numText s e)) as (gone' & Hsub & Hinv);
    [by apply hook_step_ok|by apply step_jobs|].
  exists gone'. split; [|done]. intros x Hx%Hsub. rewrite !elem_of_app in Hx |- *.
  destruct e; simpl in *; set_solver.
Qed.

(** C22: as long as no backlog overflowed, no job is lost: each one waits in the queue
    of its webhook or is settled, because it was delivered, used up its attempts
    or belongs to a webhook that was removed; a delivery under way serves the
    oldest job of its queue; and no job is attempted more often than configured. *)
Theorem no_job_lost es :
  let s := run_webhooks hmac stringify c numText es newService in
  ws_dropped s = 0 →
  (∀ j b, ws_jobs s !! j = Some b →
     jb_attempt b <= attemptLimit ∧
     (jb_settled b = true ∧ justified (removed es) b ∨
      ∃ d, jm_get (jb_webhookId b) (ws_dests s) = Some d ∧ j ∈ pend s d)) ∧
  (∀ v, v ∈ ws_running s →
     head (pend s (dv_dest v)) = Some (dv_job v) ∧ 1 <= dv_attempt v <= attemptLimit).
Proof.
  intros s Hz.
  destruct (run_webhooks_jobs es [] newService) as (gone & Hsub & _ & Hj);
    [apply newService_ok|apply newService_jobs|]. rewrite app_nil_r in Hsub. specialize (Hj Hz).
  split.
  - intros j b Hb. split.
    + pose proof (jo_limit _ _ Hj j) as H. unfold attemptsOf in H. fold s in H.
      by rewrite (lookup_total_correct _ _ _ Hb) in H.
    + destruct (jo_queued _ _ Hj _ _ Hb) as [H|H]; [left|by right]. exact (settled_more _ _ _ Hsub H).
  - intros v Hv. split; [by apply (jo_head _ _ Hj)|]. by apply (jo_attempt _ _ Hj).
Qed.
End jobs.

(** ** Signatures *)

Section signatures.
Variable hmac : string → string → string.
Variable stringify : json → string.

Lemma substring_all s : String.substring 0 (String.length s) s = s.
Proof. induction s as [|a s IH]; simpl; [done|]. by rewrite IH. Qed.

Lemma stripPrefix_prefixed s : stripPrefix (signaturePrefix +:+ s) = s.
Proof.
  unfold stripPrefix. replace (String.prefix signaturePrefix (signaturePrefix +:+ s)) with true.
  - simpl. rewrite Nat.sub_0_r. apply substring_all.
  - symmetry. unfold signaturePrefix. simpl. by destruct s.
Qed.

(** a request the service sends carries a signature its receiver accepts, and a
    signature is accepted only if it decodes to the digest of the body. *)
Theorem requests_verify o j s secret body signature :
  (let w := ws_regs s !!! o in
   let sent := ws_sent (sendRequest hmac stringify o j s) in
   wr_secret w ≠ "" → buildWebhookBody stringify (wr_id w) (jb_payload (ws_jobs s !!! j)) ≠ "" →
   ∃ r, sent = ws_sent s ++ [r] ∧ rq_url r = wr_url w ∧
     verifyWebhookSignature hmac (wr_secret w) (rq_body r) (rq_signature r) = true) ∧
  (verifyWebhookSignature hmac secret body signature = true ↔
   secret ≠ "" ∧ body ≠ "" ∧ signature ≠ "" ∧
   hexBytes (chars (hmac secret body)) = hexBytes (chars (stripPrefix signature))).
Proof.
  assert (∀ secret body signature, verifyWebhookSignature hmac secret body signature = true ↔
    secret ≠ "" ∧ body ≠ "" ∧ signature ≠ "" ∧
    hexBytes (chars (hmac secret body)) = hexBytes (chars (stripPrefix signature))) as Hiff.
  { intros sc b sg. unfold verifyWebhookSignature, signWebhookPayload.
    repeat case_bool_decide; simpl; try naive_solver.
    - rewrite andb_true_r, Nat.eqb_eq. split; [done|]. by intros (_ & _ & _ & ->).
    - rewrite andb_false_r. naive_solver. }
  split; [|apply Hiff]. intros w sent Hs Hb. eexists. split; [done|]. split; [done|].
  simpl. apply Hiff. split_and!; try done. by rewrite stripPrefix_prefixed.
Qed.
End signatures.

(** ** Witnesses and examples *)

Definition demo_webhooks : WebhookConfig := mkWebhookConfig 1000 60000 2 60000 1 2 1 60000.
Definition one_attempt : WebhookConfig := mkWebhookConfig 1000 60000 1 60000 1 2 1 60000.
Definition lenient : WebhookConfig := mkWebhookConfig 1000 60000 1 60000 1 2 9 60000.
Definition some_hmac (_ _ : string) : string := "00ff".
Definition some_text (_ : json) : string := "{}".
Definition some_number (_ : Z) : string := "500".
Definition run_demo_webhooks (c : WebhookConfig) (es : list event) : service :=
  run_webhooks some_hmac some_text c some_number es newService.

(** The registration is object 0; its queue is 1 and the first job 2. *)
Definition demo_register : event :=
  Register 0 true "w" "secret" "key" "https://example.org" "k" (mkTrigger interval "XLM" double_0).
Definition demo_record : WebhookRegistration :=
  mkWebhook "w" "https://example.org" "k" (mkTrigger interval "XLM" double_0) "secret" "key" true
    wh_healthy circuit_closed None 0 None None None 0.
Definition demo_deliveries : list event :=
  [demo_register; Deliver 10 0 []; Deliver 11 0 []; Outcome 12 true 0 (HttpStatus 500)].

Lemma deliveries_bounded_witness :
  pumps (run_demo_webhooks demo_webhooks demo_deliveries) (Fire 4) = true ∧
  let s := step some_hmac some_text demo_webhooks some_number
             (run_demo_webhooks demo_webhooks demo_deliveries) (Fire 4) in
  ws_inFlight s = 1 ∨ nextReady s = None.
Proof.
  split; [vm_compute; reflexivity|].
  apply (deliveries_bounded some_hmac some_text demo_webhooks some_number demo_deliveries (Fire 4)).
  vm_compute. reflexivity.
Defined.

Lemma no_job_lost_witness :
  ws_dropped (run_demo_webhooks demo_webhooks demo_deliveries) = 0 ∧
  jb_attempt (ws_jobs (run_demo_webhooks demo_webhooks demo_deliveries) !!! 2) <= 2.
Proof.
  split; [vm_compute; reflexivity|].
  destruct (no_job_lost some_hmac some_text demo_webhooks some_number demo_deliveries) as [H _];
    [vm_compute; reflexivity|].
  apply (H 2). vm_compute. reflexivity.
Defined.

(** A full backlog drops the job under delivery; its success then removes the
    next job, which was never attempted, is not settled and waits nowhere. *)
Example overflow_loses_job :
  let s := run_demo_webhooks demo_webhooks
    [demo_register; Deliver 10 0 []; Deliver 11 0 []; Deliver 12 0 []; Outcome 13 true 0 (HttpStatus 200)] in
  ws_dropped s = 1 ∧ pend s 1 = [4] ∧
  jb_attempt (ws_jobs s !!! 3) = 0 ∧ jb_settled (ws_jobs s !!! 3) = false.
Proof. vm_compute. split_and!; reflexivity. Qed.

(** When the registrations are refreshed during a delivery, its failure opens the
    circuit of an object that is no longer registered: the next delivery starts. *)
Example refresh_keeps_circuit_closed :
  let s := run_demo_webhooks one_attempt
    [demo_register; Deliver 10 0 []; Refresh [demo_record]; Outcome 11 true 0 (HttpStatus 500)] in
  openCircuit 0 s = true ∧
  match webhookOf "w" s with
  | Some o => openCircuit o s = false ∧
      ws_inFlight (step some_hmac some_text one_attempt some_number s (Deliver 12 o [])) = 1
  | None => False
  end.
Proof. vm_compute. split_and!; reflexivity. Qed.

(** Two replays that read the same entry before either delivers both deliver it. *)
Example replayed_twice :
  let s := run_demo_webhooks lenient
    [demo_register; Deliver 10 0 []; Outcome 11 true 0 (HttpStatus 500);
     ReadReplay "a" 3; ReadReplay "b" 3;
     ResumeReplay 12 "a"; Outcome 13 true 0 (HttpStatus 200); SettleReplay 14 "a" true;
     ResumeReplay 15 "b"; Outcome 16 true 0 (HttpStatus 200); SettleReplay 17 "b" true] in
  ws_results s = [("a", replayed); ("b", replayed)] ∧ length (ws_sent s) = 3%nat.
Proof. vm_compute. split; reflexivity. Qed.

(** After a reset the deliveries still under way are subtracted once more. *)
Example reset_undercounts :
  let s := resetService (run_demo_webhooks demo_webhooks [demo_register; Deliver 10 0 []]) in
  length (ws_running s) = 1%nat ∧
  ws_inFlight (step some_hmac some_text demo_webhooks some_number s (Outcome 11 true 0 (HttpStatus 200)))
    = -1.
Proof. vm_compute. split; reflexivity. Qed.
