(* ===== verification/AuditLog.v ===== *)
(** * Audit log: chain verification and retention

    [api/src/governance/audit-logger.ts].  Module [Chain]: the canonical payload
    of an entry, its HMAC and [verifyAuditLogChain].  Module [Retention]: the lock,
    the retention plan, the archive and [enforceAuditRetention].

    HMAC-SHA-256 is a function of the key and the text; that its digest is
    written in hexadecimal is the only thing assumed of it.  The JSON text of a
    payload is produced by [stringify].  A log file is the list of its non-blank
    lines.  What other processes append to the log while a sweep runs, and the
    point at which a file operation throws or the process dies, are arguments of
    the sweep; each file operation happens completely or not at all, and the
    release of the lock does not fail.

    - [Chain.last_tag_commits]: the last tag of a writer fixes the signed text of
      all its entries, up to a collision of the HMAC;
    - [Chain.verified_entries]: what an accepted log consists of;
    - [Retention.retention_keeps_evidence]: a sweep loses no line however it
      ends, except those written between its last check and the rename;
    - [Retention.unparseable_line_fails]: a line that does not parse makes every
      later sweep that archives something report failure. *)

From Stdlib Require Import ZArith Lia.
From stdpp Require Import base list strings sets pretty.
From S2P Require Import Prelude JsMap.

Local Open Scope Z_scope.
Local Set Warnings "-register-all".

Module Chain.

(** ** JSON text *)

Inductive json :=
| JNull
| JBool (b : bool)
| JNum (z : Z)
| JStr (s : string)
| JArr (l : list json)
| JObj (fields : list (string * json)).

Definition quote : Ascii.ascii := Ascii.ascii_of_nat 34.
Definition backslash : Ascii.ascii := Ascii.ascii_of_nat 92.

Definition hex_char (n : nat) : Ascii.ascii :=
  Ascii.ascii_of_nat (if (n <? 10)%nat then 48 + n else 87 + n).

(** The escapes of [JSON.stringify]. *)
Definition escape (c : Ascii.ascii) : list Ascii.ascii :=
  let n := Ascii.nat_of_ascii c in
  if bool_decide (c = quote) || bool_decide (c = backslash) then [backslash; c]
  else if (n <? 32)%nat then
    backslash ::
    match n with
    | 8%nat => chars "b"
    | 9%nat => chars "t"
    | 10%nat => chars "n"
    | 12%nat => chars "f"
    | 13%nat => chars "r"
    | _ => chars "u00" ++ [hex_char (n / 16); hex_char (n mod 16)]
    end
  else [c].

Definition quoted (s : string) : list Ascii.ascii := [quote] ++ (chars s ≫= escape) ++ [quote].

(** [l.join(',')] *)
Fixpoint commas (l : list (list Ascii.ascii)) : list Ascii.ascii :=
  match l with
  | [] => []
  | [x] => x
  | x :: l' => x ++ chars "," ++ commas l'
  end.

Fixpoint stringify (v : json) : list Ascii.ascii :=
  match v with
  | JNull => chars "null"
  | JBool b => chars (if b then "true" else "false")
  | JNum z => chars (pretty z)
  | JStr s => quoted s
  | JArr l => chars "[" ++ commas (map stringify l) ++ chars "]"
  | JObj fields =>
      chars "{" ++ commas (map (λ '(k, x), quoted k ++ chars ":" ++ stringify x) fields) ++ chars "}"
  end.

(** ** Entries *)

(** [Partial<AuditEntry>] with its [hmac]: a line of the log need not have every
    field. *)
Record AuditEntry := mkEntry {
  ae_event : option string;
  ae_timestamp : option string;
  ae_ip : option string;
  ae_userAgent : option string;
  ae_apiKeyPrefix : option string;
  ae_keyId : option string;
  ae_writerId : option string;
  ae_seq : option Z;
  ae_prevHmac : option string;
  ae_details : option json;
  ae_prevState : option json;
  ae_newState : option json;
  ae_hmac : string;
}.

(** [if (entry.f !== undefined) payload.f = entry.f] *)
Definition field {A} (name : string) (enc : A → json) (o : option A) : list (string * json) :=
  match o with Some a => [(name, enc a)] | None => [] end.

Definition canonicalPayload (entry : AuditEntry) (previousHmac : string) : list Ascii.ascii :=
  stringify (JObj (
    field "event" JStr (ae_event entry) ++
    field "timestamp" JStr (ae_timestamp entry) ++
    field "ip" JStr (ae_ip entry) ++
    field "userAgent" JStr (ae_userAgent entry) ++
    field "apiKeyPrefix" JStr (ae_apiKeyPrefix entry) ++
    field "keyId" JStr (ae_keyId entry) ++
    field "writerId" JStr (ae_writerId entry) ++
    field "seq" JNum (ae_seq entry) ++
    field "details" id (ae_details entry) ++
    field "prevState" id (ae_prevState entry) ++
    field "newState" id (ae_newState entry) ++
    [("prevHmac", JStr previousHmac)])).

Record AuditSecrets := mkSecrets {
  sec_keyring : jsmap string string;
  sec_currentKeyId : string;
}.

(** [if (!keyId)] holds for a missing and for an empty id. *)
Definition secretFor (state : AuditSecrets) (keyId : option string) : option string :=
  match keyId with
  | Some id => if bool_decide (id = "") then jm_get (sec_currentKeyId state) (sec_keyring state)
               else jm_get id (sec_keyring state)
  | None => jm_get (sec_currentKeyId state) (sec_keyring state)
  end.

Section chain.
(** [createHmac('sha256', secret).update(text).digest('hex')] *)
Context (hmacSha256 : string → list Ascii.ascii → string).
Context (state : AuditSecrets).

Definition hmacWith (secret : string) (entry : AuditEntry) (previousHmac : string) : string :=
  hmacSha256 secret (canonicalPayload entry previousHmac).

(** [computeAuditHmac(data, previousHmac, keyId)]: [None] when it throws. *)
Definition computeAuditHmac (entry : AuditEntry) (previousHmac : string) (keyId : option string)
    : option string :=
  match secretFor state (match keyId with Some _ => keyId | None => ae_keyId entry end) with
  | Some secret => if bool_decide (secret = "") then None else Some (hmacWith secret entry previousHmac)
  | None => None
  end.

Definition prevOf (entry : AuditEntry) : string := default "" (ae_prevHmac entry).
Definition writerOf (entry : AuditEntry) : string := default "legacy" (ae_writerId entry).

(** The two maps the first pass builds. *)
Definition hmacIndex (entries : list AuditEntry) : jsmap string nat :=
  foldl (λ m '(i, e), jm_set (ae_hmac e) i m) jm_empty (imap pair entries).

Definition byWriter (entries : list AuditEntry) : jsmap string (list (nat * AuditEntry)) :=
  foldl (λ m '(i, e), jm_set (writerOf e) (default [] (jm_get (writerOf e) m) ++ [(i, e)]) m)
    jm_empty (imap pair entries).

(** The checks of one entry, given its predecessor in the group. *)
Definition checkEntry (index : jsmap string nat) (previous : option AuditEntry)
    (i : nat) (entry : AuditEntry) : bool :=
  let expectedPrev := match previous with Some p => ae_hmac p | None => prevOf entry end in
  bool_decide (prevOf entry = expectedPrev) &&
  negb (match previous, ae_seq entry with
        | Some p, Some s => match ae_seq p with Some s0 => negb (s =? s0 + 1) | None => false end
        | _, _ => false end) &&
  match secretFor state (ae_keyId entry) with
  | None => false
  | Some secret =>
      negb (bool_decide (secret = "")) &&
      bool_decide (hmacWith secret entry (prevOf entry) = ae_hmac entry)
  end &&
  negb (bool_decide (previous = None) && negb (bool_decide (prevOf entry = "")) &&
        match jm_get (prevOf entry) index with
        | None => true
        | Some anchorIndex => (i <? anchorIndex)%nat
        end && negb (i =? 0)%nat).

Fixpoint checkGroup (index : jsmap string nat) (previous : option AuditEntry)
    (group : list (nat * AuditEntry)) : option nat :=
  match group with
  | [] => None
  | (i, entry) :: rest =>
      if checkEntry index previous i entry then checkGroup index (Some entry) rest else Some i
  end.

(** [None] when the chain is valid, the reported index otherwise. *)
Fixpoint checkGroups (index : jsmap string nat) (groups : list (list (nat * AuditEntry)))
    : option nat :=
  match groups with
  | [] => None
  | group :: rest =>
      match checkGroup index None group with
      | Some i => Some i
      | None => checkGroups index rest
      end
  end.

Definition verifyAuditLogChain (entries : list AuditEntry) : bool * option nat :=
  match checkGroups (hmacIndex entries) (jm_values (byWriter entries)) with
  | Some i => (false, Some i)
  | None => (true, None)
  end.

(** ** The groups of the writers *)

Definition indexed (entries : list AuditEntry) : list (nat * AuditEntry) := imap pair entries.

(** The entries of one writer with their positions in the log. *)
Definition writer_group (w : string) (entries : list AuditEntry) : list (nat * AuditEntry) :=
  filter (λ x, writerOf x.2 = w) (indexed entries).

Lemma indexed_snoc entries e : indexed (entries ++ [e]) = indexed entries ++ [(length entries, e)].
Proof. unfold indexed. rewrite imap_app. simpl. by rewrite Nat.add_0_r. Qed.

Lemma byWriter_snoc entries e :
  byWriter (entries ++ [e]) =
    jm_set (writerOf e) (default [] (jm_get (writerOf e) (byWriter entries)) ++ [(length entries, e)])
      (byWriter entries).
Proof. unfold byWriter. fold (indexed (entries ++ [e])). by rewrite indexed_snoc, foldl_app. Qed.

Lemma byWriter_get entries w :
  jm_wf (byWriter entries) ∧
  jm_get w (byWriter entries) =
    match writer_group w entries with [] => None | g => Some g end.
Proof.
  revert w. induction entries as [|e entries IH] using rev_ind; intros w.
  { split; [apply jm_wf_empty|done]. }
  rewrite byWriter_snoc. split; [apply jm_wf_set; by apply (IH w)|].
  unfold writer_group. rewrite indexed_snoc, filter_app, filter_cons, filter_nil. simpl.
  rewrite jm_get_set. destruct (decide (writerOf e = w)) as [<-|Hne].
  - rewrite (proj2 (IH (writerOf e))). unfold writer_group. by destruct (filter _ _).
  - rewrite app_nil_r. by apply IH.
Qed.

Lemma checkGroups_none index groups :
  checkGroups index groups = None ↔ ∀ g, g ∈ groups → checkGroup index None g = None.
Proof.
  induction groups as [|g groups IH]; simpl; [set_solver|].
  destruct (checkGroup index None g) eqn:E; [|rewrite IH; set_solver].
  split; [done|]. intros H. specialize (H g). rewrite E in H. set_solver.
Qed.

Lemma verify_groups entries :
  verifyAuditLogChain entries = (true, None) ↔
  ∀ w, checkGroup (hmacIndex entries) None (writer_group w entries) = None.
Proof.
  unfold verifyAuditLogChain. transitivity (checkGroups (hmacIndex entries) (jm_values (byWriter entries)) = None).
  { by destruct (checkGroups _ _). }
  rewrite checkGroups_none. split.
  - intros H w. destruct (byWriter_get entries w) as [_ Hg].
    destruct (writer_group w entries) as [|x g]; [done|]. apply H. by eapply jm_value_elem.
  - intros H g Hg. destruct (byWriter_get entries "") as [Hwf _].
    apply jm_value_inv in Hg as [w Hw]; [|done]. destruct (byWriter_get entries w) as [_ Hg].
    specialize (H w). destruct (writer_group w entries); simplify_eq; congruence.
Qed.

(** ** What a verified group is *)

(** The signature of an entry is right under a known key. *)
Definition signed (e : AuditEntry) : Prop :=
  ∃ secret, secretFor state (ae_keyId e) = Some secret ∧ secret ≠ "" ∧
    ae_hmac e = hmacWith secret e (prevOf e).

(** [e] follows [p] in the chain of one writer. *)
Definition follows (p e : AuditEntry) : Prop :=
  prevOf e = ae_hmac p ∧
  ∀ s s0, ae_seq e = Some s → ae_seq p = Some s0 → s = s0 + 1.

(** The first entry of a writer is anchored: its predecessor is known. *)
Definition anchored (index : jsmap string nat) (i : nat) (e : AuditEntry) : Prop :=
  prevOf e ≠ "" → i ≠ 0%nat → ∃ a, jm_get (prevOf e) index = Some a ∧ (a <= i)%nat.

Lemma checkEntry_ok index previous i e :
  checkEntry index previous i e = true ↔
  signed e ∧ match previous with Some p => follows p e | None => anchored index i e end.
Proof.
  unfold checkEntry, signed, follows, anchored. rewrite !andb_true_iff, !negb_true_iff, bool_decide_eq_true.
  assert (match secretFor state (ae_keyId e) with
          | None => false
          | Some secret => negb (bool_decide (secret = "")) &&
              bool_decide (hmacWith secret e (prevOf e) = ae_hmac e) end = true ↔
          ∃ secret, secretFor state (ae_keyId e) = Some secret ∧ secret ≠ "" ∧
            ae_hmac e = hmacWith secret e (prevOf e)) as ->.
  { destruct (secretFor _ _) as [secret|]; [|naive_solver].
    rewrite andb_true_iff, negb_true_iff, bool_decide_eq_true, bool_decide_eq_false. naive_solver. }
  destruct previous as [p|].
  - rewrite (bool_decide_false (Some p = None)) by done. simpl.
    assert (match ae_seq e with
            | Some s => match ae_seq p with Some s0 => negb (s =? s0 + 1) | None => false end
            | None => false end = false ↔
            ∀ s s0, ae_seq e = Some s → ae_seq p = Some s0 → s = s0 + 1) as ->; [|tauto].
    destruct (ae_seq e) as [s|], (ae_seq p) as [s0|]; try naive_solver.
    rewrite negb_false_iff, Z.eqb_eq. naive_solver.
  - rewrite (bool_decide_true (None = None)) by done. simpl.
    destruct (decide (prevOf e = "")) as [He|He].
    { rewrite bool_decide_true by done. naive_solver. }
    rewrite bool_decide_false by done. simpl.
    destruct (jm_get _ index) as [a|].
    + destruct (Nat.ltb_spec i a); simpl.
      * rewrite negb_false_iff, Nat.eqb_eq. split; [naive_solver|]. intros [? Ha].
        split_and!; try done. destruct (decide (i = 0%nat)) as [|Hi]; [done|].
        destruct (Ha He Hi) as (? & [= <-] & ?). lia.
      * split; [|naive_solver]. intros [[_ Hs] _]. split; [exact Hs|]. eauto.
    + simpl. rewrite negb_false_iff, Nat.eqb_eq. split; [naive_solver|]. intros [? Ha].
      split_and!; try done. destruct (decide (i = 0%nat)) as [|Hi]; [done|].
      by destruct (Ha He Hi) as (? & ? & _).
Qed.

Lemma checkGroup_ok index previous g :
  checkGroup index previous g = None ↔
  (∀ i e, (i, e) ∈ g → signed e) ∧
  (∀ n p e, (snd <$> g) !! n = Some p → (snd <$> g) !! S n = Some e → follows p e) ∧
  (∀ i e, head g = Some (i, e) →
     match previous with Some p => follows p e | None => anchored index i e end).
Proof.
  revert previous. induction g as [|[i e] g IH]; intros previous; simpl; [set_solver|].
  destruct (checkEntry index previous i e) eqn:E.
  - apply checkEntry_ok in E as [Hs Hp]. rewrite IH. split.
    + intros (H1 & H2 & H3). split_and!.
      * intros i' e' [?|?]%elem_of_cons; [by simplify_eq|eauto].
      * intros [|n] p e'; simpl; [|eauto]. intros [= <-] He. destruct g as [|[j x] g]; [done|].
        simpl in He. simplify_eq. by apply (H3 j).
      * by intros i' e' [= <- <-].
    + intros (H1 & H2 & H3). split_and!.
      * intros i' e' ?. eapply (H1 i'). set_solver.
      * intros n p e'. apply (H2 (S n)).
      * intros i' e' Hh. apply (H2 0%nat); [done|]. destruct g as [|x g]; [done|].
        simpl in *. by injection Hh as ->.
  - split; [done|]. intros (H1 & _ & H3). exfalso. enough (checkEntry index previous i e = true) by congruence.
    apply checkEntry_ok. split; [eapply (H1 i); set_solver|by apply H3].
Qed.

(** ** Signed texts *)

Definition signed_text (e : AuditEntry) : list Ascii.ascii := canonicalPayload e (prevOf e).

(** [hash.digest('hex')] *)
Definition is_hex_digit (c : Ascii.ascii) : bool := char_between 48 57 c || char_between 97 102 c.
Definition is_hex_text (s : string) : Prop := Forall (λ c, is_hex_digit c = true) (chars s).

Lemma hex_escape s : is_hex_text s → chars s ≫= escape = chars s ∧ quote ∉ chars s.
Proof.
  unfold is_hex_text. induction (chars s) as [|c l IH]; [split; [done|set_solver]|].
  intros [Hc Hl]%Forall_cons. destruct (IH Hl) as [E Hq]. rewrite bind_cons, E.
  assert (escape c = [c] ∧ c ≠ quote) as [-> ?]; [|split; [done|set_solver]]. clear -Hc.
  by destruct c as [[] [] [] [] [] [] [] []].
Qed.

Lemma commas_snoc l x : ∃ y, commas (l ++ [x]) = y ++ x.
Proof.
  induction l as [|z l [y IH]]; simpl; [by exists []|]. rewrite IH.
  destruct (l ++ [x]) eqn:E; [by destruct l|]. exists (z ++ chars "," ++ y). by rewrite <- !app_assoc.
Qed.

Lemma payload_tail e p :
  ∃ y, canonicalPayload e p = y ++ quote :: (chars p ≫= escape) ++ quote :: chars "}".
Proof.
  unfold canonicalPayload. set (x := ("prevHmac", JStr p)). cbn [stringify].
  rewrite !app_assoc, map_app. set (l := map _ (_ ++ _)). clearbody l. subst x. cbn [map stringify].
  destruct (commas_snoc l (quoted "prevHmac" ++ chars ":" ++ quoted p)) as [y ->].
  exists (chars "{" ++ y ++ quoted "prevHmac" ++ chars ":"). unfold quoted.
  by rewrite <- !app_assoc.
Qed.

(** The signed text determines a hexadecimal predecessor tag. *)
Lemma payload_prev e1 p1 e2 p2 :
  is_hex_text p1 → is_hex_text p2 → canonicalPayload e1 p1 = canonicalPayload e2 p2 → p1 = p2.
Proof.
  intros [E1 H1]%hex_escape [E2 H2]%hex_escape Heq. apply chars_inj.
  destruct (payload_tail e1 p1) as [y1 T1], (payload_tail e2 p2) as [y2 T2].
  rewrite T1, T2, E1, E2 in Heq. apply (f_equal reverse) in Heq.
  rewrite !reverse_app, !reverse_cons, !reverse_app, !reverse_cons in Heq.
  rewrite <- !app_assoc in Heq. apply app_inv_head in Heq. simpl in Heq. injection Heq as Heq.
  apply (f_equal (split_on quote)) in Heq.
  rewrite !split_on_app in Heq by (rewrite elem_of_reverse; done). injection Heq as Heq _.
  by apply (inj reverse).
Qed.

(** Two different messages with the same tag. *)
Definition collision : Prop :=
  ∃ k1 t1 k2 t2, (k1, t1) ≠ (k2, t2) ∧ hmacSha256 k1 t1 = hmacSha256 k2 t2.

Definition linked (g : list AuditEntry) : Prop :=
  (∀ e, e ∈ g → signed e) ∧
  (∀ n p e, g !! n = Some p → g !! S n = Some e → follows p e).

Lemma linked_prefix g e : linked (g ++ [e]) → linked g ∧ signed e ∧ ∀ p, last g = Some p → follows p e.
Proof.
  intros [H1 H2]. split_and!.
  - split; [set_solver|]. intros n p x Hp Hx. apply (H2 n); by apply lookup_app_l_Some.
  - apply H1. set_solver.
  - intros p Hp. rewrite last_lookup in Hp. apply (H2 (pred (length g))); [by apply lookup_app_l_Some|].
    rewrite lookup_app_r by lia. apply lookup_lt_Some in Hp.
    by replace (S (pred (length g)) - length g)%nat with 0%nat by lia.
Qed.

Lemma signed_same e1 e2 :
  signed e1 → signed e2 → ae_hmac e1 = ae_hmac e2 → signed_text e1 = signed_text e2 ∨ collision.
Proof.
  intros (k1 & _ & _ & H1) (k2 & _ & _ & H2) Heq. unfold hmacWith in *.
  destruct (decide ((k1, signed_text e1) = (k2, signed_text e2))) as [E|E]; [left; congruence|right].
  exists k1, (signed_text e1), k2, (signed_text e2). split; [done|]. unfold signed_text. congruence.
Qed.

Lemma linked_commits (Hhex : ∀ k t, is_hex_text (hmacSha256 k t)) g1 g2 :
  linked g1 → linked g2 → length g1 = length g2 →
  ae_hmac <$> last g1 = ae_hmac <$> last g2 →
  Forall2 (λ e1 e2, ae_hmac e1 = ae_hmac e2 ∧ signed_text e1 = signed_text e2) g1 g2 ∨ collision.
Proof.
  revert g2. induction g1 as [|x1 g1 IH] using rev_ind; intros g2 L1 L2 Hlen Hlast.
  { destruct g2; [left; constructor|done]. }
  destruct g2 as [|x2 g2 _] using rev_ind; [rewrite length_app in Hlen; simpl in Hlen; lia|].
  rewrite !last_snoc in Hlast. simpl in Hlast. injection Hlast as Hh.
  apply linked_prefix in L1 as (L1 & S1 & F1), L2 as (L2 & S2 & F2).
  rewrite !length_app in Hlen. simpl in Hlen.
  destruct (signed_same x1 x2) as [Ht|]; [done..| |by right].
  destruct (IH g2 L1 L2) as [Hall|]; [lia| | |by right].
  - destruct (last g1) as [p1|] eqn:E1, (last g2) as [p2|] eqn:E2; simpl.
    + destruct (F1 p1 eq_refl) as [P1 _], (F2 p2 eq_refl) as [P2 _]. f_equal. rewrite <- P1, <- P2.
      apply last_Some_elem_of in E1, E2. destruct L1 as [L1 _], L2 as [L2 _].
      destruct (L1 _ E1) as (k1 & _ & _ & K1), (L2 _ E2) as (k2 & _ & _ & K2).
      apply (payload_prev x1 _ x2); [rewrite P1, K1; apply Hhex|rewrite P2, K2; apply Hhex|done].
    + apply last_None in E2 as ->. destruct g1; [done|simpl in Hlen; lia].
    + apply last_None in E1 as ->. destruct g2; [done|simpl in Hlen; lia].
    + done.
  - left. apply Forall2_app; [done|]. by repeat constructor.
Qed.
End chain.

(** ** Properties *)

(** The log of one writer. *)
Definition writer_log (w : string) (entries : list AuditEntry) : list AuditEntry :=
  filter (λ e, writerOf e = w) entries.

Lemma writer_group_log w entries : snd <$> writer_group w entries = writer_log w entries.
Proof.
  unfold writer_group, writer_log. induction entries as [|e entries IH] using rev_ind; [done|].
  rewrite indexed_snoc, !filter_app, fmap_app, IH, !filter_cons, !filter_nil. simpl. by case_decide.
Qed.

Lemma elem_of_indexed i e entries : (i, e) ∈ indexed entries ↔ entries !! i = Some e.
Proof.
  unfold indexed. rewrite elem_of_lookup_imap. split; [|eauto]. by intros (? & ? & [= -> ->] & ?).
Qed.

(** The first entry of a writer in the log. *)
Definition first_of_writer (entries : list AuditEntry) (i : nat) (e : AuditEntry) : Prop :=
  entries !! i = Some e ∧ ∀ j x, (j < i)%nat → entries !! j = Some x → writerOf x ≠ writerOf e.

Lemma writer_group_head entries i e :
  head (writer_group (writerOf e) entries) = Some (i, e) ↔ first_of_writer entries i e.
Proof.
  unfold first_of_writer. induction entries as [|x entries IH] using rev_ind; [split; [done|by intros [[=] _]]|].
  unfold writer_group in *. rewrite indexed_snoc, filter_app, filter_cons, filter_nil. cbn [snd].
  destruct (filter (λ x0, writerOf x0.2 = writerOf e) (indexed entries)) as [|y g] eqn:Eg; simpl in *.
  - assert (∀ j z, entries !! j = Some z → writerOf z ≠ writerOf e) as Hno.
    { intros j z Hz%elem_of_indexed Hw. assert ((j, z) ∈ @nil (nat * AuditEntry)) as []%not_elem_of_nil.
      rewrite <- Eg. by apply list_elem_of_filter. }
    case_decide as Hx; simpl.
    + split.
      * intros [= <- <-]. split; [by apply list_lookup_middle|]. intros j z Hj. rewrite lookup_app_l by lia. eauto.
      * intros [Hi _]. apply lookup_app_Some in Hi as [Hi|[Hle Hi]]; [by apply Hno in Hi|].
        apply list_lookup_singleton_Some in Hi as [Hz ->]. f_equal. f_equal. lia.
    + split; [done|]. intros [Hi _]. apply lookup_app_Some in Hi as [Hi|[Hle Hi]]; [by apply Hno in Hi|].
      by apply list_lookup_singleton_Some in Hi as [_ ->].
  - rewrite IH. split.
    + intros [Hi Hb]. pose proof (lookup_lt_Some _ _ _ Hi). split; [by apply lookup_app_l_Some|].
      intros j z Hj. rewrite lookup_app_l by lia. eauto.
    + intros [Hi Hb]. assert (y ∈ filter (λ x0, writerOf x0.2 = writerOf e) (indexed entries)) as Hy by (rewrite Eg; set_solver).
      destruct y as [j z]. apply list_elem_of_filter in Hy as [Hw Hy%elem_of_indexed]. simpl in Hw.
      apply lookup_app_Some in Hi as [Hi|[Hle Hi]].
      * split; [done|]. intros j' x' Hj' Hx'. apply (Hb j'); [done|by apply lookup_app_l_Some].
      * pose proof (lookup_lt_Some _ _ _ Hy). exfalso. eapply (Hb j); [lia| |done]. by apply lookup_app_l_Some.
Qed.

(** The index of a tag is its last position in the log. *)
Lemma hmacIndex_get entries h a :
  jm_get h (hmacIndex entries) = Some a ↔
  (∃ x, entries !! a = Some x ∧ ae_hmac x = h) ∧
  (∀ b y, entries !! b = Some y → ae_hmac y = h → (b <= a)%nat).
Proof.
  induction entries as [|e entries IH] using rev_ind.
  { split; [done|by intros [(? & [=] & _) _]]. }
  unfold hmacIndex in *. fold (indexed (entries ++ [e])). fold (indexed entries) in IH.
  rewrite indexed_snoc, foldl_app. cbn [foldl]. rewrite jm_get_set.
  destruct (decide (ae_hmac e = h)) as [<-|Hne].
  - split.
    + intros [= <-]. split; [exists e; split; [by apply list_lookup_middle|done]|].
      intros b y Hb _. apply lookup_lt_Some in Hb. rewrite length_app in Hb. simpl in Hb. lia.
    + intros [(x & Hx & _) Hb]. apply lookup_lt_Some in Hx as Hl. rewrite length_app in Hl. simpl in Hl.
      specialize (Hb (length entries) e). rewrite list_lookup_middle in Hb by done.
      f_equal. specialize (Hb eq_refl eq_refl). lia.
  - rewrite IH. split.
    + intros [(x & Hx & Hh) Hb]. split; [exists x; split; [by apply lookup_app_l_Some|done]|].
      intros b y [Hy|[_ Hy]]%lookup_app_Some Hh'; [eauto|].
      apply list_lookup_singleton_Some in Hy as [_ ->]. done.
    + intros [(x & [Hx|[_ Hx]]%lookup_app_Some & Hh) Hb].
      * split; [eauto|]. intros b y Hy. apply (Hb b). by apply lookup_app_l_Some.
      * apply list_lookup_singleton_Some in Hx as [_ ->]. done.
Qed.

(** A log is accepted exactly when every entry is signed by a known key over
    its own fields and predecessor tag, the entries of each writer follow one
    another in tag and sequence number, and the first entry of a writer, unless
    it opens the log or names no predecessor, is anchored to an entry of the log
    that does not come after it (the last one with that tag). *)
Theorem verified_entries hmac st entries :
  verifyAuditLogChain hmac st entries = (true, None) ↔
  (∀ e, e ∈ entries → signed hmac st e) ∧
  (∀ w n p e, writer_log w entries !! n = Some p → writer_log w entries !! S n = Some e → follows p e) ∧
  (∀ i e, first_of_writer entries i e → prevOf e ≠ "" → i ≠ 0%nat →
     ∃ a, (a <= i)%nat ∧ (∃ x, entries !! a = Some x ∧ ae_hmac x = prevOf e) ∧
       ∀ b y, entries !! b = Some y → ae_hmac y = prevOf e → (b <= a)%nat).
Proof.
  rewrite verify_groups. setoid_rewrite checkGroup_ok. setoid_rewrite writer_group_log. split.
  - intros H. split_and!.
    + intros e [i Hi]%list_elem_of_lookup. apply (proj1 (H (writerOf e)) i).
      apply list_elem_of_filter. by rewrite elem_of_indexed.
    + intros w. apply H.
    + intros i e Hf%writer_group_head Hp Hi. destruct (H (writerOf e)) as (_ & _ & Ha).
      destruct (Ha i e Hf Hp Hi) as (a & Hg%hmacIndex_get & Hle). exists a. tauto.
  - intros (H1 & H2 & H3) w. split_and!.
    + intros i e [_ Hi%elem_of_indexed]%list_elem_of_filter. apply H1. by eapply list_elem_of_lookup_2.
    + apply H2.
    + intros i e Hh Hp Hi. assert (writerOf e = w) as <-.
      { destruct (writer_group w entries) as [|x g] eqn:E; [done|]. simpl in Hh. injection Hh as ->.
        assert ((i, e) ∈ writer_group w entries) as Hin by (rewrite E; set_solver).
        by apply list_elem_of_filter in Hin as [? _]. }
      destruct (H3 i e) as (a & Hle & Hx & Hb); [by apply writer_group_head|done..|].
      exists a. split; [|done]. by apply hmacIndex_get.
Qed.

(** C24: The last tag of a writer commits to the writer's whole history: if two
    accepted logs hold equally many entries of a writer and agree on the tag of
    the last one, then entry by entry the tags and the signed texts (every field
    of the entry and the tag before it) agree, or the logs exhibit a collision of
    the HMAC.  So no entry of a verified log can be altered, removed or reordered
    within its writer's chain while the last tag stands. *)
Theorem last_tag_commits hmac st w entries1 entries2 :
  (∀ k t, is_hex_text (hmac k t)) →
  verifyAuditLogChain hmac st entries1 = (true, None) →
  verifyAuditLogChain hmac st entries2 = (true, None) →
  length (writer_log w entries1) = length (writer_log w entries2) →
  ae_hmac <$> last (writer_log w entries1) = ae_hmac <$> last (writer_log w entries2) →
  Forall2 (λ e1 e2, ae_hmac e1 = ae_hmac e2 ∧ signed_text e1 = signed_text e2)
    (writer_log w entries1) (writer_log w entries2) ∨ collision hmac.
Proof.
  intros Hhex. rewrite !verify_groups. intros H1 H2.
  specialize (H1 w). specialize (H2 w). rewrite checkGroup_ok, writer_group_log in H1, H2.
  assert (∀ l, (∀ i e, (i, e) ∈ writer_group w l → signed hmac st e) →
     ∀ e, e ∈ writer_log w l → signed hmac st e) as Hs.
  { intros l Hl e He. rewrite <- writer_group_log in He.
    apply list_elem_of_fmap in He as ([i x] & -> & Hi). by apply (Hl i). }
  apply (linked_commits hmac st Hhex); split; [apply Hs|..]; try apply H1; [apply Hs|]; apply H2.
Qed.

(** A small keyed checksum in place of the HMAC. *)
Definition toy_hmac (k : string) (t : list Ascii.ascii) : string :=
  let h := foldl (λ h c, (h * 31 + Z.of_nat (Ascii.nat_of_ascii c)) mod 65521) 7 (chars k ++ t) in
  String.string_of_list_ascii
    (hex_char <$> [Z.to_nat (h mod 16); Z.to_nat (h / 16 mod 16); Z.to_nat (h / 256 mod 16)]).

Lemma hex_char_hex z : is_hex_digit (hex_char (Z.to_nat (z mod 16))) = true.
Proof.
  pose proof (Z.mod_pos_bound z 16 eq_refl) as Hb. remember (z mod 16) as n. clear Heqn.
  assert (n ∈ seqZ 0 16) as Hn by (apply elem_of_seqZ; lia). revert n Hn Hb.
  assert (Forall (λ n, is_hex_digit (hex_char (Z.to_nat n)) = true) (seqZ 0 16)) as Hall.
  { by repeat constructor. }
  rewrite Forall_forall in Hall. intros n Hn _. by apply Hall.
Qed.

Lemma toy_hmac_hex k t : is_hex_text (toy_hmac k t).
Proof.
  unfold is_hex_text, toy_hmac. cbv zeta. rewrite chars_of_list.
  repeat constructor; apply hex_char_hex.
Qed.

Definition demo_secrets : AuditSecrets := mkSecrets [("k1", "secret")] "k1".
Definition demo_signed (w : string) (n : Z) (prev ip : string) : AuditEntry :=
  let e := mkEntry (Some "auth.success") (Some "t") (Some ip) None None (Some "k1") (Some w)
             (Some n) (Some prev) None None None "" in
  mkEntry (ae_event e) (ae_timestamp e) (ae_ip e) (ae_userAgent e) (ae_apiKeyPrefix e) (ae_keyId e)
    (ae_writerId e) (ae_seq e) (ae_prevHmac e) None None None (hmacWith toy_hmac "secret" e prev).

(** Two writers; the second is anchored to the first entry. *)
Definition demo_log : list AuditEntry :=
  let a1 := demo_signed "a" 1 "" "10.0.0.1" in
  let b1 := demo_signed "b" 1 (ae_hmac a1) "10.0.0.2" in
  let a2 := demo_signed "a" 2 (ae_hmac a1) "10.0.0.3" in
  [a1; b1; a2].

Lemma last_tag_commits_witness :
  verifyAuditLogChain toy_hmac demo_secrets demo_log = (true, None) ∧
  (Forall2 (λ e1 e2, ae_hmac e1 = ae_hmac e2 ∧ signed_text e1 = signed_text e2)
     (writer_log "a" demo_log) (writer_log "a" demo_log) ∨ collision toy_hmac).
Proof.
  split; [reflexivity|].
  apply (last_tag_commits toy_hmac demo_secrets); [exact toy_hmac_hex|reflexivity..].
Defined.

(** An altered entry is found, at its position. *)
Example altered_entry_found :
  verifyAuditLogChain toy_hmac demo_secrets
    (<[1%nat := demo_signed "b" 1 "000" "6.6.6.6"]> demo_log) = (false, Some 1%nat).
Proof. reflexivity. Qed.
End Chain.

Module Retention.

Definition LOCK_STALE_MS : Z := 10 * 60 * 1000.
Definition DAY_MS : Z := 24 * 60 * 60 * 1000.

(** The text of the lock file: its time, a text without a time, or garbage. *)
Inductive lock_text := LockAt (acquiredAt : Z) | LockNoTime | LockGarbage.

Inductive lock_error := AlreadyRunning | NotRecovered.

(** The lock file, if present, and the clock readings before and after it is
    written. *)
Definition acquireRetentionLock (lock : option lock_text) (now : Z) (stamp : Z)
    : option lock_text * option lock_error :=
  match lock with
  | None => (Some (LockAt stamp), None)
  | Some LockGarbage => (lock, Some NotRecovered)
  | Some LockNoTime => (lock, Some AlreadyRunning)
  | Some (LockAt acquiredAt) =>
      if now - acquiredAt <=? LOCK_STALE_MS then (lock, Some AlreadyRunning)
      else (Some (LockAt stamp), None)
  end.

Section retention.
(** [parseLine] and [Date.parse] of a line: [None] when the line is not an
    entry, [Some None] when its timestamp is not a date. *)
Context (entryTime : string → option (option Z)).

Record RetentionPlan := mkPlan {
  rp_keep : list string;
  rp_byDate : jsmap string (list string);
  rp_archived : nat;
  rp_unparseable : nat;
}.

(** [new Date(ms).toISOString().slice(0, 10)] *)
Definition dateOf (ms : Z) : string := String.substring 0 10 (toISOString ms).

Definition planLine (cutoffMs : Z) (plan : RetentionPlan) (line : string) : RetentionPlan :=
  match entryTime line with
  | None => mkPlan (rp_keep plan ++ [line]) (rp_byDate plan) (rp_archived plan) (S (rp_unparseable plan))
  | Some None => mkPlan (rp_keep plan ++ [line]) (rp_byDate plan) (rp_archived plan) (rp_unparseable plan)
  | Some (Some timestampMs) =>
      if cutoffMs <=? timestampMs
      then mkPlan (rp_keep plan ++ [line]) (rp_byDate plan) (rp_archived plan) (rp_unparseable plan)
      else
        let date := dateOf timestampMs in
        mkPlan (rp_keep plan)
          (jm_set date (default [] (jm_get date (rp_byDate plan)) ++ [line]) (rp_byDate plan))
          (S (rp_archived plan)) (rp_unparseable plan)
  end.

Definition buildPlan (lines : list string) (retentionDays : Z) (now : Z) : RetentionPlan :=
  foldl (planLine (now - retentionDays * DAY_MS)) (mkPlan [] jm_empty 0 0) lines.

(** The archive directory: the lines of each dated file. *)
Definition archive : Type := jsmap string (list string).

Definition archiveFile (acc : archive * nat) (dated : string * list string) : archive * nat :=
  let '(files, appended) := acc in
  let '(date, datedLines) := dated in
  let alreadyArchived := default [] (jm_get date files) in
  let fresh := filter (λ line, line ∉ alreadyArchived) datedLines in
  match fresh with
  | [] => (files, appended)
  | _ => (jm_set date (alreadyArchived ++ fresh) files, (appended + length fresh)%nat)
  end.

Definition archiveDated (files : archive) (dated : jsmap string (list string)) : archive * nat :=
  foldl archiveFile (files, 0%nat) dated.

Inductive retention_status := Completed | Skipped | Failed.

Record AuditRetentionResult := mkResult {
  rr_status : retention_status;
  rr_total : nat;
  rr_kept : nat;
  rr_archived : nat;
}.

(** The files a sweep works on. *)
Record disk := mkDisk {
  d_log : list string;
  d_archive : archive;
  d_lock : option lock_text;
}.

(** How a run is cut short: a file operation throws, or the process dies. *)
Inductive ending := Throws | Dies.

(** What happens around one attempt: the lines other processes append before
    its last comparison; a fault before the rename, with the number of dated
    files that were archived by then; the lines appended between that
    comparison and the rename. *)
Record interference := mkInterference {
  if_before : list string;
  if_fault : option (nat * ending);
  if_after : list string;
}.

Inductive progress := Running | Renamed | Stopped (e : ending).
#[export] Instance progress_eq_dec : EqDecision progress.
Proof. unfold EqDecision, Decision. repeat decide equality. Defined.

(** The state of the retry loop. *)
Record sweep := mkSweep {
  sw_log : list string;
  sw_archive : archive;
  sw_progress : progress;
  sw_total : nat;
  sw_kept : nat;
  sw_archived : nat;
}.

(** [fs.renameSync(tmp, log)]: the log is replaced whatever it holds by then. *)
Definition rename (log tmp : list string) : list string := tmp.

(** One attempt; [now] is the clock reading of its plan. *)
Definition attemptSweep (retentionDays : Z) (s : sweep) (attempt : Z * interference) : sweep :=
  let '(now, ext) := attempt in
  match sw_progress s with
  | Running =>
      let source := sw_log s in
      let plan := buildPlan source retentionDays now in
      let current := source ++ if_before ext in
      let archiveFiles n := if (0 <? rp_archived plan)%nat
        then fst (archiveDated (sw_archive s) (take n (rp_byDate plan))) else sw_archive s in
      match if_fault ext with
      | Some (n, e) =>
          mkSweep current (archiveFiles n) (Stopped e) (sw_total s) (sw_kept s) (sw_archived s)
      | None =>
          let files := archiveFiles (length (rp_byDate plan)) in
          let changed := negb (bool_decide (current = source)) in
          if changed then
            mkSweep current files Running (length source) (length (rp_keep plan)) (rp_archived plan)
          else
            mkSweep (rename (current ++ if_after ext) (rp_keep plan)) files Renamed
              (length source) (length (rp_keep plan)) (rp_archived plan)
      end
  | _ => s
  end.

(** Everything a run meets: the clock readings around the lock, faults while the
    lock is taken (with the lock file left behind), while the log is first read
    and while it is read back, the three attempts, and the lines other processes
    append once the attempts are over. *)
Record run_env := mkEnv {
  re_now : Z;
  re_stamp : Z;
  re_lockFault : option (option lock_text * ending);
  re_readFault : option ending;
  re_first : Z * interference;
  re_second : Z * interference;
  re_third : Z * interference;
  re_tail : list string;
  re_verifyFault : option ending;
}.

Definition failedResult : AuditRetentionResult := mkResult Failed 0 0 0.

(** The [catch] and [finally] blocks; a process that dies reaches neither. *)
Definition cutShort (e : ending) (log : list string) (files : archive) (lock : option lock_text)
    : disk * option AuditRetentionResult :=
  match e with
  | Throws => (mkDisk log files None, Some failedResult)
  | Dies => (mkDisk log files lock, None)
  end.

(** [enforceAuditRetention]; no result when the process died. *)
Definition enforceAuditRetention (retentionDays : Z) (env : run_env) (d : disk)
    : disk * option AuditRetentionResult :=
  let unchanged := d_log d ++ re_tail env in
  match re_lockFault env with
  | Some (lock, Throws) => (mkDisk unchanged (d_archive d) lock, Some failedResult)
  | Some (lock, Dies) => (mkDisk unchanged (d_archive d) lock, None)
  | None =>
  match acquireRetentionLock (d_lock d) (re_now env) (re_stamp env) with
  | (lock, Some AlreadyRunning) =>
      (mkDisk unchanged (d_archive d) lock, Some (mkResult Skipped 0 0 0))
  | (lock, Some NotRecovered) => (mkDisk unchanged (d_archive d) lock, Some failedResult)
  | (lock, None) =>
  match re_readFault env with
  | Some e => cutShort e unchanged (d_archive d) lock
  | None =>
      let source := d_log d in
      let plan := buildPlan source retentionDays (fst (re_first env)) in
      if (rp_archived plan =? 0)%nat then
        (mkDisk unchanged (d_archive d) None,
         Some (mkResult Completed (length source) (length source) 0))
      else
        let s := foldl (attemptSweep retentionDays)
                   (mkSweep source (d_archive d) Running (length source) (length (rp_keep plan)) (rp_archived plan))
                   [re_first env; re_second env; re_third env] in
        let log := sw_log s ++ re_tail env in
        match sw_progress s with
        | Running =>
            (mkDisk log (sw_archive s) None,
             Some (mkResult Skipped (sw_total s) (sw_kept s) (sw_archived s)))
        | Stopped e => cutShort e log (sw_archive s) lock
        | Renamed =>
            match re_verifyFault env with
            | Some e => cutShort e log (sw_archive s) lock
            | None =>
                if (length log <? sw_kept s)%nat ||
                   existsb (λ line, bool_decide (entryTime line = None)) log
                then cutShort Throws log (sw_archive s) lock
                else (mkDisk log (sw_archive s) None,
                      Some (mkResult Completed (sw_total s) (sw_kept s) (sw_archived s)))
            end
        end
  end
  end
  end.

(** A line that was in the log at some time is still in the log or in the archive. *)
Definition kept_somewhere (log : list string) (files : archive) (line : string) : Prop :=
  line ∈ log ∨ ∃ date lines, jm_get date files = Some lines ∧ line ∈ lines.

(** ** Plans *)

(** Older than the retention period. *)
Definition expired (cutoffMs : Z) (line : string) : Prop :=
  ∃ ms, entryTime line = Some (Some ms) ∧ ms < cutoffMs.

#[export] Instance expired_dec cutoffMs line : Decision (expired cutoffMs line).
Proof.
  refine (match entryTime line as o return entryTime line = o → _ with
          | Some (Some ms) => λ E, cast_if (decide (ms < cutoffMs))
          | _ => λ E, right _ end eq_refl);
    unfold expired; abstract naive_solver.
Defined.

Record plan_ok (cutoffMs : Z) (lines : list string) (plan : RetentionPlan) : Prop := {
  po_keep : rp_keep plan = filter (λ l, ¬ expired cutoffMs l) lines;
  po_dated : ∀ l, l ∈ lines → expired cutoffMs l →
    ∃ date dl, jm_get date (rp_byDate plan) = Some dl ∧ l ∈ dl;
  po_count : (length (rp_keep plan) + rp_archived plan)%nat = length lines;
  po_some : rp_archived plan = 0%nat → ∀ l, l ∈ lines → ¬ expired cutoffMs l;
  po_only : ∀ date dl l, jm_get date (rp_byDate plan) = Some dl → l ∈ dl →
    l ∈ lines ∧ ∃ ms, entryTime l = Some (Some ms) ∧ ms < cutoffMs ∧ date = dateOf ms;
  po_wf : jm_wf (rp_byDate plan);
}.

Lemma plan_keep cutoff lines plan l u :
  plan_ok cutoff lines plan → ¬ expired cutoff l →
  plan_ok cutoff (lines ++ [l]) (mkPlan (rp_keep plan ++ [l]) (rp_byDate plan) (rp_archived plan) u).
Proof.
  intros [H1 H2 H3 H4 H5 H6] Hl. split; simpl; [| | | | |done].
  - by rewrite filter_app, filter_cons, filter_nil, decide_True, H1.
  - intros l' [?| ->%list_elem_of_singleton]%elem_of_app; [auto|done].
  - rewrite !length_app. simpl. lia.
  - intros ? l' [?| ->%list_elem_of_singleton]%elem_of_app; auto.
  - intros date dl l' Hg Hd. destruct (H5 _ _ _ Hg Hd). split; [set_solver|done].
Qed.

Lemma planLine_ok cutoff lines plan l :
  plan_ok cutoff lines plan → plan_ok cutoff (lines ++ [l]) (planLine cutoff plan l).
Proof.
  intros Hok. unfold planLine. destruct (entryTime l) as [[ms|]|] eqn:E.
  2,3: apply plan_keep; [done|]; intros (? & ? & ?); congruence.
  destruct (cutoff <=? ms) eqn:Ec; to_prop.
  { apply plan_keep; [done|]. intros (ms' & ? & ?). simplify_eq. lia. }
  assert (expired cutoff l) as Hl by (by exists ms). destruct Hok as [H1 H2 H3 H4 H5 H6].
  split; simpl; [| | |done| |auto with oracle].
  - rewrite filter_app, filter_cons, filter_nil, decide_False by tauto. by rewrite app_nil_r.
  - intros l' [Hin| ->%list_elem_of_singleton]%elem_of_app He.
    + destruct (H2 l' Hin He) as (date & dl & Hg & Hd). exists date. rewrite jm_get_set.
      case_decide as Hdt; [|eauto]. subst date. rewrite Hg. eexists. split; [done|]. set_solver.
    + exists (dateOf ms). rewrite jm_get_set_eq. eexists. split; [done|]. set_solver.
  - rewrite length_app. simpl. lia.
  - intros date dl l'. rewrite jm_get_set. case_decide as Hd.
    + subst date. intros [= <-] [Hin| ->%list_elem_of_singleton]%elem_of_app; [|set_solver].
      destruct (jm_get (dateOf ms) (rp_byDate plan)) as [dl|] eqn:Hg; [|set_solver].
      destruct (H5 _ _ _ Hg Hin). split; [set_solver|done].
    + intros Hg Hin. destruct (H5 _ _ _ Hg Hin). split; [set_solver|done].
Qed.

Lemma buildPlan_ok lines days now :
  plan_ok (now - days * DAY_MS) lines (buildPlan lines days now).
Proof.
  unfold buildPlan. induction lines as [|l lines IH] using rev_ind.
  - split; simpl; try done; [set_solver|set_solver|apply jm_wf_empty].
  - rewrite foldl_app. by apply planLine_ok.
Qed.

(** ** Archives only grow *)

Definition extends (f1 f2 : archive) : Prop :=
  ∀ date l1, jm_get date f1 = Some l1 → ∃ more, jm_get date f2 = Some (l1 ++ more).

Lemma extends_refl f : extends f f.
Proof. intros date l H. exists []. by rewrite app_nil_r. Qed.

Lemma extends_trans f1 f2 f3 : extends f1 f2 → extends f2 f3 → extends f1 f3.
Proof.
  intros H12 H23 date l H. destruct (H12 _ _ H) as [m1 H2], (H23 _ _ H2) as [m2 H3].
  exists (m1 ++ m2). by rewrite app_assoc.
Qed.

Lemma archiveFile_ok acc date dl :
  let acc' := archiveFile acc (date, dl) in
  extends acc.1 acc'.1 ∧ ∀ l, l ∈ dl → ∃ lines, jm_get date acc'.1 = Some lines ∧ l ∈ lines.
Proof.
  destruct acc as [files n]. simpl. set (old := default [] (jm_get date files)).
  destruct (filter (λ line, line ∉ old) dl) as [|x fresh] eqn:E; simpl.
  - split; [apply extends_refl|]. intros l Hl. assert (l ∈ old) as Ho.
    { destruct (decide (l ∈ old)); [done|]. assert (l ∈ filter (λ line, line ∉ old) dl) as Hf.
      { by apply list_elem_of_filter. } rewrite E in Hf. set_solver. }
    unfold old in Ho. destruct (jm_get date files); [eauto|set_solver].
  - split.
    + intros date' l1 H1. rewrite jm_get_set. case_decide as Hd; [|exists []; by rewrite app_nil_r].
      subst date'. unfold old. rewrite H1. simpl. eauto.
    + intros l Hl. rewrite jm_get_set_eq. eexists. split; [done|]. rewrite <- E.
      destruct (decide (l ∈ old)); [set_solver|]. apply elem_of_app. right. by apply list_elem_of_filter.
Qed.

Lemma archiveDated_ok files dated :
  extends files (archiveDated files dated).1 ∧
  ∀ date dl l, (date, dl) ∈ dated → l ∈ dl →
    ∃ lines, jm_get date (archiveDated files dated).1 = Some lines ∧ l ∈ lines.
Proof.
  unfold archiveDated. generalize 0%nat as n. intros n.
  change files with (fst (files, n)) at 1. generalize (files, n) as acc. clear files n.
  induction dated as [|[date dl] dated IH]; intros acc; simpl.
  { split; [apply extends_refl|set_solver]. }
  destruct (archiveFile_ok acc date dl) as [Hx Hin], (IH (archiveFile acc (date, dl))) as [Hx' Hin'].
  split; [by eapply extends_trans|].
  intros date' dl' l [Heq|Hd]%elem_of_cons Hl; [|by eapply Hin'].
  simplify_eq. destruct (Hin l Hl) as (lines & Hg & Hll). destruct (Hx' _ _ Hg) as [more Hm].
  eexists. split; [done|]. set_solver.
Qed.

(** The lines of [f2] are those of [f1] and, each under the date of its entry,
    lines of [lines] that were expired at one of the cutoffs. *)
Definition gains (lines : list string) (cutoffs : list Z) (f1 f2 : archive) : Prop :=
  ∀ date ls l, jm_get date f2 = Some ls → l ∈ ls →
    (∃ old, jm_get date f1 = Some old ∧ l ∈ old) ∨
    (l ∈ lines ∧ ∃ ms cutoff, entryTime l = Some (Some ms) ∧ cutoff ∈ cutoffs ∧ ms < cutoff ∧
      date = dateOf ms).

Lemma gains_refl lines cutoffs f : gains lines cutoffs f f.
Proof. intros date ls l Hg Hl. eauto. Qed.

Lemma gains_weaken lines lines' cutoffs cutoffs' f1 f2 :
  lines ⊆ lines' → cutoffs ⊆ cutoffs' → gains lines cutoffs f1 f2 → gains lines' cutoffs' f1 f2.
Proof.
  intros H1 H2 Hg date ls l Hls Hl. destruct (Hg _ _ _ Hls Hl) as [?|(? & ms & c & ? & ? & ?)]; [by left|right].
  split; [auto|]. exists ms, c. auto.
Qed.

Lemma gains_trans lines cutoffs f1 f2 f3 :
  gains lines cutoffs f1 f2 → gains lines cutoffs f2 f3 → gains lines cutoffs f1 f3.
Proof.
  intros H12 H23 date ls l Hls Hl. destruct (H23 _ _ _ Hls Hl) as [(old & Ho & Hlo)|?]; [|by right].
  by eapply H12.
Qed.

Lemma archiveFile_only acc date dl date' ls l :
  jm_get date' (archiveFile acc (date, dl)).1 = Some ls → l ∈ ls →
  (∃ old, jm_get date' acc.1 = Some old ∧ l ∈ old) ∨ (date' = date ∧ l ∈ dl).
Proof.
  destruct acc as [files n]. simpl. destruct (filter _ dl) as [|x fresh] eqn:E; cbn [fst]; [eauto|].
  rewrite jm_get_set. case_decide as Hd; [subst date'|eauto].
  intros [= <-] [Hl|Hl]%elem_of_app.
  - left. destruct (jm_get date files); [eauto|set_solver].
  - right. split; [done|]. rewrite <- E in Hl. by apply list_elem_of_filter in Hl as [_ ?].
Qed.

Lemma archiveDated_only files dated date ls l :
  jm_get date (archiveDated files dated).1 = Some ls → l ∈ ls →
  (∃ old, jm_get date files = Some old ∧ l ∈ old) ∨ ∃ dl, (date, dl) ∈ dated ∧ l ∈ dl.
Proof.
  unfold archiveDated. generalize 0%nat as n. intros n.
  change (jm_get date files) with (jm_get date (fst (files, n))). generalize (files, n) as acc.
  clear files n. induction dated as [|[date0 dl0] dated IH]; intros acc; simpl; [eauto|].
  intros Hg Hl. destruct (IH _ Hg Hl) as [(old & Ho & Hlo)|(dl & ? & ?)]; [|right; exists dl; set_solver].
  destruct (archiveFile_only _ _ _ _ _ _ Ho Hlo) as [?|[-> ?]]; [by left|right]. exists dl0. set_solver.
Qed.

Lemma kept_extends log f1 f2 l : extends f1 f2 → kept_somewhere log f1 l → kept_somewhere log f2 l.
Proof.
  intros Hx [?|(date & lines & Hg & Hl)]; [by left|right].
  destruct (Hx _ _ Hg) as [more Hm]. exists date, (lines ++ more). set_solver.
Qed.

(** ** Attempts *)

(** The archive an attempt leaves, complete or not. *)
Lemma attempt_archives lines days now n files :
  let plan := buildPlan lines days now in
  let files' := if (0 <? rp_archived plan)%nat
    then fst (archiveDated files (take n (rp_byDate plan))) else files in
  extends files files' ∧ gains lines [now - days * DAY_MS] files files' ∧
  (n = length (rp_byDate plan) → ∀ l, l ∈ lines → expired (now - days * DAY_MS) l →
    ∃ date ls, jm_get date files' = Some ls ∧ l ∈ ls).
Proof.
  intros plan files'. pose proof (buildPlan_ok lines days now) as [_ P2 _ P4 P5 P6].
  fold plan in P2, P4, P5, P6. unfold files'. destruct (Nat.ltb_spec 0 (rp_archived plan)) as [Hpos|H0].
  - destruct (archiveDated_ok files (take n (rp_byDate plan))) as [Hx Hin]. split_and!; [done| |].
    + intros date ls l Hg Hl.
      destruct (archiveDated_only _ _ _ _ _ Hg Hl) as [?|(dl & Hd & Hdl)]; [by left|right].
      apply elem_of_take in Hd as (i & Hi & _). apply list_elem_of_lookup_2, jm_elem_get in Hi; [|done].
      destruct (P5 _ _ _ Hi Hdl) as (? & ms & ? & ? & ?). split; [done|].
      exists ms, (now - days * DAY_MS). split_and!; [done|set_solver|done..].
    + intros -> l Hl He. rewrite firstn_all in Hin. destruct (P2 l Hl He) as (date & dl & Hg & Hd).
      destruct (Hin date dl l) as (ls & ? & ?); [by apply jm_get_elem|done|].
      rewrite firstn_all. eauto.
  - split_and!; [apply extends_refl|apply gains_refl|]. intros _ l Hl He. destruct (P4 ltac:(lia) l Hl He).
Qed.

Definition cutoffOf (days : Z) (a : Z * interference) : Z := a.1 - days * DAY_MS.

(** What an attempt does to the log it found. *)
Lemma attemptSweep_ok days s a :
  sw_progress s = Running →
  let s' := attemptSweep days s a in
  extends (sw_archive s) (sw_archive s') ∧
  gains (sw_log s) [cutoffOf days a] (sw_archive s) (sw_archive s') ∧
  match sw_progress s' with
  | Renamed =>
      if_before a.2 = [] ∧ sw_log s' = filter (λ l, ¬ expired (cutoffOf days a) l) (sw_log s) ∧
      (∀ l, l ∈ sw_log s → kept_somewhere (sw_log s') (sw_archive s') l) ∧
      sw_kept s' = length (sw_log s') ∧ sw_total s' = length (sw_log s) ∧
      (sw_kept s' + sw_archived s')%nat = sw_total s'
  | _ => sw_log s' = sw_log s ++ if_before a.2
  end.
Proof.
  destruct a as [now ext]. intros Hr. unfold attemptSweep, cutoffOf. rewrite Hr. cbn [fst snd].
  pose proof (buildPlan_ok (sw_log s) days now) as [P1 _ P3 _ _ _].
  destruct (if_fault ext) as [[n e]|].
  { destruct (attempt_archives (sw_log s) days now n (sw_archive s)) as (Hx & Hg & _). by split_and!. }
  destruct (attempt_archives (sw_log s) days now
    (length (rp_byDate (buildPlan (sw_log s) days now))) (sw_archive s)) as (Hx & Hg & Hall).
  set (plan := buildPlan (sw_log s) days now) in *. specialize (Hall eq_refl).
  case_bool_decide as Hch; cbn [negb sw_log sw_archive sw_progress sw_kept sw_total sw_archived];
    (split; [exact Hx|split; [exact Hg|]]); [|done].
  assert (if_before ext = []) as Hno by (apply (app_inv_head (sw_log s)); by rewrite app_nil_r).
  unfold rename. split_and!; [done..| |done|done|done]. intros l Hl. rewrite P1.
  destruct (decide (expired (now - days * DAY_MS) l)); [right; eauto|left].
  by apply list_elem_of_filter.
Qed.

Lemma stopped_stays days attempts s :
  sw_progress s ≠ Running → foldl (attemptSweep days) s attempts = s.
Proof.
  intros Hr. induction attempts as [|[now ext] rest IH]; [done|]. cbn [foldl].
  assert (attemptSweep days s (now, ext) = s) as -> by (unfold attemptSweep; by destruct (sw_progress s)).
  done.
Qed.

(** The lines other processes appended during the attempts [ran]. *)
Definition appended (ran : list (Z * interference)) : list string :=
  concat (map (λ a, if_before a.2) ran).

(** The log after the attempts [ran] over a log [lines]: whether it was replaced
    by the last of them or only appended to. *)
Definition logAfter (days : Z) (lines : list string) (ran : list (Z * interference)) (replaced : bool)
    : list string :=
  let seen := lines ++ appended ran in
  match replaced, last ran with
  | true, Some a => filter (λ l, ¬ expired (cutoffOf days a) l) seen
  | _, _ => seen
  end.

(** What a run of the loop guarantees. *)
Record loop_ok (days : Z) (s s' : sweep) (ran : list (Z * interference)) : Prop := {
  lo_extends : extends (sw_archive s) (sw_archive s');
  lo_gains : gains (sw_log s ++ appended ran) (cutoffOf days <$> ran) (sw_archive s) (sw_archive s');
  lo_log : sw_log s' = logAfter days (sw_log s) ran (match sw_progress s' with Renamed => true | _ => false end);
  lo_kept : ∀ l, l ∈ sw_log s ++ appended ran → kept_somewhere (sw_log s') (sw_archive s') l;
  lo_counts : sw_progress s' = Renamed → ran ≠ [] ∧
    sw_kept s' = length (sw_log s') ∧ sw_total s' = length (sw_log s ++ appended ran) ∧
    (sw_kept s' + sw_archived s')%nat = sw_total s';
}.

Lemma loop_nil days s : sw_progress s = Running → loop_ok days s s [].
Proof.
  intros Hr. split; unfold logAfter, appended; simpl; rewrite ?app_nil_r, ?Hr; try done;
    [apply extends_refl|apply gains_refl|]. intros l Hl. by left.
Qed.

Lemma loop_one days s a :
  sw_progress s = Running → sw_progress (attemptSweep days s a) ≠ Running →
  loop_ok days s (attemptSweep days s a) [a].
Proof.
  intros Hr Hend. destruct (attemptSweep_ok days s a Hr) as (Hx & Hg & Hm).
  set (s1 := attemptSweep days s a) in *. clearbody s1.
  split; unfold logAfter, appended; cbn [map concat last]; rewrite ?app_nil_r.
  - done.
  - eapply gains_weaken; [| |exact Hg]; set_solver.
  - destruct (sw_progress s1); [done| |done]. destruct Hm as (Hb & Hl & _). by rewrite Hb, app_nil_r.
  - destruct (sw_progress s1); [done| |intros l Hl; left; by rewrite Hm].
    destruct Hm as (Hb & _ & Hk & _). rewrite Hb, app_nil_r. exact Hk.
  - intros Hp. rewrite Hp in Hm. destruct Hm as (Hb & _ & _ & Hk & Ht & Hc).
    rewrite Hb, app_nil_r. by split_and!.
Qed.

Lemma loop_cons days s s' a ran :
  sw_progress s = Running → sw_progress (attemptSweep days s a) = Running →
  loop_ok days (attemptSweep days s a) s' ran → loop_ok days s s' (a :: ran).
Proof.
  intros Hr Hr1 [H1 H2 H3 H4 H5]. destruct (attemptSweep_ok days s a Hr) as (Hx & Hg & Hm).
  set (s1 := attemptSweep days s a) in *. clearbody s1. rewrite Hr1 in Hm.
  assert (sw_log s1 ++ appended ran = sw_log s ++ appended (a :: ran)) as Heq
    by (unfold appended; cbn [map concat]; by rewrite Hm, <- app_assoc).
  split.
  - by eapply extends_trans.
  - eapply gains_trans; [eapply gains_weaken; [| |exact Hg]|eapply gains_weaken; [| |exact H2]];
      rewrite <- ?Heq, ?Hm; set_solver.
  - rewrite H3. unfold logAfter. rewrite Heq. case_match; try done.
    destruct (H5 eq_refl) as [Hne _]. by destruct ran.
  - by rewrite <- Heq.
  - intros Hp. destruct (H5 Hp) as (_ & Hrest). by rewrite <- Heq.
Qed.

Lemma sweep_loop days attempts : ∀ s,
  sw_progress s = Running →
  ∃ ran, ran `prefix_of` attempts ∧ loop_ok days s (foldl (attemptSweep days) s attempts) ran.
Proof.
  induction attempts as [|a rest IH]; intros s Hr; cbn [foldl].
  { exists []. split; [done|by apply loop_nil]. }
  destruct (decide (sw_progress (attemptSweep days s a) = Running)) as [Hr1|Hend].
  - destruct (IH _ Hr1) as (ran & Hp & Hok). exists (a :: ran).
    split; [by apply prefix_cons|by apply loop_cons].
  - exists [a]. rewrite stopped_stays by done. split; [by apply prefix_cons, prefix_nil|by apply loop_one].
Qed.
End retention.

(** ** Properties *)

(** The part of the result that depends on how the run ended. *)
Definition result_ok (entryTime : string → option (option Z)) (days : Z) (env : run_env) (d d' : disk)
    (ran : list (Z * interference)) (replaced : bool) (r : option AuditRetentionResult) : Prop :=
  match r with
  | None => True
  | Some r =>
      match rr_status r with
      | Completed =>
          d_lock d' = None ∧ (rr_kept r + rr_archived r)%nat = rr_total r ∧
          (if replaced
           then rr_total r = length (d_log d ++ appended ran) ∧
                rr_kept r = length (logAfter entryTime days (d_log d) ran true)
           else ran = [] ∧ rr_total r = length (d_log d) ∧ rr_archived r = 0%nat ∧
                ∀ l, l ∈ d_log d → ¬ expired entryTime (cutoffOf days (re_first env)) l)
      | Skipped => replaced = false
      | Failed => True
      end
  end.

Section evidence.
Context (entryTime : string → option (option Z)) (days : Z) (env : run_env) (d : disk).

(** What holds of the files and of the result after a run. *)
Definition evidence_ok (d' : disk) (r : option AuditRetentionResult) : Prop :=
  ∃ ran replaced, ran `prefix_of` [re_first env; re_second env; re_third env] ∧
    (replaced = true → ran ≠ []) ∧
    d_log d' = logAfter entryTime days (d_log d) ran replaced ++ re_tail env ∧
    (∀ l, l ∈ d_log d ++ appended ran ++ re_tail env → kept_somewhere (d_log d') (d_archive d') l) ∧
    extends (d_archive d) (d_archive d') ∧
    gains entryTime (d_log d ++ appended ran) (cutoffOf days <$> ran) (d_archive d) (d_archive d') ∧
    result_ok entryTime days env d d' ran replaced r.

(** Runs that stop before the first attempt. *)
Lemma untouched_ok lock r :
  result_ok entryTime days env d (mkDisk (d_log d ++ re_tail env) (d_archive d) lock) [] false r →
  evidence_ok (mkDisk (d_log d ++ re_tail env) (d_archive d) lock) r.
Proof.
  intros Hr. exists [], false. unfold logAfter, appended. cbn [map concat]. rewrite app_nil_r.
  split_and!; [apply prefix_nil|done|done| |apply extends_refl|apply gains_refl|exact Hr].
  intros l Hl. by left.
Qed.

Lemma cutShort_untouched e lock :
  evidence_ok (cutShort e (d_log d ++ re_tail env) (d_archive d) lock).1
    (cutShort e (d_log d ++ re_tail env) (d_archive d) lock).2.
Proof. destruct e; by apply untouched_ok. Qed.

(** Runs that went through attempts. *)
Lemma swept_ok s ran lock r :
  let replaced := match sw_progress s with Renamed => true | _ => false end in
  ran `prefix_of` [re_first env; re_second env; re_third env] →
  loop_ok entryTime days (mkSweep (d_log d) (d_archive d) Running 0 0 0) s ran →
  result_ok entryTime days env d (mkDisk (sw_log s ++ re_tail env) (sw_archive s) lock) ran replaced r →
  evidence_ok (mkDisk (sw_log s ++ re_tail env) (sw_archive s) lock) r.
Proof.
  intros replaced Hp [H1 H2 H3 H4 H5] Hr. exists ran, replaced. simpl in *.
  split_and!; [done| |by rewrite H3| |done|done|done].
  - unfold replaced. destruct (sw_progress s); try done. intros _. by apply H5.
  - intros l. rewrite app_assoc. intros [Hl|Hl]%elem_of_app; [|left; set_solver].
    destruct (H4 l Hl); [left; set_solver|by right].
Qed.

Lemma cutShort_swept e s ran lock :
  ran `prefix_of` [re_first env; re_second env; re_third env] →
  loop_ok entryTime days (mkSweep (d_log d) (d_archive d) Running 0 0 0) s ran →
  evidence_ok (cutShort e (sw_log s ++ re_tail env) (sw_archive s) lock).1
    (cutShort e (sw_log s ++ re_tail env) (sw_archive s) lock).2.
Proof. intros Hp Hl. destruct e; by eapply swept_ok. Qed.

(** Nothing stands in the way of the first attempt. *)
Definition undisturbed : Prop :=
  re_lockFault env = None ∧ snd (acquireRetentionLock (d_lock d) (re_now env) (re_stamp env)) = None ∧
  re_readFault env = None ∧ if_fault (re_first env).2 = None ∧ if_before (re_first env).2 = [] ∧
  re_verifyFault env = None ∧ ∀ l, l ∈ d_log d ++ re_tail env → entryTime l ≠ None.

Lemma undisturbed_completes :
  undisturbed → rr_status <$> (enforceAuditRetention entryTime days env d).2 = Some Completed.
Proof.
  intros (Hlf & Hlock & Hrf & Hf & Hb & Hvf & Hall). unfold enforceAuditRetention. rewrite Hlf.
  destruct (acquireRetentionLock _ _ _) as [lock o]. cbn [snd] in Hlock. subst o. rewrite Hrf.
  pose proof (buildPlan_ok entryTime (d_log d) days (re_first env).1) as [P1 _ _ _ _ _].
  destruct (rp_archived _ =? 0)%nat; [done|]. set (s0 := mkSweep (d_log d) _ _ _ _ _). cbn [foldl].
  set (s1 := attemptSweep entryTime days s0 (re_first env)).
  assert (sw_progress s1 = Renamed ∧ sw_kept s1 = length (sw_log s1) ∧
    sw_log s1 = rp_keep (buildPlan entryTime (d_log d) days (re_first env).1)) as (Hr & Hk & Hl).
  { unfold s1, attemptSweep. destruct (re_first env) as [now ext]. simpl in *.
    rewrite Hf, Hb, app_nil_r, bool_decide_true by done. done. }
  pose proof (stopped_stays entryTime days [re_second env; re_third env] s1 ltac:(by rewrite Hr)) as Hst.
  cbn [foldl] in Hst. rewrite Hst, Hr, Hvf. clearbody s1.
  rewrite (proj2 (Nat.ltb_ge _ _)) by (rewrite length_app; lia).
  assert (existsb (λ line, bool_decide (entryTime line = None)) (sw_log s1 ++ re_tail env) = false) as ->; [|done].
  apply not_true_iff_false. intros (l & Hin & He%bool_decide_eq_true)%existsb_exists.
  apply list_elem_of_In in Hin. apply (Hall l); [|done]. rewrite Hl, P1 in Hin.
  apply elem_of_app in Hin as [[_ ?]%list_elem_of_filter|?]; set_solver.
Qed.

(** C25: A retention sweep never loses evidence, however it ends.  Let [ran] be
    the attempts that took place and [appended ran] what other processes
    appended before their comparisons.  Then the log is the old one with those
    lines, reduced to the lines that were not expired at the last attempt's
    clock if that attempt replaced it, followed by what was appended later;
    every one of these lines is in the log or in the archive; archive files
    only grow at their end, and only by lines of the log that were expired at
    some attempt, each under the date of its entry.  A completed sweep accounts
    for each line it read as kept or archived (and one that archives nothing
    found no expired line), a skipped one did not replace the log; a sweep that
    gets the lock, meets no fault and no other writer in its first attempt and
    reads back only entries completes.  Faults of
    file operations and the death of the process are covered, at every point
    between file operations; the lines appended between the last comparison and the
    rename are not (see [late_line_lost]). *)
Theorem retention_keeps_evidence :
  evidence_ok (enforceAuditRetention entryTime days env d).1 (enforceAuditRetention entryTime days env d).2 ∧
  (undisturbed → rr_status <$> (enforceAuditRetention entryTime days env d).2 = Some Completed).
Proof.
  split; [|apply undisturbed_completes].
  unfold enforceAuditRetention. destruct (re_lockFault env) as [[lock []]|]; [by apply untouched_ok..|].
  destruct (acquireRetentionLock (d_lock d) _ _) as [lock [[]|]]; [by apply untouched_ok..|].
  destruct (re_readFault env) as [e|]; [apply cutShort_untouched|].
  pose proof (buildPlan_ok entryTime (d_log d) days (re_first env).1) as [_ _ P3 P4 _ _].
  set (plan := buildPlan entryTime (d_log d) days (re_first env).1) in *.
  destruct (rp_archived plan =? 0)%nat eqn:E0.
  { apply Nat.eqb_eq in E0. apply untouched_ok. split_and!; [done|simpl; lia|done..|]. by apply P4. }
  set (s0 := mkSweep (d_log d) _ _ _ _ _).
  destruct (sweep_loop entryTime days [re_first env; re_second env; re_third env] s0 eq_refl)
    as (ran & Hp & Hok). set (s := foldl _ s0 _) in *. clearbody s.
  assert (loop_ok entryTime days (mkSweep (d_log d) (d_archive d) Running 0 0 0) s ran) as Hok'
    by (by destruct Hok; split).
  destruct (sw_progress s) eqn:Es; [|destruct (re_verifyFault env); [by eapply cutShort_swept|]|by eapply cutShort_swept].
  { apply (swept_ok s ran); [done|done|]. by rewrite Es. }
  destruct (_ || _); [by apply (cutShort_swept Throws s ran)|].
  apply (swept_ok s ran); [done|done|]. rewrite Es.
  destruct (lo_counts _ _ _ _ _ Hok' Es) as (_ & Hk & Ht & Hc). pose proof (lo_log _ _ _ _ _ Hok') as Hlog.
  rewrite Es in Hlog. simpl in *. split_and!; [done..|]. by rewrite Hk, Hlog.
Qed.
End evidence.

Definition no_interference : Z * interference := (100 * DAY_MS, mkInterference [] None []).

(** A run without faults in which only the first attempt meets interference. *)
Definition quiet_env (first : Z * interference) : run_env :=
  mkEnv 0 0 None None first no_interference no_interference [] None.

(** Lines of the form [eN] are entries of day N. *)
Definition demo_time (line : string) : option (option Z) :=
  if bool_decide (line = "e1") then Some (Some (1 * DAY_MS))
  else if bool_decide (line = "e99") then Some (Some (99 * DAY_MS)) else None.

(** A line appended between the last comparison and the rename is in neither. *)
Example late_line_lost :
  let '(d, r) := enforceAuditRetention demo_time 90
    (quiet_env (100 * DAY_MS, mkInterference [] None ["e99"])) (mkDisk ["e1"] jm_empty None) in
  rr_status <$> r = Some Completed ∧ d_log d = [] ∧ jm_values (d_archive d) = [["e1"]].
Proof. vm_compute. done. Qed.

(** The process dies after archiving and before the rename: the log is whole,
    the lock stays, and the sweep that follows archives nothing twice. *)
Example crash_then_sweep :
  let env := quiet_env (100 * DAY_MS, mkInterference [] (Some (1%nat, Dies)) []) in
  let '(d1, r1) := enforceAuditRetention demo_time 90 env (mkDisk ["e1"; "e99"] jm_empty None) in
  let later := mkEnv (LOCK_STALE_MS + 1) 0 None None no_interference no_interference no_interference [] None in
  let '(d2, r2) := enforceAuditRetention demo_time 90 later d1 in
  r1 = None ∧ d_log d1 = ["e1"; "e99"] ∧ d_lock d1 = Some (LockAt 0) ∧
  rr_status <$> r2 = Some Completed ∧ d_log d2 = ["e99"] ∧ jm_values (d_archive d2) = [["e1"]].
Proof. vm_compute. done. Qed.

(** A line that is no audit entry is kept by every plan, and makes each sweep
    that has something to archive report failure after it has already archived
    the entries and replaced the log. *)
Theorem unparseable_line_fails entryTime days t after d bad :
  d_lock d = None → bad ∈ d_log d → entryTime bad = None →
  (∃ l, l ∈ d_log d ∧ expired entryTime (t - days * DAY_MS) l) →
  let '(d', r) := enforceAuditRetention entryTime days
    (quiet_env (t, mkInterference [] None after)) d in
  rr_status <$> r = Some Failed ∧ bad ∈ d_log d' ∧
  d_log d' = filter (λ l, ¬ expired entryTime (t - days * DAY_MS) l) (d_log d).
Proof.
  intros Hlock Hbad Hnone (l0 & Hl0 & He0). unfold enforceAuditRetention, quiet_env.
  cbn [re_lockFault re_now re_stamp re_readFault re_first re_second re_third re_tail re_verifyFault].
  rewrite Hlock. cbn [acquireRetentionLock fst].
  pose proof (buildPlan_ok entryTime (d_log d) days t) as [P1 _ _ P4 _ _].
  destruct (rp_archived (buildPlan entryTime (d_log d) days t) =? 0)%nat eqn:E0.
  { apply Nat.eqb_eq in E0. by destruct (P4 E0 _ Hl0). }
  set (s0 := mkSweep (d_log d) _ _ _ _ _). cbn [foldl].
  set (s1 := attemptSweep entryTime days s0 _).
  assert (sw_progress s1 = Renamed ∧ sw_log s1 = rp_keep (buildPlan entryTime (d_log d) days t)) as [Hr Hl].
  { unfold s1, attemptSweep. simpl. rewrite app_nil_r, bool_decide_true by done. done. }
  pose proof (stopped_stays entryTime days [no_interference; no_interference] s1
    ltac:(by rewrite Hr)) as Hst. cbn [foldl] in Hst. rewrite Hst, Hr, app_nil_r. clearbody s1.
  assert (bad ∈ sw_log s1) as Hb.
  { rewrite Hl, P1. apply list_elem_of_filter. split; [|done]. intros (? & ? & _). congruence. }
  assert (existsb (λ line, bool_decide (entryTime line = None)) (sw_log s1) = true) as ->.
  { apply existsb_exists. exists bad. split; [|by apply bool_decide_eq_true]. by apply list_elem_of_In. }
  rewrite orb_true_r. simpl. split_and!; [done..|by rewrite Hl, P1].
Qed.

Lemma unparseable_line_fails_witness :
  let '(d, r) := enforceAuditRetention demo_time 90 (quiet_env no_interference)
    (mkDisk ["e1"; "{"; "e99"] jm_empty None) in
  rr_status <$> r = Some Failed ∧ d_log d = ["{"; "e99"].
Proof.
  pose proof (unparseable_line_fails demo_time 90 (100 * DAY_MS) []
    (mkDisk ["e1"; "{"; "e99"] jm_empty None) "{" eq_refl) as H.
  simpl d_log in H. specialize (H ltac:(set_solver) eq_refl).
  unfold no_interference. destruct (enforceAuditRetention _ _ _ _) as [d r].
  destruct H as (H1 & _ & H2); [exists "e1"; split; [set_solver|by exists (1 * DAY_MS)]|].
  split; [exact H1|]. rewrite H2. reflexivity.
Defined.
End Retention.
