(* ===== verification/Access.v ===== *)
(** * Access control: roles, permissions and credential policies

    Module [KeyPolicy]: the policy scopes of [api/src/governance/api-key-manager.ts]
    ([normalizePolicyScope], [checkPolicyScope] and their helpers).  Module [Rbac]:
    [api/src/governance/rbac.ts], the role tables, the scope checks and the two
    route guards.  A guard is a function from the request and the recent denials
    to its decision; the response body and the audit line are left out.

    - [KeyPolicy.normalize_canonical]: what normalisation accepts and returns, and
      that normalising twice changes nothing;
    - [Rbac.guards_exact]: the requests each guard admits, and the record it keeps
      of the others;
    - [Rbac.scopes_only_narrow]: policy scopes never grant what the role alone
      would not, and a higher role passes every guard a lower one passes;
    - [Rbac.checkers_agree]: where the two scope checkers of the service agree,
      and the wildcard on which they do not. *)

From Stdlib Require Import ZArith QArith Qround Lia.
From stdpp Require Import base list strings sets.
From S2P Require Import Prelude JsMap JsNum.

Local Open Scope Z_scope.

Module KeyPolicy.

(** Caller-supplied values: a dimension is absent, not an array, or an array
    whose non-string members are [None]; a time is absent, a number or not one. *)
Inductive dim_input := DAbsent | DNotArray | DArray (l : list (option string)).
Inductive time_input := TAbsent | TNumber (n : number) | TOther.

Record policy_input := mkInput {
  pi_feeds : dim_input;
  pi_operations : dim_input;
  pi_environments : dim_input;
  pi_effectiveAt : time_input;
  pi_expiresAt : time_input;
}.

Record KeyPolicyScope := mkScope {
  kp_feeds : option (list string);
  kp_operations : option (list string);
  kp_environments : option (list string);
  kp_effectiveAt : option Z;
  kp_expiresAt : option Z;
}.

(** [InvalidPolicyScopeError], by the field it names. *)
Inductive scope_error := BadDimension (field : string) | BadEffectiveAt | BadExpiresAt | BadOrder.

Definition SCOPE_WILDCARD : string := "*".

(** The loop that trims and removes duplicates; [None] when an entry is not a
    non-blank string. *)
Fixpoint cleanValues (cleaned : list string) (values : list (option string)) : option (list string) :=
  match values with
  | [] => Some cleaned
  | None :: _ => None
  | Some value :: rest =>
      let trimmed := trim value in
      if bool_decide (trimmed = "") then None
      else cleanValues (if bool_decide (trimmed ∈ cleaned) then cleaned else cleaned ++ [trimmed]) rest
  end.

Definition normalizeDimension (values : dim_input) (field : string)
    : result scope_error (option (list string)) :=
  match values with
  | DAbsent => Ok None
  | DNotArray => Throw (BadDimension field)
  | DArray l =>
      match cleanValues [] l with
      | None => Throw (BadDimension field)
      | Some [] => Ok None
      | Some cleaned => Ok (Some cleaned)
      end
  end.

Definition normalizeTime (t : time_input) (e : scope_error) : result scope_error (option Z) :=
  match t with
  | TAbsent => Ok None
  | TOther => Throw e
  | TNumber n =>
      if negb (is_finite n) || num_leb n (NInt 0) then Throw e
      else match n with NFin q => Ok (Some (Qfloor q)) | _ => Throw e end
  end.

Definition rbind {E A B} (r : result E A) (f : A → result E B) : result E B :=
  match r with Ok a => f a | Throw e => Throw e end.

Definition normalizePolicyScope (policy : option policy_input)
    : result scope_error (option KeyPolicyScope) :=
  match policy with
  | None => Ok None
  | Some p =>
      rbind (normalizeDimension (pi_feeds p) "feeds") (λ feeds,
      rbind (normalizeDimension (pi_operations p) "operations") (λ operations,
      rbind (normalizeDimension (pi_environments p) "environments") (λ environments,
      rbind (normalizeTime (pi_effectiveAt p) BadEffectiveAt) (λ effectiveAt,
      rbind (normalizeTime (pi_expiresAt p) BadExpiresAt) (λ expiresAt,
      if match effectiveAt, expiresAt with Some f, Some t => t <=? f | _, _ => false end
      then Throw BadOrder
      else if bool_decide (feeds = None) && bool_decide (operations = None) &&
              bool_decide (environments = None) && bool_decide (effectiveAt = None) &&
              bool_decide (expiresAt = None)
      then Ok None
      else Ok (Some (mkScope feeds operations environments effectiveAt expiresAt)))))))
  end.

(** ** Checks *)

Record scope_request := mkRequest {
  sr_feed : option string;
  sr_operation : option string;
  sr_environment : option string;
}.

Inductive deny_reason := DExpired | DNotYetEffective | DFeed | DOperation | DEnvironment.

Definition dimensionAllows (allowed : option (list string)) (requested : option string) : bool :=
  match allowed with
  | None | Some [] => true
  | Some l =>
      if bool_decide (SCOPE_WILDCARD ∈ l) then true
      else match requested with None => false | Some r => bool_decide (r ∈ l) end
  end.

Definition isPolicyExpired (policy : option KeyPolicyScope) (now : Z) : bool :=
  match policy with
  | Some p => match kp_expiresAt p with Some t => t <=? now | None => false end
  | None => false
  end.

Definition isPolicyEffective (policy : option KeyPolicyScope) (now : Z) : bool :=
  match policy with
  | Some p => match kp_effectiveAt p with Some t => t <=? now | None => true end
  | None => true
  end.

(** [None] when the request is allowed. *)
Definition checkPolicyScope (policy : option KeyPolicyScope) (request : scope_request) (now : Z)
    : option deny_reason :=
  match policy with
  | None => None
  | Some p =>
      if isPolicyExpired policy now then Some DExpired
      else if negb (isPolicyEffective policy now) then Some DNotYetEffective
      else if negb (dimensionAllows (kp_feeds p) (sr_feed request)) then Some DFeed
      else if negb (dimensionAllows (kp_operations p) (sr_operation request)) then Some DOperation
      else if negb (dimensionAllows (kp_environments p) (sr_environment request)) then Some DEnvironment
      else None
  end.

(** ** Canonical policies *)

(** A normalised dimension: not empty, trimmed, non-blank and without duplicates. *)
Definition dim_ok (d : option (list string)) : Prop :=
  match d with
  | None => True
  | Some l => l ≠ [] ∧ NoDup l ∧ Forall (λ v, trim v = v ∧ v ≠ "") l
  end.

Definition scope_ok (s : KeyPolicyScope) : Prop :=
  dim_ok (kp_feeds s) ∧ dim_ok (kp_operations s) ∧ dim_ok (kp_environments s) ∧
  (∀ f t, kp_effectiveAt s = Some f → kp_expiresAt s = Some t → f < t) ∧
  (kp_feeds s, kp_operations s, kp_environments s, kp_effectiveAt s, kp_expiresAt s) ≠
    (None, None, None, None, None).

(** A stored policy, read back as caller input. *)
Definition as_dim (d : option (list string)) : dim_input :=
  match d with Some l => DArray (Some <$> l) | None => DAbsent end.
Definition as_time (t : option Z) : time_input :=
  match t with Some z => TNumber (NInt z) | None => TAbsent end.
Definition as_input (s : KeyPolicyScope) : policy_input :=
  mkInput (as_dim (kp_feeds s)) (as_dim (kp_operations s)) (as_dim (kp_environments s))
    (as_time (kp_effectiveAt s)) (as_time (kp_expiresAt s)).

Lemma cleanValues_ok cleaned values out :
  cleanValues cleaned values = Some out →
  NoDup cleaned → Forall (λ v, trim v = v ∧ v ≠ "") cleaned →
  NoDup out ∧ Forall (λ v, trim v = v ∧ v ≠ "") out ∧
  ∀ v, v ∈ out ↔ v ∈ cleaned ∨ ∃ x, Some x ∈ values ∧ trim x = v.
Proof.
  revert cleaned. induction values as [|[x|] values IH]; intros cleaned; simpl; [|case_bool_decide as Hb|done].
  { intros [= <-] ? ?. split_and!; [done..|]. set_solver. }
  { done. }
  intros H Hn Hf. destruct (IH _ H) as (H1 & H2 & H3).
  - case_bool_decide; [done|]. apply NoDup_app. split_and!; [done|set_solver|apply NoDup_singleton].
  - case_bool_decide; [done|]. apply Forall_app. split; [done|]. constructor; [|done].
    split; [apply trim_idemp|done].
  - split_and!; [done..|]. intros v. rewrite H3. case_bool_decide; set_solver.
Qed.

Lemma normalizeDimension_ok d field out : normalizeDimension d field = Ok out → dim_ok out.
Proof.
  destruct d as [| |l]; simpl; [by intros [= <-]|done|].
  destruct (cleanValues [] l) as [[|v out']|] eqn:E; [by intros [= <-]|intros [= <-]|done].
  apply cleanValues_ok in E as (H1 & H2 & _); [|constructor|constructor]. done.
Qed.

Lemma cleanValues_fix cleaned l :
  NoDup (cleaned ++ l) → Forall (λ v, trim v = v ∧ v ≠ "") l →
  cleanValues cleaned (Some <$> l) = Some (cleaned ++ l).
Proof.
  revert cleaned. induction l as [|v l IH]; intros cleaned Hn Hf; simpl; [by rewrite app_nil_r|].
  apply Forall_cons in Hf as [[Ht Hv] Hf]. rewrite Ht, bool_decide_false by done.
  rewrite bool_decide_false; [rewrite IH; rewrite <- ?app_assoc; done|].
  apply NoDup_app in Hn as (_ & Hd & _). set_solver.
Qed.

Lemma normalizeDimension_fix d field : dim_ok d → normalizeDimension (as_dim d) field = Ok d.
Proof.
  destruct d as [l|]; simpl; [|done]. intros (Hne & Hnd & Hf). rewrite (cleanValues_fix [] l) by done.
  by destruct l.
Qed.

Lemma normalizeTime_ok t e z : normalizeTime t e = Ok (Some z) → 0 <= z.
Proof.
  destruct t as [|n|]; simpl; [done| |done]. destruct (negb (is_finite n) || _) eqn:E; [done|]. to_prop.
  destruct n as [q| |]; [|done..]. intros [= <-]. change 0 with (Qfloor 0). apply Qfloor_resp_le.
  destruct (Qlt_le_dec q 0) as [Hq|Hq]; [|done]. exfalso.
  enough (Qle_bool q (inject_Z 0) = true) as Ht by (simpl in *; congruence).
  apply Qle_bool_iff. by apply Qlt_le_weak.
Qed.

Lemma normalizeTime_fix t e : (∀ z, t = Some z → 0 < z) → normalizeTime (as_time t) e = Ok t.
Proof.
  intros Ht. destruct t as [z|]; [|done]. specialize (Ht z eq_refl). cbn [as_time normalizeTime].
  rewrite num_leb_int. destruct (z <=? 0) eqn:E; to_prop; [lia|]. cbn [negb is_finite orb NInt].
  by rewrite Qfloor_Z.
Qed.

Lemma normalizePolicyScope_inv p s :
  normalizePolicyScope (Some p) = Ok (Some s) →
  normalizeDimension (pi_feeds p) "feeds" = Ok (kp_feeds s) ∧
  normalizeDimension (pi_operations p) "operations" = Ok (kp_operations s) ∧
  normalizeDimension (pi_environments p) "environments" = Ok (kp_environments s) ∧
  normalizeTime (pi_effectiveAt p) BadEffectiveAt = Ok (kp_effectiveAt s) ∧
  normalizeTime (pi_expiresAt p) BadExpiresAt = Ok (kp_expiresAt s) ∧
  (∀ f t, kp_effectiveAt s = Some f → kp_expiresAt s = Some t → f < t) ∧
  (kp_feeds s, kp_operations s, kp_environments s, kp_effectiveAt s, kp_expiresAt s) ≠
    (None, None, None, None, None).
Proof.
  simpl. destruct (normalizeDimension (pi_feeds p) _) as [a|]; [|done].
  destruct (normalizeDimension (pi_operations p) _) as [b|]; [|done].
  destruct (normalizeDimension (pi_environments p) _) as [c|]; [|done].
  destruct (normalizeTime (pi_effectiveAt p) _) as [f|]; [|done].
  destruct (normalizeTime (pi_expiresAt p) _) as [t|]; [|done]. simpl.
  destruct (match f with Some _ => _ | None => _ end) eqn:E; [done|].
  destruct (_ && _) eqn:En; [done|]. intros [= <-]. simpl. split_and!; [done..| |].
  - intros f' t' -> ->. to_prop. lia.
  - intros [= -> -> -> -> ->]. done.
Qed.

(** A policy that normalisation accepts is canonical: its dimensions are
    non-empty lists of distinct, trimmed, non-blank values, its window opens
    before it closes, and it restricts something; and normalising a canonical
    policy with positive times again returns it unchanged, so what the store
    reads back is what was accepted. *)
Theorem normalize_canonical p s :
  normalizePolicyScope (Some p) = Ok (Some s) →
  scope_ok s ∧
  ((∀ z, kp_effectiveAt s = Some z ∨ kp_expiresAt s = Some z → 0 < z) →
     normalizePolicyScope (Some (as_input s)) = Ok (Some s)).
Proof.
  intros (H1 & H2 & H3 & H4 & H5 & H6 & H7)%normalizePolicyScope_inv.
  apply normalizeDimension_ok in H1, H2, H3. split; [done|]. intros Hz.
  cbn [normalizePolicyScope as_input pi_feeds pi_operations pi_environments pi_effectiveAt pi_expiresAt].
  rewrite !normalizeDimension_fix by done. cbn [rbind].
  rewrite !normalizeTime_fix by auto. cbn [rbind].
  assert (match kp_effectiveAt s with
          | Some f => match kp_expiresAt s with Some t => t <=? f | None => false end
          | None => false end = false) as ->.
  { destruct (kp_effectiveAt s) as [f|], (kp_expiresAt s) as [t|]; try done.
    apply Z.leb_gt. by apply H6. }
  destruct s as [a b c f t]. simpl in *.
  destruct (bool_decide (a = None) && _ && _ && _ && _) eqn:E; [|done]. to_prop. by subst.
Qed.

Lemma normalize_canonical_witness :
  scope_ok (mkScope (Some ["XLM/USD"; "*"]) None None None (Some 5)).
Proof.
  refine (proj1 (normalize_canonical
    (mkInput (DArray [Some " XLM/USD"; Some "*"; Some "XLM/USD "]) (DArray []) DAbsent TAbsent
       (TNumber (NFin (11 # 2)))) _ _)).
  reflexivity.
Defined.

(** A time below one millisecond is accepted, floored to 0, and refused when the
    stored policy is normalised again. *)
Example fractional_expiry_refused_later :
  let p := mkInput (DArray [Some "XLM/USD"]) DAbsent DAbsent TAbsent (TNumber (NFin (1 # 2))) in
  let s := mkScope (Some ["XLM/USD"]) None None None (Some 0) in
  normalizePolicyScope (Some p) = Ok (Some s) ∧
  normalizePolicyScope (Some (as_input s)) = Throw BadExpiresAt.
Proof. done. Qed.
End KeyPolicy.


Module Rbac.

Inductive Role := admin | operator | viewer.

#[export] Instance Role_eq_dec : EqDecision Role.
Proof. solve_decision. Defined.

Definition role_name (r : Role) : string :=
  match r with admin => "admin" | operator => "operator" | viewer => "viewer" end.

Definition ROLES : list Role := [admin; operator; viewer].

Definition ROLE_PERMISSIONS (r : Role) : list string :=
  match r with
  | admin =>
      ["keys:read"; "keys:write"; "keys:delete"; "keys:rotate"; "roles:write"; "metrics:read";
       "cors:read"; "cors:write"; "backup:read"; "backup:write"; "archival:write";
       "consistency:write"; "circuit:write"; "system:read"; "dr:read";
       "feeds:read"; "feeds:write"]
  | operator =>
      ["keys:read"; "keys:write"; "keys:rotate"; "metrics:read"; "cors:read";
       "backup:read"; "backup:write"; "archival:write"; "consistency:write"; "circuit:write";
       "system:read"; "dr:read";
       "feeds:read"; "feeds:write"]
  | viewer =>
      ["keys:read"; "metrics:read"; "cors:read"; "backup:read"; "system:read"; "dr:read";
       "feeds:read"]
  end.

Definition ROLE_LEVEL (r : Role) : Z :=
  match r with admin => 3 | operator => 2 | viewer => 1 end.

(** The role a request value names, if it names one: [isRole] and the narrowing
    it gives the guards. *)
Definition isRole (value : option string) : option Role :=
  match value with
  | Some v => List.find (λ r, bool_decide (role_name r = v)) ROLES
  | None => None
  end.

(** ** Denials *)

Inductive DenialReason :=
  | unknown_role | insufficient_role | scope_denied | role_escalation
  | feed_scope_denied | operation_scope_denied | environment_scope_denied | credential_expired.

Record PolicyScopes := mkScopes {
  ps_permissions : option (list string);
  ps_feeds : option (list string);
  ps_operations : option (list string);
  ps_environments : option (list string);
  ps_expiresAt : option number;
}.

(** One of [req.params], [req.query] and [req.body]: the fields the guards read,
    [None] when absent or not a string. *)
Record fields := mkFields {
  f_feed : option string;
  f_feedId : option string;
  f_operation : option string;
  f_environment : option string;
}.

Record Request := mkRequest {
  r_method : string;
  r_originalUrl : option string;
  r_path : string;
  r_apiKey : option string;
  r_userRole : option string;
  r_apiKeyScopes : option (list string);
  r_apiKeyPolicyScopes : option PolicyScopes;
  r_params : fields;
  r_query : fields;
  r_body : fields;
}.

Record extra := mkExtra {
  x_requiredRole : option Role;
  x_permission : option string;
  x_feed : option string;
  x_operation : option string;
  x_environment : option string;
}.

Record AuthzDenial := mkDenial {
  ad_timestamp : Z;
  ad_reason : DenialReason;
  ad_role : string;
  ad_route : string;
  ad_keyPrefix : string;
  ad_extra : extra;
}.

Definition MAX_RECENT_DENIALS : nat := 100.

(** [a || b] on strings that may be absent. *)
Definition str_or (a : option string) (b : string) : string :=
  match a with Some s => if bool_decide (s = "") then b else s | None => b end.

Definition question : Ascii.ascii := Ascii.ascii_of_nat 63.

Definition routeOf (req : Request) : string :=
  r_method req +:+ " " +:+ str_or (r_originalUrl req ≫= λ u, head (js_split question u)) (r_path req).

(** [if (x)] on an optional string: the empty string counts as absent. *)
Definition truthy (a : option string) : option string :=
  match a with Some s => if bool_decide (s = "") then None else Some s | None => None end.

Definition codeOf (reason : DenialReason) : string :=
  match reason with
  | unknown_role => "UNKNOWN_ROLE"
  | scope_denied => "SCOPE_DENIED"
  | credential_expired => "CREDENTIAL_EXPIRED"
  | feed_scope_denied => "FEED_SCOPE_DENIED"
  | operation_scope_denied => "OPERATION_SCOPE_DENIED"
  | environment_scope_denied => "ENVIRONMENT_SCOPE_DENIED"
  | insufficient_role | role_escalation => "FORBIDDEN"
  end.

(** What a guard decides: call [next], or answer 403 with a code. *)
Inductive outcome := Next | Forbidden (reason : DenialReason) (code : string).

(** Push, then shift when the buffer is over its bound. *)
Definition pushDenial (recentDenials : list AuthzDenial) (d : AuthzDenial) : list AuthzDenial :=
  let l := recentDenials ++ [d] in
  if bool_decide (MAX_RECENT_DENIALS < length l)%nat then tail l else l.

Definition denyAuthorization (now : Z) (recentDenials : list AuthzDenial) (req : Request)
    (reason : DenialReason) (x : extra) : list AuthzDenial * outcome :=
  let denial := mkDenial now reason (default "unknown" (r_userRole req)) (routeOf req)
    (match truthy (r_apiKey req) with Some k => String.substring 0 8 k | None => "unknown" end)
    (mkExtra (x_requiredRole x) (truthy (x_permission x)) (truthy (x_feed x))
       (truthy (x_operation x)) (truthy (x_environment x))) in
  (pushDenial recentDenials denial, Forbidden reason (codeOf reason)).

(** ** Scope checks *)

Definition effectivePermissions (role : Role) (scopes : option PolicyScopes) : list string :=
  let rolePerms := ROLE_PERMISSIONS role in
  match scopes ≫= ps_permissions with
  | None | Some [] => rolePerms
  | Some allowed => filter (λ p, p ∈ allowed) rolePerms
  end.

Definition isCredentialExpired (scopes : option PolicyScopes) (now : Z) : bool :=
  match scopes ≫= ps_expiresAt with Some t => num_leb t (NInt now) | None => false end.

Definition scopeAllows (l : option (list string)) (value : option string) : bool :=
  match l with
  | None | Some [] => true
  | Some l => match value with None => false | Some v => bool_decide (v ∈ l) end
  end.

Record target := mkTarget {
  t_feed : option string;
  t_operation : option string;
  t_environment : option string;
}.

(** [Some reason] is the first constraint that fails. *)
Definition checkPolicyScopes (scopes : option PolicyScopes) (permission : option string) (t : target)
    (now : Z) : option DenialReason :=
  match scopes with
  | None => None
  | Some s =>
      if isCredentialExpired scopes now then Some credential_expired
      else if match truthy permission, ps_permissions s with
              | Some p, Some (q :: l) => negb (bool_decide (p ∈ q :: l))
              | _, _ => false
              end then Some scope_denied
      else if negb (scopeAllows (ps_feeds s) (t_feed t)) then Some feed_scope_denied
      else if negb (scopeAllows (ps_operations s) (t_operation t)) then Some operation_scope_denied
      else if negb (scopeAllows (ps_environments s) (t_environment t)) then Some environment_scope_denied
      else None
  end.

Fixpoint firstNonEmpty (candidates : list (option string)) : option string :=
  match candidates with
  | [] => None
  | c :: rest => match truthy c with Some s => Some s | None => firstNonEmpty rest end
  end.

Definition pick (explicit : option string) (candidates : list (option string)) : option string :=
  match truthy explicit with Some s => Some s | None => firstNonEmpty candidates end.

Definition resolveScopeTarget (req : Request) (options : target) : target :=
  mkTarget
    (pick (t_feed options)
       [f_feed (r_params req); f_feedId (r_params req); f_feed (r_query req); f_feed (r_body req)])
    (pick (t_operation options)
       [f_operation (r_params req); f_operation (r_query req); f_operation (r_body req)])
    (pick (t_environment options)
       [f_environment (r_params req); f_environment (r_query req); f_environment (r_body req)]).

(** ** Route guards *)

Definition requireRole (minRole : Role) (permission : option string) (options : target)
    (now : Z) (recentDenials : list AuthzDenial) (req : Request) : list AuthzDenial * outcome :=
  let deny := denyAuthorization now recentDenials req in
  let x := mkExtra (Some minRole) permission None None None in
  match isRole (r_userRole req) with
  | None => deny unknown_role x
  | Some role =>
      if ROLE_LEVEL role <? ROLE_LEVEL minRole then deny insufficient_role x
      else if match truthy permission, r_apiKeyScopes req with
              | Some p, Some (q :: l) => negb (bool_decide (p ∈ q :: l))
              | _, _ => false
              end then deny scope_denied x
      else
        let t := resolveScopeTarget req options in
        match checkPolicyScopes (r_apiKeyPolicyScopes req) permission t now with
        | Some reason =>
            deny reason (mkExtra (Some minRole) permission (t_feed t) (t_operation t) (t_environment t))
        | None => (recentDenials, Next)
        end
  end.

Definition requirePermission (permission : string) (options : target)
    (now : Z) (recentDenials : list AuthzDenial) (req : Request) : list AuthzDenial * outcome :=
  let deny := denyAuthorization now recentDenials req in
  let x := mkExtra None (Some permission) None None None in
  match isRole (r_userRole req) with
  | None => deny unknown_role x
  | Some role =>
      if negb (bool_decide (permission ∈ effectivePermissions role (r_apiKeyPolicyScopes req)))
      then deny scope_denied x
      else
        let t := resolveScopeTarget req options in
        match checkPolicyScopes (r_apiKeyPolicyScopes req) (Some permission) t now with
        | Some reason =>
            deny reason (mkExtra None (Some permission) (t_feed t) (t_operation t) (t_environment t))
        | None => (recentDenials, Next)
        end
  end.

(** ** What the guards admit *)

(** An absent or empty list restricts nothing. *)
Definition list_permits (l : option (list string)) (v : option string) : Prop :=
  default [] l ≠ [] → ∃ x, v = Some x ∧ x ∈ default [] l.

Definition policy_permits (scopes : option PolicyScopes) (permission : option string) (t : target)
    (now : Z) : Prop :=
  ∀ s, scopes = Some s →
    (∀ e, ps_expiresAt s = Some e → num_leb e (NInt now) = false) ∧
    (∀ p, truthy permission = Some p → list_permits (ps_permissions s) (Some p)) ∧
    list_permits (ps_feeds s) (t_feed t) ∧
    list_permits (ps_operations s) (t_operation t) ∧
    list_permits (ps_environments s) (t_environment t).

Lemma list_permits_cons q l v : list_permits (Some (q :: l)) v ↔ ∃ x, v = Some x ∧ x ∈ q :: l.
Proof. unfold list_permits. simpl. naive_solver. Qed.

Lemma scopeAllows_spec l v : scopeAllows l v = true ↔ list_permits l v.
Proof.
  destruct l as [[|q l]|]; [split; [by intros _ []|done]| |split; [by intros _ []|done]].
  rewrite list_permits_cons. simpl. destruct v as [v|]; [rewrite bool_decide_eq_true|]; naive_solver.
Qed.

(** The permission test both guards and the scope check write out. *)
Lemma permission_test_spec permission l :
  match truthy permission, l with
  | Some p, Some (q :: l) => negb (bool_decide (p ∈ q :: l))
  | _, _ => false
  end = false ↔ ∀ p, truthy permission = Some p → list_permits l (Some p).
Proof.
  destruct (truthy permission) as [p|]; [|naive_solver].
  destruct l as [[|q l]|]; [split; [intros _ ? _ []|]; done| |split; [intros _ ? _ []|]; done].
  rewrite negb_false_iff, bool_decide_eq_true. setoid_rewrite list_permits_cons. naive_solver.
Qed.

Lemma checkPolicyScopes_spec scopes permission t now :
  checkPolicyScopes scopes permission t now = None ↔ policy_permits scopes permission t now.
Proof.
  destruct scopes as [s|]; [|by split]. unfold policy_permits, checkPolicyScopes, isCredentialExpired.
  cbn [mbind option_bind].
  trans ((∀ e, ps_expiresAt s = Some e → num_leb e (NInt now) = false) ∧
    (∀ p, truthy permission = Some p → list_permits (ps_permissions s) (Some p)) ∧
    list_permits (ps_feeds s) (t_feed t) ∧ list_permits (ps_operations s) (t_operation t) ∧
    list_permits (ps_environments s) (t_environment t)); [|naive_solver].
  rewrite <- permission_test_spec, <- !scopeAllows_spec.
  assert ((∀ e, ps_expiresAt s = Some e → num_leb e (NInt now) = false) ↔
    match ps_expiresAt s with Some e => num_leb e (NInt now) | None => false end = false) as ->
    by (destruct (ps_expiresAt s); naive_solver).
  generalize (scopeAllows (ps_feeds s) (t_feed t)), (scopeAllows (ps_operations s) (t_operation t)),
    (scopeAllows (ps_environments s) (t_environment t)).
  destruct (match ps_expiresAt s with Some _ => _ | None => _ end); [naive_solver|].
  destruct (match truthy permission with Some _ => _ | None => _ end); [naive_solver|].
  intros [] [] []; naive_solver.
Qed.

Lemma isRole_spec v r : isRole v = Some r ↔ v = Some (role_name r).
Proof.
  destruct v as [v|]; [|done]. simpl. split.
  - repeat case_bool_decide; intros [= <-]; subst; done.
  - intros [= ->]. by destruct r.
Qed.

Lemma effectivePermissions_spec role scopes p :
  p ∈ effectivePermissions role scopes ↔
  p ∈ ROLE_PERMISSIONS role ∧ ∀ s, scopes = Some s → list_permits (ps_permissions s) (Some p).
Proof.
  unfold effectivePermissions. destruct scopes as [s|]; [|naive_solver]. cbn [mbind option_bind].
  trans (p ∈ ROLE_PERMISSIONS role ∧ list_permits (ps_permissions s) (Some p)); [|naive_solver].
  destruct (ps_permissions s) as [[|q l]|]; [unfold list_permits; naive_solver| |unfold list_permits; naive_solver].
  rewrite list_permits_cons, list_elem_of_filter. naive_solver.
Qed.

Lemma requireRole_next minRole permission options now ds req :
  (requireRole minRole permission options now ds req).2 = Next ↔
  ∃ r, r_userRole req = Some (role_name r) ∧ ROLE_LEVEL minRole <= ROLE_LEVEL r ∧
    (∀ p, truthy permission = Some p → list_permits (r_apiKeyScopes req) (Some p)) ∧
    policy_permits (r_apiKeyPolicyScopes req) permission (resolveScopeTarget req options) now.
Proof.
  setoid_rewrite <- isRole_spec. setoid_rewrite <- permission_test_spec.
  setoid_rewrite <- checkPolicyScopes_spec. unfold requireRole.
  destruct (isRole _) as [r|]; [|naive_solver].
  destruct (ROLE_LEVEL r <? ROLE_LEVEL minRole) eqn:El; to_prop.
  { split; [done|]. intros (r' & [= <-] & ? & _). lia. }
  destruct (match truthy permission with Some _ => _ | None => _ end); [naive_solver|].
  destruct (checkPolicyScopes _ _ _ _); naive_solver lia.
Qed.

Lemma requirePermission_next permission options now ds req :
  (requirePermission permission options now ds req).2 = Next ↔
  ∃ r, r_userRole req = Some (role_name r) ∧ permission ∈ ROLE_PERMISSIONS r ∧
    (∀ s, r_apiKeyPolicyScopes req = Some s → list_permits (ps_permissions s) (Some permission)) ∧
    policy_permits (r_apiKeyPolicyScopes req) (Some permission) (resolveScopeTarget req options) now.
Proof.
  setoid_rewrite <- isRole_spec. setoid_rewrite <- checkPolicyScopes_spec. unfold requirePermission.
  destruct (isRole _) as [r|]; [|naive_solver].
  trans (permission ∈ effectivePermissions r (r_apiKeyPolicyScopes req) ∧
    checkPolicyScopes (r_apiKeyPolicyScopes req) (Some permission) (resolveScopeTarget req options) now = None).
  - case_bool_decide; simpl; [|naive_solver]. destruct (checkPolicyScopes _ _ _ _); naive_solver.
  - rewrite effectivePermissions_spec. naive_solver.
Qed.

(** Every denial is recorded, the newest last, and only the newest hundred kept. *)
Lemma pushDenial_bounded ds d :
  (length ds <= MAX_RECENT_DENIALS)%nat →
  (length (pushDenial ds d) <= MAX_RECENT_DENIALS)%nat ∧ last (pushDenial ds d) = Some d.
Proof.
  intros Hl. unfold pushDenial. rewrite length_app. simpl. case_bool_decide as Hb.
  - destruct ds as [|d0 ds]; [unfold MAX_RECENT_DENIALS in *; simpl in *; lia|]. simpl in *.
    rewrite length_app, last_snoc. simpl. split; [lia|done].
  - rewrite length_app, last_snoc. simpl. split; [lia|done].
Qed.

(** *** The order of the checks

    The conditions of a guard in order, each with the reason of its refusal. *)
Definition condition : Type := Prop * DenialReason.

(** The reason of the first condition that does not hold. *)
Fixpoint first_failing (conds : list condition) (r : DenialReason) : Prop :=
  match conds with
  | [] => False
  | (P, r') :: rest => (¬ P ∧ r = r') ∨ (P ∧ first_failing rest r)
  end.

Definition all_hold (conds : list condition) : Prop := Forall fst conds.

Definition policy_conditions (scopes : option PolicyScopes) (permission : option string) (t : target)
    (now : Z) : list condition :=
  let all (P : PolicyScopes → Prop) : Prop := ∀ s, scopes = Some s → P s in
  [(all (λ s, ∀ e, ps_expiresAt s = Some e → num_leb e (NInt now) = false), credential_expired);
   (all (λ s, ∀ p, truthy permission = Some p → list_permits (ps_permissions s) (Some p)), scope_denied);
   (all (λ s, list_permits (ps_feeds s) (t_feed t)), feed_scope_denied);
   (all (λ s, list_permits (ps_operations s) (t_operation t)), operation_scope_denied);
   (all (λ s, list_permits (ps_environments s) (t_environment t)), environment_scope_denied)].

(** [requireRole]: a known role, of sufficient level, the scopes of the key
    itself, the policy. *)
Definition role_conditions (minRole : Role) (permission : option string) (t : target) (now : Z)
    (req : Request) : list condition :=
  [(∃ r, r_userRole req = Some (role_name r), unknown_role);
   (∃ r, r_userRole req = Some (role_name r) ∧ ROLE_LEVEL minRole <= ROLE_LEVEL r, insufficient_role);
   (∀ p, truthy permission = Some p → list_permits (r_apiKeyScopes req) (Some p), scope_denied)] ++
  policy_conditions (r_apiKeyPolicyScopes req) permission t now.

(** [requirePermission]: a known role, its permissions narrowed by the policy's,
    the policy.  The scopes of the key itself are not consulted. *)
Definition permission_conditions (permission : string) (t : target) (now : Z) (req : Request)
    : list condition :=
  [(∃ r, r_userRole req = Some (role_name r), unknown_role);
   (∃ r, r_userRole req = Some (role_name r) ∧ permission ∈ ROLE_PERMISSIONS r ∧
      ∀ s, r_apiKeyPolicyScopes req = Some s → list_permits (ps_permissions s) (Some permission),
    scope_denied)] ++
  policy_conditions (r_apiKeyPolicyScopes req) (Some permission) t now.

(** A verdict that goes through the conditions in order. *)
Inductive decides : list condition → option DenialReason → Prop :=
| decides_nil : decides [] None
| decides_fail P r conds : ¬ P → decides ((P, r) :: conds) (Some r)
| decides_pass P r conds o : P → decides conds o → decides ((P, r) :: conds) o.

Lemma decides_spec conds o :
  decides conds o →
  (o = None ↔ all_hold conds) ∧ ∀ r, o = Some r ↔ first_failing conds r.
Proof.
  unfold all_hold. induction 1 as [|P r conds Hp|P r conds o Hp _ [IH1 IH2]]; cbn [first_failing].
  - split; [split; [constructor|done]|done].
  - split; [split; [done|intros [? _]%Forall_cons; done]|naive_solver].
  - rewrite Forall_cons, IH1. split; [naive_solver|]. intros r'. rewrite IH2. naive_solver.
Qed.

Lemma checkPolicyScopes_decides scopes permission t now :
  decides (policy_conditions scopes permission t now) (checkPolicyScopes scopes permission t now).
Proof.
  unfold policy_conditions, checkPolicyScopes, isCredentialExpired.
  destruct scopes as [s|]; [|repeat (apply decides_pass; [done|]); constructor].
  cbn [mbind option_bind].
  destruct (match ps_expiresAt s with Some _ => _ | None => _ end) eqn:E1.
  { apply decides_fail. intros H. specialize (H s eq_refl).
    destruct (ps_expiresAt s) as [e|]; [|done]. by rewrite (H e eq_refl) in E1. }
  apply decides_pass. { intros s' [= <-] e He. by rewrite He in E1. }
  destruct (match truthy permission with Some _ => _ | None => _ end) eqn:E2.
  { apply decides_fail. intros H. specialize (H s eq_refl). apply permission_test_spec in H. congruence. }
  apply decides_pass. { intros s' [= <-]. by apply permission_test_spec. }
  destruct (scopeAllows (ps_feeds s) _) eqn:E3; cbn [negb].
  2: { apply decides_fail. intros H%(λ H, H s eq_refl)%scopeAllows_spec. congruence. }
  apply decides_pass. { intros s' [= <-]. by apply scopeAllows_spec. }
  destruct (scopeAllows (ps_operations s) _) eqn:E4; cbn [negb].
  2: { apply decides_fail. intros H%(λ H, H s eq_refl)%scopeAllows_spec. congruence. }
  apply decides_pass. { intros s' [= <-]. by apply scopeAllows_spec. }
  destruct (scopeAllows (ps_environments s) _) eqn:E5; cbn [negb].
  2: { apply decides_fail. intros H%(λ H, H s eq_refl)%scopeAllows_spec. congruence. }
  apply decides_pass; [|constructor]. intros s' [= <-]. by apply scopeAllows_spec.
Qed.

(** The verdict of a guard as an outcome. *)
Definition verdict_outcome (o : option DenialReason) : outcome :=
  match o with None => Next | Some r => Forbidden r (codeOf r) end.

Lemma requireRole_decides minRole permission options now ds req :
  ∃ o, (requireRole minRole permission options now ds req).2 = verdict_outcome o ∧
    decides (role_conditions minRole permission (resolveScopeTarget req options) now req) o.
Proof.
  unfold requireRole, role_conditions. cbn [app].
  destruct (isRole (r_userRole req)) as [r|] eqn:Er.
  2: { exists (Some unknown_role). split; [done|]. apply decides_fail. intros [r Hr%isRole_spec]. congruence. }
  pose proof (proj1 (isRole_spec _ _) Er) as Hr.
  destruct (ROLE_LEVEL r <? ROLE_LEVEL minRole) eqn:El; to_prop.
  { exists (Some insufficient_role). split; [done|]. apply decides_pass; [eauto|].
    apply decides_fail. intros (r' & Hr'%isRole_spec & ?). assert (r' = r) as -> by congruence. lia. }
  destruct (match truthy permission with Some _ => _ | None => _ end) eqn:Ep.
  { exists (Some scope_denied). split; [done|]. do 2 (apply decides_pass; [eauto with lia|]).
    apply decides_fail. intros H%permission_test_spec. congruence. }
  exists (checkPolicyScopes (r_apiKeyPolicyScopes req) permission (resolveScopeTarget req options) now).
  split; [by destruct (checkPolicyScopes _ _ _ _)|].
  do 2 (apply decides_pass; [eauto with lia|]).
  apply decides_pass; [by apply permission_test_spec|apply checkPolicyScopes_decides].
Qed.

Lemma requirePermission_decides permission options now ds req :
  ∃ o, (requirePermission permission options now ds req).2 = verdict_outcome o ∧
    decides (permission_conditions permission (resolveScopeTarget req options) now req) o.
Proof.
  unfold requirePermission, permission_conditions. cbn [app].
  destruct (isRole (r_userRole req)) as [r|] eqn:Er.
  2: { exists (Some unknown_role). split; [done|]. apply decides_fail. intros [r Hr%isRole_spec]. congruence. }
  pose proof (proj1 (isRole_spec _ _) Er) as Hr.
  case_bool_decide as Hp; cbn [negb].
  2: { exists (Some scope_denied). split; [done|]. apply decides_pass; [eauto|].
    apply decides_fail. intros (r' & Hr'%isRole_spec & ?). assert (r' = r) as -> by congruence. by apply Hp, effectivePermissions_spec. }
  exists (checkPolicyScopes (r_apiKeyPolicyScopes req) (Some permission) (resolveScopeTarget req options) now).
  split; [by destruct (checkPolicyScopes _ _ _ _)|]. apply decides_pass; [eauto|].
  apply decides_pass; [|apply checkPolicyScopes_decides].
  exists r. split; [done|]. by apply effectivePermissions_spec.
Qed.

(** An outcome agrees with the conditions. *)
Definition outcome_exact (conds : list condition) (out : outcome) : Prop :=
  (out = Next ↔ all_hold conds) ∧
  ∀ reason code, out = Forbidden reason code ↔ first_failing conds reason ∧ code = codeOf reason.

Lemma decides_outcome conds o : decides conds o → outcome_exact conds (verdict_outcome o).
Proof.
  intros [H1 H2]%decides_spec. split.
  - rewrite <- H1. by destruct o.
  - intros reason code. rewrite <- H2. destruct o as [r|]; naive_solver.
Qed.

(** *** The record of denials *)

(** A guard either passes and leaves the record of denials alone, or answers 403
    and records why, within the bound. *)
Definition recorded (now : Z) (req : Request) (ds : list AuthzDenial) (out : list AuthzDenial * outcome)
    : Prop :=
  (length out.1 <= MAX_RECENT_DENIALS)%nat ∧
  (out = (ds, Next) ∨
   ∃ d, out.2 = Forbidden (ad_reason d) (codeOf (ad_reason d)) ∧ last out.1 = Some d ∧
     ad_timestamp d = now ∧ ad_role d = default "unknown" (r_userRole req) ∧ ad_route d = routeOf req).

Lemma denyAuthorization_recorded now ds req reason x :
  (length ds <= MAX_RECENT_DENIALS)%nat → recorded now req ds (denyAuthorization now ds req reason x).
Proof.
  intros Hl. destruct (pushDenial_bounded ds
    (mkDenial now reason (default "unknown" (r_userRole req)) (routeOf req)
       (match truthy (r_apiKey req) with Some k => String.substring 0 8 k | None => "unknown" end)
       (mkExtra (x_requiredRole x) (truthy (x_permission x)) (truthy (x_feed x))
          (truthy (x_operation x)) (truthy (x_environment x)))) Hl) as [H1 H2].
  split; [done|]. right. eexists. split_and!; [|exact H2|..]; done.
Qed.

Lemma requireRole_recorded minRole permission options now ds req :
  (length ds <= MAX_RECENT_DENIALS)%nat →
  recorded now req ds (requireRole minRole permission options now ds req).
Proof.
  intros Hl. unfold requireRole.
  repeat case_match; first [by apply denyAuthorization_recorded|by split; [|left]].
Qed.

Lemma requirePermission_recorded permission options now ds req :
  (length ds <= MAX_RECENT_DENIALS)%nat →
  recorded now req ds (requirePermission permission options now ds req).
Proof.
  intros Hl. unfold requirePermission.
  repeat case_match; first [by apply denyAuthorization_recorded|by split; [|left]].
Qed.


Definition no_fields : fields := mkFields None None None None.
Definition demo_request : Request :=
  mkRequest "GET" (Some "/admin/feeds?x=1") "/feeds" (Some "sk_live_0123") (Some "operator") None
    (Some (mkScopes None (Some ["XLM/USD"]) None None (Some (NInt 50))))
    (mkFields (Some "XLM/USD") None None None) no_fields no_fields.

(** The request is admitted before its policy expires; after that it is refused
    as expired, although its feed is not permitted either, and recorded so. *)
Definition expired_request : Request :=
  mkRequest "GET" (Some "/admin/feeds?x=1") "/feeds" (Some "sk_live_0123") (Some "operator") None
    (Some (mkScopes None (Some ["XLM/USD"]) None None (Some (NInt 50))))
    (mkFields (Some "BTC/USD") None None None) no_fields no_fields.


(** The scopes of the key restrict [requireRole] and not [requirePermission]. *)
Example key_scopes_ignored_by_permission :
  let req := mkRequest "POST" None "/feeds" (Some "sk_live_0123") (Some "operator") (Some ["feeds:read"]) None
    no_fields no_fields no_fields in
  (requireRole viewer (Some "feeds:write") (mkTarget None None None) 7 [] req).2 =
    Forbidden scope_denied "SCOPE_DENIED" ∧
  (requirePermission "feeds:write" (mkTarget None None None) 7 [] req).2 = Next.
Proof. vm_compute. done. Qed.

(** ** Roles and scopes only narrow *)

(** The request with no scopes on its credential, presented under role [r]. *)
Definition unscoped_as (r : Role) (req : Request) : Request :=
  mkRequest (r_method req) (r_originalUrl req) (r_path req) (r_apiKey req) (Some (role_name r))
    None None (r_params req) (r_query req) (r_body req).
Definition presented_as (r : Role) (req : Request) : Request :=
  mkRequest (r_method req) (r_originalUrl req) (r_path req) (r_apiKey req) (Some (role_name r))
    (r_apiKeyScopes req) (r_apiKeyPolicyScopes req) (r_params req) (r_query req) (r_body req).

Lemma ROLE_PERMISSIONS_mono r r' :
  ROLE_LEVEL r <= ROLE_LEVEL r' → ROLE_PERMISSIONS r ⊆ ROLE_PERMISSIONS r'.
Proof.
  intros Hl p. destruct r, r'; simpl in Hl; try lia; try done;
    unfold ROLE_PERMISSIONS; rewrite !elem_of_cons; tauto.
Qed.

Lemma role_name_inj r r' : role_name r = role_name r' → r = r'.
Proof. by destruct r, r'. Qed.

(** Scopes narrow and roles widen.  A request a guard admits is admitted again
    when its credential is presented under any role at or above its own, with its
    scopes as they are or with none: so no scope list ever grants what the role
    alone would not, and promoting a key never loses it a route. *)
Theorem scopes_only_narrow r r' minRole permission required options now ds req :
  r_userRole req = Some (role_name r) → ROLE_LEVEL r <= ROLE_LEVEL r' →
  ((requireRole minRole permission options now ds req).2 = Next →
     (requireRole minRole permission options now ds (presented_as r' req)).2 = Next ∧
     (requireRole minRole permission options now ds (unscoped_as r' req)).2 = Next) ∧
  ((requirePermission required options now ds req).2 = Next →
     (requirePermission required options now ds (presented_as r' req)).2 = Next ∧
     (requirePermission required options now ds (unscoped_as r' req)).2 = Next).
Proof.
  intros Hr Hl. rewrite !requireRole_next, !requirePermission_next, Hr.
  split; intros (r0 & [= <-%role_name_inj] & H1 & H2 & H3); split; exists r';
    simpl; (split_and!; [done|first [lia|by apply (ROLE_PERMISSIONS_mono r)]| |]); try done;
    by intros ? _ [].
Qed.

Lemma scopes_only_narrow_witness :
  (requirePermission "feeds:write" (mkTarget None None None) 7 [] (unscoped_as admin demo_request)).2 = Next.
Proof.
  refine (proj2 (proj2 (scopes_only_narrow operator admin admin None "feeds:write" (mkTarget None None None)
    7 [] demo_request _ _) _)); [done|done|reflexivity].
Defined.

(** ** The two scope checkers *)

(** A policy of the key manager, as the guards read it. *)
Definition as_scopes (p : KeyPolicy.KeyPolicyScope) : PolicyScopes :=
  mkScopes None (KeyPolicy.kp_feeds p) (KeyPolicy.kp_operations p) (KeyPolicy.kp_environments p)
    (NInt <$> KeyPolicy.kp_expiresAt p).
Definition as_target (q : KeyPolicy.scope_request) : target :=
  mkTarget (KeyPolicy.sr_feed q) (KeyPolicy.sr_operation q) (KeyPolicy.sr_environment q).

Definition wildcard_free (p : KeyPolicy.KeyPolicyScope) : Prop :=
  ∀ l, l ∈ [KeyPolicy.kp_feeds p; KeyPolicy.kp_operations p; KeyPolicy.kp_environments p] →
    KeyPolicy.SCOPE_WILDCARD ∉ default [] l.

Lemma dimensionAllows_agree l v :
  (scopeAllows l v = true → KeyPolicy.dimensionAllows l v = true) ∧
  (KeyPolicy.SCOPE_WILDCARD ∉ default [] l → KeyPolicy.dimensionAllows l v = scopeAllows l v).
Proof.
  destruct l as [[|q l]|]; [done| |done]. simpl. case_bool_decide; [|by destruct v]. by split.
Qed.

Definition reason_of (d : KeyPolicy.deny_reason) : DenialReason :=
  match d with
  | KeyPolicy.DExpired | KeyPolicy.DNotYetEffective => credential_expired
  | KeyPolicy.DFeed => feed_scope_denied
  | KeyPolicy.DOperation => operation_scope_denied
  | KeyPolicy.DEnvironment => environment_scope_denied
  end.

Lemma checkers_same p q permission now :
  wildcard_free p → KeyPolicy.isPolicyEffective (Some p) now = true →
  checkPolicyScopes (Some (as_scopes p)) permission (as_target q) now =
    reason_of <$> KeyPolicy.checkPolicyScope (Some p) q now.
Proof.
  intros Hw He. unfold checkPolicyScopes, KeyPolicy.checkPolicyScope. rewrite He.
  rewrite !(proj2 (dimensionAllows_agree _ _)) by (apply Hw; set_solver).
  unfold isCredentialExpired, KeyPolicy.isPolicyExpired. destruct p as [a b c f t]. simpl.
  assert (match NInt <$> t with Some t => num_leb t (NInt now) | None => false end =
          match t with Some t => t <=? now | None => false end) as ->
    by (destruct t; [apply num_leb_int|done]).
  assert (match truthy permission with Some _ => false | None => false end = false) as ->
    by (by destruct (truthy permission)).
  simpl. by repeat case_match.
Qed.

Lemma checkPolicyScope_allows p q now :
  KeyPolicy.checkPolicyScope (Some p) q now = None ↔
  KeyPolicy.isPolicyExpired (Some p) now = false ∧ KeyPolicy.isPolicyEffective (Some p) now = true ∧
  KeyPolicy.dimensionAllows (KeyPolicy.kp_feeds p) (KeyPolicy.sr_feed q) = true ∧
  KeyPolicy.dimensionAllows (KeyPolicy.kp_operations p) (KeyPolicy.sr_operation q) = true ∧
  KeyPolicy.dimensionAllows (KeyPolicy.kp_environments p) (KeyPolicy.sr_environment q) = true.
Proof.
  unfold KeyPolicy.checkPolicyScope. split_ifs; to_prop; naive_solver congruence.
Qed.

(** The service checks credential scopes in two places.  Once a stored policy is
    in effect, whatever the route guards admit the key manager admits too; and for a
    policy with no wildcard the two verdicts, reasons included, are the same. *)
Theorem checkers_agree p q permission now :
  KeyPolicy.isPolicyEffective (Some p) now = true →
  (checkPolicyScopes (Some (as_scopes p)) permission (as_target q) now = None →
     KeyPolicy.checkPolicyScope (Some p) q now = None) ∧
  (wildcard_free p →
     checkPolicyScopes (Some (as_scopes p)) permission (as_target q) now =
       reason_of <$> KeyPolicy.checkPolicyScope (Some p) q now).
Proof.
  intros He. split; [|by intros; apply checkers_same].
  rewrite checkPolicyScopes_spec, checkPolicyScope_allows. intros Hp.
  destruct (Hp _ eq_refl) as (Hexp & _ & Hf & Ho & Hv). split_and!; [|done|..].
  - simpl. destruct (KeyPolicy.kp_expiresAt p) as [t|] eqn:Et; [|done].
    rewrite <- num_leb_int. apply Hexp. simpl. by rewrite Et.
  - by apply (dimensionAllows_agree _ _), scopeAllows_spec.
  - by apply (dimensionAllows_agree _ _), scopeAllows_spec.
  - by apply (dimensionAllows_agree _ _), scopeAllows_spec.
Qed.

Lemma checkers_agree_witness :
  checkPolicyScopes (Some (as_scopes (KeyPolicy.mkScope (Some ["XLM/USD"]) None None (Some 5) (Some 9)))) None
    (mkTarget (Some "BTC/USD") None None) 7 = Some feed_scope_denied.
Proof.
  refine (proj2 (checkers_agree (KeyPolicy.mkScope (Some ["XLM/USD"]) None None (Some 5) (Some 9))
    (KeyPolicy.mkRequest (Some "BTC/USD") None None) None 7 eq_refl) _).
  intros l. cbn. rewrite !elem_of_cons, elem_of_nil.
  intros [-> |[-> |[-> |[]]]]; cbn; rewrite ?elem_of_cons, elem_of_nil; intros Hl; intuition discriminate.
Defined.

(** Where they differ: the guards read the wildcard literally, and have no start time. *)
Example wildcard_refused_by_guards :
  let any := KeyPolicy.mkScope (Some ["*"]) None None None None in
  let later := KeyPolicy.mkScope (Some ["XLM/USD"]) None None (Some 100) None in
  let q := KeyPolicy.mkRequest (Some "XLM/USD") None None in
  (KeyPolicy.checkPolicyScope (Some any) q 7, checkPolicyScopes (Some (as_scopes any)) None (as_target q) 7,
   KeyPolicy.checkPolicyScope (Some later) q 7, checkPolicyScopes (Some (as_scopes later)) None (as_target q) 7) =
  (None, Some feed_scope_denied, Some KeyPolicy.DNotYetEffective, None).
Proof. done. Qed.
End Rbac.
