(* ===== verification/Proposals.v ===== *)
(** * Multi-sig and token-governance proposals

    [api/src/governance/proposal-service.ts] with the types of
    [proposal-types.ts]: the in-memory layer behind the governance endpoints.
    The functions are declared [async] but never wait, so each call is one step;
    module-level variables are the state.  [MultiSig] is the signer-based part,
    [Voting] the token-based part, [Listing] the paginated listings both share.

    - [MultiSig.multisig_quorum]: what executed means;
    - [Voting.tally_exact]: the tallies count distinct voters;
    - [Voting.execution_authorised]: what executing a proposal requires;
    - [Voting.execute_skips_timelock]: the time lock does not apply to a
      proposal that was never queued;
    - [Listing.pages_cover]: the pages of a listing partition it. *)

From stdpp Require Import base list strings sorting sets pretty.
From S2P Require Import Prelude JsMap.

Local Open Scope Z_scope.

(** ** Shared types *)

Record GovernanceConfig := mkGovConfig {
  gc_token : string;
  gc_votingPeriod : Z;
  gc_timelockDelay : Z;
  gc_quorum : Z;
  gc_proposalThreshold : Z;
  gc_guardian : string;
}.

Inductive ProposalAction :=
| AddSource (source name : string)
| RemoveSource (source : string)
| SetTrustedAsset (asset : string) (trusted : Z)
| TransferAdmin (newAdmin : string)
| SetDeviationThreshold (thresholdBps : Z)
| ResetReputation (source : string)
| AddSigner (signer : string)
| RemoveSigner (signer : string)
| SetThreshold (threshold : Z)
| SetAdmin (newAdmin : string)
| AddOracleSource (source name : string)
| RemoveOracleSource (source : string)
| UpdateGovernanceConfig (config : GovernanceConfig).

(** The messages of the errors the functions throw. *)
Inductive proposal_error :=
  MultiSigNotInitialized | NotASigner | ProposalNotFound | ProposalAlreadyExecuted
| AlreadyApproved | ThresholdNotMet | GovernanceNotInitialized | VotingNotActive
| AlreadyVoted | ProposalDefeated | ProposalCancelled | TimeLockNotElapsed | GuardianOnly
| InvalidTimeValue.                  (* the [RangeError] of [toISOString] *)

Inductive ProposalStatus := Active | Queued | Ready | Executed | Defeated | Cancelled.

#[export] Instance ProposalStatus_eq_dec : EqDecision ProposalStatus.
Proof. solve_decision. Defined.

(** Evaluate the comparisons of two known statuses. *)
Ltac eval_status :=
  repeat (cbn; match goal with |- context [@bool_decide (?a = ?b) ?d] =>
    is_constructor a; is_constructor b;
    let v := eval vm_compute in (@bool_decide (a = b) d) in
    change (@bool_decide (a = b) d) with v end); cbn.

(** ** Signer-based proposals *)

Module MultiSig.

Record MultiSigConfig := mkMsConfig {
  mc_signers : list string;
  mc_threshold : Z;
}.

Record MultiSigProposal := mkMsProposal {
  mp_id : Z;
  mp_action : ProposalAction;
  mp_approvals : list string;
  mp_executed : Z;                   (* 0 = pending, 1 = executed *)
  mp_createdAt : Z;
  mp_proposer : string;
}.

Record multisig := mkMultisig {
  msigConfig : option MultiSigConfig;
  msigProposalCount : Z;
  multiSigProposals : jsmap Z MultiSigProposal;
}.

Definition ms_initial : multisig := mkMultisig None 0 jm_empty.

Abbreviation MS := (M multisig proposal_error).

Definition initMultiSig (config : MultiSigConfig) : MS unit :=
  modify (λ _, mkMultisig (Some config) 0 jm_empty).

Definition putMultiSig (p : MultiSigProposal) (s : multisig) : multisig :=
  mkMultisig (msigConfig s) (msigProposalCount s) (jm_set (mp_id p) p (multiSigProposals s)).

Definition requireSigner (who : string) : MS MultiSigConfig :=
  config ← require_some msigConfig MultiSigNotInitialized;
  require (bool_decide (who ∈ mc_signers config)) NotASigner ;;
  mret config.

Definition createMultiSigProposal (now : Z) (proposer : string) (action : ProposalAction)
    : MS MultiSigProposal :=
  requireSigner proposer ;;
  count ← gets msigProposalCount;
  let id := count + 1 in
  let proposal := mkMsProposal id action [proposer] 0 now proposer in
  modify (λ s, putMultiSig proposal (mkMultisig (msigConfig s) id (multiSigProposals s))) ;;
  mret proposal.

Definition set_approvals (l : list string) (p : MultiSigProposal) : MultiSigProposal :=
  mkMsProposal (mp_id p) (mp_action p) l (mp_executed p) (mp_createdAt p) (mp_proposer p).

Definition set_executed (p : MultiSigProposal) : MultiSigProposal :=
  mkMsProposal (mp_id p) (mp_action p) (mp_approvals p) 1 (mp_createdAt p) (mp_proposer p).

Definition approveProposal (signer : string) (proposalId : Z) : MS MultiSigProposal :=
  requireSigner signer ;;
  proposal ← require_some (λ s, jm_get proposalId (multiSigProposals s)) ProposalNotFound;
  require (negb (mp_executed proposal =? 1)) ProposalAlreadyExecuted ;;
  require (negb (bool_decide (signer ∈ mp_approvals proposal))) AlreadyApproved ;;
  let proposal' := set_approvals (mp_approvals proposal ++ [signer]) proposal in
  modify (putMultiSig proposal') ;;
  mret proposal'.

Definition executeMultiSigProposal (signer : string) (proposalId : Z) : MS MultiSigProposal :=
  config ← requireSigner signer;
  proposal ← require_some (λ s, jm_get proposalId (multiSigProposals s)) ProposalNotFound;
  require (negb (mp_executed proposal =? 1)) ProposalAlreadyExecuted ;;
  require (mc_threshold config <=? Z.of_nat (length (mp_approvals proposal))) ThresholdNotMet ;;
  modify (putMultiSig (set_executed proposal)) ;;
  mret (set_executed proposal).

Definition getMultiSigProposal (id : Z) (s : multisig) : option MultiSigProposal :=
  jm_get id (multiSigProposals s).

(** *** Invariant *)

Inductive ms_op :=
| MCreate (now : Z) (proposer : string) (action : ProposalAction)
| MApprove (signer : string) (id : Z)
| MExecute (signer : string) (id : Z).

Definition run_ms (o : ms_op) (s : multisig) : multisig :=
  match o with
  | MCreate now who action => fst (createMultiSigProposal now who action s)
  | MApprove who id => fst (approveProposal who id s)
  | MExecute who id => fst (executeMultiSigProposal who id s)
  end.

Definition run_ms_all (ops : list ms_op) (s : multisig) : multisig := foldl (flip run_ms) s ops.

Record ms_proposal_ok (config : MultiSigConfig) (id count : Z) (p : MultiSigProposal) : Prop := {
  po_id : mp_id p = id;
  po_count : 0 < id ≤ count;
  po_distinct : NoDup (mp_approvals p);
  po_signers x : x ∈ mp_approvals p → x ∈ mc_signers config;
  po_proposer : mp_proposer p ∈ mp_approvals p;
  po_executed : mp_executed p = 0 ∨
    mp_executed p = 1 ∧ mc_threshold config ≤ Z.of_nat (length (mp_approvals p));
}.

Record ms_ok (config : MultiSigConfig) (s : multisig) : Prop := {
  mo_config : msigConfig s = Some config;
  mo_count : 0 ≤ msigProposalCount s;
  mo_proposals id p : jm_get id (multiSigProposals s) = Some p →
    ms_proposal_ok config id (msigProposalCount s) p;
}.

Lemma requireSigner_run who s r :
  requireSigner who s = (s, Ok r) → msigConfig s = Some r ∧ who ∈ mc_signers r.
Proof. unfold requireSigner. intros H. inv_ok. to_prop. naive_solver. Qed.

Lemma requireSigner_reads who : reads (requireSigner who).
Proof. unfold requireSigner. auto 10 with oracle. Qed.
#[local] Hint Resolve requireSigner_reads : oracle.

Lemma putMultiSig_ok config p s :
  ms_ok config s → ms_proposal_ok config (mp_id p) (msigProposalCount s) p → ms_ok config (putMultiSig p s).
Proof.
  intros [Hc Hn Hp] Hok. constructor; [done|done|]. intros id q. cbn [putMultiSig multiSigProposals].
  rewrite jm_get_set. destruct (decide (mp_id p = id)) as [<-|]; [by intros [= <-]|apply Hp].
Qed.

Lemma run_ms_ok config o s : ms_ok config s → ms_ok config (run_ms o s).
Proof.
  intros Hs. destruct o as [now who action|who id|who id]; cbn [run_ms].
  - unfold createMultiSigProposal. inv_run. rename H into Hsig. apply requireSigner_run in Hsig as [Ec Hin].
    apply run_modify. destruct Hs as [Hc Hn Hp]. rewrite Hc in Ec. injection Ec as <-.
    apply (putMultiSig_ok config (mkMsProposal _ _ _ _ _ _)); cbn.
    + constructor; cbn; [done|lia|]. intros id p Hg. destruct (Hp id p Hg) as [? ? ? ? ? ?].
      constructor; try done. lia.
    + constructor; cbn; [done|lia|apply NoDup_singleton|set_solver|set_solver|by left].
  - unfold approveProposal. inv_run. rename H into Hsig, H0 into Hg, H1 into Hex, H2 into Hap.
    apply requireSigner_run in Hsig as [Ec Hin]. apply run_modify. to_prop.
    destruct (mo_proposals _ _ Hs _ _ Hg) as [Hid Hcnt Hnd Hsig Hpr Hexe].
    rewrite (mo_config _ _ Hs) in Ec. injection Ec as <-. apply putMultiSig_ok; [done|].
    constructor; cbn; [done|by rewrite Hid| | |set_solver|].
    + apply NoDup_app. split_and!; [done| |apply NoDup_singleton]. set_solver.
    + intros x [Hx|Hx]%elem_of_app; [by apply Hsig|]. apply list_elem_of_singleton in Hx as ->. done.
    + left. destruct Hexe as [?|[? _]]; [done|congruence].
  - unfold executeMultiSigProposal. inv_run. rename H into Hsig, H0 into Hg, H1 into Hex, H2 into Hth.
    apply requireSigner_run in Hsig as [Ec Hin]. apply run_modify. to_prop.
    destruct (mo_proposals _ _ Hs _ _ Hg) as [Hid Hcnt Hnd Hsig Hpr Hexe].
    rewrite (mo_config _ _ Hs) in Ec. injection Ec as <-. apply putMultiSig_ok; [done|].
    constructor; cbn; [done|by rewrite Hid|done..|by right].
Qed.

Lemma run_ms_all_ok config ops s : ms_ok config s → ms_ok config (run_ms_all ops s).
Proof.
  revert s. induction ops as [|o ops IH]; intros s Hs; [done|]. simpl. apply IH. by apply run_ms_ok.
Qed.

Lemma initMultiSig_ok config s : ms_ok config (fst (initMultiSig config s)).
Proof. by constructor. Qed.

(** An executed proposal is final, and an approval is never lost. *)
Lemma run_ms_keeps config o s id p :
  ms_ok config s → jm_get id (multiSigProposals s) = Some p →
  ∃ p', jm_get id (multiSigProposals (run_ms o s)) = Some p' ∧
    mp_approvals p `prefix_of` mp_approvals p' ∧ (mp_executed p = 1 → p' = p).
Proof.
  intros Hs Hg. pose proof (po_count _ _ _ _ (mo_proposals _ _ Hs _ _ Hg)) as Hcnt.
  set (Keep := λ s', ∃ p', jm_get id (multiSigProposals s') = Some p' ∧
    mp_approvals p `prefix_of` mp_approvals p' ∧ (mp_executed p = 1 → p' = p)).
  assert (Keep s) as Hk by (exists p; by split_and!).
  assert (∀ id0 q q', jm_get id0 (multiSigProposals s) = Some q → mp_executed q ≠ 1 →
    mp_id q' = mp_id q → mp_approvals q `prefix_of` mp_approvals q' → Keep (putMultiSig q' s)) as Hput.
  { intros id0 q q' Hq Hne Hid Hpre. unfold Keep. cbn [putMultiSig multiSigProposals]. rewrite Hid, jm_get_set.
    rewrite (po_id _ _ _ _ (mo_proposals _ _ Hs _ _ Hq)). destruct (decide (id0 = id)) as [->|]; [|done].
    exists q'. rewrite Hg in Hq. injection Hq as ->. by split_and!. }
  change (Keep (run_ms o s)). destruct o as [now who action|who i|who i]; cbn [run_ms].
  - unfold createMultiSigProposal. inv_run. apply run_modify. unfold Keep.
    cbn [putMultiSig multiSigProposals mp_id mret M_ret fst]. rewrite jm_get_set_ne by lia. exact Hk.
  - unfold approveProposal. inv_run. apply run_modify. to_prop. eapply Hput; [done..|]. by eexists.
  - unfold executeMultiSigProposal. inv_run. apply run_modify. to_prop. by eapply Hput.
Qed.

Lemma run_ms_all_keeps config ops s id p :
  ms_ok config s → jm_get id (multiSigProposals s) = Some p →
  ∃ p', jm_get id (multiSigProposals (run_ms_all ops s)) = Some p' ∧
    mp_approvals p `prefix_of` mp_approvals p' ∧ (mp_executed p = 1 → p' = p).
Proof.
  revert s p. induction ops as [|o ops IH]; intros s p Hs Hg; [exists p; by split_and!|].
  destruct (run_ms_keeps config o s id p Hs Hg) as (p1 & Hg1 & Hpre & Hex).
  destruct (IH _ p1 (run_ms_ok _ o _ Hs) Hg1) as (p2 & Hg2 & Hpre2 & Hex2).
  exists p2. split_and!; [exact Hg2|by etrans|]. intros H1. rewrite (Hex H1) in *. by apply Hex2.
Qed.

(** C12: An executed multi-sig proposal was approved by the threshold.  After an
    initialisation and any calls, each proposal's approvals are distinct
    configured signers that include its proposer; a signer can execute it
    exactly when it is pending and the approvals reach the threshold; hence an
    executed proposal has at least the threshold of approvals, and it never
    changes again. *)
Theorem multisig_quorum config s0 ops later id p :
  let s := run_ms_all ops (fst (initMultiSig config s0)) in
  jm_get id (multiSigProposals s) = Some p →
  NoDup (mp_approvals p) ∧ mp_approvals p ⊆ mc_signers config ∧ mp_proposer p ∈ mp_approvals p ∧
  (mp_executed p = 1 → mc_threshold config ≤ Z.of_nat (length (mp_approvals p)) ∧
     jm_get id (multiSigProposals (run_ms_all later s)) = Some p) ∧
  (∀ who, is_ok (snd (executeMultiSigProposal who id s)) = true ↔
     who ∈ mc_signers config ∧ mp_executed p ≠ 1 ∧
     mc_threshold config ≤ Z.of_nat (length (mp_approvals p))).
Proof.
  intros s Hg. pose proof (run_ms_all_ok config ops _ (initMultiSig_ok config s0)) as Hs. fold s in Hs.
  destruct (mo_proposals _ _ Hs _ _ Hg) as [Hid _ Hnd Hsig Hpr Hexe]. split_and!; [done..| |].
  - intros H1. split; [destruct Hexe as [?|[_ ?]]; [lia|done]|].
    destruct (run_ms_all_keeps config later s id p Hs Hg) as (p' & -> & _ & Heq). by rewrite Heq.
  - intros who. unfold executeMultiSigProposal, requireSigner, require_some, require, mbind, M_bind, modify.
    rewrite (mo_config _ _ Hs). destruct (bool_decide_reflect (who ∈ mc_signers config)); simpl; [|naive_solver].
    rewrite Hg. simpl. destruct (Z.eqb_spec (mp_executed p) 1); simpl; [naive_solver|].
    destruct (Z.leb_spec (mc_threshold config) (Z.of_nat (length (mp_approvals p)))); simpl; [naive_solver|].
    split; [done|]. intros (_ & _ & ?). lia.
Qed.

Definition ms_demo_config : MultiSigConfig := mkMsConfig ["GA"; "GB"; "GC"]%string 2.
Definition ms_demo_ops : list ms_op :=
  [MCreate 1700000000000 "GA" (SetDeviationThreshold 500); MExecute "GA" 1;
   MApprove "GB" 1; MApprove "GB" 1; MExecute "GC" 1]%string.
Definition ms_demo_proposal : MultiSigProposal :=
  mkMsProposal 1 (SetDeviationThreshold 500) ["GA"; "GB"]%string 1 1700000000000 "GA".

(** One approval is not enough; a repeated approval does not count. *)
Lemma multisig_quorum_witness :
  mc_threshold ms_demo_config ≤ Z.of_nat (length (mp_approvals ms_demo_proposal)) ∧
  NoDup (mp_approvals ms_demo_proposal).
Proof.
  destruct (multisig_quorum ms_demo_config ms_initial ms_demo_ops [] 1 ms_demo_proposal)
    as (Hnd & _ & _ & Hex & _); [vm_compute; reflexivity|].
  split; [|exact Hnd]. by apply Hex.
Defined.

End MultiSig.

(** ** Token-based proposals *)

Module Voting.

(** Instants are epoch milliseconds, as [new Date(s * 1000).toISOString()]
    stores them. *)
Record GovernanceProposal := mkGovProposal {
  gp_id : Z;
  gp_proposer : string;
  gp_action : ProposalAction;
  gp_description : string;
  gp_votesFor : Z;
  gp_votesAgainst : Z;
  gp_votingStart : Z;
  gp_votingEnd : Z;
  gp_executionTime : Z;
  gp_status : ProposalStatus;
}.

Record governance := mkGovernance {
  govConfig : option GovernanceConfig;
  govProposalCount : Z;
  governanceProposals : jsmap Z GovernanceProposal;
  votes : jsmap string bool;
}.

Definition gov_initial : governance := mkGovernance None 0 jm_empty jm_empty.

Abbreviation GV := (M governance proposal_error).

Definition initGovernance (config : GovernanceConfig) : GV unit :=
  modify (λ _, mkGovernance (Some config) 0 jm_empty jm_empty).

Definition putGovernance (p : GovernanceProposal) (s : governance) : governance :=
  mkGovernance (govConfig s) (govProposalCount s)
    (jm_set (gp_id p) p (governanceProposals s)) (votes s).

(** [new Date(ms).toISOString()] throws outside the range of dates. *)
Definition date_in_range (ms : Z) : bool := Z.abs ms <=? 8640000000000000.

Definition seconds (ms : Z) : Z := ms / 1000.

Definition createGovernanceProposal (nowMs : Z) (proposer : string) (action : ProposalAction)
    (description : string) : GV GovernanceProposal :=
  config ← require_some govConfig GovernanceNotInitialized;
  count ← gets govProposalCount;
  let id := count + 1 in
  modify (λ s, mkGovernance (govConfig s) id (governanceProposals s) (votes s)) ;;
  let now := seconds nowMs in
  let votingStart := now * 1000 in
  let votingEnd := (now + gc_votingPeriod config) * 1000 in
  let executionTime := (now + gc_votingPeriod config + gc_timelockDelay config) * 1000 in
  require (date_in_range votingStart && date_in_range votingEnd && date_in_range executionTime)
    InvalidTimeValue ;;
  let proposal := mkGovProposal id proposer action description 0 0
                    votingStart votingEnd executionTime Active in
  modify (putGovernance proposal) ;;
  mret proposal.

Definition voteKey (proposalId : Z) (voter : string) : string :=
  pretty proposalId +:+ ":" +:+ voter.

Definition votingPower : Z := 100000.

Definition add_vote (support : bool) (p : GovernanceProposal) : GovernanceProposal :=
  mkGovProposal (gp_id p) (gp_proposer p) (gp_action p) (gp_description p)
    (if support then gp_votesFor p + votingPower else gp_votesFor p)
    (if support then gp_votesAgainst p else gp_votesAgainst p + votingPower)
    (gp_votingStart p) (gp_votingEnd p) (gp_executionTime p) (gp_status p).

Definition set_status (st : ProposalStatus) (p : GovernanceProposal) : GovernanceProposal :=
  mkGovProposal (gp_id p) (gp_proposer p) (gp_action p) (gp_description p) (gp_votesFor p)
    (gp_votesAgainst p) (gp_votingStart p) (gp_votingEnd p) (gp_executionTime p) st.

Definition set_executionTime (t : Z) (p : GovernanceProposal) : GovernanceProposal :=
  mkGovProposal (gp_id p) (gp_proposer p) (gp_action p) (gp_description p) (gp_votesFor p)
    (gp_votesAgainst p) (gp_votingStart p) (gp_votingEnd p) t (gp_status p).

Definition castVote (nowMs : Z) (voter : string) (proposalId : Z) (support : bool)
    : GV GovernanceProposal :=
  require_some govConfig GovernanceNotInitialized ;;
  proposal ← require_some (λ s, jm_get proposalId (governanceProposals s)) ProposalNotFound;
  require (bool_decide (gp_status proposal = Active)) VotingNotActive ;;
  require (seconds nowMs <? seconds (gp_votingEnd proposal)) VotingNotActive ;;
  voted ← gets (λ s, jm_has (voteKey proposalId voter) (votes s));
  require (negb voted) AlreadyVoted ;;
  let proposal' := add_vote support proposal in
  modify (λ s, putGovernance proposal' (mkGovernance (govConfig s) (govProposalCount s)
            (governanceProposals s) (jm_set (voteKey proposalId voter) support (votes s)))) ;;
  mret proposal'.

(** [totalVotes >= quorum && votesFor > votesAgainst] *)
Definition passed (config : GovernanceConfig) (p : GovernanceProposal) : bool :=
  (gc_quorum config <=? gp_votesFor p + gp_votesAgainst p) && (gp_votesAgainst p <? gp_votesFor p).

Definition queueProposal (nowMs : Z) (proposalId : Z) : GV GovernanceProposal :=
  config ← require_some govConfig GovernanceNotInitialized;
  proposal ← require_some (λ s, jm_get proposalId (governanceProposals s)) ProposalNotFound;
  require (bool_decide (gp_status proposal = Active)) VotingNotActive ;;
  require (negb (seconds nowMs <? seconds (gp_votingEnd proposal))) VotingNotActive ;;
  require_or (passed config proposal) (putGovernance (set_status Defeated proposal)) ProposalDefeated ;;
  modify (putGovernance (set_status Queued proposal)) ;;
  mret (set_status Queued proposal).

(** The clock is read once to resolve the vote and once for the time lock. *)
Definition executeGovernanceProposal (nowMs1 nowMs2 : Z) (proposalId : Z) : GV GovernanceProposal :=
  config ← require_some govConfig GovernanceNotInitialized;
  proposal ← require_some (λ s, jm_get proposalId (governanceProposals s)) ProposalNotFound;
  require (negb (bool_decide (gp_status proposal = Executed))) ProposalAlreadyExecuted ;;
  require (negb (bool_decide (gp_status proposal = Cancelled))) ProposalCancelled ;;
  require (negb (bool_decide (gp_status proposal = Defeated))) ProposalDefeated ;;
  let now1 := seconds nowMs1 in
  let ended := bool_decide (gp_status proposal = Active) &&
               negb (now1 <? seconds (gp_votingEnd proposal)) in
  require_or (negb ended || passed config proposal)
    (putGovernance (set_status Defeated proposal)) ProposalDefeated ;;
  let resolved := if ended then set_executionTime (now1 * 1000) (set_status Queued proposal)
                  else proposal in
  (* the stored object has been mutated, whatever the checks below decide *)
  modify (putGovernance resolved) ;;
  require (bool_decide (gp_status resolved = Queued) || bool_decide (gp_status resolved = Ready))
    VotingNotActive ;;
  require (negb (seconds nowMs2 <? seconds (gp_executionTime resolved))) TimeLockNotElapsed ;;
  modify (putGovernance (set_status Executed resolved)) ;;
  mret (set_status Executed resolved).

(** [caller] is logged and otherwise unused. *)
Definition cancelProposal (caller : string) (proposalId : Z) : GV GovernanceProposal :=
  require_some govConfig GovernanceNotInitialized ;;
  proposal ← require_some (λ s, jm_get proposalId (governanceProposals s)) ProposalNotFound;
  require (negb (bool_decide (gp_status proposal = Executed))) ProposalAlreadyExecuted ;;
  require (negb (bool_decide (gp_status proposal = Cancelled))) ProposalCancelled ;;
  modify (putGovernance (set_status Cancelled proposal)) ;;
  mret (set_status Cancelled proposal).

Definition emergencyExecute (guardian : string) (proposalId : Z) : GV GovernanceProposal :=
  config ← require_some govConfig GovernanceNotInitialized;
  require (bool_decide (gc_guardian config = guardian)) GuardianOnly ;;
  proposal ← require_some (λ s, jm_get proposalId (governanceProposals s)) ProposalNotFound;
  require (negb (bool_decide (gp_status proposal = Executed))) ProposalAlreadyExecuted ;;
  require (negb (bool_decide (gp_status proposal = Cancelled))) ProposalCancelled ;;
  modify (putGovernance (set_status Executed proposal)) ;;
  mret (set_status Executed proposal).

Definition getGovernanceProposal (id : Z) (s : governance) : option GovernanceProposal :=
  jm_get id (governanceProposals s).

Definition hasVoted (proposalId : Z) (voter : string) (s : governance) : bool :=
  jm_has (voteKey proposalId voter) (votes s).

Lemma seconds_mul x : seconds (x * 1000) = x.
Proof. unfold seconds. by rewrite Z.div_mul by lia. Qed.

(** *** Vote keys

    [`${proposalId}:${voter}`] determines the proposal: the decimal text of a
    number contains no colon. *)

Definition colon : Ascii.ascii := Ascii.ascii_of_nat 58.
Lemma pretty_N_no_colon x s : colon ∉ chars s → colon ∉ chars (pretty_N_go x s).
Proof.
  revert s. induction (N.lt_wf_0 x) as [x _ IH]; intros s Hs.
  destruct (decide (0 < x)%N) as [Hx|Hx].
  - rewrite pretty_N_go_step by done. apply IH; [by apply N.div_lt|]. simpl.
    rewrite not_elem_of_cons. split; [|done]. unfold pretty_N_char. by repeat case_match.
  - by replace x with 0%N by lia.
Qed.

Lemma pretty_Z_no_colon (z : Z) : colon ∉ chars (pretty z).
Proof.
  assert (∀ n : N, colon ∉ chars (pretty n)) as Hn.
  { intros n. unfold pretty, pretty_N. destruct (decide (n = 0%N)); [|apply pretty_N_no_colon; by apply not_elem_of_nil].
    simpl. rewrite not_elem_of_cons. split; [done|apply not_elem_of_nil]. }
  unfold pretty, pretty_Z. destruct z as [|p|p].
  - simpl. rewrite not_elem_of_cons. split; [done|apply not_elem_of_nil].
  - apply (Hn (Npos p)).
  - rewrite chars_app. simpl. rewrite not_elem_of_cons. split; [done|apply (Hn (Npos p))].
Qed.

(** The key belongs to a vote on the proposal. *)
Definition voteOn (id : Z) (key : string) : Prop :=
  (chars (pretty id) ++ [colon]) `prefix_of` chars key.

#[export] Instance voteOn_dec id key : Decision (voteOn id key).
Proof. unfold voteOn. apply _. Defined.

Lemma before_colon (l l' k : list Ascii.ascii) :
  colon ∉ l → colon ∉ l' → (l ++ [colon]) `prefix_of` l' ++ colon :: k → l = l'.
Proof.
  revert l'. induction l as [|x l IH]; intros [|y l'] Hl Hl'; simpl; [done|..].
  - intros H%prefix_cons_inv_1. set_solver.
  - intros H%prefix_cons_inv_1. set_solver.
  - intros H. assert (x = y) as -> by (by apply prefix_cons_inv_1 in H).
    f_equal. apply IH; [set_solver..|]. by apply prefix_cons_inv_2 in H.
Qed.

Lemma voteOn_key id id' voter : voteOn id (voteKey id' voter) ↔ id = id'.
Proof.
  unfold voteOn, voteKey. rewrite !chars_app. change (chars ":") with [colon]. split.
  - intros H. apply before_colon in H; [|apply pretty_Z_no_colon..]. apply chars_inj in H.
    by apply (inj pretty) in H.
  - intros ->. exists (chars voter). by rewrite <- app_assoc.
Qed.

(** The number of voters on one side of a proposal. *)
Definition voters (id : Z) (support : bool) (vs : list (string * bool)) : Z :=
  Z.of_nat (length (filter (λ kv, kv.2 = support ∧ voteOn id kv.1) vs)).

Lemma jm_set_new {V} (key : string) (v : V) vs :
  jm_has key vs = false → jm_set key v vs = vs ++ [(key, v)].
Proof.
  intros H%jm_has_false. induction vs as [|[k w] vs IH]; [done|]. simpl in *.
  destruct (decide (k = key)); [done|]. by rewrite IH.
Qed.

Lemma voters_cast id support id' voter side vs :
  jm_has (voteKey id voter) vs = false →
  voters id' side (jm_set (voteKey id voter) support vs) =
    voters id' side vs + (if decide (id' = id ∧ support = side) then 1 else 0).
Proof.
  intros Hnew. unfold voters. rewrite (jm_set_new _ _ _ Hnew), filter_app, length_app, Nat2Z.inj_add. f_equal.
  rewrite filter_cons, filter_nil. simpl.
  destruct (decide (support = side ∧ voteOn id' (voteKey id voter))) as [[H1 H2%voteOn_key]|Hno].
  - by rewrite decide_True.
  - rewrite decide_False; [done|]. intros [-> ->]. apply Hno. split; [done|]. by apply voteOn_key.
Qed.

(** *** Invariant *)

Inductive gov_op :=
| GCreate (nowMs : Z) (proposer : string) (action : ProposalAction) (description : string)
| GVote (nowMs : Z) (voter : string) (id : Z) (support : bool)
| GQueue (nowMs : Z) (id : Z)
| GExecute (nowMs1 nowMs2 : Z) (id : Z)
| GCancel (caller : string) (id : Z)
| GEmergency (guardian : string) (id : Z).

Definition run_vote_op (o : gov_op) (s : governance) : governance :=
  match o with
  | GCreate t who action d => fst (createGovernanceProposal t who action d s)
  | GVote t who id support => fst (castVote t who id support s)
  | GQueue t id => fst (queueProposal t id s)
  | GExecute t1 t2 id => fst (executeGovernanceProposal t1 t2 id s)
  | GCancel who id => fst (cancelProposal who id s)
  | GEmergency who id => fst (emergencyExecute who id s)
  end.

Definition run_votes (ops : list gov_op) (s : governance) : governance := foldl (flip run_vote_op) s ops.

Record gov_proposal_ok (config : GovernanceConfig) (vs : jsmap string bool) (id count : Z)
    (p : GovernanceProposal) : Prop := {
  go_id : gp_id p = id;
  go_count : 0 < id ≤ count;
  go_for : gp_votesFor p = votingPower * voters id true vs;
  go_against : gp_votesAgainst p = votingPower * voters id false vs;
  go_active : gp_status p = Active →
    gp_executionTime p = gp_votingEnd p + gc_timelockDelay config * 1000 ∧
    gp_votingEnd p = seconds (gp_votingEnd p) * 1000;
  go_queued : gp_status p = Queued → passed config p = true;
  go_ready : gp_status p ≠ Ready;
}.

Record gov_ok (config : GovernanceConfig) (s : governance) : Prop := {
  gv_config : govConfig s = Some config;
  gv_count : 0 ≤ govProposalCount s;
  gv_votes : jm_wf (votes s);
  gv_unused id side : govProposalCount s < id → voters id side (votes s) = 0;
  gv_proposals id p : jm_get id (governanceProposals s) = Some p →
    gov_proposal_ok config (votes s) id (govProposalCount s) p;
}.

Lemma putGovernance_ok config p s :
  gov_ok config s → gov_proposal_ok config (votes s) (gp_id p) (govProposalCount s) p →
  gov_ok config (putGovernance p s).
Proof.
  intros [Hc Hn Hv Hu Hp] Hok. constructor; [done..|]. intros id q. cbn [putGovernance governanceProposals votes govProposalCount].
  rewrite jm_get_set. destruct (decide (gp_id p = id)) as [<-|]; [by intros [= <-]|apply Hp].
Qed.

(** Changing the status of a stored proposal to one that needs no vote. *)
Lemma set_status_ok config s id p st :
  gov_ok config s → jm_get id (governanceProposals s) = Some p →
  (st = Queued → passed config p = true) → st ≠ Ready → st ≠ Active →
  gov_ok config (putGovernance (set_status st p) s).
Proof.
  intros Hs Hg Hq Hr Ha. destruct (gv_proposals _ _ Hs _ _ Hg) as [Hid Hcnt Hf Hag _ _ _].
  apply putGovernance_ok; [done|]. cbn [set_status gp_id]. rewrite Hid. by constructor.
Qed.

Lemma create_ok config t who action d s :
  gov_ok config s → gov_ok config (fst (createGovernanceProposal t who action d s)).
Proof.
  intros Hs. pose proof Hs as [Hc Hn Hv Hu Hp]. unfold createGovernanceProposal. inv_run.
  rename H into Ec. rewrite Hc in Ec. injection Ec as <-. apply run_modify.
  set (s1 := mkGovernance _ (govProposalCount s + 1) _ _).
  assert (gov_ok config s1) as Hs1.
  { constructor; cbn; [done|lia|done|intros; apply Hu; lia|]. intros id p Hg.
    destruct (Hp id p Hg). constructor; try done. lia. }
  apply run_require; [done|intros _]. apply run_modify.
  apply (putGovernance_ok config (mkGovProposal _ _ _ _ _ _ _ _ _ _)); [done|].
  constructor; cbn; [done|lia| | | |done..].
  - rewrite Hu; [done|lia].
  - rewrite Hu; [done|lia].
  - intros _. rewrite seconds_mul. split; [lia|done].
Qed.

Lemma vote_ok config t who id support s :
  gov_ok config s → gov_ok config (fst (castVote t who id support s)).
Proof.
  intros Hs. pose proof Hs as [Hc Hn Hv Hu Hp]. unfold castVote. inv_run.
  rename H0 into Hg, H1 into Hact, H3 into Hnew. to_prop. apply run_modify.
  destruct (Hp id _ Hg) as [Hid Hcnt Hf Hag Hac Hq Hr].
  constructor; cbn; [done|done|by apply jm_wf_set| |].
  - intros id' side Hlt. rewrite voters_cast by done. rewrite Hu by done. by rewrite decide_False by lia.
  - intros id' p'. rewrite Hid, jm_get_set. destruct (decide (id = id')) as [<-|Hne].
    + intros [= <-]. constructor; cbn; [done|done| | |done|by rewrite Hact|done];
        rewrite voters_cast by done; destruct support; unfold votingPower in *;
        (rewrite decide_True by done) || (rewrite decide_False by naive_solver); lia.
    + intros Hg'. destruct (Hp id' p' Hg') as [Hid' Hcnt' Hf' Hag' Hac' Hq' Hr'].
      constructor; try done; rewrite voters_cast by done; rewrite decide_False by naive_solver; lia.
Qed.

Lemma queue_ok config t id s : gov_ok config s → gov_ok config (fst (queueProposal t id s)).
Proof.
  intros Hs. unfold queueProposal. inv_run. rename H into Ec, H0 into Hg.
  rewrite (gv_config _ _ Hs) in Ec. injection Ec as <-.
  apply run_require_or; [by eapply set_status_ok|]. intros Hpass. apply run_modify.
  by eapply set_status_ok.
Qed.

(** The proposal as [executeGovernanceProposal] resolves it. *)
Definition resolvedAt (t : Z) (p : GovernanceProposal) : GovernanceProposal :=
  if bool_decide (gp_status p = Active) && negb (seconds t <? seconds (gp_votingEnd p))
  then set_executionTime (seconds t * 1000) (set_status Queued p) else p.

Lemma resolvedAt_ok config t s id p :
  gov_ok config s → jm_get id (governanceProposals s) = Some p →
  negb (bool_decide (gp_status p = Active) && negb (seconds t <? seconds (gp_votingEnd p)))
    || passed config p = true →
  gov_proposal_ok config (votes s) id (govProposalCount s) (resolvedAt t p).
Proof.
  intros Hs Hg Hpass. destruct (gv_proposals _ _ Hs _ _ Hg) as [Hid Hcnt Hf Hag Hac Hq Hr].
  unfold resolvedAt. destruct (_ && _) eqn:E; [|by constructor].
  simpl in Hpass. by constructor.
Qed.

Lemma execute_ok config t1 t2 id s :
  gov_ok config s → gov_ok config (fst (executeGovernanceProposal t1 t2 id s)).
Proof.
  intros Hs. unfold executeGovernanceProposal. inv_run. rename H into Ec, H0 into Hg, a0 into p.
  rewrite (gv_config _ _ Hs) in Ec. injection Ec as <-.
  apply run_require_or; [by eapply set_status_ok|]. intros Hpass. fold (resolvedAt t1 p).
  pose proof (resolvedAt_ok config t1 s id p Hs Hg Hpass) as Hr.
  assert (gov_ok config (putGovernance (resolvedAt t1 p) s)) as Hs1.
  { apply putGovernance_ok; [done|]. by rewrite (go_id _ _ _ _ _ Hr). }
  apply run_modify. apply run_require; [done|intros _]. apply run_require; [done|intros _].
  apply run_modify. eapply (set_status_ok config _ id); [done| |done..].
  cbn [putGovernance governanceProposals]. rewrite (go_id _ _ _ _ _ Hr). apply jm_get_set_eq.
Qed.

Lemma run_vote_ok config o s : gov_ok config s → gov_ok config (run_vote_op o s).
Proof.
  intros Hs. destruct o; cbn [run_vote_op];
    [by apply create_ok|by apply vote_ok|by apply queue_ok|by apply execute_ok|..].
  - unfold cancelProposal. inv_run. apply run_modify. by eapply set_status_ok.
  - unfold emergencyExecute. inv_run. apply run_modify. by eapply set_status_ok.
Qed.

Lemma run_votes_ok config ops s : gov_ok config s → gov_ok config (run_votes ops s).
Proof.
  revert s. induction ops as [|o ops IH]; intros s Hs; [done|]. simpl. apply IH. by apply run_vote_ok.
Qed.

Lemma initGovernance_ok config s : gov_ok config (fst (initGovernance config s)).
Proof. constructor; [done|done|apply jm_wf_empty|done|done]. Qed.

(** The tallies count voters: after an initialisation and any calls, each
    proposal's two tallies are the voting power times the number of distinct
    voters recorded on that side, and a vote is accepted only while the
    proposal is active, before its voting end, from someone who has not voted. *)
Theorem tally_exact config s0 ops id p :
  let s := run_votes ops (fst (initGovernance config s0)) in
  jm_get id (governanceProposals s) = Some p →
  gp_votesFor p = votingPower * voters id true (votes s) ∧
  gp_votesAgainst p = votingPower * voters id false (votes s) ∧
  NoDup (jm_keys (votes s)) ∧
  (∀ t voter side p', snd (castVote t voter id side s) = Ok p' →
     hasVoted id voter s = false ∧ gp_status p = Active ∧ seconds t < seconds (gp_votingEnd p) ∧
     hasVoted id voter (fst (castVote t voter id side s)) = true).
Proof.
  intros s Hg. pose proof (run_votes_ok config ops _ (initGovernance_ok config s0)) as Hs. fold s in Hs.
  destruct (gv_proposals _ _ Hs _ _ Hg) as [_ _ Hf Ha _ _ _]. split_and!; [done..|apply (gv_votes _ _ Hs)|].
  intros t voter side p' Hok. destruct (castVote t voter id side s) as [s' r] eqn:E. simpl in Hok. subst r.
  unfold castVote in E. inv_ok. to_prop. simplify_eq. split_and!; [done..|].
  unfold hasVoted. apply jm_has_true. cbn [fst putGovernance votes]. rewrite jm_get_set_eq. eauto.
Qed.

Lemma resolvedAt_fields t p :
  gp_id (resolvedAt t p) = gp_id p ∧ gp_votesFor (resolvedAt t p) = gp_votesFor p ∧
  gp_votesAgainst (resolvedAt t p) = gp_votesAgainst p.
Proof. unfold resolvedAt. by destruct (_ && _). Qed.

(** What a successful execution went through. *)
Lemma execute_inv config t1 t2 id s s' p' :
  govConfig s = Some config → executeGovernanceProposal t1 t2 id s = (s', Ok p') →
  ∃ p, jm_get id (governanceProposals s) = Some p ∧ p' = set_status Executed (resolvedAt t1 p) ∧
    s' = putGovernance p' (putGovernance (resolvedAt t1 p) s) ∧
    (bool_decide (gp_status p = Active) && negb (seconds t1 <? seconds (gp_votingEnd p)) = true →
       passed config p = true) ∧
    (gp_status (resolvedAt t1 p) = Queued ∨ gp_status (resolvedAt t1 p) = Ready) ∧
    seconds (gp_executionTime (resolvedAt t1 p)) ≤ seconds t2.
Proof.
  intros Hc E. unfold executeGovernanceProposal in E. inv_ok.
  match goal with H : govConfig s = Some ?cfg |- _ =>
    rewrite Hc in H; injection H as <- end.
  match goal with H : jm_get id _ = Some ?q |- _ => exists q; fold (resolvedAt t1 q) in *; rename H into Hg end.
  match goal with H : _ || passed _ _ = true |- _ => rename H into Hpass end.
  match goal with H : _ || bool_decide (_ = Ready) = true |- _ => rename H into Hst end.
  match goal with H : negb (seconds t2 <? _) = true |- _ => rename H into Ht end.
  split_and!; [done..| | |to_prop; lia].
  - intros Hend. by rewrite Hend in Hpass.
  - apply orb_true_iff in Hst as [?|?]; to_prop; tauto.
Qed.

(** C13: Executing takes a passed vote: when [executeGovernanceProposal] succeeds in
    a reachable state, the proposal was queued or its voting period is over,
    the votes of distinct voters reach the quorum with a strict majority in
    favour, a queued proposal's execution time has come, and the proposal ends
    executed with its tallies unchanged. *)
Theorem execution_authorised config s0 ops t1 t2 id s' p' :
  let s := run_votes ops (fst (initGovernance config s0)) in
  executeGovernanceProposal t1 t2 id s = (s', Ok p') →
  ∃ p, jm_get id (governanceProposals s) = Some p ∧
    (gp_status p = Queued ∧ seconds (gp_executionTime p) ≤ seconds t2 ∨
     gp_status p = Active ∧ seconds (gp_votingEnd p) ≤ seconds t1) ∧
    (let yes := votingPower * voters id true (votes s) in
     let no := votingPower * voters id false (votes s) in
     gc_quorum config ≤ yes + no ∧ no < yes ∧ gp_votesFor p' = yes ∧ gp_votesAgainst p' = no) ∧
    jm_get id (governanceProposals s') = Some p' ∧ gp_status p' = Executed.
Proof.
  intros s E. pose proof (run_votes_ok config ops _ (initGovernance_ok config s0)) as Hs. fold s in Hs. clearbody s.
  destruct (execute_inv config t1 t2 id s s' p' (gv_config _ _ Hs) E)
    as (p & Hg & -> & -> & Hpass & Hst & Ht). exists p. split; [done|].
  destruct (gv_proposals _ _ Hs _ _ Hg) as [Hid Hcnt Hf Ha Hac Hq Hr].
  destruct (resolvedAt_fields t1 p) as (Ri & Rf & Ra).
  assert (passed config p = true ∧ (gp_status p = Queued ∧ seconds (gp_executionTime p) ≤ seconds t2 ∨
     gp_status p = Active ∧ seconds (gp_votingEnd p) ≤ seconds t1)) as [Hp Hcase].
  { unfold resolvedAt in Hst, Ht. destruct (_ && _) eqn:Eend.
    - split; [by apply Hpass|right]. to_prop. split; [done|lia].
    - destruct Hst as [Hst|Hst]; [|done]. split; [by apply Hq|left; done]. }
  split; [done|]. split; [|split; [|done]].
  - unfold passed in Hp. to_prop. cbn [set_status gp_votesFor gp_votesAgainst]. rewrite Rf, Ra, <- Hf, <- Ha.
    by split_and!.
  - cbn [putGovernance set_status governanceProposals gp_id]. rewrite Ri, Hid. apply jm_get_set_eq.
Qed.

(** The time lock applies only to a proposal that was queued explicitly: once
    the voting period of a passed proposal is over, [executeGovernanceProposal]
    executes it at once, although queueing it first makes the same call fail
    until [timelockDelay] has passed. *)
Theorem execute_skips_timelock config s0 ops id p :
  let s := run_votes ops (fst (initGovernance config s0)) in
  let t := gp_votingEnd p in
  jm_get id (governanceProposals s) = Some p → gp_status p = Active →
  passed config p = true → 0 < gc_timelockDelay config →
  is_ok (snd (executeGovernanceProposal t t id s)) = true ∧
  is_ok (snd (queueProposal t id s)) = true ∧
  snd (executeGovernanceProposal t t id (fst (queueProposal t id s))) = Throw TimeLockNotElapsed.
Proof.
  intros s t Hg Hact Hpass Hd. pose proof (run_votes_ok config ops _ (initGovernance_ok config s0)) as Hs.
  fold s in Hs. clearbody s. destruct (gv_proposals _ _ Hs _ _ Hg) as [Hid _ _ _ Hac _ _].
  destruct (Hac Hact) as [Het Hve]. pose proof (gv_config _ _ Hs) as Hc.
  assert ((seconds t <? seconds (gp_votingEnd p)) = false) as Hend by apply Z.ltb_irrefl.
  unfold executeGovernanceProposal, queueProposal, require_some, require, require_or, gets, modify, mbind,
    M_bind, mret, M_ret. rewrite Hc, Hg. cbn [fst snd]. rewrite Hact, Hend, Hpass. eval_status.
  rewrite seconds_mul, Z.ltb_irrefl. cbn. rewrite Hc. cbn.
  rewrite Hid, jm_get_set_eq. eval_status. split_and!; [done..|].
  assert ((seconds t <? seconds (gp_executionTime p)) = true) as ->; [|done].
  apply Z.ltb_lt. rewrite Het, Hve, <- Z.mul_add_distr_r, seconds_mul. unfold t. lia.
Qed.

(** Anyone may cancel: the caller is not compared with the proposer. *)
Lemma cancel_by_anyone caller id p s :
  is_Some (govConfig s) → jm_get id (governanceProposals s) = Some p →
  gp_status p ≠ Executed → gp_status p ≠ Cancelled →
  snd (cancelProposal caller id s) = Ok (set_status Cancelled p).
Proof.
  intros [cfg Hc] Hg H1 H2. unfold cancelProposal, require_some, require, mbind, M_bind, modify, mret, M_ret.
  rewrite Hc, Hg. by rewrite !bool_decide_eq_false_2 by done.
Qed.

(** *** Concrete runs *)

Definition gov_demo_config : GovernanceConfig := mkGovConfig "CTOKEN" 3600 86400 200000 1 "GGUARD".
Definition demo_end : Z := 1700003600000.
Definition demo_votes : list gov_op :=
  [GCreate 1700000000000 "GA" (SetTrustedAsset "XLM" 1) "trust XLM";
   GVote 1700000001000 "GA" 1 true; GVote 1700000002000 "GB" 1 true;
   GVote 1700000003000 "GB" 1 false; GVote 1700000004000 "GC" 1 false]%string.
Definition demo_voted : GovernanceProposal :=
  mkGovProposal 1 "GA" (SetTrustedAsset "XLM" 1) "trust XLM" 200000 100000
    1700000000000 demo_end (demo_end + 86400000) Active.

(** The second vote of GB is refused. *)
Lemma tally_exact_witness :
  gp_votesFor demo_voted = votingPower * 2 ∧ gp_votesAgainst demo_voted = votingPower * 1.
Proof.
  destruct (tally_exact gov_demo_config gov_initial demo_votes 1 demo_voted) as (Hf & Ha & _);
    [vm_compute; reflexivity|].
  split; [rewrite Hf; vm_compute; reflexivity|rewrite Ha; vm_compute; reflexivity].
Defined.

Definition demo_queued : list gov_op := demo_votes ++ [GQueue demo_end 1].

Lemma execution_authorised_witness :
  ∃ p, jm_get 1 (governanceProposals (run_votes demo_queued (fst (initGovernance gov_demo_config gov_initial)))) = Some p ∧
    gc_quorum gov_demo_config ≤ votingPower * voters 1 true (votes (run_votes demo_queued (fst (initGovernance gov_demo_config gov_initial)))) +
      votingPower * voters 1 false (votes (run_votes demo_queued (fst (initGovernance gov_demo_config gov_initial)))).
Proof.
  destruct (execution_authorised gov_demo_config gov_initial demo_queued (demo_end + 86400000) (demo_end + 86400000) 1
    (fst (executeGovernanceProposal (demo_end + 86400000) (demo_end + 86400000) 1
       (run_votes demo_queued (fst (initGovernance gov_demo_config gov_initial)))))
    (set_status Executed demo_voted)) as (p & Hg & _ & (Hq & _) & _); [vm_compute; reflexivity|].
  exists p. split; [exact Hg|exact Hq].
Defined.

Lemma execute_skips_timelock_witness :
  is_ok (snd (executeGovernanceProposal demo_end demo_end 1
    (run_votes demo_votes (fst (initGovernance gov_demo_config gov_initial))))) = true.
Proof.
  apply (execute_skips_timelock gov_demo_config gov_initial demo_votes 1 demo_voted);
    [vm_compute; reflexivity|reflexivity|vm_compute; reflexivity|simpl; lia].
Defined.

End Voting.

(** ** Listings *)

Module Listing.

Record ListProposalsQuery := mkQuery {
  lq_status : option ProposalStatus;
  lq_proposer : option string;
  lq_page : option Z;
  lq_limit : option Z;
}.

Record ProposalListResponse (T : Type) := mkResponse {
  lr_proposals : list T;
  lr_page : Z;
  lr_limit : Z;
  lr_total : Z;
  lr_totalPages : Z;
}.
Arguments mkResponse {T}. Arguments lr_proposals {T}. Arguments lr_page {T}.
Arguments lr_limit {T}. Arguments lr_total {T}. Arguments lr_totalPages {T}.

(** [x || d] on a number *)
Definition num_or (x : option Z) (d : Z) : Z :=
  match x with Some 0 | None => d | Some z => z end.

(** [Array.prototype.slice(start, end)] *)
Definition js_slice {A} (start stop : Z) (l : list A) : list A :=
  let len := Z.of_nat (length l) in
  let rel z := if z <? 0 then Z.max (len + z) 0 else Z.min z len in
  take (Z.to_nat (rel stop - rel start)) (drop (Z.to_nat (rel start)) l).

(** The common end of the two listings; [Math.ceil] of a quotient is the
    negated floor of the negated quotient. *)
Definition paginate {A} (query : ListProposalsQuery) (proposals : list A) : ProposalListResponse A :=
  let page := num_or (lq_page query) 1 in
  let limit := num_or (lq_limit query) 20 in
  let total := Z.of_nat (length proposals) in
  let totalPages := - ((- total) / limit) in
  let start := (page - 1) * limit in
  mkResponse (js_slice start (start + limit) proposals) page limit total totalPages.

(** [if (query.proposer) ...]: an absent or empty proposer selects everything. *)
Definition byProposer {A} (proposerOf : A → string) (query : ListProposalsQuery) (l : list A) : list A :=
  match lq_proposer query with
  | None => l
  | Some who => if bool_decide (who = ""%string) then l else filter (λ p, proposerOf p = who) l
  end.

Definition listMultiSigProposals (query : ListProposalsQuery) (s : MultiSig.multisig)
    : ProposalListResponse MultiSig.MultiSigProposal :=
  paginate query (byProposer MultiSig.mp_proposer query (jm_values (MultiSig.multiSigProposals s))).

Definition matchingGovernance (query : ListProposalsQuery) (s : Voting.governance)
    : list Voting.GovernanceProposal :=
  let proposals := jm_values (Voting.governanceProposals s) in
  byProposer Voting.gp_proposer query
    match lq_status query with
    | None => proposals
    | Some st => filter (λ p, Voting.gp_status p = st) proposals
    end.

Definition listGovernanceProposals (query : ListProposalsQuery) (s : Voting.governance)
    : ProposalListResponse Voting.GovernanceProposal :=
  paginate query (matchingGovernance query s).

Lemma slice_page {A} (l : list A) (page limit : nat) :
  js_slice (Z.of_nat page * Z.of_nat limit) (Z.of_nat page * Z.of_nat limit + Z.of_nat limit) l =
    take limit (drop (page * limit) l).
Proof.
  unfold js_slice. rewrite !(proj2 (Z.ltb_ge _ 0)) by lia.
  destruct (decide (page * limit ≤ length l)%nat) as [Hle|Hgt].
  - rewrite (Z.min_l (Z.of_nat page * _)) by lia.
    replace (Z.to_nat (Z.of_nat page * Z.of_nat limit)) with (page * limit)%nat by lia.
    destruct (decide (page * limit + limit ≤ length l)%nat).
    + f_equal. lia.
    + rewrite !take_ge by (rewrite length_drop; lia). done.
  - rewrite (Z.min_r (Z.of_nat page * _)) by lia. rewrite !drop_ge by lia. by rewrite !take_nil.
Qed.

Lemma pages_concat {A} (l : list A) (limit n : nat) :
  mjoin ((λ i, take limit (drop (i * limit) l)) <$> seq 0 n) = take (n * limit) l.
Proof.
  induction n as [|n IH]; [by rewrite take_0|].
  rewrite seq_S, fmap_app, join_app, IH. cbn [fmap list_fmap mjoin list_join]. rewrite app_nil_r. simpl.
  rewrite Nat.add_comm. rewrite <- (take_drop (n * limit) (take (n * limit + limit) l)).
  rewrite take_take, Nat.min_l by lia. f_equal.
  rewrite <- take_drop_commute. f_equal.
Qed.

(** The pages of a listing partition it: for every filter and every positive
    page size, the pages numbered from 1 to the reported number of pages,
    concatenated, are the matching proposals in creation order, each page has
    at most the page size, and every page reports the same exact total. *)
Theorem pages_cover query limit s :
  0 < limit →
  let page i := listGovernanceProposals
    (mkQuery (lq_status query) (lq_proposer query) (Some (i + 1)) (Some limit)) s in
  (∀ i, 0 ≤ i → lr_total (page i) = Z.of_nat (length (matchingGovernance query s)) ∧
     Z.of_nat (length (lr_proposals (page i))) ≤ limit) ∧
  mjoin ((λ i, lr_proposals (page (Z.of_nat i))) <$> seq 0 (Z.to_nat (lr_totalPages (page 0)))) =
    matchingGovernance query s.
Proof.
  intros Hl page. set (l := matchingGovernance query s).
  assert (∀ i, 0 ≤ i → lr_proposals (page i) = take (Z.to_nat limit) (drop (Z.to_nat i * Z.to_nat limit) l)) as Hpage.
  { intros i Hi. unfold page, listGovernanceProposals, paginate. cbn [lr_proposals lq_page lq_limit].
    assert (num_or (Some (i + 1)) 1 = i + 1) as -> by (unfold num_or; destruct (i + 1) eqn:E; lia).
    assert (num_or (Some limit) 20 = limit) as -> by (unfold num_or; destruct limit; lia).
    replace (i + 1 - 1) with i by lia. fold l.
    rewrite <- (slice_page l (Z.to_nat i) (Z.to_nat limit)). by rewrite !Z2Nat.id by lia. }
  split.
  - intros i Hi. split; [done|]. rewrite Hpage, length_take by done. lia.
  - erewrite list_fmap_ext; [|intros j i Hi; rewrite Hpage by lia; rewrite Nat2Z.id; reflexivity].
    rewrite pages_concat. apply take_ge.
    assert (lr_totalPages (page 0) = - ((- Z.of_nat (length l)) / limit)) as ->.
    { unfold page, listGovernanceProposals, paginate. cbn [lr_totalPages lq_limit].
      assert (num_or (Some limit) 20 = limit) as -> by (unfold num_or; destruct limit; lia). done. }
    pose proof (Z.mul_div_le (- Z.of_nat (length l)) limit Hl). nia.
Qed.

Lemma pages_cover_witness :
  mjoin ((λ i, lr_proposals (listGovernanceProposals (mkQuery None None (Some (Z.of_nat i + 1)) (Some 2))
            (Voting.run_votes Voting.demo_votes (fst (Voting.initGovernance Voting.gov_demo_config Voting.gov_initial))))) <$>
          seq 0 1) =
    matchingGovernance (mkQuery None None None None)
      (Voting.run_votes Voting.demo_votes (fst (Voting.initGovernance Voting.gov_demo_config Voting.gov_initial))).
Proof. apply (pages_cover (mkQuery None None None None) 2); lia. Defined.

End Listing.
