(* ===== verification/Signers.v ===== *)
(** * Signer independence

    [api/src/governance/decentralization/signer-independence.ts]: the report on how
    many signers can approve independently of each other.

    Module [Matching]: [computeMaxIndependentQuorum], the augmenting-path search for a
    maximum matching of organizations to custody providers; [assign] is the recursive
    closure of the source, [fuel] bounds its depth (one more than the number of
    providers is enough, since every call marks a provider).  Module [Report]:
    [evaluateSignerIndependence] and its helpers, over exact rationals.

    - [Matching.max_independent]: the search returns the size of a largest set of
      signers no two of which share an organization or a custody provider;
    - [Report.verdict_exact]: what a passing verdict says. *)

From Stdlib Require Import ZArith QArith Qround Lia.
From stdpp Require Import base numbers list strings sets.
From S2P Require Import Prelude JsMap JsNum.

Local Open Scope Z_scope.

Inductive CustodyType := hsm | hardware_wallet | cloud_kms | multisig_agent | software.

#[export] Instance CustodyType_eq_dec : EqDecision CustodyType.
Proof. solve_decision. Defined.

Record SignerConflict := mkConflict { cf_party : string; cf_mitigation : string }.

Record SignerProfile := mkProfile {
  sp_address : string;
  sp_organization : string;
  sp_custody : CustodyType;
  sp_custodyProvider : string;
  sp_region : string;
  sp_addedAt : number;
  sp_lastRotatedAt : number;
  sp_availabilityPct : number;
  sp_conflicts : list SignerConflict;
}.

Definition normalize (value : string) : string := toLowerCase (trim value).

Module Matching.

Section search.
Context (edges : list (list nat)).

Definition neighbours (organization : nat) : list nat := default [] (edges !! organization).

(** The marks and [matchedOrganization]; -1 is an unmatched provider. *)
Definition search_state : Type := list bool * list Z.

(** The loop of [assign] over a list of providers, [rec] being [assign] itself. *)
Fixpoint tryProviders (rec : nat → search_state → option (search_state * bool)) (organization : nat)
    (providers : list nat) (st : search_state) : option (search_state * bool) :=
  match providers with
  | [] => Some (st, false)
  | provider :: rest =>
      let '(seen, matched) := st in
      if default false (seen !! provider) then tryProviders rec organization rest st
      else
        let seen := <[provider := true]> seen in
        let current := default (-1) (matched !! provider) in
        if current =? -1 then Some ((seen, <[provider := Z.of_nat organization]> matched), true)
        else
          match rec (Z.to_nat current) (seen, matched) with
          | None => None
          | Some ((seen, matched), true) =>
              Some ((seen, <[provider := Z.of_nat organization]> matched), true)
          | Some (st, false) => tryProviders rec organization rest st
          end
  end.

Fixpoint assign (fuel : nat) (organization : nat) (st : search_state) : option (search_state * bool) :=
  match fuel with
  | O => None
  | S fuel => tryProviders (assign fuel) organization (neighbours organization) st
  end.

(** The outer loop: a fresh set of marks for each organization. *)
Fixpoint matchAll (providers : nat) (organizations : list nat) (matched : list Z) (matching : nat)
    : option nat :=
  match organizations with
  | [] => Some matching
  | organization :: rest =>
      match assign (S providers) organization (replicate providers false, matched) with
      | None => None
      | Some ((_, matched), ok) => matchAll providers rest matched (if ok then S matching else matching)
      end
  end.
End search.

(** Organizations and providers are numbered as they appear. *)
Definition graph : Type := jsmap string nat * jsmap string nat * list (list nat).

Definition addSigner (g : graph) (signer : SignerProfile) : graph :=
  let '(organizations, providers, edges) := g in
  let organization := normalize (sp_organization signer) in
  let provider := normalize (sp_custodyProvider signer) in
  let '(organizations, edges) :=
    if jm_has organization organizations then (organizations, edges)
    else (jm_set organization (jm_size organizations) organizations, edges ++ [[]]) in
  let providers :=
    if jm_has provider providers then providers else jm_set provider (jm_size providers) providers in
  (organizations, providers,
   alter (λ l, l ++ [default 0%nat (jm_get provider providers)])
     (default 0%nat (jm_get organization organizations)) edges).

Definition buildGraph (signers : list SignerProfile) : graph := foldl addSigner ([], [], []) signers.

Definition computeMaxIndependentQuorum (signers : list SignerProfile) : nat :=
  let '(_, providers, edges) := buildGraph signers in
  default 0%nat
    (matchAll edges (jm_size providers) (seq 0 (length edges)) (replicate (jm_size providers) (-1)) 0).

(** ** One search *)

Section correct.
Context (edges : list (list nat)).
Implicit Types (s : list bool) (m : list Z) (B : list nat).

Abbreviation nbrs := (neighbours edges).

Definition marked s (p : nat) : Prop := s !! p = Some true.

(** The matched organizations. *)
Definition image m : list Z := filter (λ x, x ≠ -1) m.

Definition valid m : Prop :=
  ∀ p x, m !! p = Some x → x = -1 ∨ ∃ o, x = Z.of_nat o ∧ p ∈ nbrs o.

(** Every provider of [B] is matched to an organization all of whose providers are
    in [B]: from such an organization no unmatched provider can be reached. *)
Definition closed m B : Prop :=
  ∀ p, p ∈ B → ∃ o, m !! p = Some (Z.of_nat o) ∧ nbrs o ⊆ B.

(** What a search through [ps] for organization [o] has established. *)
Definition searched (o : nat) (ps : list nat) s m (out : search_state * bool) : Prop :=
  let '((s', m'), found) := out in
  length s' = length s ∧ length m' = length m ∧ (∀ p, marked s p → marked s' p) ∧
  if found then
    image m' ≡ₚ Z.of_nat o :: image m ∧ valid m' ∧ (∀ p, marked s p → m' !! p = m !! p) ∧
    (∀ B, closed m B → (∀ p, p ∈ B → m' !! p = m !! p) ∧ ¬ ps ⊆ B)
  else
    m' = m ∧ (∀ p, p ∈ ps → marked s' p) ∧
    (∀ p, marked s' p → ¬ marked s p → ∃ o', m !! p = Some (Z.of_nat o') ∧ ∀ q, q ∈ nbrs o' → marked s' q).

Lemma image_insert_free m p o :
  m !! p = Some (-1) → image (<[p := Z.of_nat o]> m) ≡ₚ Z.of_nat o :: image m.
Proof.
  intros Hp. unfold image. rewrite insert_take_drop by (by apply lookup_lt_Some in Hp).
  rewrite <- (take_drop_middle m p _ Hp) at 3. rewrite !filter_app, !filter_cons.
  rewrite decide_True by lia. rewrite (decide_False (P := -1 ≠ -1)) by lia. by rewrite Permutation_middle.
Qed.

Lemma image_insert_swap m p o o' :
  m !! p = Some (Z.of_nat o') →
  Z.of_nat o' :: image (<[p := Z.of_nat o]> m) ≡ₚ Z.of_nat o :: image m.
Proof.
  intros Hp. unfold image. rewrite insert_take_drop by (by apply lookup_lt_Some in Hp).
  rewrite <- (take_drop_middle m p _ Hp) at 3. rewrite !filter_app, !filter_cons.
  rewrite !decide_True by lia. rewrite <- !Permutation_middle. apply Permutation_swap.
Qed.

Lemma marked_insert s p q : marked (<[p := true]> s) q ↔ marked s q ∨ q = p ∧ (p < length s)%nat.
Proof.
  unfold marked. destruct (decide (q = p)) as [->|Hne]; [|rewrite list_lookup_insert_ne by done; naive_solver].
  destruct (decide (p < length s)%nat) as [Hl|Hl].
  - rewrite list_lookup_insert_eq by done. naive_solver.
  - rewrite list_insert_ge by lia. naive_solver.
Qed.

Lemma valid_insert m p o : valid m → p ∈ nbrs o → valid (<[p := Z.of_nat o]> m).
Proof.
  intros Hv Hp q x. destruct (decide (q = p)) as [->|Hne]; [|rewrite list_lookup_insert_ne by done; apply Hv].
  destruct (decide (p < length m)%nat); [rewrite list_lookup_insert_eq by done|rewrite list_insert_ge by lia; apply Hv].
  intros [= <-]. eauto.
Qed.

(** The result of matching [p] to [o] after its organization moved elsewhere, or
    when it had none. *)
Lemma searched_take o o' p ps s m s2 m2 :
  s !! p = Some false → m !! p = Some (Z.of_nat o') → p ∈ nbrs o →
  searched o' (nbrs o') (<[p := true]> s) m ((s2, m2), true) →
  searched o (p :: ps) s m ((s2, <[p := Z.of_nat o]> m2), true).
Proof.
  intros Hs Hm Hp (Hls & Hlm & Hmono & Him & Hv & Hkeep & HB).
  assert (p < length s)%nat as Hps by (by apply lookup_lt_Some in Hs).
  assert (m2 !! p = m !! p) as Hm2 by (apply Hkeep, marked_insert; auto).
  assert (∀ q, marked s q → marked (<[p := true]> s) q) as Hms by (intros q Hq; apply marked_insert; auto).
  split_and!; [by rewrite Hls, length_insert|by rewrite length_insert|auto| | | |].
  - apply (Permutation_cons_inv (a := Z.of_nat o')).
    rewrite (image_insert_swap m2 p o o') by congruence. rewrite Him. apply Permutation_swap.
  - by apply valid_insert.
  - intros q Hq. rewrite list_lookup_insert_ne; [by apply Hkeep, Hms|].
    intros ->. unfold marked in Hq. congruence.
  - intros B HBc. destruct (HB B HBc) as [HBk HBn]. assert (p ∉ B) as HpB.
    { intros HpB. destruct (HBc p HpB) as (o2 & Ho2 & Hsub). apply HBn. by assert (o' = o2) as -> by (simplify_eq; lia). }
    split; [|set_solver]. intros q Hq. rewrite list_lookup_insert_ne by set_solver. by apply HBk.
Qed.

Lemma searched_free o p ps s m :
  s !! p = Some false → m !! p = Some (-1) → p ∈ nbrs o → valid m →
  searched o (p :: ps) s m ((<[p := true]> s, <[p := Z.of_nat o]> m), true).
Proof.
  intros Hs Hm Hp Hv. split_and!; [by rewrite length_insert..| | | | |].
  - intros q Hq. apply marked_insert. auto.
  - by apply image_insert_free.
  - by apply valid_insert.
  - intros q Hq. rewrite list_lookup_insert_ne; [done|]. intros ->. unfold marked in Hq. congruence.
  - intros B HB. assert (p ∉ B) as HpB.
    { intros HpB. destruct (HB p HpB) as (o2 & Ho2 & _). simplify_eq; lia. }
    split; [|set_solver]. intros q Hq. by rewrite list_lookup_insert_ne by set_solver.
Qed.

(** Going on after a provider whose organization could not be moved. *)
Lemma searched_skip o o' p ps s m s2 m2 out :
  s !! p = Some false → m !! p = Some (Z.of_nat o') →
  searched o' (nbrs o') (<[p := true]> s) m ((s2, m2), false) →
  searched o ps s2 m2 out → searched o (p :: ps) s m out.
Proof.
  intros Hs Hm (Hls & _ & Hmono & -> & Hall & Hnew). destruct out as [[s' m'] found].
  intros (Hls' & Hlm' & Hmono' & Hout). rewrite length_insert in Hls.
  assert (p < length s)%nat as Hps by (by apply lookup_lt_Some in Hs).
  assert (∀ q, marked s q → marked s2 q) as Hms by (intros q Hq; apply Hmono, marked_insert; auto).
  split_and!; [congruence|done|auto|]. destruct found.
  - destruct Hout as (Him & Hv & Hkeep & HB). split_and!; [done|done|auto|].
    intros B HBc. destruct (HB B HBc). split; [done|set_solver].
  - destruct Hout as (Hm' & Hps' & Hnew'). split_and!; [done| |].
    + intros q [->|Hq]%elem_of_cons; [|auto]. apply Hmono', Hmono, marked_insert. auto.
    + intros q Hq Hns. destruct (decide (s2 !! q = Some true)) as [H2|H2]; [|by apply Hnew'].
      destruct (decide (q = p)) as [->|Hne]; [exists o'; eauto|].
      destruct (Hnew q H2) as (o2 & Ho2 & Hn2); [|exists o2; eauto].
      intros [?|[? _]]%marked_insert; auto.
Qed.

Lemma tryProviders_searched rec o ps s m out :
  (∀ o' s m out, length s = length m → valid m → (∀ o p, p ∈ nbrs o → (p < length s)%nat) →
     rec o' (s, m) = Some out → searched o' (nbrs o') s m out) →
  ps ⊆ nbrs o → (∀ o p, p ∈ nbrs o → (p < length s)%nat) → length s = length m → valid m →
  tryProviders rec o ps (s, m) = Some out → searched o ps s m out.
Proof.
  intros Hrec. revert s m. induction ps as [|p ps IH]; intros s m Hsub Hb Hl Hv.
  { intros [= <-]. split_and!; [done..|set_solver|done]. }
  assert (p ∈ nbrs o) as Hp by set_solver. assert (ps ⊆ nbrs o) as Hsub' by set_solver.
  destruct (lookup_lt_is_Some_2 s p) as [b Hs]; [eauto|].
  destruct (lookup_lt_is_Some_2 m p) as [x Hm]; [rewrite <- Hl; eauto|].
  cbn [tryProviders]. rewrite Hs, Hm. cbn [default from_option]. unfold id. destruct b.
  { intros Ht. apply IH in Ht; [|done..]. destruct out as [[s' m'] found].
    destruct Ht as (H1 & H2 & H3 & Hout). split_and!; [done..|]. destruct found.
    - destruct Hout as (? & ? & ? & HB). split_and!; [done..|]. intros B HBc. destruct (HB B HBc). split; [done|set_solver].
    - destruct Hout as (? & ? & ?). split_and!; [done| |done]. intros q [->|Hq]%elem_of_cons; auto. }
  destruct (x =? -1) eqn:E; to_prop; [subst x; intros [= <-]; by apply searched_free|].
  destruct (Hv p x Hm) as [->|(o' & -> & _)]; [done|]. rewrite Nat2Z.id.
  assert (∀ o p', p' ∈ nbrs o → (p' < length (<[p:=true]> s))%nat) as Hb' by (rewrite length_insert; eauto).
  destruct (rec o' _) as [[[s2 m2] []]|] eqn:Er; [| |done].
  - intros [= <-]. apply (searched_take o o'); [done..|]. apply Hrec; [by rewrite length_insert|done|done|done].
  - apply Hrec in Er; [|by rewrite length_insert|done|done]. intros Ht.
    apply (searched_skip o o' p ps s m s2 m2); [done..|]. destruct Er as (Hls & Hlm & _ & -> & _).
    rewrite length_insert in Hls. apply IH; [done| |congruence|done|done].
    intros o2 q Hq. rewrite Hls. eauto.
Qed.

Lemma assign_searched fuel o s m out :
  length s = length m → valid m → (∀ o p, p ∈ nbrs o → (p < length s)%nat) →
  assign edges fuel o (s, m) = Some out → searched o (nbrs o) s m out.
Proof.
  revert o s m out. induction fuel as [|fuel IH]; intros o s m out Hl Hv Hb; [done|]. cbn [assign].
  by apply tryProviders_searched.
Qed.

(** ** The search returns *)

Definition unmarked s : nat := length (filter (λ b, b = false) s).

Lemma unmarked_mono s s' :
  length s' = length s → (∀ p, marked s p → marked s' p) → (unmarked s' <= unmarked s)%nat.
Proof.
  revert s'. induction s as [|b s IH]; intros [|b' s'] Hl Hm; try done. injection Hl as Hl.
  unfold unmarked in *. rewrite !filter_cons. specialize (IH s' Hl (λ p, Hm (S p))).
  specialize (Hm 0%nat). unfold marked in Hm. simpl in Hm.
  destruct b; [rewrite (decide_False (P := true = false)), decide_False by naive_solver; done|].
  rewrite (decide_True (P := false = false)) by done. case_decide; simpl; lia.
Qed.

Lemma unmarked_insert s p : s !! p = Some false → unmarked s = S (unmarked (<[p := true]> s)).
Proof.
  intros Hp. unfold unmarked. rewrite insert_take_drop by (by apply lookup_lt_Some in Hp).
  rewrite <- (take_drop_middle s p _ Hp) at 1. rewrite !filter_app, !filter_cons.
  rewrite decide_True, decide_False by done. rewrite !length_app. simpl. lia.
Qed.

Lemma assign_total fuel o s m :
  length s = length m → valid m → (∀ o p, p ∈ nbrs o → (p < length s)%nat) →
  (unmarked s < fuel)%nat → is_Some (assign edges fuel o (s, m)).
Proof.
  revert o s m. induction fuel as [|fuel IH]; intros o s m Hl Hv Hb Hu; [lia|]. cbn [assign].
  assert (∀ ps, ps ⊆ nbrs o → is_Some (tryProviders (assign edges fuel) o ps (s, m))) as Hps; [|by apply Hps].
  intros ps. revert s Hl Hb Hu. induction ps as [|p ps IHps]; intros s Hl Hb Hu Hsub; [by eexists|].
  assert (p ∈ nbrs o) as Hp by set_solver. assert (ps ⊆ nbrs o) as Hsub' by set_solver.
  destruct (lookup_lt_is_Some_2 s p) as [b Hs]; [eauto|].
  destruct (lookup_lt_is_Some_2 m p) as [x Hm]; [rewrite <- Hl; eauto|].
  cbn [tryProviders]. rewrite Hs, Hm. cbn [default from_option]. unfold id. destruct b; [by apply IHps|].
  destruct (x =? -1) eqn:E; [by eexists|]. to_prop. apply unmarked_insert in Hs as Hu'.
  assert (∀ o p', p' ∈ nbrs o → (p' < length (<[p:=true]> s))%nat) as Hb' by (rewrite length_insert; eauto).
  destruct (IH (Z.to_nat x) (<[p := true]> s) m) as [[[s2 m2] found] Hr];
    [by rewrite length_insert|done|done|lia|]. rewrite Hr.
  apply assign_searched in Hr as (Hls & _ & Hmono & Hf); [|by rewrite length_insert|done|done].
  destruct found; [by eexists|]. destruct Hf as (-> & _).
  pose proof (unmarked_mono _ _ Hls Hmono). rewrite length_insert in Hls.
  apply IHps; [congruence|intros o2 q Hq; rewrite Hls; eauto|lia|done].
Qed.

(** ** All organizations *)

(** Organizations matched so far and those that could not be, with the providers
    that block the latter. *)
Record progress_ok (matchedOrgs failed : list nat) (blocked : list nat) m : Prop := {
  po_valid : valid m;
  po_image : image m ≡ₚ Z.of_nat <$> matchedOrgs;
  po_closed : closed m blocked;
  po_nodup : NoDup blocked;
  po_failed : ∀ o, o ∈ failed → nbrs o ⊆ blocked;
}.

Definition with_marks (B : list nat) s : list nat := B ++ filter (λ p, s !! p = Some true ∧ p ∉ B) (seq 0 (length s)).

Lemma elem_of_with_marks B s p : p ∈ with_marks B s ↔ p ∈ B ∨ marked s p.
Proof.
  unfold with_marks, marked. rewrite elem_of_app, list_elem_of_filter, elem_of_seq.
  destruct (decide (p ∈ B)); [naive_solver|]. split; [naive_solver|]. intros [?|Hp]; [done|right].
  split; [done|]. apply lookup_lt_Some in Hp. lia.
Qed.

Lemma step_failed n ms fs B m o s' m' :
  progress_ok ms fs B m →
  searched o (nbrs o) (replicate n false) m ((s', m'), false) →
  progress_ok ms (fs ++ [o]) (with_marks B s') m'.
Proof.
  intros [Hv Hi Hc Hn Hf] (_ & _ & _ & -> & Hall & Hnew).
  assert (∀ p, ¬ marked (replicate n false) p) as Hno.
  { intros p [H _]%lookup_replicate. done. }
  constructor; [done|done| | |].
  - intros p [Hp|Hp]%elem_of_with_marks.
    + destruct (Hc p Hp) as (o' & Ho & Hsub). exists o'. split; [done|].
      intros q Hq. apply elem_of_with_marks. auto.
    + destruct (Hnew p Hp (Hno p)) as (o' & Ho & Hsub). exists o'. split; [done|].
      intros q Hq. apply elem_of_with_marks. auto.
  - unfold with_marks. apply NoDup_app. split_and!; [done| |apply NoDup_filter, NoDup_seq].
    intros p Hp [[_ Hnp] _]%list_elem_of_filter. done.
  - intros o' [Ho| ->%list_elem_of_singleton]%elem_of_app q Hq; apply elem_of_with_marks; [left; by eapply Hf|auto].
Qed.

Lemma step_matched n ms fs B m o s' m' :
  progress_ok ms fs B m →
  searched o (nbrs o) (replicate n false) m ((s', m'), true) →
  progress_ok (ms ++ [o]) fs B m'.
Proof.
  intros [Hv Hi Hc Hn Hf] (_ & _ & _ & Him & Hv' & _ & HB). destruct (HB B Hc) as [HBk _].
  constructor; [done| | |done|done].
  - rewrite Him, Hi, fmap_app. simpl. by rewrite <- Permutation_cons_append.
  - intros p Hp. rewrite HBk by done. by apply Hc.
Qed.

Lemma matchAll_ok n os ms fs B m :
  (∀ o p, p ∈ nbrs o → (p < n)%nat) → length m = n → progress_ok ms fs B m →
  ∃ ms' fs' B' m', matchAll edges n os m (length ms) = Some (length ms') ∧ length m' = n ∧
    progress_ok ms' fs' B' m' ∧ ms' ++ fs' ≡ₚ ms ++ fs ++ os.
Proof.
  intros Hb. revert ms fs B m. induction os as [|o os IH]; intros ms fs B m Hl Hok; cbn [matchAll].
  { exists ms, fs, B, m. by rewrite app_nil_r. }
  assert (∀ o p, p ∈ nbrs o → (p < length (replicate n false))%nat) as Hb'
    by (intros; rewrite length_replicate; eauto).
  assert (length (replicate n false) = length m) as Hlr by (by rewrite length_replicate).
  destruct (assign_total (S n) o (replicate n false) m) as [[[s' m'] found] Ha];
    [done|by destruct Hok|done|unfold unmarked; rewrite <- (length_replicate n false) at 2;
      apply Nat.lt_succ_r, length_filter|]. rewrite Ha.
  apply assign_searched in Ha; [|done|by destruct Hok|done].
  assert (length m' = n) as Hl' by (destruct Ha as (_ & -> & _); done). destruct found.
  - destruct (IH (ms ++ [o]) fs B m' Hl') as (ms' & fs' & B' & m2 & H1 & H2 & H3 & H4).
    { by apply (step_matched n ms fs B m o s' m'). }
    exists ms', fs', B', m2. rewrite length_app, Nat.add_1_r in H1. split_and!; [done..|].
    rewrite H4. solve_Permutation.
  - destruct (IH ms (fs ++ [o]) (with_marks B s') m' Hl') as (ms' & fs' & B' & m2 & H1 & H2 & H3 & H4).
    { by apply (step_failed n ms fs B m o s' m'). }
    exists ms', fs', B', m2. split_and!; [done..|]. rewrite H4. solve_Permutation.
Qed.

(** ** Matchings *)

(** Edges no two of which share an organization or a provider. *)
Definition matching (es : list (nat * nat)) : Prop :=
  NoDup es.*1 ∧ NoDup es.*2 ∧ ∀ o p, (o, p) ∈ es → p ∈ nbrs o.

Lemma image_inj m p q x :
  NoDup (image m) → m !! p = Some x → m !! q = Some x → x ≠ -1 → p = q.
Proof.
  revert p q. unfold image. induction m as [|y m IH]; intros p q Hn Hp Hq Hx; [done|].
  rewrite filter_cons in Hn.
  assert (∀ i, m !! i = Some x → x ∈ filter (λ x, x ≠ -1) m) as Hin.
  { intros i Hi. apply list_elem_of_filter. split; [done|]. by apply list_elem_of_lookup_2 in Hi. }
  destruct p as [|p], q as [|q]; simpl in *; [done| | |].
  - injection Hp as ->. rewrite decide_True in Hn by done. apply NoDup_cons in Hn as [Hn _]. destruct Hn. eauto.
  - injection Hq as ->. rewrite decide_True in Hn by done. apply NoDup_cons in Hn as [Hn _]. destruct Hn. eauto.
  - f_equal. apply IH; try done. case_decide; [by apply NoDup_cons in Hn as [_ Hn]|done].
Qed.

(** No matching is larger: its edges into blocked providers are at most as many as
    those, and its other edges start from organizations matched elsewhere. *)
Lemma matching_bound ms fs B m es :
  progress_ok ms fs B m → NoDup ms → (∀ o p, (o, p) ∈ es → o ∈ ms ++ fs) → matching es →
  (length es <= length ms)%nat.
Proof.
  intros [Hv Hi Hc Hn Hf] Hms Hall (H1 & H2 & He).
  assert (NoDup (image m)) as Hni by (rewrite Hi; by apply NoDup_fmap_2; [apply _|]).
  set (org := λ p, Z.to_nat (default (-1) (m !! p))).
  assert (∀ p, p ∈ B → ∃ o, m !! p = Some (Z.of_nat o) ∧ org p = o ∧ nbrs o ⊆ B) as HB.
  { intros p Hp. destruct (Hc p Hp) as (o & Ho & Hs). exists o. split_and!; [done| |done].
    unfold org. rewrite Ho. apply Nat2Z.id. }
  set (inB := filter (λ e : nat * nat, e.2 ∈ B) es). set (outB := filter (λ e : nat * nat, ¬ e.2 ∈ B) es).
  assert (length es = length inB + length outB)%nat as ->.
  { unfold inB, outB. rewrite <- length_app. apply Permutation_length. symmetry. apply filter_app_complement. }
  assert (length inB <= length B)%nat as Hin.
  { rewrite <- (length_fmap snd inB). apply submseteq_length, NoDup_submseteq.
    - by apply NoDup_fmap_filter.
    - intros p ([o p'] & -> & [Hp _]%list_elem_of_filter)%list_elem_of_fmap. done. }
  enough (length (outB.*1 ++ (org <$> B)) <= length ms)%nat as Hout
    by (rewrite length_app, !length_fmap in Hout; lia).
  apply submseteq_length, NoDup_submseteq.
  - apply NoDup_app. split_and!; [by apply NoDup_fmap_filter| |].
    + intros o ([o' q] & -> & [Hq Hin']%list_elem_of_filter)%list_elem_of_fmap.
      intros (p & Ho & Hp)%list_elem_of_fmap. simpl in *. destruct (HB p Hp) as (o2 & _ & Ho2 & Hs).
      apply Hq, Hs. rewrite <- Ho2, <- Ho. by apply He.
    + apply NoDup_fmap_2_strong; [|done]. intros p q Hp Hq Hpq.
      destruct (HB p Hp) as (o & Hmp & Ho & _), (HB q Hq) as (o' & Hmq & Ho' & _).
      apply (image_inj m p q (Z.of_nat o)); [done|done| |lia]. congruence.
  - intros o [([o' q] & -> & [Hq Hin']%list_elem_of_filter)%list_elem_of_fmap|
              (p & -> & Hp)%list_elem_of_fmap]%elem_of_app.
    + simpl in *. pose proof (Hall _ _ Hin') as [Ho|Ho]%elem_of_app; [done|].
      destruct Hq. apply (Hf o' Ho). by apply He.
    + destruct (HB p Hp) as (o & Hm & -> & _).
      assert (Z.of_nat o ∈ image m) as Hz.
      { apply list_elem_of_filter. split; [lia|]. by apply list_elem_of_lookup_2 in Hm. }
      rewrite Hi in Hz. apply list_elem_of_fmap in Hz as (o2 & Ho2 & Hin2). by assert (o = o2) as -> by lia.
Qed.

(** The edges of the matching found. *)
Definition edges_of m : list (nat * nat) :=
  (λ p, (Z.to_nat (default (-1) (m !! p)), p)) <$>
    filter (λ p, default (-1) (m !! p) ≠ -1) (seq 0 (length m)).

Lemma image_via_index m :
  image m = (λ p, default (-1) (m !! p)) <$> filter (λ p, default (-1) (m !! p) ≠ -1) (seq 0 (length m)).
Proof.
  unfold image. induction m as [|x m IH] using rev_ind; [done|].
  rewrite length_app, seq_app, !filter_app, fmap_app. cbn [length seq]. f_equal.
  - rewrite IH. clear IH. assert (∀ p, p ∈ seq 0 (length m) → (m ++ [x]) !! p = m !! p) as Hp.
    { intros p Hp%elem_of_seq. apply lookup_app_l. lia. }
    induction (seq 0 (length m)) as [|p l IHl]; [done|]. rewrite !filter_cons, (Hp p) by set_solver.
    destruct (decide (default (-1) (m !! p) ≠ -1)); rewrite ?fmap_cons, ?(Hp p), IHl by set_solver; done.
  - rewrite !filter_cons, !filter_nil. cbn [Nat.add].
    assert ((m ++ [x]) !! length m = Some x) as Hx by (by rewrite lookup_app_r, Nat.sub_diag by lia).
    rewrite Hx. cbn [default from_option]. unfold id. case_decide; [|done]. simpl. by rewrite Hx.
Qed.

Lemma edges_of_matching ms fs B m :
  progress_ok ms fs B m → NoDup ms → matching (edges_of m) ∧ (edges_of m).*1 ≡ₚ ms.
Proof.
  intros [Hv Hi _ _ _] Hms. unfold edges_of.
  assert ((edges_of m).*1 ≡ₚ ms) as Hp.
  { unfold edges_of. rewrite <- list_fmap_compose. change (fst ∘ _) with (Z.to_nat ∘ λ p, default (-1) (m !! p)).
    rewrite list_fmap_compose, <- image_via_index, Hi, <- list_fmap_compose.
    rewrite (list_fmap_ext _ id ms); [by rewrite list_fmap_id|]. intros i o _. simpl. apply Nat2Z.id. }
  split_and!; [|done]. split_and!.
  - unfold edges_of in Hp. by rewrite Hp.
  - rewrite <- list_fmap_compose. change (snd ∘ _) with (@id nat). rewrite list_fmap_id.
    apply NoDup_filter, NoDup_seq.
  - intros o p (p' & [= -> ->] & [Hne _]%list_elem_of_filter)%list_elem_of_fmap.
    destruct (m !! p') as [x|] eqn:Em; [|done]. destruct (Hv p' x Em) as [->|(o & -> & Ho)]; [done|].
    simpl. by rewrite Nat2Z.id.
Qed.

Lemma matchAll_max n :
  (∀ o p, p ∈ nbrs o → (p < n)%nat) →
  ∃ k, matchAll edges n (seq 0 (length edges)) (replicate n (-1)) 0 = Some k ∧
    (∃ es, matching es ∧ length es = k) ∧ (∀ es, matching es → (length es <= k)%nat).
Proof.
  intros Hb. assert (progress_ok [] [] [] (replicate n (-1))) as Hinit.
  { constructor; [| |by intros p ?%elem_of_nil|constructor|by intros o ?%elem_of_nil].
    - intros p x [-> _]%lookup_replicate. by left.
    - unfold image. rewrite filter_none; [done|]. intros x [-> _]%elem_of_replicate. lia. }
  destruct (matchAll_ok n (seq 0 (length edges)) [] [] [] (replicate n (-1))) as (ms & fs & B & m & Hk & _ & Hok & Hp);
    [done|apply length_replicate|done|]. simpl in Hp.
  assert (NoDup ms) as Hms by (apply (NoDup_app ms fs); rewrite Hp; apply NoDup_seq).
  destruct (edges_of_matching ms fs B m Hok Hms) as [He Hl]. exists (length ms). split_and!; [done| |].
  - exists (edges_of m). split; [done|]. rewrite <- Hl. by rewrite length_fmap.
  - intros es Hes. apply (matching_bound ms fs B m); [done..| |done]. intros o p Hop. rewrite Hp, elem_of_seq.
    destruct Hes as (_ & _ & Hn). specialize (Hn o p Hop). unfold neighbours in Hn.
    destruct (edges !! o) as [l|] eqn:E; [apply lookup_lt_Some in E; lia|by apply elem_of_nil in Hn].
Qed.
End correct.

(** ** From signers to the graph *)

(** Names numbered without gaps as they are first seen. *)
Definition index_ok (names : jsmap string nat) : Prop :=
  jm_wf names ∧ (∀ k i, jm_get k names = Some i → (i < jm_size names)%nat) ∧
  ∀ k k' i, jm_get k names = Some i → jm_get k' names = Some i → k = k'.

Definition index_add (k : string) (names : jsmap string nat) : jsmap string nat :=
  if jm_has k names then names else jm_set k (jm_size names) names.

Lemma index_add_ok k names :
  index_ok names →
  index_ok (index_add k names) ∧ is_Some (jm_get k (index_add k names)) ∧
  (∀ k' i, jm_get k' names = Some i → jm_get k' (index_add k names) = Some i) ∧
  jm_size (index_add k names) = (if jm_has k names then jm_size names else S (jm_size names)) ∧
  (jm_has k names = false → jm_get k (index_add k names) = Some (jm_size names)).
Proof.
  intros Hok. unfold index_add. destruct (jm_has k names) eqn:E.
  { apply jm_has_true in E. done. }
  apply jm_has_false in E. destruct Hok as (Hwf & Hlt & Hinj).
  assert (jm_size (jm_set k (jm_size names) names) = S (jm_size names)) as Hs by (by apply jm_size_set_new).
  assert (∀ k' i, jm_get k' (jm_set k (jm_size names) names) = Some i →
    k' = k ∧ i = jm_size names ∨ k' ≠ k ∧ jm_get k' names = Some i) as Hget.
  { intros k' i. rewrite jm_get_set. case_decide; naive_solver. }
  split_and!; [split_and!| | | |].
  - by apply jm_wf_set.
  - intros k' i [[-> ->]|[_ H]]%Hget; rewrite Hs; [lia|]. apply Hlt in H. lia.
  - intros k1 k2 i [[-> ->]|[_ H1]]%Hget [[-> H]|[_ H2]]%Hget; [done| | |by eapply Hinj].
    + apply Hlt in H2. lia.
    + subst i. apply Hlt in H1. lia.
  - rewrite jm_get_set_eq. by eexists.
  - intros k' i Hk. rewrite jm_get_set_ne; [done|]. congruence.
  - done.
  - intros _. apply jm_get_set_eq.
Qed.

(** Elements with equal images in a list whose images are distinct are equal. *)
Lemma NoDup_fmap_inj_elem {A B} (f : A → B) (l : list A) x y :
  NoDup (f <$> l) → x ∈ l → y ∈ l → f x = f y → x = y.
Proof.
  induction l as [|z l IH]; intros Hn Hx Hy Hf; [by apply elem_of_nil in Hx|].
  rewrite fmap_cons in Hn. apply NoDup_cons in Hn as [Hz Hn].
  apply elem_of_cons in Hx as [->|Hx], Hy as [->|Hy]; [done| | |by apply IH].
  - destruct Hz. rewrite Hf. by apply list_elem_of_fmap_2.
  - destruct Hz. rewrite <- Hf. by apply list_elem_of_fmap_2.
Qed.

Definition orgOf (x : SignerProfile) : string := normalize (sp_organization x).
Definition providerOf (x : SignerProfile) : string := normalize (sp_custodyProvider x).

Lemma addSigner_eq organizations providers edges x :
  let organizations' := index_add (orgOf x) organizations in
  let providers' := index_add (providerOf x) providers in
  addSigner (organizations, providers, edges) x =
    (organizations', providers',
     alter (λ l, l ++ [default 0%nat (jm_get (providerOf x) providers')])
       (default 0%nat (jm_get (orgOf x) organizations'))
       (if jm_has (orgOf x) organizations then edges else edges ++ [[]])).
Proof.
  unfold addSigner, index_add, orgOf, providerOf. cbv zeta.
  by destruct (jm_has (normalize (sp_organization x)) organizations).
Qed.

(** The graph of [xs]: organization [o] has provider [p] precisely when some signer
    of [xs] has both. *)
Definition graph_ok (xs : list SignerProfile) (g : graph) : Prop :=
  let '(organizations, providers, edges) := g in
  index_ok organizations ∧ index_ok providers ∧ length edges = jm_size organizations ∧
  (∀ x, x ∈ xs → is_Some (jm_get (orgOf x) organizations) ∧ is_Some (jm_get (providerOf x) providers)) ∧
  ∀ o p, p ∈ neighbours edges o ↔
    ∃ x, x ∈ xs ∧ jm_get (orgOf x) organizations = Some o ∧ jm_get (providerOf x) providers = Some p.

Lemma neighbours_alter edges o o' p :
  (o < length edges)%nat →
  neighbours (alter (λ l, l ++ [p]) o edges) o' =
    if decide (o = o') then neighbours edges o' ++ [p] else neighbours edges o'.
Proof.
  intros Hl. unfold neighbours. case_decide as E.
  - subst o'. rewrite list_lookup_alter_eq. destruct (lookup_lt_is_Some_2 edges o Hl) as [l ->]. done.
  - by rewrite list_lookup_alter_ne.
Qed.

Lemma neighbours_snoc edges o : neighbours (edges ++ [[]]) o = neighbours edges o.
Proof.
  unfold neighbours. destruct (decide (o < length edges)%nat); [by rewrite lookup_app_l|].
  rewrite lookup_app_r, (lookup_ge_None_2 edges o) by lia.
  destruct (o - length edges)%nat as [|k]; [done|]. by destruct k.
Qed.

Lemma addSigner_ok xs g x : graph_ok xs g → graph_ok (xs ++ [x]) (addSigner g x).
Proof.
  destruct g as [[organizations providers] edges]. intros (Ho & Hp & Hl & Hk & Hn). rewrite addSigner_eq. cbv zeta.
  destruct (index_add_ok (orgOf x) _ Ho) as (Ho' & [o Hox] & Hoe & Hos & Hof).
  destruct (index_add_ok (providerOf x) _ Hp) as (Hp' & [p Hpx] & Hpe & _ & _).
  rewrite Hox, Hpx. cbn [default from_option]. unfold id.
  set (edges' := if jm_has _ _ then _ else _).
  assert (length edges' = jm_size (index_add (orgOf x) organizations)) as Hl'.
  { unfold edges'. rewrite Hos. destruct (jm_has _ _); [done|]. rewrite length_app. simpl. lia. }
  assert (∀ o', neighbours edges' o' = neighbours edges o') as Hn'.
  { intros o'. unfold edges'. destruct (jm_has _ _); [done|]. apply neighbours_snoc. }
  split_and!; [done|done|by rewrite length_alter| |].
  - intros y [Hy| ->%list_elem_of_singleton]%elem_of_app; [|by rewrite Hox, Hpx].
    destruct (Hk y Hy) as [[i Hi] [j Hj]]. rewrite (Hoe _ _ Hi), (Hpe _ _ Hj). by split.
  - intros o' p'. rewrite neighbours_alter by (rewrite Hl'; by apply (proj1 (proj2 Ho')) in Hox).
    assert (∀ y, y ∈ xs → jm_get (orgOf y) (index_add (orgOf x) organizations) = jm_get (orgOf y) organizations ∧
      jm_get (providerOf y) (index_add (providerOf x) providers) = jm_get (providerOf y) providers) as Hold.
    { intros y Hy. destruct (Hk y Hy) as [[i Hi] [j Hj]]. by rewrite (Hoe _ _ Hi), (Hpe _ _ Hj). }
    trans (p' ∈ neighbours edges o' ∨ o' = o ∧ p' = p).
    { case_decide; rewrite ?elem_of_app, ?list_elem_of_singleton, Hn'; naive_solver. }
    rewrite Hn. split.
    + intros [(y & Hy & H1 & H2)|[-> ->]]; [|exists x; set_solver].
      exists y. destruct (Hold y Hy) as [-> ->]. set_solver.
    + intros (y & [Hy| ->%list_elem_of_singleton]%elem_of_app & H1 & H2); [|right; by simplify_eq].
      left. exists y. destruct (Hold y Hy) as [<- <-]. done.
Qed.

Lemma buildGraph_ok xs : graph_ok xs (buildGraph xs).
Proof.
  unfold buildGraph. induction xs as [|x xs IH] using rev_ind.
  - split_and!; [split_and!; [apply jm_wf_empty|done|done]..|done|by intros ? ?%elem_of_nil|].
    intros o p. split; [by intros ?%elem_of_nil|]. by intros (x & ?%elem_of_nil & _).
  - rewrite foldl_app. by apply addSigner_ok.
Qed.

(** ** The largest independent set *)

(** Signers no two of which share an organization or a custody provider. *)
Definition independent (xs : list SignerProfile) : Prop := NoDup (orgOf <$> xs) ∧ NoDup (providerOf <$> xs).

Lemma independent_to_matching xs g ys :
  graph_ok xs g → independent ys → ys ⊆ xs → ∃ es, matching g.2 es ∧ length es = length ys.
Proof.
  destruct g as [[organizations providers] edges]. intros (Ho & Hp & _ & Hk & Hn) [H1 H2] Hsub.
  exists ((λ y, (default 0%nat (jm_get (orgOf y) organizations), default 0%nat (jm_get (providerOf y) providers))) <$> ys).
  split; [|apply length_fmap].
  assert (∀ y, y ∈ ys → ∃ o p, jm_get (orgOf y) organizations = Some o ∧ jm_get (providerOf y) providers = Some p) as Hg.
  { intros y Hy. destruct (Hk y (Hsub y Hy)) as [[o Hoy] [p Hpy]]. eauto. }
  split_and!; cbn [snd].
  - rewrite <- list_fmap_compose. apply NoDup_fmap_2_strong; [|by apply NoDup_fmap_1 in H1].
    intros x y Hx Hy Heq. simpl in Heq. destruct (Hg x Hx) as (o & _ & Hox & _), (Hg y Hy) as (o' & _ & Hoy & _).
    rewrite Hox, Hoy in Heq. simpl in Heq. subst o'. pose proof (proj2 (proj2 Ho) _ _ _ Hox Hoy) as Hxy.
    by apply (NoDup_fmap_inj_elem orgOf ys).
  - rewrite <- list_fmap_compose. apply NoDup_fmap_2_strong; [|by apply NoDup_fmap_1 in H2].
    intros x y Hx Hy Heq. simpl in Heq. destruct (Hg x Hx) as (_ & p & _ & Hpx), (Hg y Hy) as (_ & p' & _ & Hpy).
    rewrite Hpx, Hpy in Heq. simpl in Heq. subst p'. pose proof (proj2 (proj2 Hp) _ _ _ Hpx Hpy) as Hxy.
    by apply (NoDup_fmap_inj_elem providerOf ys).
  - intros o p (y & [= -> ->] & Hy)%list_elem_of_fmap. destruct (Hg y Hy) as (o & p & Hoy & Hpy).
    rewrite Hoy, Hpy. apply Hn. exists y. auto.
Qed.

Lemma matching_to_independent xs g es :
  graph_ok xs g → matching g.2 es → ∃ ys, independent ys ∧ ys ⊆ xs ∧ length ys = length es.
Proof.
  destruct g as [[organizations providers] edges]. intros (_ & _ & _ & _ & Hn) (H1 & H2 & He). cbn [snd] in He.
  assert (∃ ys, Forall2 (λ e y, y ∈ xs ∧ jm_get (orgOf y) organizations = Some e.1 ∧
                                jm_get (providerOf y) providers = Some e.2) es ys) as [ys Hys].
  { clear H1 H2. induction es as [|[o p] es IH]; [by exists []|]. destruct IH as [ys Hys]; [set_solver|].
    destruct (proj1 (Hn o p)) as (y & Hy); [apply He; set_solver|]. exists (y :: ys). by constructor. }
  exists ys. split_and!; [split| |by apply Forall2_length in Hys].
  - apply (NoDup_fmap_1 (λ k, jm_get k organizations)). rewrite <- list_fmap_compose.
    assert ((λ k, jm_get k organizations) ∘ orgOf <$> ys = Some <$> es.*1) as ->.
    { clear -Hys. induction Hys as [|e y es ys (_ & H & _) _ IH]; [done|]. rewrite !fmap_cons, IH. simpl. by rewrite H. }
    by apply NoDup_fmap_2; [apply _|].
  - apply (NoDup_fmap_1 (λ k, jm_get k providers)). rewrite <- list_fmap_compose.
    assert ((λ k, jm_get k providers) ∘ providerOf <$> ys = Some <$> es.*2) as ->.
    { clear -Hys. induction Hys as [|e y es ys (_ & _ & H) _ IH]; [done|]. rewrite !fmap_cons, IH. simpl. by rewrite H. }
    by apply NoDup_fmap_2; [apply _|].
  - clear -Hys. induction Hys as [|e y es ys (H & _) _ IH]; set_solver.
Qed.

Lemma buildGraph_bound xs o p :
  let '(_, providers, edges) := buildGraph xs in p ∈ neighbours edges o → (p < jm_size providers)%nat.
Proof.
  pose proof (buildGraph_ok xs) as Hok. destruct (buildGraph xs) as [[organizations providers] edges].
  destruct Hok as (_ & (_ & Hlt & _) & _ & _ & Hn). rewrite Hn. intros (x & _ & _ & Hx). by eapply Hlt.
Qed.

Lemma search_max signers :
  let '(_, providers, edges) := buildGraph signers in
  is_Some (matchAll edges (jm_size providers) (seq 0 (length edges)) (replicate (jm_size providers) (-1)) 0) ∧
  (∃ quorum, quorum ⊆ signers ∧ independent quorum ∧ length quorum = computeMaxIndependentQuorum signers) ∧
  (∀ quorum, quorum ⊆ signers → independent quorum →
     (length quorum <= computeMaxIndependentQuorum signers)%nat).
Proof.
  pose proof (buildGraph_ok signers) as Hok. pose proof (buildGraph_bound signers) as Hb.
  unfold computeMaxIndependentQuorum. destruct (buildGraph signers) as [[organizations providers] edges].
  destruct (matchAll_max edges (jm_size providers)) as (k & -> & (es & Hes & Hk) & Hmax); [done|].
  cbn [default from_option]. unfold id. split_and!.
  - by eexists.
  - destruct (matching_to_independent _ _ es Hok Hes) as (ys & Hi & Hsub & Hl).
    exists ys. split_and!; [done|done|congruence].
  - intros ys Hsub Hi. destruct (independent_to_matching _ _ ys Hok Hi Hsub) as (es' & Hes' & <-). by apply Hmax.
Qed.

(** The size of an independent set is reached exactly when the search says so. *)
Lemma quorum_reached signers n :
  (n <= computeMaxIndependentQuorum signers)%nat ↔
  ∃ quorum, quorum ⊆ signers ∧ independent quorum ∧ (n <= length quorum)%nat.
Proof.
  pose proof (search_max signers) as H. destruct (buildGraph signers) as [[? ?] ?]. destruct H as (_ & (q & H1 & H2 & H3) & Hmax).
  split; [intros Hn; exists q; split_and!; [done|done|lia]|]. intros (q' & Hs & Hi & Hl). specialize (Hmax q' Hs Hi). lia.
Qed.

(** C3: The augmenting-path search finds the largest independent quorum.  The search
    always returns, within a depth of one more than the number of custody providers;
    the number it returns is the size of some set of the signers no two of which share
    an organization or a custody provider (case and surrounding space aside); and no
    such set is larger. *)
Theorem max_independent signers :
  let '(_, providers, edges) := buildGraph signers in
  is_Some (matchAll edges (jm_size providers) (seq 0 (length edges)) (replicate (jm_size providers) (-1)) 0) ∧
  (∃ quorum, quorum ⊆ signers ∧ independent quorum ∧ length quorum = computeMaxIndependentQuorum signers) ∧
  (∀ quorum, quorum ⊆ signers → independent quorum →
     (length quorum <= computeMaxIndependentQuorum signers)%nat).
Proof. apply search_max. Qed.

Definition demo_signer (organization provider : string) : SignerProfile :=
  mkProfile (organization +:+ provider) organization hsm provider "eu" (NInt 0) (NInt 0) (NInt 100) [].

(** The second signer takes the first one's provider, which moves to another. *)
Example augmenting_path_used :
  computeMaxIndependentQuorum
    [demo_signer "a" "x"; demo_signer "a" "y"; demo_signer "b" " X"; demo_signer "c" "x"] = 2%nat.
Proof. reflexivity. Qed.
End Matching.

Module Report.
Import Matching.

Record SignerIndependencePolicy := mkPolicy {
  po_minIndependentSigners : number;
  po_rotationIntervalDays : number;
  po_minAvailabilityPct : number;
  po_maxSignersPerCustodyProvider : number;
  po_maxSignersPerOrganization : number;
  po_disallowedCustody : list CustodyType;
}.

Definition DEFAULT_SIGNER_INDEPENDENCE_POLICY : SignerIndependencePolicy :=
  mkPolicy (NInt 3) (NInt 180) (NInt 99) (NInt 2) (NInt 2) [software].

Definition DAY_SECONDS : Z := 86400.

Inductive reporting_error := INVALID_POLICY | INVALID_SIGNER | EMPTY_SIGNER_ROSTER.

(** [true] when the policy is accepted. *)
Definition validatePolicy (policy : SignerIndependencePolicy) : bool :=
  negb (negb (is_integer (po_minIndependentSigners policy)) || num_ltb (po_minIndependentSigners policy) (NInt 1)) &&
  negb (negb (is_finite (po_rotationIntervalDays policy)) || num_leb (po_rotationIntervalDays policy) (NInt 0)) &&
  negb (negb (is_finite (po_minAvailabilityPct policy)) || num_ltb (po_minAvailabilityPct policy) (NInt 0) ||
        num_ltb (NInt 100) (po_minAvailabilityPct policy)) &&
  negb (num_ltb (po_maxSignersPerCustodyProvider policy) (NInt 1) ||
        num_ltb (po_maxSignersPerOrganization policy) (NInt 1)).

Definition validateProfile (now : Z) (profile : SignerProfile) : bool :=
  negb (is_blank (sp_address profile) || is_blank (sp_organization profile) || is_blank (sp_custodyProvider profile)) &&
  negb (negb (is_finite (sp_availabilityPct profile)) || num_ltb (sp_availabilityPct profile) (NInt 0) ||
        num_ltb (NInt 100) (sp_availabilityPct profile)) &&
  negb (negb (is_finite (sp_addedAt profile)) || negb (is_finite (sp_lastRotatedAt profile))) &&
  negb (num_ltb (NInt (now + DAY_SECONDS)) (sp_lastRotatedAt profile)).

(** ** Assessments *)

Inductive violation :=
  | CUSTODY_NOT_ALLOWED | ROTATION_OVERDUE | AVAILABILITY_BELOW_POLICY | CONFLICT_MITIGATION_MISSING.

#[export] Instance violation_eq_dec : EqDecision violation.
Proof. solve_decision. Defined.

Record SignerAssessment := mkAssessment {
  as_address : string;
  as_organization : string;
  as_custody : CustodyType;
  as_custodyProvider : string;
  as_region : string;
  as_independent : bool;
  as_daysSinceRotation : Z;
  as_availabilityPct : number;
  as_violations : list violation;
}.

Definition daysSinceRotation (now : Z) (profile : SignerProfile) : Z :=
  match sp_lastRotatedAt profile with
  | NFin q => Qfloor ((inject_Z now - q) / inject_Z DAY_SECONDS)
  | _ => 0
  end.

Definition violationsOf (policy : SignerIndependencePolicy) (now : Z) (profile : SignerProfile) : list violation :=
  (if bool_decide (sp_custody profile ∈ po_disallowedCustody policy) then [CUSTODY_NOT_ALLOWED] else []) ++
  (if num_ltb (po_rotationIntervalDays policy) (NInt (daysSinceRotation now profile)) then [ROTATION_OVERDUE] else []) ++
  (if num_ltb (sp_availabilityPct profile) (po_minAvailabilityPct policy) then [AVAILABILITY_BELOW_POLICY] else []) ++
  (if existsb (λ c, is_blank (cf_mitigation c)) (sp_conflicts profile) then [CONFLICT_MITIGATION_MISSING] else []).

Definition assess (policy : SignerIndependencePolicy) (now : Z) (profile : SignerProfile) : SignerAssessment :=
  let violations := violationsOf policy now profile in
  mkAssessment (sp_address profile) (sp_organization profile) (sp_custody profile) (sp_custodyProvider profile)
    (sp_region profile) (bool_decide (violations = [])) (daysSinceRotation now profile)
    (sp_availabilityPct profile) violations.

(** ** Shared control *)

Definition discloses (left right : SignerProfile) : bool :=
  existsb (λ c, bool_decide (normalize (cf_party c) = normalize (sp_address right)) ||
                bool_decide (normalize (cf_party c) = normalize (sp_organization right))) (sp_conflicts left).

Record SharedControlFinding := mkShared { sc_left : string; sc_right : string; sc_organization : string }.

Definition sharedWith (left right : SignerProfile) : list SharedControlFinding :=
  if negb (bool_decide (orgOf left = orgOf right)) then []
  else if negb (discloses left right) && negb (discloses right left)
  then [mkShared (sp_address left) (sp_address right) (sp_organization left)] else [].

Fixpoint undisclosedSharedControl (signers : list SignerProfile) : list SharedControlFinding :=
  match signers with
  | [] => []
  | x :: rest => concat (sharedWith x <$> rest) ++ undisclosedSharedControl rest
  end.

(** ** The report *)

Inductive finding_code :=
  | DUPLICATE_SIGNER_ADDRESS | INDEPENDENT_QUORUM_UNREACHABLE | UNDISCLOSED_SHARED_CONTROL
  | CUSTODY_PROVIDER_CONCENTRATION | ORGANIZATION_CONCENTRATION.

Inductive severity := critical | high.

#[export] Instance severity_eq_dec : EqDecision severity.
Proof. solve_decision. Defined.

Record SignerFinding := mkFinding { sf_code : finding_code; sf_severity : severity; sf_signers : list string }.

(** Addresses seen before, in the order of the roster. *)
Fixpoint duplicateFindings (seen : list string) (profiles : list SignerProfile) : list SignerFinding :=
  match profiles with
  | [] => []
  | x :: rest =>
      let address := normalize (sp_address x) in
      (if bool_decide (address ∈ seen) then [mkFinding DUPLICATE_SIGNER_ADDRESS critical [sp_address x]] else []) ++
      duplicateFindings (address :: seen) rest
  end.

(** [record[key] = (record[key] ?? 0) + 1] for each profile. *)
Definition tally {K} `{EqDecision K} (key : SignerProfile → K) (profiles : list SignerProfile) : jsmap K Z :=
  foldl (λ m x, jm_set (key x) (default 0 (jm_get (key x) m) + 1) m) [] profiles.

Definition concentrationFindings (code : finding_code) (cap : number) (key : SignerProfile → string)
    (profiles : list SignerProfile) : list SignerFinding :=
  concat ((λ '(k, count),
             if num_ltb cap (NInt count)
             then [mkFinding code high (sp_address <$> filter (λ x, key x = k) profiles)] else [])
          <$> tally key profiles).

Definition num_value (n : number) : Q := match n with NFin q => q | _ => 0%Q end.

Definition median (values : list Q) : Q :=
  let sorted := stable_sort Qle_bool values in
  let middle := (length sorted / 2)%nat in
  match values with
  | [] => 0%Q
  | _ => if Nat.even (length sorted)
         then ((default 0%Q (sorted !! (middle - 1)%nat) + default 0%Q (sorted !! middle)) / inject_Z 2)%Q
         else default 0%Q (sorted !! middle)
  end.

Record SignerIndependenceReport := mkReport {
  re_generatedAt : Z;
  re_policy : SignerIndependencePolicy;
  re_signerCount : nat;
  re_independentSignerCount : nat;
  re_quorumRequired : number;
  re_maxIndependentQuorum : nat;
  re_quorumReachable : bool;
  re_byType : jsmap CustodyType Z;
  re_byProvider : jsmap string Z;
  re_rotationCompliant : nat;
  re_rotationOverdue : list string;
  re_belowPolicy : list string;
  re_medianPct : Q;
  re_declared : nat;
  re_unmitigated : nat;
  re_undisclosedSharedControl : list SharedControlFinding;
  re_signers : list SignerAssessment;
  re_findings : list SignerFinding;
  re_verdict : bool;
}.

Definition evaluateSignerIndependence (profiles : list SignerProfile) (policy : SignerIndependencePolicy) (now : Z)
    : result reporting_error SignerIndependenceReport :=
  if bool_decide (profiles = []) then Throw EMPTY_SIGNER_ROSTER
  else if negb (validatePolicy policy) then Throw INVALID_POLICY
  else if negb (forallb (validateProfile now) profiles) then Throw INVALID_SIGNER
  else
    let assessments := assess policy now <$> profiles in
    let independentProfiles := filter (λ x, as_independent (assess policy now x) = true) profiles in
    let maxIndependentSet := computeMaxIndependentQuorum independentProfiles in
    let quorumReachable := num_leb (po_minIndependentSigners policy) (NInt (Z.of_nat maxIndependentSet)) in
    let sharedControl := undisclosedSharedControl profiles in
    let findings :=
      duplicateFindings [] profiles ++
      (if negb quorumReachable
       then [mkFinding INDEPENDENT_QUORUM_UNREACHABLE critical (sp_address <$> independentProfiles)] else []) ++
      ((λ f, mkFinding UNDISCLOSED_SHARED_CONTROL critical [sc_left f; sc_right f]) <$> sharedControl) ++
      concentrationFindings CUSTODY_PROVIDER_CONCENTRATION (po_maxSignersPerCustodyProvider policy)
        sp_custodyProvider profiles ++
      concentrationFindings ORGANIZATION_CONCENTRATION (po_maxSignersPerOrganization policy)
        sp_organization profiles in
    let overdue := filter (λ a, ROTATION_OVERDUE ∈ as_violations a) assessments in
    let declaredConflicts := concat (sp_conflicts <$> profiles) in
    let criticalFindings := filter (λ f, sf_severity f = critical) findings in
    Ok (mkReport now policy (length profiles) (length independentProfiles) (po_minIndependentSigners policy)
          maxIndependentSet quorumReachable (tally sp_custody profiles) (tally sp_custodyProvider profiles)
          (length assessments - length overdue) (as_address <$> overdue)
          (as_address <$> filter (λ a, AVAILABILITY_BELOW_POLICY ∈ as_violations a) assessments)
          (median (num_value ∘ sp_availabilityPct <$> profiles))
          (length declaredConflicts)
          (length (filter (λ c, is_blank (cf_mitigation c) = true) declaredConflicts))
          sharedControl assessments findings
          (bool_decide (criticalFindings = []) && quorumReachable)).

(** ** What the verdict says *)

Lemma duplicateFindings_critical seen profiles f :
  f ∈ duplicateFindings seen profiles → sf_severity f = critical.
Proof.
  revert seen. induction profiles as [|x rest IH]; intros seen; simpl; [by intros ?%elem_of_nil|].
  intros [Hf|Hf]%elem_of_app; [|by eapply IH]. case_bool_decide; [|by apply elem_of_nil in Hf].
  apply list_elem_of_singleton in Hf as ->. done.
Qed.

Lemma duplicateFindings_nil seen profiles :
  duplicateFindings seen profiles = [] ↔
  NoDup (normalize ∘ sp_address <$> profiles) ∧
  ∀ x, x ∈ profiles → normalize (sp_address x) ∉ seen.
Proof.
  revert seen. induction profiles as [|x rest IH]; intros seen; cbn [duplicateFindings].
  { split; [|done]. split; [constructor|by intros ? ?%elem_of_nil]. }
  rewrite fmap_cons, NoDup_cons, app_nil, IH, list_elem_of_fmap. cbn [compose].
  setoid_rewrite elem_of_cons. case_bool_decide; naive_solver.
Qed.

Lemma sharedWith_nil x y :
  sharedWith x y = [] ↔ (orgOf x = orgOf y → discloses x y = true ∨ discloses y x = true).
Proof.
  unfold sharedWith. case_bool_decide; simpl; [|naive_solver].
  destruct (discloses x y), (discloses y x); simpl; naive_solver.
Qed.

(** Any two signers of one organization, earlier and later in the roster. *)
Definition all_disclosed (profiles : list SignerProfile) : Prop :=
  ∀ i j x y, (i < j)%nat → profiles !! i = Some x → profiles !! j = Some y → orgOf x = orgOf y →
    discloses x y = true ∨ discloses y x = true.

Lemma concat_nil {A} (ls : list (list A)) : concat ls = [] ↔ ∀ l, l ∈ ls → l = [].
Proof. induction ls as [|l ls IH]; simpl; [set_solver|]. rewrite app_nil, IH. set_solver. Qed.

Lemma elem_of_concat {A} (x : A) (ls : list (list A)) : x ∈ concat ls ↔ ∃ l, x ∈ l ∧ l ∈ ls.
Proof. induction ls as [|l ls IH]; simpl; [set_solver|]. rewrite elem_of_app, IH. set_solver. Qed.

Lemma fmap_nil_iff {A B} (f : A → B) (l : list A) : f <$> l = [] ↔ l = [].
Proof. split; [apply fmap_nil_inv|by intros ->]. Qed.

Lemma undisclosed_nil profiles : undisclosedSharedControl profiles = [] ↔ all_disclosed profiles.
Proof.
  induction profiles as [|x rest IH]; cbn [undisclosedSharedControl]; [by split; [intros _ [|?]|]|].
  rewrite app_nil, concat_nil, IH. split.
  - intros [H1 H2] [|i] [|j] a b Hij Ha Hb; simpl in *; [lia| |lia|].
    + injection Ha as <-. apply sharedWith_nil, H1. apply list_elem_of_fmap_2. by apply list_elem_of_lookup_2 in Hb.
    + apply (H2 i j); [lia|done|done].
  - intros H. split.
    + intros l (y & -> & [j Hy]%list_elem_of_lookup)%list_elem_of_fmap. apply sharedWith_nil.
      apply (H 0%nat (S j)); [lia|done|done].
    + intros i j a b Hij. apply (H (S i) (S j)). lia.
Qed.

Lemma concentration_high code cap key profiles f :
  f ∈ concentrationFindings code cap key profiles → sf_severity f = high.
Proof.
  unfold concentrationFindings. intros (l & Hf & ([k n] & -> & _)%list_elem_of_fmap)%elem_of_concat.
  destruct (num_ltb _ _); [|by apply elem_of_nil in Hf]. by apply list_elem_of_singleton in Hf as ->.
Qed.

Lemma num_leb_int_mono a x y : num_leb a (NInt x) = true → x <= y → num_leb a (NInt y) = true.
Proof.
  intros Ha Hxy. destruct a as [q| |]; try done. cbn in *. apply Qle_bool_iff in Ha. apply Qle_bool_iff.
  apply Qle_trans with (inject_Z x); [done|]. by rewrite <- Zle_Qle.
Qed.

(** C15: What a passing verdict says.  When the roster and policy are valid, the report
    passes precisely when no signer address occurs twice, any two signers of one
    organization have disclosed it (one to the other suffices), and there are at
    least as many signers as the policy requires who violate nothing of the policy
    and no two of whom share an organization or a custody provider.  The
    concentration caps never decide it. *)
Theorem verdict_exact profiles policy now report :
  evaluateSignerIndependence profiles policy now = Ok report →
  (re_verdict report = true ↔
     NoDup (normalize ∘ sp_address <$> profiles) ∧ all_disclosed profiles ∧
     ∃ quorum, quorum ⊆ profiles ∧ independent quorum ∧
       (∀ x, x ∈ quorum → violationsOf policy now x = []) ∧
       num_leb (po_minIndependentSigners policy) (NInt (Z.of_nat (length quorum))) = true).
Proof.
  unfold evaluateSignerIndependence. case_bool_decide; [done|]. destruct (negb _); [done|]. destruct (negb _); [done|].
  intros [= <-]. cbn [re_verdict]. set (ind := filter _ profiles). set (max := computeMaxIndependentQuorum ind).
  assert (num_leb (po_minIndependentSigners policy) (NInt (Z.of_nat max)) = true ↔
    ∃ quorum, quorum ⊆ profiles ∧ independent quorum ∧ (∀ x, x ∈ quorum → violationsOf policy now x = []) ∧
      num_leb (po_minIndependentSigners policy) (NInt (Z.of_nat (length quorum))) = true) as Hq.
  { assert (∀ quorum, quorum ⊆ ind ↔ quorum ⊆ profiles ∧ ∀ x, x ∈ quorum → violationsOf policy now x = []) as Hind.
    { intros quorum. assert (∀ x, x ∈ ind ↔ violationsOf policy now x = [] ∧ x ∈ profiles) as Hx.
      { intros x. unfold ind. rewrite list_elem_of_filter. simpl. by rewrite bool_decide_eq_true. }
      unfold subseteq, list_subseteq. setoid_rewrite Hx. naive_solver. }
    split.
    - intros Hm. destruct (proj1 (quorum_reached ind max)) as (q & [Hs Hv]%Hind & Hi & Hl); [done|].
      exists q. split_and!; [done..|]. eapply num_leb_int_mono; [exact Hm|lia].
    - intros (q & Hs & Hi & Hv & Hm). eapply num_leb_int_mono; [exact Hm|].
      assert (length q <= max)%nat; [|lia]. apply quorum_reached. exists q. split_and!; [by apply Hind|done|done]. }
  destruct (num_leb _ (NInt (Z.of_nat max))) eqn:E; [|rewrite andb_false_r; naive_solver].
  rewrite andb_true_r, bool_decide_eq_true. cbn [negb]. rewrite !filter_app, !app_nil.
  rewrite (filter_all _ (duplicateFindings _ _)) by apply duplicateFindings_critical.
  rewrite filter_nil, (filter_all _ (_ <$> _)) by (by intros f (c & -> & _)%list_elem_of_fmap).
  rewrite !(filter_none _ (concentrationFindings _ _ _ _)) by (intros f ->%concentration_high; done).
  rewrite fmap_nil_iff, duplicateFindings_nil, undisclosed_nil. setoid_rewrite elem_of_nil. naive_solver.
Qed.

Definition demo_roster : list SignerProfile :=
  [demo_signer "a" "x"; demo_signer "b" "y"; demo_signer "c" "z"].

Definition demo_report : SignerIndependenceReport :=
  match evaluateSignerIndependence demo_roster DEFAULT_SIGNER_INDEPENDENCE_POLICY 0 with
  | Ok r => r
  | Throw _ => mkReport 0 DEFAULT_SIGNER_INDEPENDENCE_POLICY 0 0 NNaN 0 false [] [] 0 [] [] 0%Q 0 0 [] [] [] false
  end.

Lemma verdict_exact_witness : re_verdict demo_report = true.
Proof.
  apply (verdict_exact demo_roster DEFAULT_SIGNER_INDEPENDENCE_POLICY 0 demo_report eq_refl).
  split_and!; [by apply (bool_decide_unpack _); vm_compute| |].
  - by apply undisclosed_nil.
  - exists demo_roster. split_and!; [done| | |done].
    + split; apply (bool_decide_unpack _); by vm_compute.
    + intros x. unfold demo_roster. rewrite !elem_of_cons, elem_of_nil. by intros [-> |[-> |[-> |[]]]].
Defined.

(** The caps count organizations and providers as they are spelled. *)
Example concentration_by_spelling :
  concentrationFindings ORGANIZATION_CONCENTRATION (NInt 2) sp_organization
    [demo_signer "Acme" "x"; demo_signer "acme" "y"; demo_signer "ACME" "z"] = [].
Proof. done. Qed.
End Report.
