(* ===== verification/StageGates.v ===== *)
(** * Decentralization stage gates

    [api/src/governance/decentralization/stage-gates.ts] with the snapshot store and the
    current stage of [store.ts]: concentration measures of four dimensions, the gates
    of four stages, the report built from the latest snapshot, and the two operations
    that change state, [recordConcentrationSnapshot] and [transitionStage].

    Weights and shares are doubles (the executable IEEE 754 specification); [x ** 2] is
    the product [x * x].  Published metrics are left out; the identifier of a
    snapshot is an argument.

    - [achieved_is_highest]: the gates are nested, so the stage reported as achieved is
      the highest stage whose gates pass;
    - [transition_exact]: when a stage change is accepted;
    - [stage_earned]: the stage in force was earned by consecutive passing snapshots. *)

From Stdlib Require Import ZArith QArith Qround Lia SpecFloat.
From stdpp Require Import base numbers relations list strings sets.
From S2P Require Import Prelude JsNum.

Local Open Scope Z_scope.

(** ** Doubles *)

(** The value of a decimal literal. *)
Definition ratio (a b : Z) : double := double_div (double_of_Z a) (double_of_Z b).

Definition round (value : double) (decimals : Z) : double :=
  let factor := double_of_Z (10 ^ decimals) in
  double_div (double_round (double_mul value factor)) factor.


(** ** Concentration *)

Inductive ConcentrationDimension := provider | signer | governance | region.

Definition CONCENTRATION_DIMENSIONS : list ConcentrationDimension := [provider; signer; governance; region].

Record WeightedEntity := mkEntity { we_id : string; we_weight : double }.

Record ConcentrationMeasures := mkMeasures {
  cm_dimension : ConcentrationDimension;
  cm_entityCount : Z;
  cm_totalWeight : double;
  cm_hhi : double;
  cm_top1Share : double;
  cm_nakamotoCoefficient : Z;
  cm_shares : list (string * double);
}.

Inductive reporting_error :=
  | EMPTY_DIMENSION | INVALID_ENTITY | DUPLICATE_ENTITY | INVALID_WEIGHT | ZERO_WEIGHT
  | UNKNOWN_STAGE | OUT_OF_ORDER_SNAPSHOT | NO_SNAPSHOT | INVALID_STAGE_TRANSITION | STAGE_GATE_NOT_MET.

(** The loop that checks the entities and adds their weights. *)
Fixpoint sumWeights (seen : list string) (totalWeight : double) (entities : list WeightedEntity)
    : result reporting_error double :=
  match entities with
  | [] => Ok totalWeight
  | e :: rest =>
      if is_blank (we_id e) then Throw INVALID_ENTITY
      else if bool_decide (we_id e ∈ seen) then Throw DUPLICATE_ENTITY
      else if negb (is_finite (num_of_double (we_weight e))) || double_ltb (we_weight e) double_0
      then Throw INVALID_WEIGHT
      else sumWeights (we_id e :: seen) (double_add totalWeight (we_weight e)) rest
  end.

(** How many of the largest shares it takes to exceed one half. *)
Fixpoint nakamoto (cumulative : double) (coefficient : Z) (shares : list (string * double)) : Z :=
  match shares with
  | [] => coefficient
  | (_, share) :: rest =>
      let cumulative := double_add cumulative share in
      if double_ltb (ratio 1 2) cumulative then coefficient + 1
      else nakamoto cumulative (coefficient + 1) rest
  end.

Definition computeConcentration (dimension : ConcentrationDimension) (entities : list WeightedEntity)
    : result reporting_error ConcentrationMeasures :=
  if bool_decide (length entities = 0%nat) then Throw EMPTY_DIMENSION
  else
    match sumWeights [] double_0 entities with
    | Throw e => Throw e
    | Ok totalWeight =>
        if double_leb totalWeight double_0 then Throw ZERO_WEIGHT
        else
          let shares :=
            stable_sort (λ a b : string * double, double_leb b.2 a.2)
              ((λ e, (we_id e, round (double_div (we_weight e) totalWeight) 6)) <$> entities) in
          let hhi :=
            round (foldl (λ sum entry, let pct := double_mul entry.2 (double_of_Z 100) in
                                       double_add sum (double_mul pct pct)) double_0 shares) 2 in
          Ok (mkMeasures dimension (Z.of_nat (length entities)) (round totalWeight 6) hhi
                (match shares with (_, share) :: _ => share | [] => double_0 end)
                (nakamoto double_0 0 shares) shares)
    end.

(** ** Stages *)

Record StageGateThresholds := gate {
  minEntities : Z;
  maxTop1Share : double;
  maxHhi : double;
  minNakamoto : Z;
}.

Record StageDefinition := mkStage {
  st_id : string;
  st_gates : ConcentrationDimension → StageGateThresholds;
}.

Definition gates (p s g r : StageGateThresholds) (d : ConcentrationDimension) : StageGateThresholds :=
  match d with provider => p | signer => s | governance => g | region => r end.

Definition DECENTRALIZATION_STAGES : list StageDefinition :=
  let int := double_of_Z in
  [ mkStage "stage-0"
      (gates (gate 1 (int 1) (int 10000) 1) (gate 1 (int 1) (int 10000) 1)
             (gate 1 (int 1) (int 10000) 1) (gate 1 (int 1) (int 10000) 1));
    mkStage "stage-1"
      (gates (gate 3 (ratio 6 10) (int 5000) 2) (gate 3 (ratio 6 10) (int 5000) 2)
             (gate 4 (ratio 5 10) (int 4000) 2) (gate 2 (ratio 7 10) (int 6000) 2));
    mkStage "stage-2"
      (gates (gate 4 (ratio 45 100) (int 3000) 3) (gate 5 (ratio 4 10) (int 3000) 3)
             (gate 6 (ratio 35 100) (int 2500) 3) (gate 3 (ratio 55 100) (int 4000) 2));
    mkStage "stage-3"
      (gates (gate 5 (ratio 35 100) (int 2000) 4) (gate 7 (ratio 3 10) (int 2000) 4)
             (gate 10 (ratio 25 100) (int 1500) 4) (gate 4 (ratio 45 100) (int 3000) 3)) ].

Definition SUSTAINED_SNAPSHOTS_REQUIRED : nat := 3.

Inductive criterion := CMinEntities | CMaxTop1Share | CMaxHhi | CMinNakamoto.

(** The four checks of a dimension, each with whether it passed. *)
Definition checks (measured : ConcentrationMeasures) (thresholds : StageGateThresholds) : list (criterion * bool) :=
  [ (CMinEntities, minEntities thresholds <=? cm_entityCount measured);
    (CMaxTop1Share, double_leb (cm_top1Share measured) (maxTop1Share thresholds));
    (CMaxHhi, double_leb (cm_hhi measured) (maxHhi thresholds));
    (CMinNakamoto, minNakamoto thresholds <=? cm_nakamotoCoefficient measured) ].

Definition evaluateDimension (measured : ConcentrationMeasures) (thresholds : StageGateThresholds) : bool :=
  forallb snd (checks measured thresholds).

Abbreviation measures := (ConcentrationDimension → ConcentrationMeasures).

Record ConcentrationSnapshot := mkSnap {
  cs_id : string;
  cs_capturedAt : Z;
  cs_inputs : ConcentrationDimension → list WeightedEntity;
}.

Definition measuresFor (s : ConcentrationSnapshot) : result reporting_error measures :=
  match computeConcentration provider (cs_inputs s provider), computeConcentration signer (cs_inputs s signer),
        computeConcentration governance (cs_inputs s governance), computeConcentration region (cs_inputs s region) with
  | Ok p, Ok g, Ok v, Ok r =>
      Ok (λ d, match d with provider => p | signer => g | governance => v | region => r end)
  | Throw e, _, _, _ | _, Throw e, _, _ | _, _, Throw e, _ | _, _, _, Throw e => Throw e
  end.

(** [evaluateStage(stage, measured).passed] *)
Definition evaluateStage (stage : StageDefinition) (measured : measures) : bool :=
  forallb (λ d, evaluateDimension (measured d) (st_gates stage d)) CONCENTRATION_DIMENSIONS.

Fixpoint findIndex (stageId : string) (stages : list StageDefinition) (i : nat) : option (nat * StageDefinition) :=
  match stages with
  | [] => None
  | stage :: rest => if bool_decide (st_id stage = stageId) then Some (i, stage) else findIndex stageId rest (S i)
  end.

(** [findStage] with its [stageIndex]. *)
Definition findStage (stageId : string) : result reporting_error (nat * StageDefinition) :=
  match findIndex stageId DECENTRALIZATION_STAGES 0 with Some x => Ok x | None => Throw UNKNOWN_STAGE end.

(** ** The store *)

Record store := mkStore { snapshots : list ConcentrationSnapshot; currentStage : string }.

Definition initialStore : store := mkStore [] "stage-0".

Definition MAX_SNAPSHOTS : nat := 500.

Definition appendSnapshot (s : ConcentrationSnapshot) (st : store) : store :=
  let l := snapshots st ++ [s] in
  mkStore (drop (length l - MAX_SNAPSHOTS) l) (currentStage st).

(** The passing snapshots at the end of the list (given latest first), at most [required]. *)
Fixpoint countPassing (stage : StageDefinition) (required : nat) (latestFirst : list ConcentrationSnapshot)
    : result reporting_error nat :=
  match required, latestFirst with
  | O, _ | _, [] => Ok 0%nat
  | S required, s :: rest =>
      match measuresFor s with
      | Throw e => Throw e
      | Ok measured =>
          if evaluateStage stage measured then
            match countPassing stage required rest with Ok n => Ok (S n) | Throw e => Throw e end
          else Ok 0%nat
      end
  end.

Definition consecutivePassingSnapshots (stage : StageDefinition) (required : nat) (st : store)
    : result reporting_error nat :=
  countPassing stage required (reverse (snapshots st)).

Record StageGateReport := mkReport {
  sr_snapshotId : string;
  sr_currentStage : string;
  sr_achievedStage : string;
  sr_nextStage : option string;
  sr_eligibleForNextStage : bool;
  sr_consecutivePassing : nat;
  sr_satisfied : bool;
  sr_regression : bool;
  sr_baseline : option measures;
  sr_target : string * bool;
  sr_stages : list (string * bool);
  sr_findings : list (ConcentrationDimension * criterion);
}.

(** The last stage of the leading run of passing ones. *)
Fixpoint achieved (achievedStage : string) (stages : list (string * bool)) : string :=
  match stages with
  | [] => achievedStage
  | (stage, passed) :: rest => if passed then achieved stage rest else achievedStage
  end.

Definition findingsOf (stage : StageDefinition) (measured : measures) : list (ConcentrationDimension * criterion) :=
  concat ((λ d, if evaluateDimension (measured d) (st_gates stage d) then []
                else (λ c : criterion * bool, (d, c.1)) <$>
                       filter (λ c : criterion * bool, c.2 = false) (checks (measured d) (st_gates stage d)))
          <$> CONCENTRATION_DIMENSIONS).

Definition buildReport (snapshot : ConcentrationSnapshot) (st : store) : result reporting_error StageGateReport :=
  match measuresFor snapshot with
  | Throw e => Throw e
  | Ok measured =>
      match findStage (currentStage st) with
      | Throw e => Throw e
      | Ok (currentIndex, current) =>
          let nextStage := DECENTRALIZATION_STAGES !! S currentIndex in
          let stages := (λ s, (st_id s, evaluateStage s measured)) <$> DECENTRALIZATION_STAGES in
          match consecutivePassingSnapshots (default current nextStage) SUSTAINED_SNAPSHOTS_REQUIRED st,
                match head (snapshots st) with
                | Some b => match measuresFor b with Ok m => Ok (Some m) | Throw e => Throw e end
                | None => Ok None
                end with
          | Ok sustained, Ok baseline =>
              let satisfied := (SUSTAINED_SNAPSHOTS_REQUIRED <=? sustained)%nat in
              let currentPassed := evaluateStage current measured in
              Ok (mkReport (cs_id snapshot) (st_id current) (achieved "stage-0" stages)
                    (st_id <$> nextStage)
                    (match nextStage with Some n => evaluateStage n measured && satisfied | None => false end)
                    sustained satisfied
                    ((0 <? currentIndex)%nat && negb currentPassed) baseline
                    (match nextStage with
                     | Some n => (st_id n, evaluateStage n measured)
                     | None => (st_id current, currentPassed)
                     end)
                    stages (findingsOf current measured))
          | Throw e, _ | _, Throw e => Throw e
          end
      end
  end.

Definition recordConcentrationSnapshot (id : string) (capturedAt : Z)
    (inputs : ConcentrationDimension → list WeightedEntity) (st : store)
    : store * result reporting_error StageGateReport :=
  let snapshot := mkSnap id capturedAt inputs in
  match measuresFor snapshot with
  | Throw e => (st, Throw e)
  | Ok _ =>
      if match last (snapshots st) with Some p => capturedAt <? cs_capturedAt p | None => false end
      then (st, Throw OUT_OF_ORDER_SNAPSHOT)
      else let st' := appendSnapshot snapshot st in (st', buildReport snapshot st')
  end.

Definition getStageGateReport (st : store) : result reporting_error StageGateReport :=
  match last (snapshots st) with None => Throw NO_SNAPSHOT | Some latest => buildReport latest st end.

Definition transitionStage (stageId : string) (st : store) : store * result reporting_error StageGateReport :=
  match findStage stageId, findStage (currentStage st) with
  | Ok (targetIndex, target), Ok (currentIndex, _) =>
      match getStageGateReport st with
      | Throw e => (st, Throw e)
      | Ok report =>
          if (currentIndex <? targetIndex)%nat && negb (targetIndex =? S currentIndex)%nat
          then (st, Throw INVALID_STAGE_TRANSITION)
          else if (currentIndex <? targetIndex)%nat && negb (sr_eligibleForNextStage report)
          then (st, Throw STAGE_GATE_NOT_MET)
          else
            let st' := mkStore (snapshots st) (st_id target) in
            (st', match last (snapshots st) with Some latest => buildReport latest st' | None => Throw NO_SNAPSHOT end)
      end
  | Throw e, _ | _, Throw e => (st, Throw e)
  end.

(** ** Nested gates *)

(** [t'] asks for at least as much as [t]. *)
Definition tighter (t' t : StageGateThresholds) : bool :=
  (minEntities t <=? minEntities t') && double_leb (maxTop1Share t') (maxTop1Share t) &&
  double_leb (maxHhi t') (maxHhi t) && (minNakamoto t <=? minNakamoto t').

Lemma evaluateDimension_tighter t t' m :
  tighter t' t = true → evaluateDimension m t' = true → evaluateDimension m t = true.
Proof.
  unfold tighter, evaluateDimension, checks. simpl. rewrite !andb_true_r. intros Ht Hm. to_prop.
  rewrite !andb_true_iff, !Z.leb_le. split_and!; [lia| | |lia]; by eapply num_leb_trans.
Qed.

Definition nested (s' s : StageDefinition) : bool :=
  forallb (λ d, tighter (st_gates s' d) (st_gates s d)) CONCENTRATION_DIMENSIONS.

Lemma evaluateStage_nested s s' m :
  nested s' s = true → evaluateStage s' m = true → evaluateStage s m = true.
Proof.
  unfold nested, evaluateStage. rewrite !forallb_elem. intros Hn Hm d Hd.
  by eapply evaluateDimension_tighter; [apply Hn|apply Hm].
Qed.

Lemma stages_nested i s s' m :
  DECENTRALIZATION_STAGES !! i = Some s → DECENTRALIZATION_STAGES !! S i = Some s' →
  evaluateStage s' m = true → evaluateStage s m = true.
Proof.
  intros Hs Hs'. apply evaluateStage_nested.
  destruct i as [|[|[|i]]]; cbn in Hs, Hs'; try done; injection Hs as <-; injection Hs' as <-; by vm_compute.
Qed.

Lemma stages_nested_le i j s s' m :
  (i <= j)%nat → DECENTRALIZATION_STAGES !! i = Some s → DECENTRALIZATION_STAGES !! j = Some s' →
  evaluateStage s' m = true → evaluateStage s m = true.
Proof.
  intros Hij. revert s'. induction Hij as [|j Hij IH]; intros s' Hs Hs' Hm; [congruence|].
  destruct (lookup_lt_is_Some_2 DECENTRALIZATION_STAGES j) as [sj Hj]; [apply lookup_lt_Some in Hs'; lia|].
  apply (IH sj); [done|done|]. by eapply stages_nested.
Qed.

(** The leading run of passing stages, for any list of stages. *)
Lemma achieved_spec name stages :
  ∃ k, (k <= length stages)%nat ∧
    achieved name stages = match k with O => name | S k' => default name (fst <$> stages !! k') end ∧
    (∀ i x, (i < k)%nat → stages !! i = Some x → x.2 = true) ∧
    (∀ x, stages !! k = Some x → x.2 = false).
Proof.
  revert name. induction stages as [|[n b] rest IH]; intros name; simpl.
  { exists 0%nat. split_and!; [lia|done|intros; lia|done]. }
  destruct b.
  - destruct (IH n) as (k & Hk & -> & H1 & H2). exists (S k). split_and!; [lia| | |].
    + destruct k as [|k]; [done|]. destruct (lookup_lt_is_Some_2 rest k) as [x Hx]; [lia|]. simpl. by rewrite Hx.
    + intros [|i] x Hi Hx; simpl in Hx; [by injection Hx as <-|]. apply (H1 i); [lia|done].
    + intros x Hx. by apply H2.
  - exists 0%nat. split_and!; [lia|done|intros; lia|]. intros x [= <-]. done.
Qed.

(** ** Reports *)

Lemma buildReport_inv snapshot st r :
  buildReport snapshot st = Ok r →
  ∃ m i current, measuresFor snapshot = Ok m ∧ findStage (currentStage st) = Ok (i, current) ∧
    sr_achievedStage r =
      achieved "stage-0" ((λ s, (st_id s, evaluateStage s m)) <$> DECENTRALIZATION_STAGES) ∧
    (sr_eligibleForNextStage r = true →
       ∃ next n, DECENTRALIZATION_STAGES !! S i = Some next ∧
         consecutivePassingSnapshots next SUSTAINED_SNAPSHOTS_REQUIRED st = Ok n ∧
         (SUSTAINED_SNAPSHOTS_REQUIRED <= n)%nat).
Proof.
  unfold buildReport. destruct (measuresFor snapshot) as [m|]; [|done].
  destruct (findStage _) as [[i current]|]; [|done].
  remember (DECENTRALIZATION_STAGES !! S i) as next eqn:En. cbv zeta.
  destruct (consecutivePassingSnapshots _ _ _) as [n|] eqn:Ec; [|done].
  destruct (match head (snapshots st) with Some _ => _ | None => _ end) as [base|]; [|done].
  remember DECENTRALIZATION_STAGES as stages. intros [= <-]. exists m, i, current.
  cbn [sr_achievedStage sr_eligibleForNextStage]. split_and!; [done..|].
  destruct next as [next|]; [|done]. intros [_ Hn]%andb_true_iff. exists next, n. split_and!; [done..|].
  unfold SUSTAINED_SNAPSHOTS_REQUIRED. destruct n as [|[|[|n]]]; try done; lia.
Qed.

(** The stage reported as achieved.  Each stage's gates are at least as strict as
    the one before in every dimension and criterion, so the reported stage, the last
    of the leading run of passing ones, is the highest stage whose gates the snapshot
    passes: no higher stage passes, and (unless none does) it and every lower one do. *)
Theorem achieved_is_highest snapshot st r :
  buildReport snapshot st = Ok r →
  ∃ m k s, measuresFor snapshot = Ok m ∧ DECENTRALIZATION_STAGES !! k = Some s ∧
    sr_achievedStage r = st_id s ∧
    ∀ i s', DECENTRALIZATION_STAGES !! i = Some s' →
      (evaluateStage s' m = true → (i <= k)%nat) ∧ ((i <= k)%nat → evaluateStage s' m = true ∨ k = 0%nat).
Proof.
  intros (m & i & current & Hm & _ & Ha & _)%buildReport_inv. exists m.
  destruct (achieved_spec "stage-0" ((λ s, (st_id s, evaluateStage s m)) <$> DECENTRALIZATION_STAGES))
    as (k & Hk & Hach & Hlow & Hhigh).
  rewrite length_fmap in Hk. change (length DECENTRALIZATION_STAGES) with 4%nat in Hk.
  assert (∀ j s', DECENTRALIZATION_STAGES !! j = Some s' → (j < k)%nat → evaluateStage s' m = true) as Hlow'.
  { intros j s' Hj Hjk. apply (Hlow j (st_id s', evaluateStage s' m)); [done|]. by rewrite list_lookup_fmap, Hj. }
  assert (∀ j s', DECENTRALIZATION_STAGES !! j = Some s' → evaluateStage s' m = true → (j < k)%nat) as Hhigh'.
  { intros j s' Hj Hp. destruct (decide (j < k)%nat) as [|Hge]; [done|].
    destruct (lookup_lt_is_Some_2 DECENTRALIZATION_STAGES k) as [sk Hsk]; [apply lookup_lt_Some in Hj; lia|].
    assert (evaluateStage sk m = false) as Hf.
    { apply (Hhigh (st_id sk, evaluateStage sk m)). by rewrite list_lookup_fmap, Hsk. }
    rewrite (stages_nested_le k j sk s' m) in Hf; [done|lia|done..]. }
  destruct (lookup_lt_is_Some_2 DECENTRALIZATION_STAGES (pred k)) as [s Hs]; [change (length _) with 4%nat; lia|].
  exists (pred k), s. split_and!; [done|done| |].
  - rewrite Ha, Hach. destruct k as [|k]; [cbn in Hs; by injection Hs as <-|].
    simpl in Hs. by rewrite list_lookup_fmap, Hs.
  - intros j s' Hj. split; [intros Hp%(Hhigh' j s' Hj); lia|]. intros Hjk.
    destruct k as [|k]; [by right|left]. apply (Hlow' j s' Hj). simpl in Hjk. lia.
Qed.

(** ** Stage changes *)

Definition passes (stage : StageDefinition) (s : ConcentrationSnapshot) : Prop :=
  ∃ m, measuresFor s = Ok m ∧ evaluateStage stage m = true.

Lemma countPassing_spec stage n l k :
  countPassing stage n l = Ok k → (k <= n)%nat ∧ (k <= length l)%nat ∧ Forall (passes stage) (take k l).
Proof.
  revert l k. induction n as [|n IH]; intros l k; simpl; [intros [= <-]; split_and!; [lia|lia|constructor]|].
  destruct l as [|s l]; [intros [= <-]; split_and!; [lia|simpl; lia|constructor]|].
  destruct (measuresFor s) as [m|] eqn:Em; [|done].
  destruct (evaluateStage stage m) eqn:Ev; [|intros [= <-]; split_and!; [lia|lia|constructor]].
  destruct (countPassing stage n l) as [k'|] eqn:Ek; [|done]. intros [= <-].
  destruct (IH l k' Ek) as (H1 & H2 & H3). split_and!; [lia|simpl; lia|]. simpl. constructor; [by exists m|done].
Qed.

(** Three passing snapshots in a row, the last at the end of [l]. *)
Definition sustained (stage : StageDefinition) (l : list ConcentrationSnapshot) : Prop :=
  ∃ l0 a b c, l = l0 ++ [a; b; c] ∧ passes stage a ∧ passes stage b ∧ passes stage c.

Lemma consecutive_sustained stage st n :
  consecutivePassingSnapshots stage SUSTAINED_SNAPSHOTS_REQUIRED st = Ok n →
  (SUSTAINED_SNAPSHOTS_REQUIRED <= n)%nat → sustained stage (snapshots st).
Proof.
  unfold consecutivePassingSnapshots, SUSTAINED_SNAPSHOTS_REQUIRED.
  intros (Hn & Hl & Hall)%countPassing_spec H3. assert (n = 3%nat) as -> by lia.
  rewrite <- (reverse_involutive (snapshots st)). destruct (reverse (snapshots st)) as [|c [|b [|a l]]];
    simpl in Hl; try lia. simpl in Hall.
  apply Forall_cons in Hall as [Hc [Hb [Ha _]%Forall_cons]%Forall_cons].
  exists (reverse l), a, b, c. split; [|done]. rewrite !reverse_cons, <- !app_assoc. done.
Qed.

Lemma findStage_spec id i stage :
  findStage id = Ok (i, stage) → DECENTRALIZATION_STAGES !! i = Some stage ∧ st_id stage = id.
Proof.
  unfold findStage. cbn [findIndex DECENTRALIZATION_STAGES].
  repeat (case_bool_decide; [intros [= <- <-]; done|]). done.
Qed.

Lemma findStage_id i stage :
  DECENTRALIZATION_STAGES !! i = Some stage → findStage (st_id stage) = Ok (i, stage).
Proof. destruct i as [|[|[|[|i]]]]; cbn; intros [= <-]; reflexivity. Qed.

Lemma transitionStage_cases id st st' res :
  transitionStage id st = (st', res) →
  st' = st ∧ (∃ e, res = Throw e) ∨
  ∃ i j current target, findStage (currentStage st) = Ok (i, current) ∧ findStage id = Ok (j, target) ∧
    st' = mkStore (snapshots st) id ∧ ((j <= i)%nat ∨ j = S i ∧ sustained target (snapshots st)).
Proof.
  unfold transitionStage. destruct (findStage id) as [[j target]|e] eqn:Ej; [|intros [= <- <-]; eauto].
  destruct (findStage (currentStage st)) as [[i current]|e] eqn:Ei; [|intros [= <- <-]; eauto].
  destruct (getStageGateReport st) as [r|e] eqn:Er; [|intros [= <- <-]; eauto].
  destruct (_ && negb (j =? S i)%nat) eqn:E1; [intros [= <- <-]; eauto|].
  destruct (_ && negb (sr_eligibleForNextStage r)) eqn:E2; [intros [= <- <-]; eauto|].
  intros [= <- <-]. right. destruct (findStage_spec _ _ _ Ej) as [Hj Hid]. rewrite Hid.
  exists i, j, current, target. split_and!; [done..|].
  destruct (i <? j)%nat eqn:El; [|left; by apply Nat.ltb_ge]. right. simpl in E1, E2. to_prop.
  apply Nat.eqb_eq in E1 as ->. split; [done|]. unfold getStageGateReport in Er.
  destruct (last (snapshots st)) as [latest|]; [|done].
  apply buildReport_inv in Er as (m & i' & c' & _ & Hf & _ & Hel).
  rewrite Ei in Hf. injection Hf as <- <-. destruct (Hel E2) as (next & n & Hnx & Hc & Hn).
  assert (next = target) as -> by congruence. by eapply consecutive_sustained.
Qed.

(** When a stage change is accepted.  A change that returns a report puts the
    requested stage in force and keeps every snapshot; the stage is a known one and
    is not above the current one, or is the very next and the three latest snapshots
    all pass its gates.  A refused change leaves the store as it was. *)
Theorem transition_exact id st st' r :
  transitionStage id st = (st', Ok r) →
  ∃ i j current target, findStage (currentStage st) = Ok (i, current) ∧ findStage id = Ok (j, target) ∧
    currentStage st' = id ∧ snapshots st' = snapshots st ∧
    ((j <= i)%nat ∨ j = S i ∧ sustained target (snapshots st)).
Proof.
  intros [[_ [e [=]]]|(i & j & c & t & H1 & H2 & -> & H3)]%transitionStage_cases. exists i, j, c, t. done.
Qed.

(** ** Earned stages *)

Inductive op :=
  | Record_ (id : string) (capturedAt : Z) (inputs : ConcentrationDimension → list WeightedEntity)
  | Transition (id : string).

(** The store, and every snapshot ever appended to it. *)
Definition exec (x : store * list ConcentrationSnapshot) (o : op) : store * list ConcentrationSnapshot :=
  let '(st, history) := x in
  match o with
  | Record_ id t inputs =>
      let st' := (recordConcentrationSnapshot id t inputs st).1 in
      (st', match measuresFor (mkSnap id t inputs) with
            | Ok _ => if match last (snapshots st) with Some p => t <? cs_capturedAt p | None => false end
                      then history else history ++ [mkSnap id t inputs]
            | Throw _ => history
            end)
  | Transition id => ((transitionStage id st).1, history)
  end.

Definition run : list op → store * list ConcentrationSnapshot := foldl exec (initialStore, []).

(** Three consecutive snapshots of the history pass the gates. *)
Definition earned (stage : StageDefinition) (history : list ConcentrationSnapshot) : Prop :=
  ∃ l, l `prefix_of` history ∧ sustained stage l.

Lemma earned_app stage h h' : earned stage h → earned stage (h ++ h').
Proof. intros (l & Hl & Hs). exists l. split; [|done]. by apply prefix_app_r. Qed.

Lemma sustained_suffix stage l h : l `suffix_of` h → sustained stage l → earned stage h.
Proof.
  intros [k ->] (l0 & a & b & c & -> & H). exists (k ++ l0 ++ [a; b; c]). split; [done|].
  exists (k ++ l0), a, b, c. by rewrite app_assoc.
Qed.

Definition store_ok (x : store * list ConcentrationSnapshot) : Prop :=
  snapshots x.1 `suffix_of` x.2 ∧
  ∃ i current, findStage (currentStage x.1) = Ok (i, current) ∧
    ∀ j stage, (1 <= j <= i)%nat → DECENTRALIZATION_STAGES !! j = Some stage → earned stage x.2.

Lemma exec_ok x o : store_ok x → store_ok (exec x o).
Proof.
  destruct x as [st h]. intros (Hsuf & i & current & Hi & He). simpl in *. destruct o as [id t inputs|id]; simpl.
  - unfold recordConcentrationSnapshot. destruct (measuresFor _) as [m|] eqn:Em; [|split; [done|]; eauto].
    destruct (match last _ with Some _ => _ | None => _ end); [split; [done|]; eauto|].
    split; simpl.
    + destruct Hsuf as [k ->]. unfold appendSnapshot. cbn [snapshots].
      rewrite <- app_assoc. apply suffix_app_r, suffix_drop.
    + exists i, current. split; [done|]. intros j stage Hj Hs. apply earned_app. by apply (He j).
  - destruct (transitionStage id st) as [st' res] eqn:Et. simpl.
    apply transitionStage_cases in Et as [[-> _]|(i' & j & c' & target & Hi' & Hj & -> & Hor)]; [split; [done|]; eauto|].
    rewrite Hi in Hi'. injection Hi' as <- <-. split; [done|]. simpl. exists j, target. split; [done|].
    intros j' stage Hj' Hs. destruct Hor as [Hle|[-> Hsus]]; [apply (He j'); [lia|done]|].
    destruct (decide (j' = S i)) as [->|Hne]; [|apply (He j'); [lia|done]].
    apply findStage_spec in Hj as [Hj _]. assert (stage = target) as -> by congruence.
    by eapply sustained_suffix.
Qed.

(** C14: The stage in force was earned.  After any sequence of recorded snapshots and
    stage changes, the current stage is a known one, and for it and every stage
    between the baseline and it there was a run of three consecutive recorded
    snapshots all passing that stage's gates. *)
Theorem stage_earned ops :
  let '(st, history) := run ops in
  ∃ i current, findStage (currentStage st) = Ok (i, current) ∧
    ∀ j stage, (1 <= j <= i)%nat → DECENTRALIZATION_STAGES !! j = Some stage → earned stage history.
Proof.
  assert (store_ok (run ops)) as Hok.
  { unfold run. assert (store_ok (initialStore, [])) as H.
    { split; [done|]. eexists 0%nat, _. split; [reflexivity|]. intros; lia. }
    revert H. generalize (initialStore, [] : list ConcentrationSnapshot).
    induction ops as [|o ops IH]; intros x H; [done|]. by apply IH, exec_ok. }
  destruct (run ops) as [st h]. by destruct Hok as [_ Hok].
Qed.

(** Four equal holders in every dimension, recorded three times. *)
Definition demo_inputs (_ : ConcentrationDimension) : list WeightedEntity :=
  (λ id, mkEntity id (double_of_Z 1)) <$> ["a"; "b"; "c"; "d"].
Definition demo_store : store :=
  (run [Record_ "s1" 1 demo_inputs; Record_ "s2" 2 demo_inputs; Record_ "s3" 3 demo_inputs]).1.

Lemma transition_exact_witness : currentStage (transitionStage "stage-1" demo_store).1 = "stage-1".
Proof.
  assert (is_ok (transitionStage "stage-1" demo_store).2 = true) as Hok by (vm_compute; reflexivity). revert Hok.
  destruct (transitionStage "stage-1" demo_store) as [st' [r|e]] eqn:E; intros Hok; [|discriminate].
  destruct (transition_exact "stage-1" demo_store st' r E) as (i & j & c & t & _ & _ & H & _). exact H.
Defined.

Lemma achieved_is_highest_witness :
  ∃ r k s, buildReport (mkSnap "s3" 3 demo_inputs) demo_store = Ok r ∧
    DECENTRALIZATION_STAGES !! k = Some s ∧ sr_achievedStage r = st_id s.
Proof.
  assert (is_ok (buildReport (mkSnap "s3" 3 demo_inputs) demo_store) = true) as Hok by (vm_compute; reflexivity).
  revert Hok. destruct (buildReport (mkSnap "s3" 3 demo_inputs) demo_store) as [r|e] eqn:E; intros Hok; [|discriminate].
  destruct (achieved_is_highest _ _ r E) as (m & k & s & _ & Hs & Ha & _).
  exists r, k, s. split; [reflexivity|]. split; [exact Hs|exact Ha].
Defined.

(** The three snapshots earn the first stage, and not yet the second. *)
Example demo_stage :
  (currentStage (run [Record_ "s1" 1 demo_inputs; Record_ "s2" 2 demo_inputs; Transition "stage-1";
                      Record_ "s3" 3 demo_inputs; Transition "stage-1"; Transition "stage-2"]).1,
   is_ok (transitionStage "stage-3" demo_store).2) = ("stage-1", false).
Proof. by vm_compute. Qed.

(** The baseline of a report is the oldest snapshot kept: past the bound it is no
    longer the first one recorded. *)
Example baseline_moves :
  let st := foldl (λ st i, appendSnapshot (mkSnap "s" (Z.of_nat i) demo_inputs) st) initialStore (seq 0 501) in
  cs_capturedAt <$> head (snapshots st) = Some 1.
Proof. by vm_compute. Qed.
