(* ===== verification/Grants.v ===== *)
(** * Grant outcomes

    [api/src/governance/decentralization/grant-outcomes.ts] with the grants of
    [store.ts]: registration of a grant with its objectives, milestones and conflict
    disclosure, evidence for its milestones, its status, the outcome report, and the
    status reports and the summary built from them.

    The store copies a record when it is saved and when it is read, so records are
    values here.  The URL parser is the parameter [protocolOf] (the protocol, or
    [None] when the constructor throws).  A number the callers supply is a [number]
    where it is only compared and a [double] where the code computes with it.  Each
    reading of the clock is an argument.

    - [grants_accountable]: what every registered grant satisfies, and that no call
      ever takes back verified evidence, an outcome or a final status;
    - [summary_exact]: what a passing summary says;
    - [outcome_never_registered]: registering a grant with its outcome always fails;
    - [verified_before_submitted]: two readings of the clock can store evidence that
      was verified before it was submitted. *)

From Stdlib Require Import ZArith QArith Lia.
From stdpp Require Import base numbers tactics decidable relations list strings sets.
From S2P Require Import Prelude JsMap JsNum.

Local Open Scope Z_scope.

(** ** Data *)

Inductive GrantStatus := GProposed | GApproved | GActive | GCompleted | GCancelled.

#[export] Instance GrantStatus_eq_dec : EqDecision GrantStatus.
Proof. solve_decision. Defined.

Record GrantObjective := mkObjective {
  go_id : string;
  go_description : string;
  go_metric : string;
  go_target : number;
  go_unit : string;
  go_direction : string;
}.

Record MilestoneEvidence := mkEvidence {
  me_uri : string;
  me_sha256 : string;
  me_submittedAt : number;
  me_verifiedAt : option number;
  me_verifiedBy : option string;
}.

Record GrantMilestone := mkMilestone {
  gm_id : string;
  gm_title : string;
  gm_dueAt : number;
  gm_acceptanceCriteria : string;
  gm_evidence : option MilestoneEvidence;
}.

Record GrantConflict := mkGrantConflict {
  gc_party : string;
  gc_relationship : string;
  gc_mitigation : string;
}.

(** [disclosed] is [None] when it is not a boolean. *)
Record GrantConflictDisclosure := mkDisclosure {
  cd_disclosed : option bool;
  cd_conflicts : list GrantConflict;
}.

Record GrantOutcomeResult := mkOutcomeResult {
  or_objectiveId : string;
  or_actual : number;
  or_evidenceUri : string;
}.

Record GrantOutcomeReport := mkOutcome {
  oc_reportedAt : number;
  oc_results : list GrantOutcomeResult;
  oc_summary : string;
}.

Record GrantRecord := mkGrant {
  gr_id : string;
  gr_title : string;
  gr_recipient : string;
  gr_owner : string;
  gr_status : GrantStatus;
  gr_approvedAt : option double;
  gr_completedAt : option double;
  gr_objectives : list GrantObjective;
  gr_milestones : list GrantMilestone;
  gr_conflicts : GrantConflictDisclosure;
  gr_outcome : option GrantOutcomeReport;
}.

Record GrantPolicy := mkGrantPolicy { outcomeWindowDays : double }.

(** The part of [store.ts] that holds grants. *)
Record registry := mkRegistry {
  grants : jsmap string GrantRecord;
  grantPolicy : GrantPolicy;
}.

Definition initialRegistry : registry := mkRegistry jm_empty (mkGrantPolicy (double_of_Z 30)).

Inductive grant_error :=
  | INVALID_EVIDENCE | OBJECTIVES_REQUIRED | INVALID_OBJECTIVE | DUPLICATE_OBJECTIVE
  | MILESTONES_REQUIRED | INVALID_MILESTONE | DUPLICATE_MILESTONE | CONFLICTS_NOT_DISCLOSED
  | UNDISCLOSED_CONFLICT | OUTCOME_ALREADY_RECORDED | INVALID_OUTCOME | OUTCOME_INCOMPLETE
  | INVALID_GRANT | DUPLICATE_GRANT | EVIDENCE_MISSING_FOR_COMPLETION | GRANT_NOT_FOUND
  | GRANT_CANCELLED | MILESTONE_NOT_FOUND | EVIDENCE_IMMUTABLE | INVALID_STATUS_TRANSITION
  | OUTCOME_BEFORE_COMPLETION.

Definition ALLOWED_TRANSITIONS (s : GrantStatus) : list GrantStatus :=
  match s with
  | GProposed => [GApproved; GCancelled]
  | GApproved => [GActive; GCancelled]
  | GActive => [GCompleted; GCancelled]
  | GCompleted | GCancelled => []
  end.

(** ** Validation *)

(** [if (b) fail(e)], one after the other. *)
Fixpoint checks (l : list (bool * grant_error)) : result grant_error unit :=
  match l with
  | [] => Ok tt
  | (b, e) :: rest => if b then Throw e else checks rest
  end.

Definition andThen (r1 r2 : result grant_error unit) : result grant_error unit :=
  match r1 with Ok _ => r2 | Throw e => Throw e end.

(** Truthiness of a number: neither 0 nor NaN. *)
Definition num_truthy (n : number) : bool := num_eqb n n && negb (num_eqb n (NInt 0)).

Definition is_hex_any (c : Ascii.ascii) : bool :=
  char_between 48 57 c || char_between 65 70 c || char_between 97 102 c.

(** [SHA256_PATTERN.test] *)
Definition sha256_text (s : string) : bool :=
  (length (chars s) =? 64)%nat && forallb is_hex_any (chars s).

Section grants.
(** [new URL(uri).protocol], [None] when the constructor throws. *)
Context (protocolOf : string → option string).

Definition validateEvidenceUri (uri : string) : result grant_error unit :=
  match protocolOf uri with
  | None => Throw INVALID_EVIDENCE
  | Some protocol =>
      checks [(bool_decide (protocol ≠ "https:") && bool_decide (protocol ≠ "http:"), INVALID_EVIDENCE)]
  end.

Fixpoint validateObjectivesFrom (ids : list string) (objectives : list GrantObjective)
    : result grant_error unit :=
  match objectives with
  | [] => Ok tt
  | o :: rest =>
      andThen
        (checks [(is_blank (go_id o), INVALID_OBJECTIVE);
                 (bool_decide (go_id o ∈ ids), DUPLICATE_OBJECTIVE);
                 (is_blank (go_description o) || is_blank (go_metric o) || is_blank (go_unit o), INVALID_OBJECTIVE);
                 (negb (is_finite (go_target o)), INVALID_OBJECTIVE);
                 (bool_decide (go_direction o ≠ "min") && bool_decide (go_direction o ≠ "max"), INVALID_OBJECTIVE)])
        (validateObjectivesFrom (go_id o :: ids) rest)
  end.

Definition validateObjectives (objectives : list GrantObjective) : result grant_error unit :=
  andThen (checks [(bool_decide (objectives = []), OBJECTIVES_REQUIRED)])
    (validateObjectivesFrom [] objectives).

Definition validateEvidence (evidence : MilestoneEvidence) : result grant_error unit :=
  andThen (validateEvidenceUri (me_uri evidence))
    (andThen
       (checks [(negb (sha256_text (me_sha256 evidence)), INVALID_EVIDENCE);
                (negb (is_finite (me_submittedAt evidence)) || num_leb (me_submittedAt evidence) (NInt 0),
                 INVALID_EVIDENCE)])
       match me_verifiedAt evidence with
       | None => Ok tt
       | Some verifiedAt =>
           checks [(is_blank (default "" (me_verifiedBy evidence)), INVALID_EVIDENCE);
                   (num_ltb verifiedAt (me_submittedAt evidence), INVALID_EVIDENCE)]
       end).

Fixpoint validateMilestonesFrom (ids : list string) (milestones : list GrantMilestone)
    : result grant_error unit :=
  match milestones with
  | [] => Ok tt
  | m :: rest =>
      andThen
        (checks [(is_blank (gm_id m) || is_blank (gm_title m), INVALID_MILESTONE);
                 (bool_decide (gm_id m ∈ ids), DUPLICATE_MILESTONE);
                 (is_blank (gm_acceptanceCriteria m), INVALID_MILESTONE);
                 (negb (is_finite (gm_dueAt m)) || num_leb (gm_dueAt m) (NInt 0), INVALID_MILESTONE)])
        (andThen (match gm_evidence m with Some e => validateEvidence e | None => Ok tt end)
           (validateMilestonesFrom (gm_id m :: ids) rest))
  end.

Definition validateMilestones (milestones : list GrantMilestone) : result grant_error unit :=
  andThen (checks [(bool_decide (milestones = []), MILESTONES_REQUIRED)])
    (validateMilestonesFrom [] milestones).

Definition validateConflicts (d : GrantConflictDisclosure) : result grant_error unit :=
  match cd_disclosed d with
  | None => Throw CONFLICTS_NOT_DISCLOSED
  | Some false => checks [(negb (bool_decide (cd_conflicts d = [])), UNDISCLOSED_CONFLICT)]
  | Some true =>
      checks ((λ c, (is_blank (gc_party c) || bool_decide (gc_relationship c = "") || is_blank (gc_mitigation c),
                     UNDISCLOSED_CONFLICT)) <$> cd_conflicts d)
  end.

Fixpoint validateResults (expected reported : list string) (results : list GrantOutcomeResult)
    : result grant_error unit :=
  match results with
  | [] =>
      checks ((λ objectiveId, (negb (bool_decide (objectiveId ∈ reported)), OUTCOME_INCOMPLETE)) <$> expected)
  | r :: rest =>
      andThen
        (checks [(negb (bool_decide (or_objectiveId r ∈ expected)), INVALID_OUTCOME);
                 (bool_decide (or_objectiveId r ∈ reported), INVALID_OUTCOME);
                 (negb (is_finite (or_actual r)), INVALID_OUTCOME)])
        (andThen (validateEvidenceUri (or_evidenceUri r))
           (validateResults expected (or_objectiveId r :: reported) rest))
  end.

Definition validateOutcome (record : GrantRecord) (outcome : GrantOutcomeReport) : result grant_error unit :=
  andThen
    (checks [(bool_decide (is_Some (gr_outcome record)), OUTCOME_ALREADY_RECORDED);
             (is_blank (oc_summary outcome), INVALID_OUTCOME)])
    (validateResults (js_dedup (go_id <$> gr_objectives record)) [] (oc_results outcome)).

Definition objectiveMet (objective : GrantObjective) (actual : number) : bool :=
  if bool_decide (go_direction objective = "min") then num_leb (go_target objective) actual
  else num_leb actual (go_target objective).

(** ** Operations *)

Abbreviation GR := (M registry grant_error).

Definition getGrant (id : string) (s : registry) : option GrantRecord := jm_get id (grants s).

Definition saveGrant (g : GrantRecord) (s : registry) : registry :=
  mkRegistry (jm_set (gr_id g) g (grants s)) (grantPolicy s).

(** [milestone.evidence?.verifiedAt] is truthy. *)
Definition verified (m : GrantMilestone) : bool :=
  match gm_evidence m ≫= me_verifiedAt with Some n => num_truthy n | None => false end.

Definition assertCompletionEvidence (record : GrantRecord) : result grant_error unit :=
  checks [(negb (forallb verified (gr_milestones record)), EVIDENCE_MISSING_FOR_COMPLETION)].

Definition set_status (st : GrantStatus) (g : GrantRecord) : GrantRecord :=
  mkGrant (gr_id g) (gr_title g) (gr_recipient g) (gr_owner g) st (gr_approvedAt g) (gr_completedAt g)
    (gr_objectives g) (gr_milestones g) (gr_conflicts g) (gr_outcome g).
Definition set_times (a c : option double) (g : GrantRecord) : GrantRecord :=
  mkGrant (gr_id g) (gr_title g) (gr_recipient g) (gr_owner g) (gr_status g) a c
    (gr_objectives g) (gr_milestones g) (gr_conflicts g) (gr_outcome g).
Definition set_milestones (ms : list GrantMilestone) (g : GrantRecord) : GrantRecord :=
  mkGrant (gr_id g) (gr_title g) (gr_recipient g) (gr_owner g) (gr_status g) (gr_approvedAt g) (gr_completedAt g)
    (gr_objectives g) ms (gr_conflicts g) (gr_outcome g).
Definition set_outcome (o : option GrantOutcomeReport) (g : GrantRecord) : GrantRecord :=
  mkGrant (gr_id g) (gr_title g) (gr_recipient g) (gr_owner g) (gr_status g) (gr_approvedAt g) (gr_completedAt g)
    (gr_objectives g) (gr_milestones g) (gr_conflicts g) o.

(** [input] is a record whose status may be absent: [status] is that field. *)
Definition registerGrant (input : GrantRecord) (status : option GrantStatus) : GR GrantRecord :=
  require (negb (is_blank (gr_id input) || is_blank (gr_title input) ||
                 is_blank (gr_recipient input) || is_blank (gr_owner input))) INVALID_GRANT ;;
  existing ← gets (getGrant (gr_id input));
  require (bool_decide (existing = None)) DUPLICATE_GRANT ;;
  let record := set_status (default GProposed status) input in
  lift (validateObjectives (gr_objectives record)) ;;
  lift (validateMilestones (gr_milestones record)) ;;
  lift (validateConflicts (gr_conflicts record)) ;;
  lift (match gr_outcome record with Some o => validateOutcome record o | None => Ok tt end) ;;
  lift (if bool_decide (gr_status record = GCompleted) then
          andThen (checks [(bool_decide (gr_completedAt record = None), INVALID_GRANT)])
            (assertCompletionEvidence record)
        else Ok tt) ;;
  modify (saveGrant record) ;;
  mret record.

(** [evidence.submittedAt || Math.floor(Date.now() / 1000)] *)
Definition submitted (now : Z) (e : MilestoneEvidence) : MilestoneEvidence :=
  mkEvidence (me_uri e) (me_sha256 e) (if num_truthy (me_submittedAt e) then me_submittedAt e else NInt now)
    (me_verifiedAt e) (me_verifiedBy e).

(** Assignment to the first milestone with that id. *)
Fixpoint putEvidence (milestoneId : string) (e : MilestoneEvidence) (ms : list GrantMilestone)
    : list GrantMilestone :=
  match ms with
  | [] => []
  | m :: rest =>
      if bool_decide (gm_id m = milestoneId)
      then mkMilestone (gm_id m) (gm_title m) (gm_dueAt m) (gm_acceptanceCriteria m) (Some e) :: rest
      else m :: putEvidence milestoneId e rest
  end.

(** The clock is read for the check ([now1]) and again for the stored copy ([now2]). *)
Definition submitMilestoneEvidence (now1 now2 : Z) (grantId milestoneId : string)
    (evidence : MilestoneEvidence) : GR GrantRecord :=
  record ← require_some (getGrant grantId) GRANT_NOT_FOUND;
  require (negb (bool_decide (gr_status record = GCancelled))) GRANT_CANCELLED ;;
  milestone ← require_some (λ _, snd <$> list_find (λ m, gm_id m = milestoneId) (gr_milestones record))
                MILESTONE_NOT_FOUND;
  require (negb (verified milestone)) EVIDENCE_IMMUTABLE ;;
  lift (validateEvidence (submitted now1 evidence)) ;;
  let record := set_milestones (putEvidence milestoneId (submitted now2 evidence) (gr_milestones record)) record in
  modify (saveGrant record) ;;
  mret record.

Definition transitionGrantStatus (now : Z) (grantId : string) (status : GrantStatus) : GR GrantRecord :=
  record ← require_some (getGrant grantId) GRANT_NOT_FOUND;
  require (bool_decide (status ∈ ALLOWED_TRANSITIONS (gr_status record))) INVALID_STATUS_TRANSITION ;;
  lift (if bool_decide (status = GCompleted) then assertCompletionEvidence record else Ok tt) ;;
  let completedAt := if bool_decide (status = GCompleted) then Some (double_of_Z now) else gr_completedAt record in
  let approvedAt :=
    if bool_decide (status = GApproved) && bool_decide (gr_approvedAt record = None)
    then Some (double_of_Z now) else gr_approvedAt record in
  let record := set_status status (set_times approvedAt completedAt record) in
  modify (saveGrant record) ;;
  mret record.

(** [outcome.reportedAt ?? now] *)
Definition recordGrantOutcome (now : Z) (grantId : string) (reportedAt : option number)
    (results : list GrantOutcomeResult) (summary : string) : GR GrantRecord :=
  record ← require_some (getGrant grantId) GRANT_NOT_FOUND;
  require (bool_decide (gr_status record = GCompleted)) OUTCOME_BEFORE_COMPLETION ;;
  let report := mkOutcome (default (NInt now) reportedAt) results summary in
  lift (validateOutcome record report) ;;
  let record := set_outcome (Some report) record in
  modify (saveGrant record) ;;
  mret record.

Definition setGrantPolicy (policy : GrantPolicy) : GR unit :=
  modify (λ s, mkRegistry (grants s) policy).

(** ** Reports *)

Definition DAY_SECONDS : Z := 86400.

Definition countVerified (record : GrantRecord) : Z :=
  Z.of_nat (length (filter (λ m, verified m = true) (gr_milestones record))).

Definition evidenceCoverage (record : GrantRecord) : double :=
  if bool_decide (gr_milestones record = []) then double_0
  else double_div (double_of_Z (countVerified record)) (double_of_Z (Z.of_nat (length (gr_milestones record)))).

Definition isDisclosureCompliant (record : GrantRecord) : bool :=
  let d := gr_conflicts record in
  match cd_disclosed d with
  | None => false
  | Some false => bool_decide (cd_conflicts d = [])
  | Some true => forallb (λ c, negb (is_blank (gc_party c)) && negb (is_blank (gc_mitigation c))) (cd_conflicts d)
  end.

Inductive outcome_status := ONotDue | ORecorded | OOverdue | OMissing.

#[export] Instance outcome_status_eq_dec : EqDecision outcome_status.
Proof. solve_decision. Defined.

Definition outcomeDeadline (record : GrantRecord) (now : Z) (policy : GrantPolicy) : double :=
  double_add (default (double_of_Z now) (gr_completedAt record))
    (double_mul (outcomeWindowDays policy) (double_of_Z DAY_SECONDS)).

Definition outcomeStatus (record : GrantRecord) (now : Z) (policy : GrantPolicy) : outcome_status :=
  if negb (bool_decide (gr_status record = GCompleted)) then ONotDue
  else if bool_decide (is_Some (gr_outcome record)) then ORecorded
  else if num_ltb (num_of_double (outcomeDeadline record now policy)) (NInt now) then OOverdue else OMissing.

Inductive grant_violation := VEvidenceMissing | VMilestoneOverdue (id : string) | VConflictsNotDisclosed.

Record GrantObjectiveAttainment := mkAttainment {
  at_objectiveId : string;
  at_target : number;
  at_actual : option number;
  at_unit : string;
  at_met : option bool;
}.

Record GrantStatusReport := mkStatusReport {
  sr_grantId : string;
  sr_title : string;
  sr_status : GrantStatus;
  sr_milestonesTotal : Z;
  sr_milestonesVerified : Z;
  sr_evidenceCoverage : double;
  sr_objectivesTotal : Z;
  sr_objectivesMet : Z;
  sr_attainment : list GrantObjectiveAttainment;
  sr_outcomeStatus : outcome_status;
  sr_violations : list grant_violation;
}.

Definition attainmentOf (record : GrantRecord) (o : GrantObjective) : GrantObjectiveAttainment :=
  let r := gr_outcome record ≫= λ oc,
             snd <$> list_find (λ e, or_objectiveId e = go_id o) (oc_results oc) in
  mkAttainment (go_id o) (go_target o) (or_actual <$> r) (go_unit o) ((λ x, objectiveMet o (or_actual x)) <$> r).

Definition buildGrantStatusReport (record : GrantRecord) (now : Z) (policy : GrantPolicy) : GrantStatusReport :=
  let violations :=
    (if bool_decide (gr_status record = GCompleted) &&
        num_ltb (num_of_double (evidenceCoverage record)) (NInt 1) then [VEvidenceMissing] else []) ++
    ((λ m, VMilestoneOverdue (gm_id m)) <$>
       filter (λ m, verified m = false ∧ num_ltb (gm_dueAt m) (NInt now) = true) (gr_milestones record)) ++
    (if isDisclosureCompliant record then [] else [VConflictsNotDisclosed]) in
  let attainment := attainmentOf record <$> gr_objectives record in
  mkStatusReport (gr_id record) (gr_title record) (gr_status record)
    (Z.of_nat (length (gr_milestones record))) (countVerified record) (evidenceCoverage record)
    (Z.of_nat (length (gr_objectives record)))
    (Z.of_nat (length (filter (λ a, at_met a = Some true) attainment)))
    attainment (outcomeStatus record now policy) violations.

Record GrantOutcomesSummary := mkSummary {
  gs_generatedAt : Z;
  gs_grantCount : Z;
  gs_completed : Z;
  gs_completionRate : double;
  gs_objectivesPublished : Z;
  gs_objectivesMet : Z;
  gs_attainmentRate : option double;
  gs_evidenceCoverage : double;
  gs_disclosureCompliant : Z;
  gs_outcomesOverdue : list string;
  gs_grants : list GrantStatusReport;
  gs_verdict : bool;
}.

Definition sumZ {A} (f : A → Z) (l : list A) : Z := foldl (λ acc x, acc + f x) 0 l.

(** [a / b] on counts. *)
Definition rate (a b : Z) : double := double_div (double_of_Z a) (double_of_Z b).

Definition grantOutcomesSummary (now : Z) (s : registry) : GrantOutcomesSummary :=
  let records := jm_values (grants s) in
  let reports := (λ r, buildGrantStatusReport r now (grantPolicy s)) <$> records in
  let grantCount := Z.of_nat (length reports) in
  let completed := Z.of_nat (length (filter (λ r, sr_status r = GCompleted) reports)) in
  let reportedObjectives :=
    sumZ (λ r, Z.of_nat (length (filter (λ a, at_met a ≠ None) (sr_attainment r)))) reports in
  let objectivesMet := sumZ sr_objectivesMet reports in
  let milestonesTotal := sumZ sr_milestonesTotal reports in
  let overdue := sr_grantId <$> filter (λ r, sr_outcomeStatus r = OOverdue) reports in
  let compliant := Z.of_nat (length (filter (λ r, isDisclosureCompliant r = true) records)) in
  mkSummary now grantCount completed
    (if 0 <? grantCount then rate completed grantCount else double_0)
    (sumZ sr_objectivesTotal reports) objectivesMet
    (if 0 <? reportedObjectives then Some (rate objectivesMet reportedObjectives) else None)
    (if 0 <? milestonesTotal then rate (sumZ sr_milestonesVerified reports) milestonesTotal else double_0)
    compliant overdue reports
    (bool_decide (overdue = []) && (compliant =? Z.of_nat (length records))).

(** ** What validation accepts *)

Lemma checks_ok l : checks l = Ok tt ↔ Forall (λ x, x.1 = false) l.
Proof.
  induction l as [|[b e] l IH]; simpl; [done|]. rewrite Forall_cons, <- IH. simpl. by destruct b; naive_solver.
Qed.

Lemma andThen_ok r1 r2 : andThen r1 r2 = Ok tt ↔ r1 = Ok tt ∧ r2 = Ok tt.
Proof. destruct r1 as [[]|]; simpl; naive_solver. Qed.

(** Turn the success of a validator into the facts its checks establish. *)
Ltac inv_checks :=
  repeat match goal with
  | H : andThen _ _ = Ok tt |- _ => apply andThen_ok in H; destruct H
  | H : checks _ = Ok tt |- _ => apply checks_ok in H
  | H : Forall _ (_ :: _) |- _ => apply Forall_cons in H; destruct H
  | H : Forall _ [] |- _ => clear H
  | H : context [fst (_, _)] |- _ => progress cbn [fst] in H
  end; to_prop.

Definition http_uri (uri : string) : Prop :=
  protocolOf uri = Some "https:" ∨ protocolOf uri = Some "http:".

Definition evidence_ok (e : MilestoneEvidence) : Prop :=
  http_uri (me_uri e) ∧ sha256_text (me_sha256 e) = true ∧
  (is_Some (me_verifiedAt e) → is_blank (default "" (me_verifiedBy e)) = false).

Definition objective_ok (o : GrantObjective) : Prop :=
  is_blank (go_id o) = false ∧ is_finite (go_target o) = true ∧
  (go_direction o = "min" ∨ go_direction o = "max").

Definition milestone_ok (m : GrantMilestone) : Prop :=
  is_blank (gm_id m) = false ∧ is_blank (gm_acceptanceCriteria m) = false ∧ is_finite (gm_dueAt m) = true ∧
  ∀ e, gm_evidence m = Some e → evidence_ok e.

Definition outcome_ok (g : GrantRecord) (o : GrantOutcomeReport) : Prop :=
  is_blank (oc_summary o) = false ∧
  or_objectiveId <$> oc_results o ≡ₚ go_id <$> gr_objectives g ∧
  Forall (λ r, is_finite (or_actual r) = true ∧ http_uri (or_evidenceUri r)) (oc_results o).

Lemma not_both (p a b : string) :
  bool_decide (p ≠ a) && bool_decide (p ≠ b) = false → p = a ∨ p = b.
Proof. intros [H|H]%andb_false_iff; apply bool_decide_eq_false, dec_stable in H; auto. Qed.

Lemma validateEvidenceUri_ok uri : validateEvidenceUri uri = Ok tt → http_uri uri.
Proof.
  unfold validateEvidenceUri, http_uri. destruct (protocolOf uri) as [p|]; [|done]. intros H. inv_checks.
  apply not_both in H as [-> | ->]; auto.
Qed.

Lemma validateEvidence_ok e : validateEvidence e = Ok tt → evidence_ok e.
Proof.
  unfold validateEvidence. intros H. inv_checks. split_and!; [by apply validateEvidenceUri_ok|done|].
  intros [v Hv]. rewrite Hv in *. inv_checks. done.
Qed.

Lemma validateObjectivesFrom_ok ids l :
  validateObjectivesFrom ids l = Ok tt →
  NoDup (go_id <$> l) ∧ (∀ o, o ∈ l → go_id o ∉ ids) ∧ Forall objective_ok l.
Proof.
  revert ids. induction l as [|o l IH]; intros ids; cbn [validateObjectivesFrom]; [intros _; split_and!; [constructor|by intros ? ?%not_elem_of_nil|constructor]|].
  intros H. inv_checks. match goal with H : validateObjectivesFrom _ _ = _ |- _ => apply IH in H as (Hn & Hd & Hf) end.
  split_and!.
  - constructor; [|done]. intros (o' & Heq & Ho')%list_elem_of_fmap. apply (Hd o' Ho'). rewrite <- Heq. set_solver.
  - intros o' [->|Ho']%elem_of_cons; [done|]. specialize (Hd o' Ho'). set_solver.
  - constructor; [|done]. split_and!; [done..|by apply not_both].
Qed.

Lemma validateMilestonesFrom_ok ids l :
  validateMilestonesFrom ids l = Ok tt →
  NoDup (gm_id <$> l) ∧ (∀ m, m ∈ l → gm_id m ∉ ids) ∧ Forall milestone_ok l.
Proof.
  revert ids. induction l as [|m l IH]; intros ids; cbn [validateMilestonesFrom]; [intros _; split_and!; [constructor|by intros ? ?%not_elem_of_nil|constructor]|].
  intros H. inv_checks. match goal with H : validateMilestonesFrom _ _ = _ |- _ => apply IH in H as (Hn & Hd & Hf) end.
  split_and!.
  - constructor; [|done]. intros (m' & Heq & Hm')%list_elem_of_fmap. apply (Hd m' Hm'). rewrite <- Heq. set_solver.
  - intros m' [->|Hm']%elem_of_cons; [done|]. specialize (Hd m' Hm'). set_solver.
  - constructor; [|done]. split_and!; [done..|]. intros e He. rewrite He in *. by apply validateEvidence_ok.
Qed.

Lemma validateConflicts_ok g : validateConflicts (gr_conflicts g) = Ok tt → isDisclosureCompliant g = true.
Proof.
  unfold validateConflicts, isDisclosureCompliant. destruct (cd_disclosed _) as [[]|]; [|intros H; inv_checks; by apply bool_decide_eq_true|done].
  intros H%checks_ok. apply forallb_elem. intros c Hc. rewrite Forall_fmap, Forall_forall in H.
  specialize (H c Hc). simpl in H. to_prop. apply andb_true_iff. by rewrite !negb_true_iff.
Qed.

Lemma validateResults_ok expected reported rs :
  validateResults expected reported rs = Ok tt →
  NoDup (or_objectiveId <$> rs) ∧ (∀ r, r ∈ rs → or_objectiveId r ∈ expected ∧ or_objectiveId r ∉ reported) ∧
  (∀ i, i ∈ expected → i ∈ reported ∨ i ∈ or_objectiveId <$> rs) ∧
  Forall (λ r, is_finite (or_actual r) = true ∧ http_uri (or_evidenceUri r)) rs.
Proof.
  revert reported. induction rs as [|r rs IH]; intros reported; cbn [validateResults].
  - intros H%checks_ok. split_and!; [constructor|by intros ? ?%not_elem_of_nil| |constructor].
    intros i Hi. rewrite Forall_fmap, Forall_forall in H. specialize (H i Hi). simpl in H. to_prop. auto.
  - intros H. inv_checks.
    match goal with H : validateResults _ _ _ = _ |- _ => apply IH in H as (Hn & Hd & Hc & Hf) end.
    split_and!.
    + constructor; [|done]. intros (r' & Heq & Hr')%list_elem_of_fmap. apply (Hd r' Hr'). rewrite <- Heq. set_solver.
    + intros r' [->|Hr']%elem_of_cons; [done|]. destruct (Hd r' Hr'). set_solver.
    + intros i Hi. destruct (Hc i Hi) as [[->|?]%elem_of_cons|?]; set_solver.
    + constructor; [|done]. split; [done|by apply validateEvidenceUri_ok].
Qed.

Lemma validateOutcome_ok g o :
  NoDup (go_id <$> gr_objectives g) → validateOutcome g o = Ok tt → gr_outcome g = None ∧ outcome_ok g o.
Proof.
  intros Hn H. unfold validateOutcome in H. inv_checks.
  match goal with H : validateResults _ _ _ = _ |- _ => apply validateResults_ok in H as (Hr & Hd & Hc & Hf) end.
  rewrite js_dedup_fix in * by done. split; [by apply eq_None_not_Some|]. split_and!; [done| |done].
  apply NoDup_Permutation; [done..|]. intros i. split.
  - intros (r & -> & Hi)%list_elem_of_fmap. by apply Hd.
  - intros Hi. destruct (Hc i Hi) as [?|?]; [set_solver|done].
Qed.

(** ** The invariant of the registry *)

Record grant_ok (g : GrantRecord) : Prop := {
  ok_objectives : gr_objectives g ≠ [] ∧ NoDup (go_id <$> gr_objectives g) ∧ Forall objective_ok (gr_objectives g);
  ok_milestones : gr_milestones g ≠ [] ∧ NoDup (gm_id <$> gr_milestones g) ∧ Forall milestone_ok (gr_milestones g);
  ok_disclosure : isDisclosureCompliant g = true;
  ok_completed : gr_status g = GCompleted →
    is_Some (gr_completedAt g) ∧ ∀ m, m ∈ gr_milestones g → verified m = true;
  ok_outcome : ∀ o, gr_outcome g = Some o → gr_status g = GCompleted ∧ outcome_ok g o;
}.

Definition registry_ok (s : registry) : Prop :=
  jm_wf (grants s) ∧ ∀ id g, getGrant id s = Some g → gr_id g = id ∧ grant_ok g.

Lemma saveGrant_ok g s : registry_ok s → grant_ok g → registry_ok (saveGrant g s).
Proof.
  intros [Hw Hs] Hg. split; [by apply jm_wf_set|]. intros id g'. unfold getGrant, saveGrant. simpl.
  rewrite jm_get_set. case_decide as E; [intros [= <-]; by rewrite E|]. apply Hs.
Qed.

Lemma putEvidence_ids i e ms : gm_id <$> putEvidence i e ms = gm_id <$> ms.
Proof. induction ms as [|m ms IH]; simpl; [done|]. case_bool_decide; csimpl; [done|]. by rewrite IH. Qed.

Lemma putEvidence_ok i e ms : evidence_ok e → Forall milestone_ok ms → Forall milestone_ok (putEvidence i e ms).
Proof.
  intros He. induction 1 as [|m ms Hm Hms IH]; simpl; [constructor|].
  case_bool_decide; constructor; try done. destruct Hm as (H1 & H2 & H3 & _). split_and!; try done.
  by intros e' [= <-].
Qed.

(** What later calls may do to a registered grant. *)
Definition same_milestone (m m' : GrantMilestone) : Prop :=
  gm_id m' = gm_id m ∧ gm_title m' = gm_title m ∧ gm_dueAt m' = gm_dueAt m ∧
  gm_acceptanceCriteria m' = gm_acceptanceCriteria m ∧ (verified m = true → m' = m).

Record evolves (g g' : GrantRecord) : Prop := {
  ev_identity : gr_id g' = gr_id g ∧ gr_title g' = gr_title g ∧ gr_recipient g' = gr_recipient g ∧
    gr_owner g' = gr_owner g;
  ev_terms : gr_objectives g' = gr_objectives g ∧ gr_conflicts g' = gr_conflicts g;
  ev_milestones : Forall2 same_milestone (gr_milestones g) (gr_milestones g');
  ev_status : gr_status g' = gr_status g ∨ gr_status g' ∈ ALLOWED_TRANSITIONS (gr_status g);
  ev_outcome : ∀ o, gr_outcome g = Some o → gr_outcome g' = Some o;
  ev_completed : gr_status g = GCompleted → g' = set_outcome (gr_outcome g') g;
  ev_cancelled : gr_status g = GCancelled → g' = g;
}.

Lemma same_milestones_refl ms : Forall2 same_milestone ms ms.
Proof. induction ms; constructor; [by split_and!|done]. Qed.

Lemma evolves_refl g : evolves g g.
Proof. split; try by auto. - apply same_milestones_refl. - by destruct g. Qed.

Lemma putEvidence_same i e ms :
  (∀ m, m ∈ ms → gm_id m = i → verified m = false) → Forall2 same_milestone ms (putEvidence i e ms).
Proof.
  induction ms as [|m ms IH]; intros H; simpl; [constructor|]. case_bool_decide.
  - constructor; [|apply same_milestones_refl]. split_and!; [done..|].
    rewrite (H m) by set_solver. done.
  - constructor; [by split_and!|]. apply IH. set_solver.
Qed.

(** ** Calls *)

Inductive grant_op :=
  | GRegister (input : GrantRecord) (status : option GrantStatus)
  | GSubmit (now1 now2 : Z) (grantId milestoneId : string) (evidence : MilestoneEvidence)
  | GTransition (now : Z) (grantId : string) (status : GrantStatus)
  | GOutcome (now : Z) (grantId : string) (reportedAt : option number)
      (results : list GrantOutcomeResult) (summary : string)
  | GPolicy (policy : GrantPolicy).

Definition run_grant (op : grant_op) (s : registry) : registry :=
  match op with
  | GRegister i st => fst (registerGrant i st s)
  | GSubmit n1 n2 g m e => fst (submitMilestoneEvidence n1 n2 g m e s)
  | GTransition n g st => fst (transitionGrantStatus n g st s)
  | GOutcome n g at' rs su => fst (recordGrantOutcome n g at' rs su s)
  | GPolicy p => fst (setGrantPolicy p s)
  end.

(** What one call leaves behind: the invariant, and every grant it found, evolved. *)
Definition advances (s s' : registry) : Prop :=
  registry_ok s' ∧ ∀ id g, getGrant id s = Some g → ∃ g', getGrant id s' = Some g' ∧ evolves g g'.

Lemma advances_refl s : registry_ok s → advances s s.
Proof. intros H. split; [done|]. intros id g Hg. exists g. split; [done|apply evolves_refl]. Qed.

Lemma saveGrant_advances s g g' :
  registry_ok s → getGrant (gr_id g) s = Some g → gr_id g' = gr_id g → grant_ok g' → evolves g g' →
  advances s (saveGrant g' s).
Proof.
  intros Hs Hg Hid Hok Hev. split; [by apply saveGrant_ok|]. intros id x Hx.
  unfold getGrant, saveGrant in *. simpl. rewrite Hid, jm_get_set.
  case_decide as E; [subst id; exists g'; split; [done|congruence]|]. exists x. split; [done|apply evolves_refl].
Qed.

Lemma found_grant s id g : registry_ok s → getGrant id s = Some g → getGrant (gr_id g) s = Some g ∧ grant_ok g.
Proof. intros [_ Hs] Hg. destruct (Hs id g Hg) as [-> ?]. done. Qed.

Lemma registerGrant_advances input status s :
  registry_ok s → advances s (fst (registerGrant input status s)).
Proof.
  intros Hs. pose proof (advances_refl s Hs) as Hrefl. unfold registerGrant.
  inv_run. set (record := set_status (default GProposed status) input) in *. inv_run.
  repeat match goal with u : () |- _ => destruct u end. to_prop.
  match goal with H : getGrant _ s = None |- _ => rename H into Hnew end.
  match goal with H : validateObjectives _ = _ |- _ => unfold validateObjectives in H end.
  match goal with H : validateMilestones _ = _ |- _ => unfold validateMilestones in H end. inv_checks.
  match goal with H : validateObjectivesFrom _ _ = _ |- _ => apply validateObjectivesFrom_ok in H as (Ho1 & _ & Ho2) end.
  match goal with H : validateMilestonesFrom _ _ = _ |- _ => apply validateMilestonesFrom_ok in H as (Hm1 & _ & Hm2) end.
  match goal with H : validateConflicts _ = _ |- _ => apply validateConflicts_ok in H end.
  assert (grant_ok record) as Hok.
  { split; [by split_and!..|done| |].
    - intros E. match goal with H : (if bool_decide (gr_status record = _) then _ else _) = _ |- _ =>
        rewrite bool_decide_true in H by done; unfold assertCompletionEvidence in H end. inv_checks.
      split; [by apply not_eq_None_Some|]. by apply forallb_elem.
    - intros o E. match goal with H : match gr_outcome record with _ => _ end = _ |- _ => rewrite E in H;
        apply validateOutcome_ok in H as [H _]; [congruence|done] end. }
  simpl. split; [by apply saveGrant_ok|]. intros id g Hg. exists g. split; [|apply evolves_refl].
  unfold getGrant, saveGrant in *. simpl. rewrite jm_get_set.
  destruct (decide (gr_id input = id)) as [<-|]; [|done]. congruence.
Qed.

Lemma submit_advances now1 now2 gid mid e s :
  registry_ok s → advances s (fst (submitMilestoneEvidence now1 now2 gid mid e s)).
Proof.
  intros Hs. pose proof (advances_refl s Hs) as Hrefl. unfold submitMilestoneEvidence.
  inv_run. to_prop. repeat match goal with u : () |- _ => destruct u end.
  match goal with H : getGrant _ _ = Some ?x |- _ => rename x into g; destruct (found_grant _ _ _ Hs H) as [Hg Hok] end.
  match goal with H : _ <$> list_find _ _ = Some ?x |- _ =>
    rename x into m; apply fmap_Some in H as ([k m'] & (Hk & Hm & Hfirst)%list_find_Some & ->) end. simpl in *.
  assert (evidence_ok (submitted now2 e)) as He
    by (match goal with H : validateEvidence _ = _ |- _ => by apply validateEvidence_ok in H end).
  destruct Hok as [Ho (Hm1 & Hm2 & Hm3) Hd Hc Hout].
  assert (∀ m, m ∈ gr_milestones g → gm_id m = mid → verified m = false) as Hunv.
  { intros m [j Hj]%list_elem_of_lookup_1 Hid.
    assert (k = j) as ->; [|congruence]. eapply NoDup_lookup; [exact Hm2| |].
    - by rewrite list_lookup_fmap, Hk.
    - rewrite list_lookup_fmap, Hj. simpl. congruence. }
  assert (gr_status g ≠ GCompleted) as Hnc.
  { intros E. destruct (Hc E) as [_ Hall]. specialize (Hall m' ltac:(by eapply list_elem_of_lookup_2)). congruence. }
  eapply saveGrant_advances; [done|exact Hg|done| |].
  - split; simpl; try done.
    split_and!; [|by rewrite putEvidence_ids|by apply putEvidence_ok].
    intros E. apply (f_equal (fmap gm_id)) in E. rewrite putEvidence_ids in E. by apply fmap_nil_inv in E.
  - split; simpl; try by auto. by apply putEvidence_same.
Qed.

Lemma transition_advances now gid st s :
  registry_ok s → advances s (fst (transitionGrantStatus now gid st s)).
Proof.
  intros Hs. pose proof (advances_refl s Hs) as Hrefl. unfold transitionGrantStatus.
  inv_run. to_prop. repeat match goal with u : () |- _ => destruct u end.
  match goal with H : getGrant _ _ = Some ?x |- _ => rename x into g; destruct (found_grant _ _ _ Hs H) as [Hg Hok] end.
  match goal with H : st ∈ _ |- _ => rename H into Hst end.
  assert (gr_status g ≠ GCompleted ∧ gr_status g ≠ GCancelled) as [Hn1 Hn2]
    by (by split; intros E; rewrite E in Hst; apply not_elem_of_nil in Hst).
  destruct Hok as [Ho Hm Hd Hc Hout].
  eapply saveGrant_advances; [done|exact Hg|done| |].
  - split; simpl; try done.
    + intros ->. rewrite !bool_decide_true in * by done. unfold assertCompletionEvidence in *. inv_checks.
      split; [by eexists|]. by apply forallb_elem.
    + intros o [? _]%Hout. congruence.
  - split; simpl; try by auto. apply same_milestones_refl.
Qed.

Lemma outcome_advances now gid at' rs su s :
  registry_ok s → advances s (fst (recordGrantOutcome now gid at' rs su s)).
Proof.
  intros Hs. pose proof (advances_refl s Hs) as Hrefl. unfold recordGrantOutcome.
  inv_run. to_prop. repeat match goal with u : () |- _ => destruct u end.
  match goal with H : getGrant _ _ = Some ?x |- _ => rename x into g; destruct (found_grant _ _ _ Hs H) as [Hg Hok] end.
  destruct Hok as [Ho Hm Hd Hc Hout].
  match goal with H : validateOutcome _ _ = _ |- _ => apply validateOutcome_ok in H as [Hnone Hoc]; [|apply Ho] end.
  eapply saveGrant_advances; [done|exact Hg|done| |].
  - split; simpl; try done. intros o [= <-]. done.
  - split; simpl; try by auto; try congruence. apply same_milestones_refl.
Qed.

Lemma run_grant_advances op s : registry_ok s → advances s (run_grant op s).
Proof.
  destruct op; simpl; [apply registerGrant_advances|apply submit_advances|apply transition_advances|
    apply outcome_advances|apply advances_refl].
Qed.

Definition grants_reachable (s : registry) : Prop :=
  ∃ ops, s = foldl (λ s op, run_grant op s) initialRegistry ops.

Lemma grants_reachable_ok s : grants_reachable s → registry_ok s.
Proof.
  intros [ops ->]. assert (registry_ok initialRegistry) as H by (split; [apply jm_wf_empty|done]).
  revert H. generalize initialRegistry. induction ops as [|op ops IH]; intros s Hs; [done|].
  apply IH. by apply run_grant_advances.
Qed.

(** ** The summary *)

Lemma getGrant_elem id g s : getGrant id s = Some g → g ∈ jm_values (grants s).
Proof. apply jm_value_elem. Qed.

Lemma outcomeStatus_overdue g now p :
  outcomeStatus g now p = OOverdue ↔
  gr_status g = GCompleted ∧ gr_outcome g = None ∧
  num_ltb (num_of_double (outcomeDeadline g now p)) (NInt now) = true.
Proof.
  unfold outcomeStatus. destruct (bool_decide (gr_status g = GCompleted)) eqn:E1; to_prop; simpl; [|naive_solver].
  destruct (gr_outcome g); simpl; [naive_solver|]. destruct (num_ltb _ _); naive_solver.
Qed.

Lemma summary_pass now s :
  (∀ g, g ∈ jm_values (grants s) → isDisclosureCompliant g = true) →
  gs_verdict (grantOutcomesSummary now s) = true ↔
  ∀ g, g ∈ jm_values (grants s) → outcomeStatus g now (grantPolicy s) ≠ OOverdue.
Proof.
  intros Hd. unfold grantOutcomesSummary. cbn [gs_verdict].
  rewrite (filter_all (λ r, isDisclosureCompliant r = true)) by exact Hd.
  rewrite Z.eqb_refl, andb_true_r, bool_decide_eq_true. split.
  - intros H%fmap_nil_inv g Hg Hov. apply (not_elem_of_nil (buildGrantStatusReport g now (grantPolicy s))).
    rewrite <- H. apply list_elem_of_filter. split; [done|]. apply list_elem_of_fmap. by exists g.
  - intros H. rewrite filter_none; [done|]. intros r (g & -> & Hg)%list_elem_of_fmap. by apply H.
Qed.
End grants.

(** ** Properties *)

(** C18: Grants are accountable.  After any sequence of calls every registered grant has
    objectives and milestones with distinct ids, all well-formed, discloses its
    conflicts, is completed only with verified evidence for each milestone, and has
    an outcome only when completed, reporting each objective exactly once with a
    number and a web address; and no further call removes a grant or changes its
    terms, replaces verified evidence or a recorded outcome, moves the status against
    the table, or changes a completed grant (its outcome aside) or a cancelled one. *)
Theorem grants_accountable protocolOf s :
  grants_reachable protocolOf s →
  (∀ id g, getGrant id s = Some g → gr_id g = id ∧ grant_ok protocolOf g) ∧
  (∀ op id g, getGrant id s = Some g →
     ∃ g', getGrant id (run_grant protocolOf op s) = Some g' ∧ evolves g g').
Proof.
  intros Hs%grants_reachable_ok. split; [apply Hs|]. intros op. by apply (run_grant_advances protocolOf op s Hs).
Qed.

(** The grants of the examples. *)
Definition demo_protocol (uri : string) : option string :=
  if bool_decide (uri = "https://example.org") then Some "https:" else None.
Definition demo_digest : string := "0123456789abcdef0123456789abcdef0123456789abcdef0123456789ABCDEF".
Definition demo_evidence (submittedAt : Z) (verifiedAt : option Z) : MilestoneEvidence :=
  mkEvidence "https://example.org" demo_digest (NInt submittedAt) (NInt <$> verifiedAt) (Some "auditor").
Definition demo_grant (outcome : option GrantOutcomeReport) : GrantRecord :=
  mkGrant "g1" "Feeds" "team" "dao" GProposed None None
    [mkObjective "o1" "uptime" "pct" (NInt 99) "%" "min"]
    [mkMilestone "m1" "launch" (NInt 500) "live" None]
    (mkDisclosure (Some false) []) outcome.
Definition demo_ops : list grant_op :=
  [GRegister (demo_grant None) None; GTransition 10 "g1" GApproved; GTransition 20 "g1" GActive;
   GSubmit 30 30 "g1" "m1" (demo_evidence 25 (Some 28)); GTransition 40 "g1" GCompleted].
Definition demo_registry : registry :=
  foldl (λ s op, run_grant demo_protocol op s) initialRegistry demo_ops.

Lemma grants_accountable_witness :
  gr_status <$> getGrant "g1" demo_registry = Some GCompleted ∧
  ∀ op g, getGrant "g1" demo_registry = Some g →
    ∃ g', getGrant "g1" (run_grant demo_protocol op demo_registry) = Some g' ∧ evolves g g'.
Proof.
  split; [by vm_compute|]. intros op. apply (grants_accountable demo_protocol).
  by exists demo_ops.
Defined.

(** What a passing summary says: in every reachable registry it passes exactly when
    each completed grant without an outcome report is still within the reporting
    window; conflicts never decide it, since no grant is registered without them. *)
Theorem summary_exact protocolOf now s :
  grants_reachable protocolOf s →
  (gs_verdict (grantOutcomesSummary now s) = true ↔
   ∀ id g, getGrant id s = Some g → gr_status g = GCompleted → gr_outcome g = None →
     num_ltb (num_of_double (outcomeDeadline g now (grantPolicy s))) (NInt now) = false).
Proof.
  intros [Hw Hs]%grants_reachable_ok. rewrite summary_pass.
  - split.
    + intros H id g Hg Hst Ho. specialize (H g (getGrant_elem _ _ _ Hg)).
      rewrite outcomeStatus_overdue in H. destruct (num_ltb _ _); naive_solver.
    + intros H g [id Hg]%jm_value_inv; [|done]. rewrite outcomeStatus_overdue.
      intros (Hst & Ho & Hlt). by rewrite (H id g) in Hlt.
  - intros g [id Hg]%jm_value_inv; [|done]. by apply (Hs id g Hg).
Qed.

Lemma summary_exact_witness :
  gs_verdict (grantOutcomesSummary 2592040 demo_registry) = true ∧
  gs_verdict (grantOutcomesSummary 2592041 demo_registry) = false.
Proof.
  split; [|by vm_compute]. apply (summary_exact demo_protocol); [by exists demo_ops|].
  assert (forallb (λ x, negb (num_ltb (num_of_double (outcomeDeadline x 2592040 (grantPolicy demo_registry)))
    (NInt 2592040))) (jm_values (grants demo_registry)) = true) as H by (vm_compute; reflexivity).
  rewrite forallb_elem in H. intros id g Hg _ _. apply negb_true_iff, H. by eapply getGrant_elem.
Defined.

(** A grant cannot be registered together with its outcome: the outcome is validated
    against the record that already holds it. *)
Theorem outcome_never_registered protocolOf input status o s :
  gr_outcome input = Some o → ∃ e, registerGrant protocolOf input status s = (s, Throw e).
Proof.
  intros Ho. destruct (registerGrant protocolOf input status s) as [s' [g|e]] eqn:E.
  - exfalso. unfold registerGrant in E. inv_ok. simpl in *. rewrite Ho in *. unfold validateOutcome in *.
    simpl in *. rewrite bool_decide_true in * by (by rewrite Ho). done.
  - assert (atomic (registerGrant protocolOf input status)) as Hat by (unfold registerGrant; solve_atomic).
    apply Hat in E as ->. by exists e.
Qed.

Lemma outcome_never_registered_witness :
  let o := mkOutcome (NInt 50) [mkOutcomeResult "o1" (NInt 99) "https://example.org"] "done" in
  ∃ e, registerGrant demo_protocol (demo_grant (Some o)) (Some GCompleted) initialRegistry = (initialRegistry, Throw e).
Proof. by eapply outcome_never_registered. Defined.

(** The clock is read twice: evidence submitted without a time can be stored as
    verified before it was submitted, which validation forbids. *)
Example verified_before_submitted :
  let s := run_grant demo_protocol (GSubmit 30 31 "g1" "m1" (demo_evidence 0 (Some 30)))
             (foldl (λ s op, run_grant demo_protocol op s) initialRegistry (take 3 demo_ops)) in
  (λ g, (λ e, (me_submittedAt e, me_verifiedAt e)) <$> omap gm_evidence (gr_milestones g)) <$> getGrant "g1" s =
    Some [(NInt 31, Some (NInt 30))].
Proof. by vm_compute. Qed.
