(* ===== verification/ExecutionAudit.v ===== *)
(** * Governance execution audit

    [api/src/governance/decentralization/execution-audit.ts] with the reports and
    remediations of [store.ts]: the state approved proposals should have produced is
    replayed from a baseline and compared, key by key, with the observed state.

    A bucket of the state is an object used as a map: an insertion-ordered [jsmap].
    Its keys are taken not to be names every object inherits.  An action whose variant
    the code does not know is [Unknown].  [localeCompare] is a parameter; the identifier of a report is an argument; published metrics and the
    sentences of [describeDiscrepancy] are left out.

    - [reconciliation_exact]: which discrepancies a report contains;
    - [reconciliation_order_independent]: the order proposals are listed in never
      matters;
    - [remediation_found]: a remediation is found again under its own discrepancy
      and no other. *)

From Stdlib Require Import ZArith QArith Lia.
From stdpp Require Import base numbers tactics decidable relations pretty list strings sets.
From S2P Require Import Prelude JsMap JsNum Proposals.

Local Open Scope Z_scope.

(** ** Data *)

Inductive GovernanceSurface := onchain | offchain.

#[export] Instance surface_eq_dec : EqDecision GovernanceSurface.
Proof. solve_decision. Defined.

Inductive StateValue :=
  | SStr (s : string)
  | SNum (n : number)
  | SBool (b : bool)
  | SList (l : list string)
  | SNull.

Abbreviation bucket := (jsmap string StateValue).

Record GovernanceState := mkState { st_onchain : bucket; st_offchain : bucket }.

(** [state[surface]] *)
Definition bucketOf (surface : GovernanceSurface) (s : GovernanceState) : bucket :=
  match surface with onchain => st_onchain s | offchain => st_offchain s end.

Definition setBucket (surface : GovernanceSurface) (b : bucket) (s : GovernanceState) : GovernanceState :=
  match surface with onchain => mkState b (st_offchain s) | offchain => mkState (st_onchain s) b end.

Inductive audited_action := Known (a : ProposalAction) | Unknown (variant : string).

Record AuditableProposal := mkAuditable {
  ap_id : Z;
  ap_status : ProposalStatus;
  ap_action : audited_action;
  ap_approvedAt : Z;
  ap_executedAt : option Z;
  ap_executionTime : option Z;
}.

Inductive DiscrepancyKind :=
  | mismatch | missing_change | unapproved_change | overdue_execution | inconsistent_proposal
  | unverifiable_effect.

#[export] Instance kind_eq_dec : EqDecision DiscrepancyKind.
Proof. solve_decision. Defined.

Inductive severity := critical | high | medium.

#[export] Instance severity_eq_dec : EqDecision severity.
Proof. solve_decision. Defined.

Inductive RemediationStatus := ropen | in_progress | resolved | accepted_risk.

#[export] Instance remediation_status_eq_dec : EqDecision RemediationStatus.
Proof. solve_decision. Defined.

Record RemediationState := mkRemediation {
  rm_status : RemediationStatus;
  rm_owner : option string;
  rm_note : option string;
  rm_updatedAt : Z;
}.

(** [d_remediation] is [None] for an untriaged discrepancy. *)
Record Discrepancy := mkDiscrepancy {
  d_key : string;
  d_surface : GovernanceSurface;
  d_kind : DiscrepancyKind;
  d_severity : severity;
  d_expected : option StateValue;
  d_observed : option StateValue;
  d_proposalIds : list Z;
  d_remediation : option RemediationState;
}.

Record ReconciliationReport := mkReport {
  rr_id : string;
  rr_generatedAt : Z;
  rr_proposalsChecked : Z;
  rr_appliedProposalIds : list Z;
  rr_pendingProposalIds : list Z;
  rr_matchedKeys : list string;
  rr_discrepancies : list Discrepancy;
  rr_critical : Z;
  rr_high : Z;
  rr_medium : Z;
  rr_untriaged : Z;
  rr_resolved : Z;
}.

Record ExecutionAuditInput := mkInput {
  ea_baseline : GovernanceState;
  ea_proposals : list AuditableProposal;
  ea_observed : GovernanceState;
  ea_maxExecutionDelaySeconds : option Z;
}.

Inductive audit_error := UNMAPPABLE_ACTION | DUPLICATE_PROPOSAL.

(** ** Effects *)

Inductive effect_op := op_set | op_add | op_remove.

Record Effect := mkEffect {
  ef_surface : GovernanceSurface;
  ef_key : string;
  ef_op : effect_op;
  ef_value : option StateValue;
}.

Definition governanceConfigEffects (config : GovernanceConfig) : list Effect :=
  (λ '(key, value), mkEffect onchain key op_set (Some value)) <$>
    [("governance.token", SStr (gc_token config));
     ("governance.votingPeriod", SNum (NInt (gc_votingPeriod config)));
     ("governance.timelockDelay", SNum (NInt (gc_timelockDelay config)));
     ("governance.quorum", SNum (NInt (gc_quorum config)));
     ("governance.proposalThreshold", SNum (NInt (gc_proposalThreshold config)));
     ("governance.guardian", SStr (gc_guardian config))].

(** [action.variant] *)
Definition variantOf (action : audited_action) : string :=
  match action with
  | Unknown variant => variant
  | Known a =>
      match a with
      | AddSource _ _ => "AddSource"
      | RemoveSource _ => "RemoveSource"
      | SetTrustedAsset _ _ => "SetTrustedAsset"
      | TransferAdmin _ => "TransferAdmin"
      | SetDeviationThreshold _ => "SetDeviationThreshold"
      | ResetReputation _ => "ResetReputation"
      | AddSigner _ => "AddSigner"
      | RemoveSigner _ => "RemoveSigner"
      | SetThreshold _ => "SetThreshold"
      | SetAdmin _ => "SetAdmin"
      | AddOracleSource _ _ => "AddOracleSource"
      | RemoveOracleSource _ => "RemoveOracleSource"
      | UpdateGovernanceConfig _ => "UpdateGovernanceConfig"
      end
  end.

Definition effectsFor (action : audited_action) : result audit_error (list Effect) :=
  let one key op value := Ok [mkEffect onchain key op (Some value)] in
  match action with
  | Known (AddSigner signer) => one "multisig.signers" op_add (SStr signer)
  | Known (RemoveSigner signer) => one "multisig.signers" op_remove (SStr signer)
  | Known (SetThreshold threshold) => one "multisig.threshold" op_set (SNum (NInt threshold))
  | Known (SetAdmin newAdmin) | Known (TransferAdmin newAdmin) => one "admin.address" op_set (SStr newAdmin)
  | Known (AddOracleSource source _) | Known (AddSource source _) => one "oracle.sources" op_add (SStr source)
  | Known (RemoveOracleSource source) | Known (RemoveSource source) => one "oracle.sources" op_remove (SStr source)
  | Known (SetTrustedAsset asset trusted) =>
      one "assets.trusted" (if trusted =? 0 then op_remove else op_add) (SStr asset)
  | Known (SetDeviationThreshold bps) => one "oracle.deviationThresholdBps" op_set (SNum (NInt bps))
  | Known (ResetReputation source) =>
      Ok [mkEffect offchain ("source.reputation." +:+ source) op_set (Some (SNum (NInt 0)))]
  | Known (UpdateGovernanceConfig config) => Ok (governanceConfigEffects config)
  | Unknown _ => Throw UNMAPPABLE_ACTION
  end.

(** [const i = list.indexOf(v); if (i >= 0) list.splice(i, 1)] *)
Fixpoint removeFirst (v : string) (l : list string) : list string :=
  match l with
  | [] => []
  | x :: rest => if bool_decide (x = v) then rest else x :: removeFirst v rest
  end.

Definition applyEffect (state : GovernanceState) (effect : Effect) : GovernanceState :=
  let b := bucketOf (ef_surface effect) state in
  let write v := setBucket (ef_surface effect) (jm_set (ef_key effect) v b) state in
  let list := match jm_get (ef_key effect) b with Some (SList l) => l | _ => [] end in
  let value := match ef_value effect with Some (SStr v) => Some v | _ => None end in
  match ef_op effect with
  | op_set => write (default SNull (ef_value effect))
  | op_add =>
      write (SList (match value with
                    | Some v => if bool_decide (v ∈ list) then list else list ++ [v]
                    | None => list
                    end))
  | op_remove => write (SList (removeFirst (default "" value) list))
  end.

Definition valuesEqual (expected observed : StateValue) : bool :=
  match expected, observed with
  | SList e, SList o =>
      (length e =? length o)%nat && bool_decide (sort_strings e = sort_strings o)
  | SStr a, SStr b => bool_decide (a = b)
  | SNum a, SNum b => num_eqb a b
  | SBool a, SBool b => Bool.eqb a b
  | SNull, SNull => true
  | _, _ => false
  end.

Definition severityFor (kind : DiscrepancyKind) : severity :=
  match kind with
  | unapproved_change | inconsistent_proposal => critical
  | mismatch | missing_change | unverifiable_effect => high
  | overdue_execution => medium
  end.

(** ** The store *)

Definition surface_name (s : GovernanceSurface) : string :=
  match s with onchain => "onchain" | offchain => "offchain" end.

Definition kind_text (k : DiscrepancyKind) : string :=
  match k with
  | mismatch => "mismatch"
  | missing_change => "missing_change"
  | unapproved_change => "unapproved_change"
  | overdue_execution => "overdue_execution"
  | inconsistent_proposal => "inconsistent_proposal"
  | unverifiable_effect => "unverifiable_effect"
  end.

Definition remediationKey (surface key kind : string) : string :=
  surface +:+ ":" +:+ key +:+ ":" +:+ kind.

Record audit_store := mkAuditStore {
  reconciliationReports : list ReconciliationReport;
  remediations : jsmap string RemediationState;
}.

Definition MAX_REPORTS : nat := 100.

Definition storeReconciliationReport (r : ReconciliationReport) (s : audit_store) : audit_store :=
  mkAuditStore (take MAX_REPORTS (r :: reconciliationReports s)) (remediations s).

Definition setRemediation (dedupKey : string) (state : RemediationState) (s : audit_store) : audit_store :=
  mkAuditStore (reconciliationReports s) (jm_set dedupKey state (remediations s)).

Definition getRemediation (dedupKey : string) (s : audit_store) : option RemediationState :=
  jm_get dedupKey (remediations s).

(** ** Reconciliation *)

Definition DAY_SECONDS : Z := 86400.
Definition DEFAULT_MAX_EXECUTION_DELAY_SECONDS : Z := 30 * DAY_SECONDS.

(** [executedAt ?? approvedAt], then the id. *)
Definition proposal_order : AuditableProposal → AuditableProposal → comparison :=
  cmp_lex (cmp_on (λ p, default (ap_approvedAt p) (ap_executedAt p)) Z.compare) (cmp_on ap_id Z.compare).

Section reconcile.
Context (store : audit_store).

Definition discrepancy (surface : GovernanceSurface) (key : string) (kind : DiscrepancyKind)
    (expected observed : option StateValue) (proposalIds : list Z) : Discrepancy :=
  mkDiscrepancy key surface kind (severityFor kind) expected observed proposalIds
    (getRemediation (remediationKey (surface_name surface) key (kind_text kind)) store).

(** The local variables of the loop over the proposals. *)
Record progress := mkProgress {
  pg_expected : GovernanceState;
  pg_lastWriters : jsmap string (list Z);
  pg_applied : list AuditableProposal;
  pg_pending : list AuditableProposal;
  pg_discrepancies : list Discrepancy;
}.

Definition writerKey (surface : GovernanceSurface) (key : string) : string :=
  surface_name surface +:+ ":" +:+ key.

Definition recordWriter (id : Z) (m : jsmap string (list Z)) (effect : Effect) : jsmap string (list Z) :=
  let dedup := writerKey (ef_surface effect) (ef_key effect) in
  let writers := default [] (jm_get dedup m) in
  jm_set dedup (if bool_decide (id ∈ writers) then writers else writers ++ [id]) m.

Definition proposalKey (p : AuditableProposal) (suffix : string) : string :=
  "proposal." +:+ pretty (ap_id p) +:+ suffix.

Definition addProposal (now maxDelay : Z) (st : progress) (p : AuditableProposal) : progress :=
  match ap_status p with
  | Executed =>
      let report d :=
        mkProgress (pg_expected st) (pg_lastWriters st) (pg_applied st ++ [p]) (pg_pending st)
          (pg_discrepancies st ++ [d]) in
      match ap_executedAt p with
      | None =>
          report (discrepancy onchain (proposalKey p ".execution") inconsistent_proposal
                    (Some (SStr "executedAt timestamp recorded")) (Some SNull) [ap_id p])
      | Some _ =>
          match effectsFor (ap_action p) with
          | Throw _ =>
              report (discrepancy onchain (proposalKey p ".effect") unverifiable_effect
                        (Some (SStr ("a reconcilable effect for " +:+ variantOf (ap_action p)))) (Some SNull) [ap_id p])
          | Ok effects =>
              mkProgress (foldl applyEffect (pg_expected st) effects)
                (foldl (recordWriter (ap_id p)) (pg_lastWriters st) effects)
                (pg_applied st ++ [p]) (pg_pending st) (pg_discrepancies st)
          end
      end
  | Queued | Ready =>
      let deadline := default (ap_approvedAt p) (ap_executionTime p) + maxDelay in
      mkProgress (pg_expected st) (pg_lastWriters st) (pg_applied st) (pg_pending st ++ [p])
        (pg_discrepancies st ++
           if deadline <? now then
             [discrepancy onchain (proposalKey p ".execution") overdue_execution
                (Some (SNum (NInt deadline))) (Some (SNum (NInt now))) [ap_id p]]
           else [])
  | _ => st
  end.

(** The body of the loop over the keys: a matched key or a discrepancy. *)
Definition compareKey (surface : GovernanceSurface) (expectedBucket observedBucket : bucket)
    (lastWriters : jsmap string (list Z)) (acc : list string * list Discrepancy) (key : string)
    : list string * list Discrepancy :=
  let '(matchedKeys, discrepancies) := acc in
  let writers := default [] (jm_get (writerKey surface key) lastWriters) in
  match jm_get key expectedBucket, jm_get key observedBucket with
  | None, Some o => (matchedKeys, discrepancies ++ [discrepancy surface key unapproved_change None (Some o) []])
  | Some e, None => (matchedKeys, discrepancies ++ [discrepancy surface key missing_change (Some e) None writers])
  | Some e, Some o =>
      if valuesEqual e o then (matchedKeys ++ [writerKey surface key], discrepancies)
      else (matchedKeys, discrepancies ++ [discrepancy surface key mismatch (Some e) (Some o) writers])
  | None, None => acc
  end.

Definition compareSurface (expected observed : GovernanceState) (lastWriters : jsmap string (list Z))
    (acc : list string * list Discrepancy) (surface : GovernanceSurface) : list string * list Discrepancy :=
  let e := bucketOf surface expected in
  let o := bucketOf surface observed in
  foldl (compareKey surface e o lastWriters) acc (js_dedup (jm_keys e ++ jm_keys o)).

(** [String.prototype.localeCompare] *)
Context (localeCompare : string → string → comparison).

Definition count (P : Discrepancy → bool) (l : list Discrepancy) : Z :=
  Z.of_nat (length (filter (λ d, P d = true) l)).

Definition reconcileGovernanceExecution (id : string) (now : Z) (input : ExecutionAuditInput)
    : result audit_error ReconciliationReport :=
  let maxDelay := default DEFAULT_MAX_EXECUTION_DELAY_SECONDS (ea_maxExecutionDelaySeconds input) in
  if negb (bool_decide (NoDup (ap_id <$> ea_proposals input))) then Throw DUPLICATE_PROPOSAL
  else
    let ordered := stable_sort (cmp_leb proposal_order) (ea_proposals input) in
    let st := foldl (addProposal now maxDelay) (mkProgress (ea_baseline input) jm_empty [] [] []) ordered in
    let '(matchedKeys, found) :=
      foldl (compareSurface (pg_expected st) (ea_observed input) (pg_lastWriters st))
        ([], pg_discrepancies st) [onchain; offchain] in
    let discrepancies := stable_sort (cmp_leb (cmp_on d_key localeCompare)) found in
    Ok (mkReport id now (Z.of_nat (length (ea_proposals input)))
          (ap_id <$> pg_applied st) (ap_id <$> pg_pending st) matchedKeys discrepancies
          (count (λ d, bool_decide (d_severity d = critical)) discrepancies)
          (count (λ d, bool_decide (d_severity d = high)) discrepancies)
          (count (λ d, bool_decide (d_severity d = medium)) discrepancies)
          (count (λ d, bool_decide (d_remediation d = None)) discrepancies)
          (count (λ d, bool_decide (rm_status <$> d_remediation d = Some resolved)) discrepancies)).
End reconcile.

Definition publishReconciliationReport (r : ReconciliationReport) (s : audit_store) : audit_store :=
  storeReconciliationReport r s.

(** ** What the audit computes *)

(** The state after the effects of an executed proposal. *)
Definition replay (s : GovernanceState) (p : AuditableProposal) : GovernanceState :=
  match ap_status p, ap_executedAt p, effectsFor (ap_action p) with
  | Executed, Some _, Ok effects => foldl applyEffect s effects
  | _, _, _ => s
  end.

(** The state the approved proposals call for, replayed in the order of their execution. *)
Definition approvedState (input : ExecutionAuditInput) : GovernanceState :=
  foldl replay (ea_baseline input) (stable_sort (cmp_leb proposal_order) (ea_proposals input)).

Definition same_value (x y : StateValue) : Prop :=
  match x, y with
  | SList e, SList o => e ≡ₚ o
  | SStr a, SStr b => a = b
  | SNum a, SNum b => num_eqb a b = true
  | SBool a, SBool b => a = b
  | SNull, SNull => True
  | _, _ => False
  end.

Lemma valuesEqual_spec x y : valuesEqual x y = true ↔ same_value x y.
Proof.
  destruct x, y; simpl; try done.
  - apply bool_decide_eq_true.
  - apply eqb_true_iff.
  - rewrite andb_true_iff, Nat.eqb_eq, bool_decide_eq_true. split.
    + intros [_ H]. rewrite <- (stable_sort_perm (cmp_leb String.compare) l), <- (stable_sort_perm (cmp_leb String.compare) l0).
      unfold sort_strings in H. by rewrite H.
    + intros H. split; [by apply Permutation_length|by apply sort_strings_perm].
Qed.

Section findings.
Context (store : audit_store) (now maxDelay : Z).

(** The discrepancies one proposal gives rise to. *)
Definition proposalFindings (p : AuditableProposal) : list Discrepancy :=
  pg_discrepancies (addProposal store now maxDelay (mkProgress (mkState [] []) [] [] [] []) p).

Lemma addProposal_spec st p :
  pg_expected (addProposal store now maxDelay st p) = replay (pg_expected st) p ∧
  pg_discrepancies (addProposal store now maxDelay st p) = pg_discrepancies st ++ proposalFindings p.
Proof.
  unfold proposalFindings, addProposal, replay.
  destruct (ap_status p); simpl; try by rewrite ?app_nil_r.
  destruct (ap_executedAt p); simpl; [|done]. destruct (effectsFor _); simpl; by rewrite ?app_nil_r.
Qed.

Lemma addProposals_spec l st :
  pg_expected (foldl (addProposal store now maxDelay) st l) = foldl replay (pg_expected st) l ∧
  pg_discrepancies (foldl (addProposal store now maxDelay) st l) =
    pg_discrepancies st ++ (l ≫= proposalFindings).
Proof.
  revert st. induction l as [|p l IH]; intros st; csimpl; [by rewrite app_nil_r|].
  destruct (IH (addProposal store now maxDelay st p)) as [-> ->].
  destruct (addProposal_spec st p) as [-> ->]. by rewrite <- app_assoc.
Qed.

Context (lastWriters : jsmap string (list Z)).

(** What the comparison of one key adds. *)
Definition keyFindings (surface : GovernanceSurface) (e o : bucket) (key : string) : list string * list Discrepancy :=
  compareKey store surface e o lastWriters ([], []) key.

Lemma compareKey_spec surface e o acc key :
  compareKey store surface e o lastWriters acc key =
    (acc.1 ++ (keyFindings surface e o key).1, acc.2 ++ (keyFindings surface e o key).2).
Proof.
  destruct acc as [ms ds]. unfold keyFindings, compareKey.
  destruct (jm_get key e), (jm_get key o); simpl; try destruct (valuesEqual _ _); simpl; by rewrite ?app_nil_r.
Qed.

Lemma compareKeys_spec surface e o keys acc :
  foldl (compareKey store surface e o lastWriters) acc keys =
    (acc.1 ++ (keys ≫= λ k, (keyFindings surface e o k).1), acc.2 ++ (keys ≫= λ k, (keyFindings surface e o k).2)).
Proof.
  revert acc. induction keys as [|k keys IH]; intros acc; csimpl; [destruct acc; by rewrite !app_nil_r|].
  rewrite IH, compareKey_spec. simpl. by rewrite <- !app_assoc.
Qed.

Lemma matched_spec surface e o keys k :
  (∀ k, is_Some (jm_get k e) → k ∈ keys) →
  writerKey surface k ∈ (keys ≫= λ k, (keyFindings surface e o k).1) ↔
  ∃ x y, jm_get k e = Some x ∧ jm_get k o = Some y ∧ same_value x y.
Proof.
  intros Hkeys. rewrite list_elem_of_bind. split.
  - intros (k' & Hin & _). unfold keyFindings, compareKey in Hin.
    destruct (jm_get k' e) as [x|] eqn:E1, (jm_get k' o) as [y|] eqn:E2; try by apply not_elem_of_nil in Hin.
    destruct (valuesEqual x y) eqn:Ev; [|by apply not_elem_of_nil in Hin].
    apply list_elem_of_singleton in Hin. assert (k = k') as ->.
    { unfold writerKey in Hin. destruct surface; simpl in Hin; by injection Hin. }
    apply valuesEqual_spec in Ev. eauto.
  - intros (x & y & He & Ho & Hs%valuesEqual_spec). exists k. split; [|by apply Hkeys].
    unfold keyFindings, compareKey. rewrite He, Ho, Hs. by apply list_elem_of_singleton.
Qed.
End findings.

(** ** Which discrepancies are found *)

Definition deadlineOf (maxDelay : Z) (p : AuditableProposal) : Z :=
  default (ap_approvedAt p) (ap_executionTime p) + maxDelay.

(** When the comparison of a key finds a discrepancy of a kind. *)
Definition key_issue (kind : DiscrepancyKind) (e o : option StateValue) : Prop :=
  match kind with
  | unapproved_change => e = None ∧ is_Some o
  | missing_change => is_Some e ∧ o = None
  | mismatch => ∃ x y, e = Some x ∧ o = Some y ∧ ¬ same_value x y
  | _ => False
  end.

(** When a proposal gives rise to a discrepancy of a kind. *)
Definition proposal_issue (now maxDelay : Z) (kind : DiscrepancyKind) (p : AuditableProposal) : Prop :=
  match kind with
  | inconsistent_proposal => ap_status p = Executed ∧ ap_executedAt p = None
  | unverifiable_effect => ap_status p = Executed ∧ is_Some (ap_executedAt p) ∧ ∃ v, ap_action p = Unknown v
  | overdue_execution => (ap_status p = Queued ∨ ap_status p = Ready) ∧ deadlineOf maxDelay p < now
  | _ => False
  end.

Lemma effectsFor_throw a e : effectsFor a = Throw e ↔ e = UNMAPPABLE_ACTION ∧ ∃ v, a = Unknown v.
Proof. destruct a as [a|v]; [destruct a|]; simpl; naive_solver. Qed.

Lemma keyFindings_kind store lw surface e o k kind :
  (∃ d, d ∈ (keyFindings store lw surface e o k).2 ∧ d_kind d = kind) ↔ key_issue kind (jm_get k e) (jm_get k o).
Proof.
  unfold keyFindings, compareKey.
  destruct (jm_get k e) as [x|], (jm_get k o) as [y|]; [destruct (valuesEqual x y) eqn:E|..]; simpl.
  - apply valuesEqual_spec in E. destruct kind; simpl; set_solver.
  - assert (¬ same_value x y) as Hn by (rewrite <- valuesEqual_spec, E; done).
    split; [intros (d & ->%list_elem_of_singleton & <-); naive_solver|].
    intros H. eexists. split; [by apply list_elem_of_singleton|]. destruct kind; naive_solver.
  - split; [intros (d & ->%list_elem_of_singleton & <-); naive_solver|].
    intros H. eexists. split; [by apply list_elem_of_singleton|]. destruct kind; naive_solver.
  - split; [intros (d & ->%list_elem_of_singleton & <-); naive_solver|].
    intros H. eexists. split; [by apply list_elem_of_singleton|]. destruct kind; naive_solver.
  - destruct kind; simpl; set_solver.
Qed.

Lemma keyFindings_place store lw surface e o k d :
  d ∈ (keyFindings store lw surface e o k).2 → d_surface d = surface ∧ d_key d = k.
Proof.
  unfold keyFindings, compareKey.
  destruct (jm_get k e), (jm_get k o); [destruct (valuesEqual _ _)|..]; simpl; set_solver.
Qed.

Lemma proposalFindings_kind store now maxDelay p kind :
  (∃ d, d ∈ proposalFindings store now maxDelay p ∧ d_kind d = kind) ↔ proposal_issue now maxDelay kind p.
Proof.
  unfold proposalFindings, addProposal, proposal_issue, deadlineOf.
  destruct (ap_status p); simpl; try by destruct kind; set_solver.
  1, 2: destruct (_ <? now) eqn:E; to_prop; simpl;
    [split; [intros (d & ->%list_elem_of_singleton & <-); simpl; auto|];
     intros H; eexists; split; [by apply list_elem_of_singleton|]; destruct kind; naive_solver
    |split; [set_solver|]; destruct kind; naive_solver lia].
  destruct (ap_executedAt p) as [t|] eqn:Et; simpl.
  - destruct (effectsFor (ap_action p)) eqn:Ee; simpl.
    + split; [set_solver|]. destruct kind; try naive_solver. intros (_ & _ & v & Hv). by rewrite Hv in Ee.
    + apply effectsFor_throw in Ee as (-> & v & Hv). split.
      * intros (d & ->%list_elem_of_singleton & <-). simpl. eauto.
      * intros H. eexists. split; [by apply list_elem_of_singleton|]. destruct kind; naive_solver.
  - split; [intros (d & ->%list_elem_of_singleton & <-); by simpl|].
    intros H. eexists. split; [by apply list_elem_of_singleton|]. destruct kind; naive_solver.
Qed.

Lemma proposalFindings_place store now maxDelay p d :
  d ∈ proposalFindings store now maxDelay p → d_proposalIds d = [ap_id p].
Proof.
  unfold proposalFindings, addProposal. destruct (ap_status p); simpl; try set_solver.
  1, 2: destruct (_ <? now); set_solver.
  destruct (ap_executedAt p); simpl; [destruct (effectsFor _); simpl|]; set_solver.
Qed.

Section report.
Context (store : audit_store) (localeCompare : string → string → comparison).
Context (id : string) (now : Z) (input : ExecutionAuditInput).

Definition delayOf : Z := default DEFAULT_MAX_EXECUTION_DELAY_SECONDS (ea_maxExecutionDelaySeconds input).

Definition expectedAt (surface : GovernanceSurface) (key : string) : option StateValue :=
  jm_get key (bucketOf surface (approvedState input)).
Definition observedAt (surface : GovernanceSurface) (key : string) : option StateValue :=
  jm_get key (bucketOf surface (ea_observed input)).

(** The keys of both states. *)
Definition keysOf (surface : GovernanceSurface) : list string :=
  js_dedup (jm_keys (bucketOf surface (approvedState input)) ++ jm_keys (bucketOf surface (ea_observed input))).

Lemma keysOf_elem surface key :
  is_Some (expectedAt surface key) ∨ is_Some (observedAt surface key) → key ∈ keysOf surface.
Proof.
  intros H. apply elem_of_js_dedup, elem_of_app. unfold expectedAt, observedAt in H.
  destruct H as [[v Hv]|[v Hv]]; [left|right]; apply jm_get_elem in Hv;
    apply list_elem_of_fmap; by exists (key, v).
Qed.

Definition findingsAt (lw : jsmap string (list Z)) (surface : GovernanceSurface) : list string * list Discrepancy :=
  let at' k := keyFindings store lw surface (bucketOf surface (approvedState input))
                 (bucketOf surface (ea_observed input)) k in
  (keysOf surface ≫= λ k, (at' k).1, keysOf surface ≫= λ k, (at' k).2).

Lemma reconcile_inv r :
  reconcileGovernanceExecution store localeCompare id now input = Ok r →
  NoDup (ap_id <$> ea_proposals input) ∧ ∃ lw,
    rr_matchedKeys r = (findingsAt lw onchain).1 ++ (findingsAt lw offchain).1 ∧
    rr_discrepancies r ≡ₚ (ea_proposals input ≫= proposalFindings store now delayOf) ++
      (findingsAt lw onchain).2 ++ (findingsAt lw offchain).2.
Proof.
  unfold reconcileGovernanceExecution. fold delayOf. destruct (bool_decide _) eqn:En; to_prop; [|done].
  cbn [negb]. set (ordered := stable_sort (cmp_leb proposal_order) (ea_proposals input)).
  set (st := foldl (addProposal store now delayOf) (mkProgress (ea_baseline input) jm_empty [] [] []) ordered).
  destruct (addProposals_spec store now delayOf ordered (mkProgress (ea_baseline input) jm_empty [] [] []))
    as [He Hd]. fold st in He, Hd. simpl in He, Hd.
  assert (pg_expected st = approvedState input) as Happ by exact He.
  cbn [foldl]. unfold compareSurface.
  rewrite !compareKeys_spec. cbn [fst snd]. rewrite Happ, Hd. intros [= <-]. split; [done|].
  exists (pg_lastWriters st). cbn [rr_matchedKeys rr_discrepancies]. split; [done|].
  rewrite stable_sort_perm, <- app_assoc. apply Permutation_app_tail.
  unfold ordered. by rewrite (stable_sort_perm (cmp_leb proposal_order) (ea_proposals input)).
Qed.

Definition reported (r : ReconciliationReport) (kind : DiscrepancyKind) (surface : GovernanceSurface)
    (key : string) : Prop :=
  ∃ d, d ∈ rr_discrepancies r ∧ d_kind d = kind ∧ d_surface d = surface ∧ d_key d = key.

Definition reportedFor (r : ReconciliationReport) (kind : DiscrepancyKind) (p : AuditableProposal) : Prop :=
  ∃ d, d ∈ rr_discrepancies r ∧ d_kind d = kind ∧ d_proposalIds d = [ap_id p].

Definition state_kind (k : DiscrepancyKind) : bool :=
  match k with mismatch | missing_change | unapproved_change => true | _ => false end.

Lemma findingsAt_elem lw surface d :
  d ∈ (findingsAt lw surface).2 ↔ ∃ key, key ∈ keysOf surface ∧
    d ∈ (keyFindings store lw surface (bucketOf surface (approvedState input))
           (bucketOf surface (ea_observed input)) key).2.
Proof. unfold findingsAt. cbn [snd]. rewrite list_elem_of_bind. set_solver. Qed.

Lemma issue_key surface key kind :
  key_issue kind (expectedAt surface key) (observedAt surface key) → key ∈ keysOf surface.
Proof. intros H. apply keysOf_elem. destruct kind; simpl in H; naive_solver. Qed.

Lemma reported_state r surface key kind :
  reconcileGovernanceExecution store localeCompare id now input = Ok r → state_kind kind = true →
  reported r kind surface key ↔ key_issue kind (expectedAt surface key) (observedAt surface key).
Proof.
  intros (_ & lw & _ & Hd)%reconcile_inv Hk. unfold reported. setoid_rewrite Hd. split.
  - intros (d & Hin & Hkind & <- & <-). apply (keyFindings_kind store lw (d_surface d)). exists d. split; [|done].
    rewrite !elem_of_app, !findingsAt_elem in Hin. destruct Hin as [(p & Hin & _)%list_elem_of_bind|[(k & _ & Hin)|(k & _ & Hin)]].
    + assert (proposal_issue now delayOf (d_kind d) p) as Hi by (apply (proposalFindings_kind store); eauto).
      rewrite Hkind in Hi. by destruct kind.
    + by destruct (keyFindings_place _ _ _ _ _ _ _ Hin) as [-> ->].
    + by destruct (keyFindings_place _ _ _ _ _ _ _ Hin) as [-> ->].
  - intros Hi. pose proof (issue_key surface key kind Hi) as Hkey.
    apply (keyFindings_kind store lw surface) in Hi as (d & Hin & Hkind).
    destruct (keyFindings_place _ _ _ _ _ _ _ Hin) as [Hs Hky]. exists d. split_and!; [|done..].
    rewrite !elem_of_app, !findingsAt_elem. destruct surface; eauto.
Qed.

Lemma proposal_findings_unique p q :
  NoDup (ap_id <$> ea_proposals input) → p ∈ ea_proposals input → q ∈ ea_proposals input →
  [ap_id p] = [ap_id q] → p = q.
Proof.
  intros Hn [i Hi]%list_elem_of_lookup_1 [j Hj]%list_elem_of_lookup_1 [= Heq].
  assert (i = j) as ->; [|congruence]. eapply NoDup_lookup; [exact Hn| |].
  - by rewrite list_lookup_fmap, Hi.
  - by rewrite list_lookup_fmap, Hj, Heq.
Qed.

Lemma reported_proposal r p kind :
  reconcileGovernanceExecution store localeCompare id now input = Ok r → state_kind kind = false →
  p ∈ ea_proposals input → reportedFor r kind p ↔ proposal_issue now delayOf kind p.
Proof.
  intros (Hn & lw & _ & Hd)%reconcile_inv Hk Hp. unfold reportedFor. setoid_rewrite Hd. split.
  - intros (d & Hin & Hkind & Hids). apply (proposalFindings_kind store). exists d. split; [|done].
    assert (∀ surface, d ∉ (findingsAt lw surface).2) as Hno.
    { intros surface (k & _ & Hf)%findingsAt_elem.
      assert (key_issue kind (expectedAt surface k) (observedAt surface k)) as Hi
        by (apply (keyFindings_kind store lw surface); eauto). by destruct kind. }
    rewrite !elem_of_app in Hin. destruct Hin as [(q & Hin & Hq)%list_elem_of_bind|[Hin|Hin]]; [|by apply Hno in Hin..].
    pose proof (proposalFindings_place _ _ _ _ _ Hin) as Hq'.
    assert (p = q) as -> by (apply proposal_findings_unique; congruence). done.
  - intros (d & Hin & Hkind)%(proposalFindings_kind store). exists d.
    split_and!; [|done|by eapply proposalFindings_place]. rewrite elem_of_app. left. apply list_elem_of_bind. eauto.
Qed.

Lemma matched_report r surface key :
  reconcileGovernanceExecution store localeCompare id now input = Ok r →
  writerKey surface key ∈ rr_matchedKeys r ↔
  ∃ x y, expectedAt surface key = Some x ∧ observedAt surface key = Some y ∧ same_value x y.
Proof.
  intros (_ & lw & -> & _)%reconcile_inv. unfold findingsAt. cbn [fst]. rewrite elem_of_app.
  assert (∀ s k, is_Some (jm_get k (bucketOf s (approvedState input))) → k ∈ keysOf s) as Hkeys
    by (intros s k Hk; apply keysOf_elem; by left).
  assert (∀ s s' k, writerKey s k ∈ (keysOf s' ≫= λ k, (keyFindings store lw s' (bucketOf s' (approvedState input))
    (bucketOf s' (ea_observed input)) k).1) → s' = s) as Hsurf.
  { intros s s' k (k' & Hin & _)%list_elem_of_bind. unfold keyFindings, compareKey in Hin.
    destruct (jm_get k' _), (jm_get k' _); try by apply not_elem_of_nil in Hin.
    destruct (valuesEqual _ _); [|by apply not_elem_of_nil in Hin].
    apply list_elem_of_singleton in Hin. by destruct s, s'. }
  pose proof (matched_spec store lw surface (bucketOf surface (approvedState input))
    (bucketOf surface (ea_observed input)) (keysOf surface) key (Hkeys surface)) as Hm.
  unfold expectedAt, observedAt. rewrite <- Hm.
  destruct surface; split; [intros [H|H]|by left|intros [H|H]|by right]; try done; by apply Hsurf in H.
Qed.

(** Nothing to report about a key, or about a proposal. *)
Definition agree (e o : option StateValue) : Prop :=
  match e, o with None, None => True | Some x, Some y => same_value x y | _, _ => False end.

Definition in_order (p : AuditableProposal) : Prop :=
  match ap_status p with
  | Executed => is_Some (ap_executedAt p) ∧ ∃ a, ap_action p = Known a
  | Queued | Ready => now <= deadlineOf delayOf p
  | _ => True
  end.

Lemma agree_spec e o : agree e o ↔ ∀ kind, ¬ key_issue kind e o.
Proof.
  split.
  - intros H kind. destruct e, o, kind; simpl in *; naive_solver.
  - intros H. destruct e as [x|], o as [y|]; simpl; [|by apply (H missing_change)|by apply (H unapproved_change)|done].
    apply valuesEqual_spec. destruct (valuesEqual x y) eqn:E; [done|]. exfalso. apply (H mismatch). exists x, y.
    split_and!; [done..|]. by rewrite <- valuesEqual_spec, E.
Qed.

Lemma in_order_spec p : in_order p ↔ ∀ kind, ¬ proposal_issue now delayOf kind p.
Proof.
  unfold in_order. split.
  - intros H kind. destruct kind; simpl; try tauto.
    + intros [[E|E] Hlt]; rewrite E in H; lia.
    + intros [E Hn]. rewrite E, Hn in H. by destruct H as [[? ?] _].
    + intros (E & _ & v & Hv). rewrite E, Hv in H. by destruct H as [_ [? ?]].
  - intros H. destruct (ap_status p) eqn:E; try done.
    1, 2: apply Z.nlt_ge; intros Hlt; apply (H overdue_execution); simpl; auto.
    destruct (ap_executedAt p) eqn:Et; [|by destruct (H inconsistent_proposal)]. split; [eauto|].
    destruct (ap_action p) eqn:Ea; [eauto|]. destruct (H unverifiable_effect). simpl. rewrite Et. eauto.
Qed.

Lemma report_clean r :
  reconcileGovernanceExecution store localeCompare id now input = Ok r →
  rr_discrepancies r = [] ↔
  (∀ surface key, agree (expectedAt surface key) (observedAt surface key)) ∧
  (∀ p, p ∈ ea_proposals input → in_order p).
Proof.
  intros Hr. split.
  - intros Hnil. assert (∀ d, d ∉ rr_discrepancies r) as Hno by (rewrite Hnil; intros ?; apply not_elem_of_nil).
    split.
    + intros surface key. apply agree_spec. intros kind Hi. destruct (state_kind kind) eqn:Hk; [|by destruct kind].
      apply (reported_state r surface key kind Hr Hk) in Hi as (d & Hin & _). by apply (Hno d).
    + intros p Hp. apply in_order_spec. intros kind Hi. destruct (state_kind kind) eqn:Hk; [by destruct kind|].
      apply (reported_proposal r p kind Hr Hk Hp) in Hi as (d & Hin & _). by apply (Hno d).
  - intros [Hs Hp]. apply reconcile_inv in Hr as (_ & lw & _ & Hd).
    destruct (rr_discrepancies r) as [|d l]; [done|]. exfalso.
    assert (d ∈ (ea_proposals input ≫= proposalFindings store now delayOf) ++
      (findingsAt lw onchain).2 ++ (findingsAt lw offchain).2) as Hin by (rewrite <- Hd; set_solver).
    rewrite !elem_of_app, !findingsAt_elem in Hin.
    destruct Hin as [(p & Hin & Hp')%list_elem_of_bind|[(k & _ & Hin)|(k & _ & Hin)]].
    + apply (proj1 (in_order_spec p) (Hp p Hp') (d_kind d)), (proposalFindings_kind store). eauto.
    + apply (proj1 (agree_spec _ _) (Hs onchain k) (d_kind d)), (keyFindings_kind store lw onchain). eauto.
    + apply (proj1 (agree_spec _ _) (Hs offchain k) (d_kind d)), (keyFindings_kind store lw offchain). eauto.
Qed.
End report.

(** ** Remediations *)

Lemma append_cancel p a b : p +:+ a = p +:+ b → a = b.
Proof. intros H. apply chars_inj. apply (f_equal chars) in H. rewrite !chars_app in H. by apply app_inv_head in H. Qed.

Lemma kind_text_inj k1 k2 : kind_text k1 = kind_text k2 → k1 = k2.
Proof. by destruct k1, k2. Qed.

Lemma colon_suffix (k1 k2 t1 t2 : string) :
  colon ∉ chars t1 → colon ∉ chars t2 → k1 +:+ ":" +:+ t1 = k2 +:+ ":" +:+ t2 → k1 = k2 ∧ t1 = t2.
Proof.
  intros H1 H2 H. apply (f_equal chars) in H. rewrite !chars_app in H. change (chars ":") with [colon] in H.
  apply (f_equal reverse) in H. rewrite !reverse_app in H. simpl in H. rewrite <- !app_assoc in H. simpl in H.
  assert (∀ t k, colon ∉ chars t → split_on colon (reverse (chars t) ++ colon :: reverse (chars k)) =
    reverse (chars t) :: split_on colon (reverse (chars k))) as Hs
    by (intros t k Ht; apply split_on_app; by rewrite elem_of_reverse).
  pose proof (f_equal (split_on colon) H) as Hh. rewrite !Hs in Hh by done. injection Hh as Ht _.
  rewrite Ht in H. apply app_inv_head in H. injection H as Hk.
  split; apply chars_inj; by apply (inj reverse).
Qed.

Lemma remediationKey_inj s1 s2 key1 key2 k1 k2 :
  remediationKey (surface_name s1) key1 (kind_text k1) = remediationKey (surface_name s2) key2 (kind_text k2) →
  s1 = s2 ∧ key1 = key2 ∧ k1 = k2.
Proof.
  unfold remediationKey. intros H. assert (s1 = s2) as <- by (by destruct s1, s2).
  apply append_cancel in H. injection H as H.
  assert (∀ k, colon ∉ chars (kind_text k)) as Hc
    by (intros k; destruct k; apply (bool_decide_unpack _); by vm_compute).
  apply colon_suffix in H as [-> ->%kind_text_inj]; auto.
Qed.

(** ** Properties *)

(** C16: What an execution audit reports.  A key of either state is reported as an
    unapproved change, a missing change or a mismatch exactly when it is observed
    without being approved, approved without being observed, or both with values that
    differ (lists up to order), and as matched when they agree, where the approved
    state is the baseline with the effects of the executed proposals replayed in the
    order of their execution; a proposal is reported exactly when it was executed
    without a time, executed with an unknown action, or is still pending after its
    deadline; and the report is empty exactly when nothing of this holds. *)
Theorem reconciliation_exact store localeCompare id now input r :
  reconcileGovernanceExecution store localeCompare id now input = Ok r →
  (∀ surface key,
     let e := expectedAt input surface key in
     let o := observedAt input surface key in
     (reported r unapproved_change surface key ↔ e = None ∧ is_Some o) ∧
     (reported r missing_change surface key ↔ is_Some e ∧ o = None) ∧
     (reported r mismatch surface key ↔ ∃ x y, e = Some x ∧ o = Some y ∧ ¬ same_value x y) ∧
     (writerKey surface key ∈ rr_matchedKeys r ↔ ∃ x y, e = Some x ∧ o = Some y ∧ same_value x y)) ∧
  (∀ p, p ∈ ea_proposals input →
     (reportedFor r inconsistent_proposal p ↔ ap_status p = Executed ∧ ap_executedAt p = None) ∧
     (reportedFor r unverifiable_effect p ↔
        ap_status p = Executed ∧ is_Some (ap_executedAt p) ∧ ∃ v, ap_action p = Unknown v) ∧
     (reportedFor r overdue_execution p ↔
        (ap_status p = Queued ∨ ap_status p = Ready) ∧ deadlineOf (delayOf input) p < now)) ∧
  (rr_discrepancies r = [] ↔
     (∀ surface key, agree (expectedAt input surface key) (observedAt input surface key)) ∧
     (∀ p, p ∈ ea_proposals input → in_order now input p)).
Proof.
  intros Hr. split_and!.
  - intros surface key. pose proof (λ k, reported_state store localeCompare id now input r surface key k Hr) as H.
    split_and!; [by apply (H unapproved_change)|by apply (H missing_change)|by apply (H mismatch)|].
    by apply (matched_report store localeCompare id now).
  - intros p Hp. pose proof (λ k Hk, reported_proposal store localeCompare id now input r p k Hr Hk Hp) as H.
    split_and!; [by apply (H inconsistent_proposal)|by apply (H unverifiable_effect)|by apply (H overdue_execution)].
  - by apply (report_clean store localeCompare id).
Qed.

(** Two executed proposals, listed in the wrong order, and an unapproved admin. *)
Definition demo_input : ExecutionAuditInput :=
  mkInput (mkState [("multisig.signers", SList ["A"])] [])
    [mkAuditable 2 Executed (Known (RemoveSigner "A")) 20 (Some 25) None;
     mkAuditable 1 Executed (Known (AddSigner "B")) 10 (Some 15) None;
     mkAuditable 3 Queued (Known (SetThreshold 2)) 30 None None]
    (mkState [("multisig.signers", SList ["B"]); ("admin.address", SStr "M")] []) (Some 100).
Definition empty_store : audit_store := mkAuditStore [] jm_empty.

Lemma reconciliation_exact_witness :
  match reconcileGovernanceExecution empty_store String.compare "r1" 50 demo_input with
  | Ok r => reported r unapproved_change onchain "admin.address" ∧
            "onchain:multisig.signers" ∈ rr_matchedKeys r ∧
            ¬ reported r mismatch onchain "multisig.signers"
  | Throw _ => False
  end.
Proof.
  destruct (reconcileGovernanceExecution empty_store String.compare "r1" 50 demo_input) as [r|e] eqn:E;
    [|by vm_compute in E].
  destruct (reconciliation_exact empty_store String.compare "r1" 50 demo_input r E) as (Hs & _ & _).
  split_and!.
  - apply (Hs onchain "admin.address"). vm_compute. eauto.
  - apply (Hs onchain "multisig.signers"). exists (SList ["B"]), (SList ["B"]).
    split_and!; [by vm_compute..|]. apply Permutation_refl.
  - rewrite (proj1 (proj2 (proj2 (Hs onchain "multisig.signers")))).
    intros (x & y & Hx & Hy & Hn). vm_compute in Hx, Hy. simplify_eq. apply Hn, Permutation_refl.
Defined.

(** The order in which proposals are listed never matters: any permutation of them
    yields the same report, or the same refusal. *)
Theorem reconciliation_order_independent store localeCompare id now baseline observed delay ps1 ps2 :
  ps1 ≡ₚ ps2 →
  reconcileGovernanceExecution store localeCompare id now (mkInput baseline ps1 observed delay) =
  reconcileGovernanceExecution store localeCompare id now (mkInput baseline ps2 observed delay).
Proof.
  intros Hp. unfold reconcileGovernanceExecution. cbn [ea_proposals ea_baseline ea_observed ea_maxExecutionDelaySeconds].
  assert (NoDup (ap_id <$> ps1) ↔ NoDup (ap_id <$> ps2)) as Hn by (by rewrite Hp).
  destruct (decide (NoDup (ap_id <$> ps1))) as [Hd|Hd].
  - rewrite !bool_decide_true by tauto. cbn [negb].
    assert (stable_sort (cmp_leb proposal_order) ps1 = stable_sort (cmp_leb proposal_order) ps2) as ->.
    { apply cmp_sort_perm; [apply _| |done]. intros x y Hx Hy Hc.
      apply (proposal_findings_unique (mkInput baseline ps1 observed delay)); [done..|].
      unfold proposal_order, cmp_lex in Hc. destruct (cmp_on _ _ x y) eqn:E; try done.
      unfold cmp_on in Hc. by apply Z.compare_eq in Hc as ->. }
    by rewrite (Permutation_length Hp).
  - by rewrite !bool_decide_false by tauto.
Qed.

Lemma reconciliation_order_independent_witness :
  let swap := reverse (ea_proposals demo_input) in
  reconcileGovernanceExecution empty_store String.compare "r1" 50 demo_input =
  reconcileGovernanceExecution empty_store String.compare "r1" 50
    (mkInput (ea_baseline demo_input) swap (ea_observed demo_input) (Some 100)).
Proof. apply reconciliation_order_independent. by rewrite reverse_Permutation. Defined.

(** A remediation is found again by its own discrepancy, and by no other. *)
Theorem remediation_found s1 s2 key1 key2 k1 k2 state store :
  getRemediation (remediationKey (surface_name s1) key1 (kind_text k1))
    (setRemediation (remediationKey (surface_name s2) key2 (kind_text k2)) state store) =
  if decide (s1 = s2 ∧ key1 = key2 ∧ k1 = k2) then Some state
  else getRemediation (remediationKey (surface_name s1) key1 (kind_text k1)) store.
Proof.
  unfold getRemediation, setRemediation. cbn [remediations]. rewrite jm_get_set.
  destruct (decide (s1 = s2 ∧ key1 = key2 ∧ k1 = k2)) as [(-> & -> & ->)|Hn]; [by rewrite decide_True|].
  rewrite decide_False; [done|]. intros (-> & -> & ->)%remediationKey_inj. by destruct Hn.
Qed.
