(* ===== verification/Treasury.v ===== *)
(** * Treasury transparency

    Models [api/src/governance/transparency/treasury.ts] with the freshness of
    [transparency/store.ts]: the public treasury report, which reconciles the
    declared balances with the ledger entries and compares the spending with the
    allocation policy.

    A snapshot has passed the schema of [schema.ts]: amounts are texts of decimal
    digits, which [BigInt] reads exactly, and times are the instants they denote.
    The findings keep their code, severity, asset and references; the sentence
    that describes them is left out, as are the fields of the report that repeat
    the snapshot.

    The theorems: the report says "reconciled" exactly when every balance adds
    up, no entry identifier is repeated and every entry names its source; the
    shares of the policies never add up to more than the whole; the displayed
    amount denotes the amount; and the ledger lists every entry once, latest
    first.  An example shows that negative amounts are displayed wrongly. *)

From Stdlib Require Import ZArith QArith Lia.
From stdpp Require Import base tactics decidable numbers pretty list sorting sets strings.
From S2P Require Import Prelude JsMap JsNum.

Local Open Scope Z_scope.

(** ** Data *)

Inductive flow_direction : Type := inflow | outflow.
#[export] Instance flow_direction_eq_dec : EqDecision flow_direction.
Proof. solve_decision. Defined.

Record TreasuryEntry : Type := mkEntry {
  te_id : string;
  te_timestamp : Z;
  te_direction : flow_direction;
  te_asset : string;
  te_amount : string;
  te_category : string;
  te_policy : string;
  te_source : option string;           (* the reference of the source *)
}.

Record TreasuryAssetPosition : Type := mkPosition {
  ta_asset : string;
  ta_decimals : nat;
  ta_openingBalance : string;
  ta_closingBalance : string;
  ta_source : option string;
}.

Record policy_allocation : Type := mkAllocation {
  pa_policy : string;
  pa_targetShareBps : Z;
}.

Record TreasurySnapshot : Type := mkTreasury {
  ts_asOf : Z;
  ts_asOfText : string;                (* as the snapshot writes it *)
  ts_updateCadenceHours : double;
  ts_assets : list TreasuryAssetPosition;
  ts_policyVersion : string;
  ts_allocations : list policy_allocation;
  ts_entries : list TreasuryEntry;
}.

Record TreasuryAmountView : Type := mkView { av_minor : string; av_display : string }.

Record TreasuryAssetReconciliation : Type := mkReconciliation {
  ar_asset : string;
  ar_decimals : nat;
  ar_openingBalance : TreasuryAmountView;
  ar_inflows : TreasuryAmountView;
  ar_outflows : TreasuryAmountView;
  ar_expectedClosing : TreasuryAmountView;
  ar_closingBalance : TreasuryAmountView;
  ar_delta : TreasuryAmountView;
  ar_reconciled : bool;
  ar_entryCount : Z;
  ar_inflowCount : Z;
  ar_outflowCount : Z;
}.

Record TreasuryPolicyAllocation : Type := mkShare {
  tp_policy : string;
  tp_targetShareBps : Z;
  tp_actualShareBps : Z;
  tp_deviationBps : Z;
  tp_outflow : TreasuryAmountView;
  tp_withinTolerance : bool;
}.

Inductive break_code : Type :=
| duplicate_entry_id | entry_after_as_of | unknown_asset | balance_delta | missing_balance_source
| missing_source_reference | policy_targets_incomplete | unmapped_policy | policy_allocation_drift
| snapshot_stale.

Record TreasuryBreak : Type := mkBreak {
  tb_code : break_code;
  tb_error : bool;                      (* the severity: error or warning *)
  tb_asset : option string;
  tb_references : list string;
}.

Record TreasuryLedgerRow : Type := mkRow {
  lr_id : string;
  lr_timestamp : Z;
  lr_direction : flow_direction;
  lr_asset : string;
  lr_decimals : option nat;
  lr_amount : TreasuryAmountView;
  lr_category : string;
  lr_policy : string;
  lr_source : option string;
}.

Inductive FreshnessStatus : Type := fresh | stale.

Record Freshness : Type := mkFreshness {
  fr_asOf : Z;
  fr_ageHours : double;
  fr_staleAfterHours : double;
  fr_nextExpectedAt : double;           (* the instant, in milliseconds *)
  fr_status : FreshnessStatus;
}.

Record TreasuryReport : Type := mkReport {
  tr_generatedAt : Z;
  tr_freshness : Freshness;
  tr_reconciled : bool;                 (* the status *)
  tr_assets : list TreasuryAssetReconciliation;
  tr_reconciledAssets : Z;
  tr_unreconciledAssets : Z;
  tr_targetsSumBps : Z;
  tr_targetsValid : bool;
  tr_byAsset : list (string * TreasuryAmountView * list TreasuryPolicyAllocation);
  tr_missingSourceEntryIds : list string;
  tr_ledger : list TreasuryLedgerRow;
  tr_breaks : list TreasuryBreak;
  tr_warnings : list TreasuryBreak;
}.

(** ** [describeFreshness] *)

Definition describeFreshness (asOf : Z) (cadenceHours : double) (now : Z) : Freshness :=
  let ageHours := double_max double_0 (double_div (double_of_Z (now - asOf)) (double_of_Z 3600000)) in
  let staleAfterHours := double_mul cadenceHours (double_div (double_of_Z 3) (double_of_Z 2)) in
  mkFreshness asOf
    (double_div (double_round (double_mul ageHours (double_of_Z 100))) (double_of_Z 100))
    staleAfterHours
    (double_add (double_of_Z asOf) (double_mul cadenceHours (double_of_Z 3600000)))
    (if double_ltb staleAfterHours ageHours then stale else fresh).

(** ** Amounts *)

Definition digit_value (c : Ascii.ascii) : Z := Z.of_nat (Ascii.nat_of_ascii c) - 48.

(** [BigInt(text)] of a text of digits *)
Definition digits_value (l : list Ascii.ascii) : Z :=
  fold_left (λ acc c, 10 * acc + digit_value c) l 0.
Definition BigInt (s : string) : Z := digits_value (chars s).

Definition isDigit (c : Ascii.ascii) : bool := (0 <=? digit_value c) && (digit_value c <=? 9).

(** [z.string().regex(/^\d+$/)] *)
Definition minorUnits (s : string) : bool :=
  negb (bool_decide (s = "")) && forallb isDigit (chars s).

Definition zero_char : Ascii.ascii := Ascii.ascii_of_nat 48.

(** [minor.padStart(n, '0')] *)
Definition padStart (n : nat) (l : list Ascii.ascii) : list Ascii.ascii :=
  repeat zero_char (n - length l) ++ l.

Definition formatMinorUnits (minor : string) (decimals : nat) : string :=
  if (decimals =? 0)%nat then minor
  else
    let padded := padStart (decimals + 1) (chars minor) in
    let whole := take (length padded - decimals) padded in
    let fraction := drop (length padded - decimals) padded in
    String.string_of_list_ascii whole +:+ "." +:+ String.string_of_list_ascii fraction.

Definition amountView (minor : Z) (decimals : nat) : TreasuryAmountView :=
  let value := pretty minor in mkView value (formatMinorUnits value decimals).

Definition shareBps (part whole : Z) : Z := if 0 <? whole then Z.quot (part * 10000) whole else 0.

Definition TREASURY_POLICY_TOLERANCE_BPS : Z := 500.

(** [entries.reduce((acc, entry) => acc + BigInt(entry.amount), 0n)] *)
Definition total (entries : list TreasuryEntry) : Z :=
  fold_left (λ acc e, acc + BigInt (te_amount e)) entries 0.

(** ** The report *)

(** The loop over the entries: those kept, the repeated ones and the late ones. *)
Definition scanEntry (asOf : Z)
    (acc : list string * list TreasuryEntry * list TreasuryBreak * list TreasuryBreak) (e : TreasuryEntry)
    : list string * list TreasuryEntry * list TreasuryBreak * list TreasuryBreak :=
  let '(seen, entries, breaks, warnings) := acc in
  if bool_decide (te_id e ∈ seen) then
    (seen, entries, breaks ++ [mkBreak duplicate_entry_id true (Some (te_asset e)) [te_id e]], warnings)
  else
    (seen ++ [te_id e], entries ++ [e], breaks,
     if asOf <? te_timestamp e
     then warnings ++ [mkBreak entry_after_as_of false (Some (te_asset e)) [te_id e]]
     else warnings).

Definition scopedTo (asset : string) (entries : list TreasuryEntry) : list TreasuryEntry :=
  List.filter (λ e, bool_decide (te_asset e = asset)) entries.
Definition flowing (d : flow_direction) (entries : list TreasuryEntry) : list TreasuryEntry :=
  List.filter (λ e, bool_decide (te_direction e = d)) entries.

(** [closing - (opening + inflows - outflows)] *)
Definition deltaOf (entries : list TreasuryEntry) (p : TreasuryAssetPosition) : Z :=
  let scoped := scopedTo (ta_asset p) entries in
  BigInt (ta_closingBalance p) -
    (BigInt (ta_openingBalance p) + total (flowing inflow scoped) - total (flowing outflow scoped)).

Definition reconcileAsset (entries : list TreasuryEntry) (p : TreasuryAssetPosition)
    : TreasuryAssetReconciliation :=
  let scoped := scopedTo (ta_asset p) entries in
  let inflows := total (flowing inflow scoped) in
  let outflows := total (flowing outflow scoped) in
  let opening := BigInt (ta_openingBalance p) in
  let closing := BigInt (ta_closingBalance p) in
  let expectedClosing := opening + inflows - outflows in
  let delta := closing - expectedClosing in
  let view z := amountView z (ta_decimals p) in
  mkReconciliation (ta_asset p) (ta_decimals p) (view opening) (view inflows) (view outflows)
    (view expectedClosing) (view closing) (view delta) (delta =? 0)
    (Z.of_nat (length scoped)) (Z.of_nat (length (flowing inflow scoped)))
    (Z.of_nat (length (flowing outflow scoped))).

Definition assetBreaks (entries : list TreasuryEntry) (p : TreasuryAssetPosition) : list TreasuryBreak :=
  if deltaOf entries p =? 0 then []
  else [mkBreak balance_delta true (Some (ta_asset p))
          [match ta_source p with Some r => r | None => ta_asset p +:+ ":balance" end]].

Definition assetWarnings (p : TreasuryAssetPosition) : list TreasuryBreak :=
  match ta_source p with
  | None => [mkBreak missing_balance_source false (Some (ta_asset p)) []]
  | Some _ => []
  end.

Definition unknownAssets (s : TreasurySnapshot) (entries : list TreasuryEntry) : list string :=
  js_dedup (List.filter (λ a, negb (bool_decide (a ∈ ta_asset <$> ts_assets s))) (te_asset <$> entries)).

Definition missingSources (entries : list TreasuryEntry) : list string :=
  te_id <$> List.filter (λ e, bool_decide (te_source e = None)) entries.

Definition spentOn (policy : string) (outflows : list TreasuryEntry) : Z :=
  total (List.filter (λ e, bool_decide (te_policy e = policy)) outflows).

(** The map [outflowByPolicy]. *)
Definition outflowByPolicy (outflows : list TreasuryEntry) : jsmap string Z :=
  fold_left (λ m e, jm_set (te_policy e)
                      (default 0 (jm_get (te_policy e) m) + BigInt (te_amount e)) m) outflows jm_empty.

Definition allocate (p : TreasuryAssetPosition) (totalOutflow : Z) (m : jsmap string Z)
    (a : policy_allocation) : TreasuryPolicyAllocation :=
  let spent := default 0 (jm_get (pa_policy a) m) in
  let actualShareBps := shareBps spent totalOutflow in
  let deviationBps := actualShareBps - pa_targetShareBps a in
  mkShare (pa_policy a) (pa_targetShareBps a) actualShareBps deviationBps
    (amountView spent (ta_decimals p)) (Z.abs deviationBps <=? TREASURY_POLICY_TOLERANCE_BPS).

Definition assetOutflows (entries : list TreasuryEntry) (p : TreasuryAssetPosition) : list TreasuryEntry :=
  List.filter (λ e, bool_decide (te_asset e = ta_asset p) && bool_decide (te_direction e = outflow)) entries.

Definition allocationsFor (s : TreasurySnapshot) (entries : list TreasuryEntry)
    (p : TreasuryAssetPosition) : string * TreasuryAmountView * list TreasuryPolicyAllocation :=
  let scopedOutflows := assetOutflows entries p in
  let totalOutflow := total scopedOutflows in
  (ta_asset p, amountView totalOutflow (ta_decimals p),
   allocate p totalOutflow (outflowByPolicy scopedOutflows) <$> ts_allocations s).

Definition driftWarnings (s : TreasurySnapshot) (entries : list TreasuryEntry)
    (p : TreasuryAssetPosition) : list TreasuryBreak :=
  let '(_, _, allocations) := allocationsFor s entries p in
  if 0 <? total (assetOutflows entries p) then
    (λ _, mkBreak policy_allocation_drift false (Some (ta_asset p)) [ts_policyVersion s]) <$>
      List.filter (λ a, negb (tp_withinTolerance a)) allocations
  else [].

(** The scale of an asset; the map keeps the last position that declares it. *)
Definition decimalsOf (s : TreasurySnapshot) (asset : string) : option nat :=
  jm_get asset (fold_left (λ m p, jm_set (ta_asset p) (ta_decimals p) m) (ts_assets s) jm_empty).

Definition ledgerRow (s : TreasurySnapshot) (e : TreasuryEntry) : TreasuryLedgerRow :=
  let decimals := decimalsOf s (te_asset e) in
  mkRow (te_id e) (te_timestamp e) (te_direction e) (te_asset e) decimals
    (match decimals with
     | Some d => amountView (BigInt (te_amount e)) d
     | None => mkView (te_amount e) (te_amount e +:+ " (minor units)")
     end) (te_category e) (te_policy e) (te_source e).

(** [(a, b) => Date.parse(b.timestamp) - Date.parse(a.timestamp)] *)
Definition latestFirst (a b : TreasuryEntry) : bool := te_timestamp b <=? te_timestamp a.

Definition computeTreasuryReport (now : Z) (s : TreasurySnapshot) : TreasuryReport :=
  let freshness := describeFreshness (ts_asOf s) (ts_updateCadenceHours s) now in
  let '(_, entries, duplicates, late) := fold_left (scanEntry (ts_asOf s)) (ts_entries s) ([], [], [], []) in
  let unknown := (λ a, mkBreak unknown_asset false (Some a) (te_id <$> scopedTo a entries))
                   <$> unknownAssets s entries in
  let assets := reconcileAsset entries <$> ts_assets s in
  let missing := missingSources entries in
  let breaks := duplicates ++ mjoin (assetBreaks entries <$> ts_assets s) ++
    (if bool_decide (missing = []) then []
     else [mkBreak missing_source_reference true None missing]) in
  let targetsSumBps := fold_left (λ acc a, acc + pa_targetShareBps a) (ts_allocations s) 0 in
  let targetsValid := targetsSumBps =? 10000 in
  let unmapped := (λ e, mkBreak unmapped_policy false (Some (te_asset e)) [te_id e]) <$>
    List.filter (λ e, negb (bool_decide (te_policy e ∈ pa_policy <$> ts_allocations s))) entries in
  let warnings := late ++ unknown ++ mjoin (assetWarnings <$> ts_assets s) ++
    (if targetsValid then [] else [mkBreak policy_targets_incomplete false None [ts_policyVersion s]]) ++
    unmapped ++ mjoin (driftWarnings s entries <$> ts_assets s) ++
    (match fr_status freshness with
     | stale => [mkBreak snapshot_stale false None [ts_asOfText s]]
     | fresh => []
     end) in
  let reconciledAssets := Z.of_nat (length (List.filter ar_reconciled assets)) in
  mkReport now freshness (negb (existsb tb_error breaks)) assets reconciledAssets
    (Z.of_nat (length assets) - reconciledAssets) targetsSumBps targetsValid
    (allocationsFor s entries <$> ts_assets s) missing
    (ledgerRow s <$> stable_sort latestFirst entries) breaks warnings.

(** ** Proofs *)

(** *** The entries kept *)

Lemma scan_facts asOf es : ∀ seen kept br wr,
  seen = te_id <$> kept → NoDup seen → Forall (λ b, tb_error b = true) br →
  let '(seen', kept', br', wr') := fold_left (scanEntry asOf) es (seen, kept, br, wr) in
  seen' = te_id <$> kept' ∧ NoDup seen' ∧ Forall (λ b, tb_error b = true) br' ∧
  (length br ≤ length br')%nat ∧
  (length br' = length br → kept' = kept ++ es ∧ NoDup (seen ++ (te_id <$> es))) ∧
  (NoDup (seen ++ (te_id <$> es)) → kept' = kept ++ es ∧ br' = br).
Proof.
  induction es as [|e es IH]; intros seen kept br wr Es Hnd Hbr; cbn [fold_left].
  - rewrite fmap_nil, !app_nil_r. auto 8.
  - rewrite fmap_cons. unfold scanEntry at 2. case_bool_decide as Hin.
    + pose proof (IH seen kept (br ++ [mkBreak duplicate_entry_id true (Some (te_asset e)) [te_id e]]) wr
                    Es Hnd) as H.
      destruct fold_left as [[[seen' kept'] br'] wr'].
      destruct H as (A & B & C & D & _ & _).
      { apply Forall_app. split; [done|]. by constructor. }
      rewrite length_app in D. cbn in D.
      split_and!; try done; [lia|lia|].
      intros G. apply NoDup_app in G as (_ & F & _). exfalso. apply (F _ Hin). apply list_elem_of_here.
    + set (wr1 := if asOf <? te_timestamp e then _ else _).
      pose proof (IH (seen ++ [te_id e]) (kept ++ [e]) br wr1) as H.
      destruct fold_left as [[[seen' kept'] br'] wr'].
      rewrite <- !app_assoc in H. cbn in H.
      destruct H as (A & B & C & D & E & F); try done.
      * by rewrite fmap_app, Es.
      * apply NoDup_app. split_and!; [done| |apply NoDup_singleton].
        intros x Hx ->%list_elem_of_singleton. done.
Qed.

Definition keptEntries (s : TreasurySnapshot) : list TreasuryEntry :=
  (fold_left (scanEntry (ts_asOf s)) (ts_entries s) ([], [], [], [])).1.1.2.
Definition repeats (s : TreasurySnapshot) : list TreasuryBreak :=
  (fold_left (scanEntry (ts_asOf s)) (ts_entries s) ([], [], [], [])).1.2.

Lemma kept_facts s :
  NoDup (te_id <$> keptEntries s) ∧ Forall (λ b, tb_error b = true) (repeats s) ∧
  (repeats s = [] ↔ NoDup (te_id <$> ts_entries s)) ∧
  (repeats s = [] → keptEntries s = ts_entries s).
Proof.
  unfold keptEntries, repeats.
  pose proof (scan_facts (ts_asOf s) (ts_entries s) [] [] [] []) as H.
  destruct fold_left as [[[seen' kept'] br'] wr']. cbn in *.
  destruct H as (A & B & C & D & E & F); [done|constructor|constructor|].
  subst. split_and!; try done.
  - split; [intros ->; by apply E|]. intros G. by apply F.
  - intros ->. by apply E.
Qed.

Lemma kept_elem s e : e ∈ keptEntries s → e ∈ ts_entries s.
Proof.
  unfold keptEntries.
  assert (∀ es seen kept br wr,
    (∀ x, x ∈ kept → x ∈ ts_entries s) → (∀ x, x ∈ es → x ∈ ts_entries s) →
    ∀ x, x ∈ (fold_left (scanEntry (ts_asOf s)) es (seen, kept, br, wr)).1.1.2 → x ∈ ts_entries s) as G.
  { induction es as [|y es IH]; intros seen kept br wr Hk He x; cbn [fold_left]; [apply Hk|].
    unfold scanEntry at 2. case_bool_decide; apply IH; try done.
    - intros z Hz. apply He. set_solver.
    - intros z Hz. apply elem_of_app in Hz as [Hz|Hz]; [by apply Hk|].
      apply list_elem_of_singleton in Hz as ->. apply He. set_solver.
    - intros z Hz. apply He. set_solver. }
  apply G; [set_solver|done].
Qed.

Lemma kept_ids s e : e ∈ ts_entries s → te_id e ∈ te_id <$> keptEntries s.
Proof.
  unfold keptEntries.
  assert (∀ es seen kept br wr, seen = te_id <$> kept →
    ∀ x, x ∈ seen ∨ x ∈ te_id <$> es →
    x ∈ te_id <$> (fold_left (scanEntry (ts_asOf s)) es (seen, kept, br, wr)).1.1.2) as G.
  { induction es as [|y es IH]; intros seen kept br wr E x; cbn [fold_left].
    - subst. set_solver.
    - unfold scanEntry at 2. rewrite fmap_cons, elem_of_cons. case_bool_decide.
      + intros Hx. apply IH; [done|]. naive_solver.
      + intros Hx. apply IH; [by rewrite fmap_app, E|]. rewrite elem_of_app, list_elem_of_singleton. tauto. }
  intros He. apply G; [done|]. right. by apply list_elem_of_fmap_2.
Qed.

(** *** The fields of the report *)

Lemma report_fields now s :
  let r := computeTreasuryReport now s in
  tr_breaks r = repeats s ++ mjoin (assetBreaks (keptEntries s) <$> ts_assets s) ++
    (if bool_decide (missingSources (keptEntries s) = []) then []
     else [mkBreak missing_source_reference true None (missingSources (keptEntries s))]) ∧
  tr_reconciled r = negb (existsb tb_error (tr_breaks r)) ∧
  tr_byAsset r = allocationsFor s (keptEntries s) <$> ts_assets s ∧
  tr_ledger r = ledgerRow s <$> stable_sort latestFirst (keptEntries s).
Proof.
  unfold computeTreasuryReport, keptEntries, repeats.
  destruct fold_left as [[[seen kept] br] wr]. done.
Qed.

(** Every finding among the breaks is an error. *)
Lemma breaks_errors now s b :
  b ∈ tr_breaks (computeTreasuryReport now s) → tb_error b = true.
Proof.
  destruct (report_fields now s) as (-> & _). destruct (kept_facts s) as (_ & H & _).
  rewrite !elem_of_app, list_elem_of_join.
  intros [Hb|[(l & Hb & (p & -> & _)%list_elem_of_fmap)|Hb]].
  - rewrite Forall_forall in H. auto.
  - unfold assetBreaks in Hb. destruct (_ =? 0); set_solver.
  - case_bool_decide; set_solver.
Qed.

Lemma reconciled_breaks now s :
  tr_reconciled (computeTreasuryReport now s) = true ↔ tr_breaks (computeTreasuryReport now s) = [].
Proof.
  destruct (report_fields now s) as (_ & -> & _). pose proof (breaks_errors now s) as H.
  destruct (tr_breaks _) as [|b l]; [done|]. cbn. rewrite (H b) by set_solver. done.
Qed.

Lemma assetBreaks_nil entries ps :
  mjoin (assetBreaks entries <$> ps) = [] ↔ ∀ p, p ∈ ps → deltaOf entries p = 0.
Proof.
  induction ps as [|p ps IH]; cbn; [set_solver|]. rewrite app_nil, IH. unfold assetBreaks at 1.
  destruct (Z.eqb_spec (deltaOf entries p) 0); set_solver.
Qed.

Lemma missingSources_nil entries :
  missingSources entries = [] ↔ ∀ e, e ∈ entries → te_source e ≠ None.
Proof.
  unfold missingSources. induction entries as [|e l IH]; cbn; [set_solver|].
  case_bool_decide; [|rewrite IH]; set_solver.
Qed.

(** C17: The report says "reconciled" exactly when no entry identifier is repeated,
    the closing balance of every declared position is its opening balance plus the
    inflows less the outflows of the asset, and every entry names its source. *)
Theorem report_reconciled_iff now s :
  tr_reconciled (computeTreasuryReport now s) = true ↔
  NoDup (te_id <$> ts_entries s) ∧
  (∀ p, p ∈ ts_assets s →
     let own := scopedTo (ta_asset p) (ts_entries s) in
     BigInt (ta_closingBalance p) =
       BigInt (ta_openingBalance p) + total (flowing inflow own) - total (flowing outflow own)) ∧
  (∀ e, e ∈ ts_entries s → te_source e ≠ None).
Proof.
  rewrite reconciled_breaks. destruct (report_fields now s) as (-> & _).
  destruct (kept_facts s) as (_ & _ & Hnd & Hk). rewrite !app_nil, Hnd.
  rewrite assetBreaks_nil.
  assert ((if bool_decide (missingSources (keptEntries s) = []) then []
     else [mkBreak missing_source_reference true None (missingSources (keptEntries s))]) = [] ↔
     missingSources (keptEntries s) = []) as -> by (case_bool_decide; naive_solver).
  rewrite missingSources_nil.
  enough (NoDup (te_id <$> ts_entries s) →
          (∀ p, deltaOf (ts_entries s) p = 0 ↔
             let own := scopedTo (ta_asset p) (ts_entries s) in
             BigInt (ta_closingBalance p) =
             BigInt (ta_openingBalance p) + total (flowing inflow own) - total (flowing outflow own))) as G.
  { split; intros (A & B & C); (rewrite Hk in * by by apply Hnd); split_and!; try done; intros p Hp;
      [apply (G A), B|apply (G A), B]; done. }
  intros _ p. unfold deltaOf. cbn zeta. lia.
Qed.

(** *** Sums *)

Lemma total_from l : ∀ acc, fold_left (λ acc e, acc + BigInt (te_amount e)) l acc = acc + total l.
Proof.
  unfold total. induction l as [|e l IH]; intros acc; cbn [fold_left]; [lia|].
  rewrite IH, (IH (0 + _)). lia.
Qed.

Lemma total_cons e l : total (e :: l) = BigInt (te_amount e) + total l.
Proof. unfold total at 1. cbn [fold_left]. rewrite total_from. lia. Qed.

Lemma digits_from l : ∀ acc,
  fold_left (λ acc c, 10 * acc + digit_value c) l acc = acc * 10 ^ Z.of_nat (length l) + digits_value l.
Proof.
  unfold digits_value. induction l as [|c l IH]; intros acc; cbn [fold_left length]; [lia|].
  rewrite IH, (IH (10 * 0 + _)), Nat2Z.inj_succ, Z.pow_succ_r by lia. lia.
Qed.

Lemma digits_value_app l k :
  digits_value (l ++ k) = digits_value l * 10 ^ Z.of_nat (length k) + digits_value k.
Proof. unfold digits_value at 1. rewrite fold_left_app. apply digits_from. Qed.

Lemma digits_value_zeros n l : digits_value (repeat zero_char n ++ l) = digits_value l.
Proof.
  rewrite digits_value_app. replace (digits_value (repeat zero_char n)) with 0; [lia|].
  symmetry. unfold digits_value. induction n as [|n IH]; [done|]. exact IH.
Qed.

Lemma digits_value_nonneg l : forallb isDigit l = true → 0 ≤ digits_value l.
Proof.
  induction l as [|c l IH] using rev_ind; [done|].
  rewrite forallb_app, digits_value_app. intros [A B]%andb_true_iff. specialize (IH A).
  change (digits_value [c]) with (10 * 0 + digit_value c).
  cbn in B. unfold isDigit in B. apply andb_true_iff in B as [B _]. apply andb_true_iff in B as [B _].
  cbn [length]. change (10 ^ Z.of_nat 1) with 10. lia.
Qed.

Lemma minorUnits_nonneg s : minorUnits s = true → 0 ≤ BigInt s.
Proof. intros [_ H]%andb_true_iff. by apply digits_value_nonneg. Qed.

(** *** The shares of the policies *)

Lemma spentOn_cons q e l :
  spentOn q (e :: l) = (if bool_decide (te_policy e = q) then BigInt (te_amount e) else 0) + spentOn q l.
Proof. unfold spentOn. cbn [List.filter]. case_bool_decide; [apply total_cons|lia]. Qed.

Lemma outflowByPolicy_get q l : default 0 (jm_get q (outflowByPolicy l)) = spentOn q l.
Proof.
  enough (∀ m, default 0 (jm_get q (fold_left (λ m e, jm_set (te_policy e)
      (default 0 (jm_get (te_policy e) m) + BigInt (te_amount e)) m) l m)) =
      default 0 (jm_get q m) + spentOn q l) as G.
  { unfold outflowByPolicy. by rewrite G. }
  induction l as [|e l IH]; intros m; cbn [fold_left]; [unfold spentOn, total; cbn; lia|].
  rewrite IH, spentOn_cons. case_bool_decide as E.
  - subst. rewrite jm_get_set_eq. cbn. lia.
  - rewrite jm_get_set_ne by done. lia.
Qed.

Definition spentOnAll (qs : list string) (l : list TreasuryEntry) : Z :=
  foldr (λ q acc, spentOn q l + acc) 0 qs.

Lemma spentOnAll_cons qs e l :
  NoDup qs → spentOnAll qs (e :: l) =
    (if bool_decide (te_policy e ∈ qs) then BigInt (te_amount e) else 0) + spentOnAll qs l.
Proof.
  induction 1 as [|q qs Hq Hnd IH]; [done|].
  unfold spentOnAll in *. cbn [foldr]. rewrite IH, spentOn_cons.
  repeat case_bool_decide; subst; first [lia|set_solver].
Qed.

Lemma spentOnAll_total qs l :
  NoDup qs → (∀ e, e ∈ l → 0 ≤ BigInt (te_amount e)) → spentOnAll qs l ≤ total l.
Proof.
  intros Hnd. induction l as [|e l IH]; intros H.
  - replace (spentOnAll qs []) with 0; [done|]. clear. symmetry. by induction qs.
  - rewrite spentOnAll_cons, total_cons by done. pose proof (H e ltac:(set_solver)).
    specialize (IH ltac:(set_solver)). case_bool_decide; lia.
Qed.

Lemma spentOn_nonneg q l : (∀ e, e ∈ l → 0 ≤ BigInt (te_amount e)) → 0 ≤ spentOn q l.
Proof.
  induction l as [|e l IH]; intros H; [done|]. rewrite spentOn_cons.
  pose proof (H e ltac:(set_solver)). specialize (IH ltac:(set_solver)). case_bool_decide; lia.
Qed.

Definition sumShares (l : list TreasuryPolicyAllocation) : Z :=
  foldr (λ a acc, tp_actualShareBps a + acc) 0 l.

Lemma shareBps_scaled part whole :
  0 ≤ part → 0 < whole → 0 ≤ shareBps part whole ∧ shareBps part whole * whole ≤ part * 10000.
Proof.
  intros Hp Hw. unfold shareBps. rewrite (proj2 (Z.ltb_lt 0 whole)) by done.
  rewrite Z.quot_div_nonneg by lia. split; [apply Z.div_pos; lia|].
  rewrite Z.mul_comm. apply Z.mul_div_le. done.
Qed.

Lemma shares_scaled p whole l allocs :
  0 < whole → (∀ e, e ∈ l → 0 ≤ BigInt (te_amount e)) →
  sumShares (allocate p whole (outflowByPolicy l) <$> allocs) * whole ≤
    spentOnAll (pa_policy <$> allocs) l * 10000.
Proof.
  intros Hw H. induction allocs as [|a allocs IH]; [cbn; lia|].
  rewrite !fmap_cons. unfold sumShares, spentOnAll in *. cbn [foldr].
  unfold allocate at 1. cbn [tp_actualShareBps]. rewrite outflowByPolicy_get.
  pose proof (spentOn_nonneg (pa_policy a) l H).
  destruct (shareBps_scaled (spentOn (pa_policy a) l) whole); lia.
Qed.

(** When the amounts are digits and no policy has two targets, the shares shown
    for an asset are never negative and add up to at most the whole, 10000 basis
    points; each is the policy's part of the asset's outflows, rounded down. *)
Theorem shares_within_whole now s asset view allocs :
  Forall (λ e, minorUnits (te_amount e) = true) (ts_entries s) →
  NoDup (pa_policy <$> ts_allocations s) →
  (asset, view, allocs) ∈ tr_byAsset (computeTreasuryReport now s) →
  sumShares allocs ≤ 10000 ∧ tp_policy <$> allocs = pa_policy <$> ts_allocations s ∧
  Forall (λ a, 0 ≤ tp_actualShareBps a ∧
    let outs := flowing outflow (scopedTo asset (keptEntries s)) in
    tp_actualShareBps a = if 0 <? total outs then spentOn (tp_policy a) outs * 10000 / total outs else 0) allocs.
Proof.
  intros Hd Hnd Hin. destruct (report_fields now s) as (_ & _ & Eb & _). rewrite Eb in Hin. clear Eb.
  apply list_elem_of_fmap in Hin as (p & Ep & _). unfold allocationsFor in Ep. simplify_eq.
  assert (Heq : flowing outflow (scopedTo (ta_asset p) (keptEntries s)) = assetOutflows (keptEntries s) p).
  { unfold flowing, scopedTo, assetOutflows. induction (keptEntries s) as [|e l IH]; [done|]. cbn.
    repeat case_bool_decide; cbn; try done; rewrite <- IH; repeat case_bool_decide; done. }
  rewrite Heq. set (outs := assetOutflows (keptEntries s) p).
  assert (Hn : ∀ e, e ∈ outs → 0 ≤ BigInt (te_amount e)).
  { intros e He. apply minorUnits_nonneg. rewrite Forall_forall in Hd. apply Hd, kept_elem.
    unfold outs, assetOutflows in He. apply list_elem_of_In, filter_In in He as [He _].
    by apply list_elem_of_In. }
  split_and!.
  - destruct (Z.ltb_spec 0 (total outs)) as [Hw|Hw].
    + pose proof (shares_scaled p (total outs) outs (ts_allocations s) Hw Hn).
      pose proof (spentOnAll_total _ outs Hnd Hn). nia.
    + enough (sumShares (allocate p (total outs) (outflowByPolicy outs) <$> ts_allocations s) = 0) by lia.
      induction (ts_allocations s) as [|a l IH]; [done|]. cbn. unfold shareBps at 1.
      rewrite (proj2 (Z.ltb_ge _ _)) by done. apply NoDup_cons in Hnd as [_ Hnd].
      unfold sumShares in IH. rewrite IH by done. done.
  - rewrite <- list_fmap_compose. done.
  - apply Forall_forall. intros a (al & -> & _)%list_elem_of_fmap. cbn.
    rewrite outflowByPolicy_get. pose proof (spentOn_nonneg (pa_policy al) outs Hn). unfold shareBps.
    destruct (Z.ltb_spec 0 (total outs)); [|lia]. rewrite Z.quot_div_nonneg by lia.
    split; [apply Z.div_pos; lia|done].
Qed.

Definition demoTreasury : TreasurySnapshot :=
  mkTreasury 5000 "1970-01-01T00:00:05.000Z" (double_of_Z 24)
    [mkPosition "XLM" 2 "1000" "1150" (Some "ledger-9")] "v1"
    [mkAllocation "grants" 6000; mkAllocation "operations" 4000]
    [mkEntry "e1" 1000 inflow "XLM" "300" "fees" "operations" (Some "tx-1");
     mkEntry "e2" 3000 outflow "XLM" "100" "grant" "grants" (Some "tx-2");
     mkEntry "e3" 2000 outflow "XLM" "50" "hosting" "operations" (Some "tx-3")].

Lemma shares_within_whole_witness :
  sumShares [mkShare "grants" 6000 6666 666 (amountView 100 2) false;
             mkShare "operations" 4000 3333 (-667) (amountView 50 2) false] ≤ 10000.
Proof.
  apply (shares_within_whole 6000 demoTreasury "XLM" (amountView 150 2)).
  - repeat constructor.
  - repeat constructor; set_solver.
  - vm_compute. left.
Defined.

(** *** The displayed amount *)

(** The displayed amount denotes the amount: it is a whole part of at least one
    digit, a point and exactly [decimals] further digits, which read together are
    the digits of the amount. *)
Theorem display_denotes minor decimals :
  minorUnits minor = true → (0 < decimals)%nat →
  ∃ whole fraction,
    chars (formatMinorUnits minor decimals) = whole ++ chars "." ++ fraction ∧
    whole ≠ [] ∧ length fraction = decimals ∧ forallb isDigit (whole ++ fraction) = true ∧
    digits_value whole * 10 ^ Z.of_nat decimals + digits_value fraction = BigInt minor.
Proof.
  intros [_ Hd]%andb_true_iff Hdec. unfold formatMinorUnits.
  rewrite (proj2 (Nat.eqb_neq decimals 0)) by lia.
  set (padded := padStart (decimals + 1) (chars minor)).
  assert (Hlen : (decimals < length padded)%nat).
  { unfold padded, padStart. rewrite length_app, repeat_length. lia. }
  set (n := (length padded - decimals)%nat).
  assert (Hsplit : take n padded ++ drop n padded = padded) by apply take_drop.
  assert (Hf : length (drop n padded) = decimals) by (rewrite length_drop; lia).
  exists (take n padded), (drop n padded). rewrite !chars_app, !chars_of_list. split_and!; try done.
  - intros E. apply (f_equal length) in E. rewrite length_take in E. cbn in E. lia.
  - rewrite Hsplit. unfold padded, padStart. rewrite forallb_app, Hd, andb_true_r.
    induction (decimals + 1 - length (chars minor))%nat as [|k IH]; [done|]. exact IH.
  - rewrite <- Hf at 1. rewrite <- digits_value_app, Hsplit. apply digits_value_zeros.
Qed.

(** *** The ledger *)

(** The ledger lists every entry that was kept once, latest first; every entry of
    the snapshot is kept or shares its identifier with one that is. *)
Theorem ledger_complete now s :
  ∃ ordered, tr_ledger (computeTreasuryReport now s) = ledgerRow s <$> ordered ∧
    ordered ≡ₚ keptEntries s ∧ StronglySorted (λ a b, te_timestamp b ≤ te_timestamp a) ordered ∧
    NoDup (te_id <$> ordered) ∧
    (∀ e, e ∈ ts_entries s → te_id e ∈ te_id <$> ordered).
Proof.
  destruct (report_fields now s) as (_ & _ & _ & E).
  exists (stable_sort latestFirst (keptEntries s)). split_and!; [done|apply stable_sort_perm| | |].
  - apply stable_sort_sorted; [|intros x y z; lia].
    intros x y. unfold latestFirst. destruct (Z.leb_spec (te_timestamp y) (te_timestamp x)); lia.
  - rewrite stable_sort_perm. apply kept_facts.
  - intros e He. rewrite stable_sort_perm. by apply kept_ids.
Qed.

(** A difference can be negative, and is then displayed wrongly: five hundredths
    missing are shown as ["0.-5"]. *)
Example negative_display :
  av_display (amountView (-5) 2) = "0.-5" ∧ av_display (amountView (-12345) 2) = "-123.45".
Proof. split; vm_compute; reflexivity. Qed.

(** The report of the example snapshot: reconciled, with the shares of the two
    policies, the latest entry first. *)
Example demo_report :
  let r := computeTreasuryReport 6000 demoTreasury in
  tr_reconciled r = true ∧ lr_id <$> tr_ledger r = ["e2"; "e3"; "e1"] ∧ tr_breaks r = [] ∧
  tb_code <$> tr_warnings r = [policy_allocation_drift; policy_allocation_drift].
Proof. vm_compute. done. Qed.
