(* ===== verification/Checkpoint.v ===== *)
(** * Stream resumption with checkpoints

    Models [packages/sdk-bindings/src/checkpoint.ts]: the client that follows a
    numbered stream, reconnects when it breaks, drops what it has seen and
    reports what it missed.

    The stream is what the caller's [connect] returns: for every connection the
    messages that arrive and how it ends.  With each message comes what the
    caller's callbacks and the store do on it, and whether [stop] had been called.
    The store is an interface with the class [MemoryCheckpointStore] as its
    instance.  What happens is recorded in a trace.  The loop over connections
    runs on fuel, one unit per connection, because a stream that makes progress
    between failures is followed for ever.

    The theorems: messages are handed over in increasing order, each number up to
    the last one is handed over or was reported missing, and when no callback
    fails never both, with exact counts; and on a stream with a last message the
    loop ends within a number of connections that is given.  Examples show that a
    gap is counted twice when the handler fails, and that the bound on replays
    does not limit what is replayed. *)

From Stdlib Require Import ZArith QArith Qround Lia.
From stdpp Require Import base tactics decidable numbers list sorting sets strings.
From S2P Require Import Prelude JsMap JsNum.

Local Open Scope Z_scope.

(** ** The store *)

Class CheckpointStore (S : Type) := {
  load : string → S → option Z;
  save : string → Z → S → S;
}.

Class CheckpointLaws (S : Type) `{!CheckpointStore S} : Prop := {
  load_save id n (st : S) : load id (save id n st) = Some n;
  load_save_other id id' n (st : S) : id ≠ id' → load id' (save id n st) = load id' st;
}.

Definition MemoryCheckpointStore : Type := jsmap string Z.
#[export] Instance memory_store : CheckpointStore MemoryCheckpointStore := {
  load := jm_get;
  save := jm_set;
}.
#[export] Instance memory_laws : CheckpointLaws MemoryCheckpointStore.
Proof.
  split; cbn; intros; [apply jm_get_set_eq|by apply jm_get_set_ne].
Qed.

(** ** Data *)

Record StreamMessage : Type := mkMessage { sm_seq : number; sm_data : string }.

Record GapEvent : Type := mkGap {
  ge_from : Z;
  ge_to : Z;
  ge_truncatedByReplayLimit : bool;
}.

Record CheckpointStats : Type := mkStats {
  st_delivered : Z;
  st_duplicatesDropped : Z;
  st_gapsDetected : Z;
  st_missedMessages : Z;
  st_reconnects : Z;
}.

(** A message, whether [stop] was called before it is looked at, and whether the
    callbacks and the store succeed on it. *)
Record arrival : Type := mkArrival {
  ar_stopped : bool;
  ar_message : StreamMessage;
  ar_gapOk : bool;
  ar_handlerOk : bool;
  ar_saveOk : bool;
}.

(** One connection: what arrives, whether it breaks afterwards, and whether [stop]
    was called when an exception is caught and after the pause that follows. *)
Record session : Type := mkSession {
  ss_arrivals : list arrival;
  ss_breaks : bool;
  ss_stopped : bool;
  ss_stoppedAfter : bool;
}.

(** What the resumer does to its surroundings, with the outcome of the call. *)
Inductive observation : Type :=
| OGap (g : GapEvent) (ok : bool)
| OMessage (seq : Z) (data : string) (ok : bool)
| OSave (seq : Z) (ok : bool)
| OSleep (ms : Z).

Inductive verdict : Type := Next | Return | Raise.
Inductive result : Type := Finished | Threw | Running.

Section resumer.
Context {S : Type} `{!CheckpointStore S}.
Variable streamId : string.
Variables maxReplay maxRetries : Z.
Variable backoff : Z → Z.
Variable connect : nat → Z → session.         (* the n-th connection, from a number on *)

Record CheckpointResumer : Type := mkResumer {
  cr_last : Z;
  cr_failures : Z;
  cr_firstAfterConnect : bool;
  cr_stats : CheckpointStats;
  cr_store : S;
  cr_trace : list observation;
}.

(** [Number.isInteger(m.seq) && m.seq >= 0] *)
Definition seqOf (n : number) : option Z :=
  match n with
  | NFin q => if is_integer n && (0 <=? Qfloor q) then Some (Qfloor q) else None
  | _ => None
  end.

Definition note (o : observation) (r : CheckpointResumer) : CheckpointResumer :=
  mkResumer (cr_last r) (cr_failures r) (cr_firstAfterConnect r) (cr_stats r) (cr_store r)
    (cr_trace r ++ [o]).

Definition countDuplicate (r : CheckpointResumer) : CheckpointResumer :=
  let st := cr_stats r in
  mkResumer (cr_last r) (cr_failures r) (cr_firstAfterConnect r)
    (mkStats (st_delivered st) (st_duplicatesDropped st + 1) (st_gapsDetected st)
       (st_missedMessages st) (st_reconnects st)) (cr_store r) (cr_trace r).

Definition reportGap (seq : Z) (ok : bool) (r : CheckpointResumer) : CheckpointResumer :=
  let missed := seq - cr_last r - 1 in
  let truncated := cr_firstAfterConnect r && (maxReplay <? missed) in
  let st := cr_stats r in
  note (OGap (mkGap (cr_last r + 1) (seq - 1) truncated) ok)
    (mkResumer (cr_last r) (cr_failures r) (cr_firstAfterConnect r)
       (mkStats (st_delivered st) (st_duplicatesDropped st) (st_gapsDetected st + 1)
          (st_missedMessages st + missed) (st_reconnects st)) (cr_store r) (cr_trace r)).

(** [await onMessage(m); last = m.seq; await save(...); delivered++; failures = 0] *)
Definition handOver (seq : Z) (a : arrival) (r : CheckpointResumer) : CheckpointResumer * verdict :=
  let r1 := note (OMessage seq (sm_data (ar_message a)) (ar_handlerOk a))
              (mkResumer (cr_last r) (cr_failures r) false (cr_stats r) (cr_store r) (cr_trace r)) in
  if negb (ar_handlerOk a) then (r1, Raise)
  else
    let r2 := note (OSave seq (ar_saveOk a))
                (mkResumer seq (cr_failures r1) false (cr_stats r1) (cr_store r1) (cr_trace r1)) in
    if negb (ar_saveOk a) then (r2, Raise)
    else
      let st := cr_stats r2 in
      (mkResumer seq 0 false
         (mkStats (st_delivered st + 1) (st_duplicatesDropped st) (st_gapsDetected st)
            (st_missedMessages st) (st_reconnects st))
         (save streamId seq (cr_store r2)) (cr_trace r2), Next).

(** The body of the [for await] loop. *)
Definition receive (a : arrival) (r : CheckpointResumer) : CheckpointResumer * verdict :=
  if ar_stopped a then (r, Return)
  else
    match seqOf (sm_seq (ar_message a)) with
    | None => (r, Next)
    | Some seq =>
        if seq <=? cr_last r then (countDuplicate r, Next)
        else if cr_last r + 1 <? seq then
          let r1 := reportGap seq (ar_gapOk a) r in
          if negb (ar_gapOk a) then (r1, Raise) else handOver seq a r1
        else handOver seq a r
    end.

Fixpoint receiveAll (l : list arrival) (r : CheckpointResumer) : CheckpointResumer * verdict :=
  match l with
  | [] => (r, Next)
  | a :: l =>
      match receive a r with
      | (r1, Next) => receiveAll l r1
      | other => other
      end
  end.

(** The [catch] clause; [Running] goes round the loop again. *)
Definition caught (s : session) (r : CheckpointResumer) : CheckpointResumer * result :=
  if ss_stopped s then (r, Finished)
  else
    let failures := cr_failures r + 1 in
    let r1 := mkResumer (cr_last r) failures (cr_firstAfterConnect r) (cr_stats r) (cr_store r)
                (cr_trace r) in
    if maxRetries <? failures then (r1, Threw)
    else
      let st := cr_stats r in
      let r2 := note (OSleep (backoff failures))
                  (mkResumer (cr_last r) failures (cr_firstAfterConnect r)
                     (mkStats (st_delivered st) (st_duplicatesDropped st) (st_gapsDetected st)
                        (st_missedMessages st) (st_reconnects st + 1)) (cr_store r) (cr_trace r)) in
      (r2, if ss_stoppedAfter s then Finished else Running).

(** One pass of the [while] loop. *)
Definition connection (n : nat) (r : CheckpointResumer) : CheckpointResumer * result :=
  let s := connect n (cr_last r) in
  let r0 := mkResumer (cr_last r) (cr_failures r) true (cr_stats r) (cr_store r) (cr_trace r) in
  match receiveAll (ss_arrivals s) r0 with
  | (r1, Return) => (r1, Finished)
  | (r1, Next) => if ss_breaks s then caught s r1 else (r1, Finished)
  | (r1, Raise) => caught s r1
  end.

Fixpoint connections (fuel : nat) (n : nat) (r : CheckpointResumer) : CheckpointResumer * result :=
  match fuel with
  | O => (r, Running)
  | Datatypes.S fuel =>
      match connection n r with
      | (r1, Running) => connections fuel (Datatypes.S n) r1
      | other => other
      end
  end.

Definition newResumer (st : S) : CheckpointResumer :=
  mkResumer (default 0 (load streamId st)) 0 false (mkStats 0 0 0 0 0) st [].

(** [run()], with at most [fuel] connections. *)
Definition run (fuel : nat) (stopped : bool) (st : S) : CheckpointResumer * result :=
  if stopped then (newResumer st, Finished) else connections fuel 0 (newResumer st).
End resumer.

Arguments CheckpointResumer : clear implicits.

(** [Math.min(250 * 2 ** (n - 1), 10_000)] *)
Definition defaultBackoff (n : Z) : Z := Z.min (250 * 2 ^ (n - 1)) 10000.

(** ** What a trace says *)

Definition processed (tr : list observation) : list Z :=
  omap (λ o, match o with OMessage q _ true => Some q | _ => None end) tr.
Definition gapsOf (tr : list observation) : list GapEvent :=
  omap (λ o, match o with OGap g _ => Some g | _ => None end) tr.

(** No callback failed. *)
Definition smooth (tr : list observation) : bool :=
  forallb (λ o, match o with OGap _ ok | OMessage _ _ ok => ok | _ => true end) tr.

Definition gapTotal (gs : list GapEvent) : Z := foldr (λ g acc, ge_to g - ge_from g + 1 + acc) 0 gs.

Definition inGap (gs : list GapEvent) (n : Z) : Prop := ∃ g, g ∈ gs ∧ ge_from g <= n <= ge_to g.

Lemma processed_snoc tr o :
  processed (tr ++ [o]) =
    processed tr ++ match o with OMessage q _ true => [q] | _ => [] end.
Proof. unfold processed. rewrite omap_app. cbn. destruct o as [|? ? []| |]; done. Qed.

Lemma gapsOf_snoc tr o :
  gapsOf (tr ++ [o]) = gapsOf tr ++ match o with OGap g _ => [g] | _ => [] end.
Proof. unfold gapsOf. rewrite omap_app. cbn. by destruct o. Qed.

Lemma smooth_snoc tr o :
  smooth (tr ++ [o]) = smooth tr && match o with OGap _ ok | OMessage _ _ ok => ok | _ => true end.
Proof. unfold smooth. rewrite forallb_app. cbn. by rewrite andb_true_r. Qed.

Lemma gapTotal_snoc gs g : gapTotal (gs ++ [g]) = gapTotal gs + (ge_to g - ge_from g + 1).
Proof. unfold gapTotal. induction gs as [|h gs IH]; cbn; lia. Qed.

Lemma sorted_below_last l m y :
  StronglySorted Z.lt l → last l = Some m → y ∈ l → y <= m.
Proof.
  intros Hs (l' & ->)%last_Some. rewrite elem_of_app, list_elem_of_singleton.
  intros [Hy| ->]; [|done]. apply Z.lt_le_incl.
  apply (StronglySorted_app_1_elem_of _ _ _ _ _ Hs Hy). by apply list_elem_of_singleton.
Qed.

(** ** The invariant *)

Section invariant.
Context {S : Type} `{!CheckpointStore S, !CheckpointLaws S}.
Variable streamId : string.
Variables maxReplay maxRetries : Z.
Variable backoff : Z → Z.
Variable connect : nat → Z → session.
Variable st0 : S.

Let start : Z := default 0 (load streamId st0).

(** Everything up to [acc] is accounted for. *)
Record accounted (acc : Z) (r : CheckpointResumer S) : Prop := {
  ac_sorted : StronglySorted Z.lt (start :: processed (cr_trace r));
  ac_last : last (start :: processed (cr_trace r)) = Some (cr_last r);
  ac_bound : cr_last r <= acc;
  ac_cover : ∀ n, start < n <= acc → n ∈ processed (cr_trace r) ∨ inGap (gapsOf (cr_trace r)) n;
  ac_missed : st_missedMessages (cr_stats r) = gapTotal (gapsOf (cr_trace r));
  ac_gaps : st_gapsDetected (cr_stats r) = Z.of_nat (length (gapsOf (cr_trace r)));
  ac_delivered : 0 <= st_delivered (cr_stats r) <= Z.of_nat (length (processed (cr_trace r)));
  ac_store : load streamId (cr_store r) = load streamId st0 ∨
             ∃ q, load streamId (cr_store r) = Some q ∧ q ∈ processed (cr_trace r);
  ac_smooth : smooth (cr_trace r) = true →
    st_missedMessages (cr_stats r) + Z.of_nat (length (processed (cr_trace r))) = acc - start ∧
    ∀ n, inGap (gapsOf (cr_trace r)) n → n <= acc ∧ n ∉ processed (cr_trace r);
}.

Lemma accounted_last acc r :
  accounted acc r → acc = cr_last r ∨ smooth (cr_trace r) = false → accounted (cr_last r) r.
Proof.
  intros [] [->|Hs]; split; try done; [|by rewrite Hs].
  intros n Hn. apply ac_cover0. lia.
Qed.

(** Only the fields the invariant reads matter. *)
Lemma accounted_same acc r r' :
  cr_last r' = cr_last r → cr_trace r' = cr_trace r → cr_store r' = cr_store r →
  st_missedMessages (cr_stats r') = st_missedMessages (cr_stats r) →
  st_gapsDetected (cr_stats r') = st_gapsDetected (cr_stats r) →
  st_delivered (cr_stats r') = st_delivered (cr_stats r) →
  accounted acc r → accounted acc r'.
Proof. intros E1 E2 E3 E4 E5 E6 []. split; rewrite ?E1, ?E2, ?E3, ?E4, ?E5, ?E6; done. Qed.

Lemma reportGap_ok seq ok r :
  cr_last r + 1 < seq → accounted (cr_last r) r → accounted (seq - 1) (reportGap maxReplay seq ok r).
Proof.
  intros Hlt []. unfold reportGap, note. set (g := mkGap _ _ _).
  split; cbn -[last]; rewrite ?processed_snoc, ?gapsOf_snoc, ?smooth_snoc, ?app_nil_r; try done.
  - lia.
  - intros n Hn. destruct (decide (n <= cr_last r)) as [H|H].
    + destruct (ac_cover0 n) as [|(h & Hh & ?)]; [lia|by left|].
      right. exists h. split; [|done]. apply elem_of_app. by left.
    + right. exists g. split; [apply elem_of_app; right; by apply list_elem_of_singleton|]. cbn. lia.
  - rewrite gapTotal_snoc. cbn. lia.
  - rewrite length_app. cbn. lia.
  - intros [Hs _]%andb_true_iff. destruct (ac_smooth0 Hs) as [E Hd]. split; [lia|].
    intros n (h & [Hh|Hh]%elem_of_app & Hn).
    + destruct (Hd n) as [? ?]; [by exists h|]. split; [lia|done].
    + apply list_elem_of_singleton in Hh as ->. cbn in Hn. split; [lia|]. intros Hp.
      assert (n <= cr_last r); [|lia].
      eapply sorted_below_last; [exact ac_sorted0|exact ac_last0|]. by right.
Qed.

(** The handler succeeded and the message is the last one processed. *)
Lemma processed_ok seq data r :
  cr_last r < seq → accounted (seq - 1) r →
  accounted seq (mkResumer seq (cr_failures r) false (cr_stats r) (cr_store r)
                   (cr_trace r ++ [OMessage seq data true])).
Proof.
  intros Hlt []. split; cbn -[last]; rewrite ?processed_snoc, ?gapsOf_snoc, ?smooth_snoc, ?app_nil_r; try done.
  - rewrite app_comm_cons. apply StronglySorted_app_2; [|done|repeat constructor].
    intros x y Hx ->%list_elem_of_singleton.
    assert (x <= cr_last r); [by eapply sorted_below_last|lia].
  - by rewrite app_comm_cons, last_snoc.
  - intros n Hn. destruct (decide (n = seq)) as [->|Hne].
    + left. apply elem_of_app. right. by apply list_elem_of_singleton.
    + destruct (ac_cover0 n) as [H|H]; [lia| |by right]. left. apply elem_of_app. by left.
  - rewrite length_app. cbn. lia.
  - destruct ac_store0 as [H|(q & Hq & Hin)]; [by left|]. right. exists q. split; [done|].
    apply elem_of_app. by left.
  - rewrite andb_true_r. intros Hs. destruct (ac_smooth0 Hs) as [E Hd]. split.
    + rewrite length_app. cbn. lia.
    + intros n Hg. destruct (Hd n Hg) as [? ?]. split; [lia|].
      rewrite elem_of_app, list_elem_of_singleton. intros [?| ->]; [done|lia].
Qed.

(** What changes neither the gaps nor the messages handed over. *)
Lemma accounted_note acc o r :
  match o with OGap _ _ | OMessage _ _ true => False | _ => True end →
  accounted acc r → accounted acc (note o r).
Proof.
  intros Ho []. unfold note.
  split; cbn -[last]; rewrite ?processed_snoc, ?gapsOf_snoc, ?smooth_snoc;
    destruct o as [|? ? []| |]; rewrite ?app_nil_r; try done.
  - by rewrite andb_false_r.
  - by rewrite andb_true_r.
  - by rewrite andb_true_r.
Qed.

Lemma handOver_ok seq a r :
  cr_last r < seq → accounted (seq - 1) r →
  accounted (cr_last (handOver streamId seq a r).1) (handOver streamId seq a r).1.
Proof.
  intros Hlt Ha. unfold handOver. destruct (ar_handlerOk a); cbn [negb].
  - pose proof (processed_ok seq (sm_data (ar_message a)) r Hlt Ha) as H.
    apply (accounted_note _ (OSave seq (ar_saveOk a))) in H; [|done].
    destruct (ar_saveOk a); cbn [negb fst]; [|exact H].
    destruct H. unfold note in *. cbn in *. split; cbn; try done.
    + rewrite !processed_snoc, app_nil_r, length_app in *. cbn. destruct Ha. lia.
    + right. exists seq. split; [apply load_save|]. rewrite !processed_snoc, app_nil_r.
      apply elem_of_app. right. by apply list_elem_of_singleton.
  - apply (accounted_last (seq - 1)).
    + apply accounted_note; [done|]. by apply (accounted_same _ r).
    + right. unfold note. cbn. by rewrite smooth_snoc, andb_false_r.
Qed.

Lemma receive_ok a r :
  accounted (cr_last r) r →
  accounted (cr_last (receive streamId maxReplay a r).1) (receive streamId maxReplay a r).1.
Proof.
  intros Ha. unfold receive. destruct (ar_stopped a); [done|]. destruct (seqOf _) as [seq|]; [|done].
  destruct (Z.leb_spec seq (cr_last r)); [by apply (accounted_same _ r)|].
  destruct (Z.ltb_spec (cr_last r + 1) seq).
  - pose proof (reportGap_ok seq (ar_gapOk a) r ltac:(done) Ha) as H1.
    destruct (ar_gapOk a) eqn:E; cbn [negb].
    + apply handOver_ok; [done|exact H1].
    + apply (accounted_last (seq - 1)); [exact H1|]. right. unfold reportGap, note. cbn.
      by rewrite smooth_snoc, andb_false_r.
  - apply handOver_ok; [done|]. by replace (seq - 1) with (cr_last r) by lia.
Qed.

Lemma receiveAll_ok l r :
  accounted (cr_last r) r →
  accounted (cr_last (receiveAll streamId maxReplay l r).1) (receiveAll streamId maxReplay l r).1.
Proof.
  revert r. induction l as [|a l IH]; intros r Ha; [done|]. cbn [receiveAll].
  pose proof (receive_ok a r Ha) as H. destruct (receive _ _ a r) as [r1 []]; [by apply IH|done..].
Qed.

Lemma caught_ok s r :
  accounted (cr_last r) r →
  accounted (cr_last (caught maxRetries backoff s r).1) (caught maxRetries backoff s r).1.
Proof.
  intros Ha. unfold caught. destruct (ss_stopped s); [done|].
  destruct (maxRetries <? cr_failures r + 1); [by apply (accounted_same _ r)|].
  cbn [fst]. apply accounted_note; [done|]. by apply (accounted_same _ r).
Qed.

Lemma pass_ok n r :
  accounted (cr_last r) r →
  accounted (cr_last (connection streamId maxReplay maxRetries backoff connect n r).1)
    (connection streamId maxReplay maxRetries backoff connect n r).1.
Proof.
  intros Ha. unfold connection. set (r0 := mkResumer _ _ true _ _ _).
  assert (H0 : accounted (cr_last r0) r0) by by apply (accounted_same _ r).
  pose proof (receiveAll_ok (ss_arrivals (connect n (cr_last r))) r0 H0) as H.
  destruct (receiveAll _ _ _ r0) as [r1 []]; [|done|by apply caught_ok].
  destruct (ss_breaks _); [by apply caught_ok|done].
Qed.

Lemma connections_ok fuel : ∀ n r,
  accounted (cr_last r) r →
  accounted (cr_last (connections streamId maxReplay maxRetries backoff connect fuel n r).1)
    (connections streamId maxReplay maxRetries backoff connect fuel n r).1.
Proof.
  induction fuel as [|fuel IH]; intros n r Ha; [done|]. cbn [connections].
  pose proof (pass_ok n r Ha) as H. destruct (connection _ _ _ _ _ n r) as [r1 []]; [done|done|by apply IH].
Qed.

Lemma newResumer_ok : accounted (cr_last (newResumer streamId st0)) (newResumer streamId st0).
Proof.
  split; cbn; try done; fold start; [repeat constructor|intros; lia|by left|].
  intros _. split; [lia|]. intros n (g & Hg & _). set_solver.
Qed.

Lemma run_accounted fuel stopped :
  accounted (cr_last (run streamId maxReplay maxRetries backoff connect fuel stopped st0).1)
    (run streamId maxReplay maxRetries backoff connect fuel stopped st0).1.
Proof. unfold run. destruct stopped; [apply newResumer_ok|apply connections_ok, newResumer_ok]. Qed.

(** Whatever the stream, the callbacks and the store do: the messages the handler
    accepted have increasing numbers above the checkpoint, the last one being the
    position; every number from the checkpoint to the position was accepted or
    reported missing; the statistics count the reported gaps; the stored
    checkpoint is the initial one or a message that was accepted; and when no
    callback fails, no number is both accepted and reported missing and the two
    counts add up to the distance covered. *)
Theorem stream_accounted fuel stopped :
  let r := (run streamId maxReplay maxRetries backoff connect fuel stopped st0).1 in
  let done := processed (cr_trace r) in
  let gaps := gapsOf (cr_trace r) in
  StronglySorted Z.lt (start :: done) ∧ last (start :: done) = Some (cr_last r) ∧
  (∀ n, start < n <= cr_last r → n ∈ done ∨ inGap gaps n) ∧
  st_missedMessages (cr_stats r) = gapTotal gaps ∧
  (load streamId (cr_store r) = load streamId st0 ∨
   ∃ q, load streamId (cr_store r) = Some q ∧ q ∈ done) ∧
  (smooth (cr_trace r) = true →
   st_missedMessages (cr_stats r) + Z.of_nat (length done) = cr_last r - start ∧
   ∀ n, inGap gaps n → n ∉ done).
Proof.
  intros r dn gs. destruct (run_accounted fuel stopped). split_and!; try done.
  intros Hs. destruct (ac_smooth0 Hs) as [E Hd]. split; [done|]. intros n Hn. by apply Hd.
Qed.
End invariant.

(** ** Termination *)

Lemma sorted_length_last s l m :
  StronglySorted Z.lt (s :: l) → last (s :: l) = Some m → Z.of_nat (length l) <= m - s.
Proof.
  revert s. induction l as [|x l IH]; intros s Hs Hl.
  - cbn in Hl. simplify_eq. cbn. lia.
  - apply StronglySorted_inv in Hs as [Hs Hx]. apply Forall_inv in Hx.
    specialize (IH x Hs Hl). cbn [length]. lia.
Qed.

Section termination.
Context {S : Type} `{!CheckpointStore S, !CheckpointLaws S}.
Variable streamId : string.
Variables maxReplay maxRetries : Z.
Variable backoff : Z → Z.
Variable connect : nat → Z → session.

(** The retries since the last delivery, and all of them. *)
Record steady (r : CheckpointResumer S) : Prop := {
  sd_failures : 0 <= cr_failures r <= maxRetries;
  sd_delivered : 0 <= st_delivered (cr_stats r);
  sd_reconnects : st_reconnects (cr_stats r) <= st_delivered (cr_stats r) * maxRetries + cr_failures r;
}.

(** A message the stream may send is at most [M]. *)
Variable M : Z.
Hypothesis last_message : ∀ n from a q,
  a ∈ ss_arrivals (connect n from) → seqOf (sm_seq (ar_message a)) = Some q → q <= M.

Lemma receive_steady a r :
  (∀ q, seqOf (sm_seq (ar_message a)) = Some q → q <= M) → steady r → cr_last r <= M →
  let r' := (receive streamId maxReplay a r).1 in
  steady r' ∧ st_reconnects (cr_stats r') = st_reconnects (cr_stats r) ∧ cr_last r' <= M.
Proof.
  intros Hm Hst Hl. unfold receive. destruct (ar_stopped a); [done|].
  destruct (seqOf _) as [q|]; [|done]. specialize (Hm q eq_refl).
  assert (∀ r1 : CheckpointResumer S, steady r1 → cr_last r1 <= M →
    let r' := (handOver streamId q a r1).1 in
    steady r' ∧ st_reconnects (cr_stats r') = st_reconnects (cr_stats r1) ∧ cr_last r' <= M) as Hh.
  { intros r1 [] Hl1. unfold handOver. destruct (ar_handlerOk a), (ar_saveOk a); cbn;
      (split_and!; [split; cbn; nia|done|lia]). }
  destruct (q <=? cr_last r); [by destruct Hst; split_and!; [split|..]|].
  destruct (cr_last r + 1 <? q); [|by apply Hh].
  assert (steady (reportGap maxReplay q (ar_gapOk a) r)) as H1 by (destruct Hst; by split).
  destruct (ar_gapOk a); cbn [negb]; [|by split_and!]. by apply (Hh _ H1).
Qed.

Lemma receiveAll_steady l r :
  (∀ a q, a ∈ l → seqOf (sm_seq (ar_message a)) = Some q → q <= M) → steady r → cr_last r <= M →
  let r' := (receiveAll streamId maxReplay l r).1 in
  steady r' ∧ st_reconnects (cr_stats r') = st_reconnects (cr_stats r) ∧ cr_last r' <= M.
Proof.
  revert r. induction l as [|a l IH]; intros r Hm Hst Hl; [done|]. cbn [receiveAll].
  destruct (receive_steady a r) as (H1 & H2 & H3); [intros q; apply Hm; left|done|done|].
  destruct (receive _ _ a r) as [r1 []]; [|done|done]. cbn in *.
  destruct (IH r1) as (I1 & I2 & I3); [intros b q Hb; apply Hm; by right|done|done|].
  split_and!; [done|congruence|done].
Qed.

Lemma connection_steady n r r' :
  steady r → cr_last r <= M →
  connection streamId maxReplay maxRetries backoff connect n r = (r', Running) →
  steady r' ∧ cr_last r' <= M ∧ st_reconnects (cr_stats r') = st_reconnects (cr_stats r) + 1.
Proof.
  intros Hst Hl. unfold connection. set (r0 := mkResumer _ _ true _ _ _).
  destruct (receiveAll_steady (ss_arrivals (connect n (cr_last r))) r0) as (H1 & H2 & H3);
    [by intros a q Ha; eapply last_message|by destruct Hst|done|].
  destruct (receiveAll _ _ _ r0) as [r1 v]. cbn in H1, H2, H3. intros E.
  assert (caught maxRetries backoff (connect n (cr_last r)) r1 = (r', Running)) as Ec.
  { destruct v; [|done|done]. by destruct (ss_breaks _). }
  clear E. unfold caught in Ec. destruct (ss_stopped _); [done|].
  destruct (Z.ltb_spec maxRetries (cr_failures r1 + 1)); [done|].
  destruct (ss_stoppedAfter _); simplify_eq. destruct H1. cbn.
  split_and!; [split; cbn; lia|done|lia].
Qed.

Lemma connections_steady fuel : ∀ n r r',
  steady r → cr_last r <= M →
  connections streamId maxReplay maxRetries backoff connect fuel n r = (r', Running) →
  steady r' ∧ cr_last r' <= M ∧
  st_reconnects (cr_stats r') = st_reconnects (cr_stats r) + Z.of_nat fuel.
Proof.
  induction fuel as [|fuel IH]; intros n r r' Hst Hl E.
  - cbn in E. simplify_eq. split_and!; [done|done|cbn; lia].
  - cbn [connections] in E. destruct (connection _ _ _ _ _ n r) as [r1 []] eqn:E1; simplify_eq.
    destruct (connection_steady n r r1 Hst Hl E1) as (H1 & H2 & H3).
    destruct (IH _ _ _ H1 H2 E) as (I1 & I2 & I3). split_and!; [done|done|lia].
Qed.

(** On a stream whose messages are numbered up to [M] at most, the resumer ends: it
    makes no more connections than [maxRetries] for each message that was still to
    come and one more round, and then it has returned or given up. *)
Theorem resume_settles st fuel :
  0 <= maxRetries → default 0 (load streamId st) <= M →
  (M - default 0 (load streamId st) + 1) * maxRetries < Z.of_nat fuel →
  (run streamId maxReplay maxRetries backoff connect fuel false st).2 ≠ Running.
Proof.
  intros Hr Hm Hf. pose proof (run_accounted streamId maxReplay maxRetries backoff connect st fuel false) as Ha.
  unfold run in *. destruct (connections _ _ _ _ _ fuel 0 _) as [r res] eqn:E. cbn. intros ->.
  destruct (connections_steady fuel 0 (newResumer streamId st) r) as (H1 & H2 & H3); [by split; cbn; lia|done|done|].
  destruct Ha as [Hs Hl _ _ _ _ Hd _ _]. cbn [fst] in *.
  pose proof (sorted_length_last _ _ _ Hs Hl). destruct H1. cbn in H3. nia.
Qed.
End termination.

(** ** Witnesses and examples *)

Definition message (n : Z) : StreamMessage := mkMessage (NInt n) "tick".
Definition accepted (n : Z) : arrival := mkArrival false (message n) true true true.
Definition refused (n : Z) : arrival := mkArrival false (message n) true false true.

(** The first connection breaks after 1 and 2, the second replays 2 and skips 3. *)
Definition demo_connect (n : nat) (_ : Z) : session :=
  match n with
  | O => mkSession [accepted 1; accepted 2] true false false
  | _ => mkSession [accepted 2; accepted 4] false false false
  end.

Definition demo_run (fuel : nat) : CheckpointResumer MemoryCheckpointStore * result :=
  run "prices" 1000 5 defaultBackoff demo_connect fuel false jm_empty.

Example demo_stream :
  (demo_run 2).2 = Finished ∧ processed (cr_trace (demo_run 2).1) = [1; 2; 4] ∧
  cr_stats (demo_run 2).1 = mkStats 3 1 1 1 1 ∧ cr_store (demo_run 2).1 = [("prices", 4)].
Proof. vm_compute. done. Qed.

Lemma stream_accounted_witness :
  let r := (demo_run 2).1 in
  st_missedMessages (cr_stats r) + Z.of_nat (length (processed (cr_trace r))) = cr_last r - 0 ∧
  ∀ n, inGap (gapsOf (cr_trace r)) n → n ∉ processed (cr_trace r).
Proof.
  destruct (stream_accounted "prices" 1000 5 defaultBackoff demo_connect (jm_empty : MemoryCheckpointStore)
    2 false) as (_ & _ & _ & _ & _ & H).
  apply H. vm_compute. reflexivity.
Defined.

Lemma resume_settles_witness :
  (run "prices" 1000 5 defaultBackoff demo_connect 26 false (jm_empty : MemoryCheckpointStore)).2 ≠ Running.
Proof.
  apply (resume_settles "prices" 1000 5 defaultBackoff demo_connect 4); [|cbn; lia..].
  intros n from a q Ha Hq. destruct n; cbn in Ha;
    repeat (apply elem_of_cons in Ha as [->|Ha]; [vm_compute in Hq; simplify_eq; lia|]); set_solver.
Defined.

(** The handler fails on a message behind a gap: after the reconnection the same
    gap is reported and counted again, four missed messages for two. *)
Example gap_counted_twice :
  let connect n (_ : Z) := match n with
    | O => mkSession [refused 3] false false false
    | _ => mkSession [accepted 3] false false false
    end in
  let r := (run "prices" 1000 5 defaultBackoff connect 2 false (jm_empty : MemoryCheckpointStore)).1 in
  processed (cr_trace r) = [3] ∧ st_missedMessages (cr_stats r) = 4 ∧ st_gapsDetected (cr_stats r) = 2.
Proof. vm_compute. done. Qed.

(** A gap that was reported can still be filled: the server sends the missing
    messages on the next connection. *)
Example reported_gap_filled :
  let connect n (_ : Z) := match n with
    | O => mkSession [refused 2] false false false
    | _ => mkSession [accepted 1; accepted 2] false false false
    end in
  let r := (run "prices" 1000 5 defaultBackoff connect 2 false (jm_empty : MemoryCheckpointStore)).1 in
  processed (cr_trace r) = [1; 2] ∧ st_missedMessages (cr_stats r) = 1.
Proof. vm_compute. done. Qed.

(** [maxReplay] does not bound what is replayed: with a bound of 1 four messages
    are replayed and no gap is reported. *)
Example replay_unbounded :
  let connect (_ : nat) (_ : Z) := mkSession (accepted <$> [1; 2; 3; 4]) false false false in
  let r := (run "prices" 1 5 defaultBackoff connect 1 false (jm_empty : MemoryCheckpointStore)).1 in
  processed (cr_trace r) = [1; 2; 3; 4] ∧ gapsOf (cr_trace r) = [].
Proof. vm_compute. done. Qed.
