(* ===== verification/CoiRegister.v ===== *)
(** * Conflict-of-interest register

    Models [api/src/governance/coi-register.ts]: declarations and their expiry,
    withdrawal, attestations, recusal reasons and eligibility.

    Every [this.now()] of the code is a separate argument.  Stored timestamps
    are epoch milliseconds; an [expiresAt] argument is [None] when it is missing
    or the empty text.  Errors carry their code, not the message. *)

From Stdlib Require Import ZArith Lia.
From stdpp Require Import base tactics decidable list sets strings gmap pretty relations.
From S2P Require Import Prelude JsMap.

Local Open Scope Z_scope.

Inductive CoiRelationshipType : Type :=
| Financial | Employment | ProviderAffiliation | TokenHolding | Family | OtherRelationship.

Inductive CoiScope : Type := ScopeAsset | ScopeSource | ScopeProtocol.

Inductive CoiDisclosureStatus : Type := DActive | DWithdrawn | DExpired.

#[export] Instance relationship_eq_dec : EqDecision CoiRelationshipType.
Proof. solve_decision. Defined.
#[export] Instance scope_eq_dec : EqDecision CoiScope.
Proof. solve_decision. Defined.
#[export] Instance dstatus_eq_dec : EqDecision CoiDisclosureStatus.
Proof. solve_decision. Defined.

Record CoiDisclosure : Type := mkDisclosure {
  cd_id : string;
  cd_actor : string;
  cd_relationship : CoiRelationshipType;
  cd_counterparty : string;
  cd_scope : CoiScope;
  cd_details : string;
  cd_disclosedAt : Z;
  cd_expiresAt : Z;
  cd_status : CoiDisclosureStatus;
  cd_closedAt : option Z;
}.

Record CoiAttestation : Type := mkAttestation {
  ca_actor : string;
  ca_attestedAt : Z;
  ca_expiresAt : Z;
  ca_statement : option string;
}.

Record RecusalRequest : Type := mkRecusal {
  rr_assets : list string;
  rr_sources : list string;
}.

(** [COI_LIMITS] *)
Definition attestationValiditySeconds : Z := 90 * 24 * 60 * 60.
Definition maxDisclosureSeconds : Z := 365 * 24 * 60 * 60.
Definition maxDetailsLength : Z := 2000.
Definition maxStatementLength : Z := 500.

Definition relationship_name (r : CoiRelationshipType) : string :=
  match r with
  | Financial => "financial"
  | Employment => "employment"
  | ProviderAffiliation => "provider-affiliation"
  | TokenHolding => "token-holding"
  | Family => "family"
  | OtherRelationship => "other"
  end.
Definition scope_name (s : CoiScope) : string :=
  match s with
  | ScopeAsset => "asset"
  | ScopeSource => "source"
  | ScopeProtocol => "protocol"
  end.

Definition RELATIONSHIPS : list CoiRelationshipType :=
  [Financial; Employment; ProviderAffiliation; TokenHolding; Family; OtherRelationship].
Definition SCOPES : list CoiScope := [ScopeAsset; ScopeSource; ScopeProtocol].

(** [RELATIONSHIPS.includes(text)], with the constant it denotes. *)
Definition relationship_of (text : string) : option CoiRelationshipType :=
  List.find (λ r, bool_decide (relationship_name r = text)) RELATIONSHIPS.
Definition scope_of (text : string) : option CoiScope :=
  List.find (λ s, bool_decide (scope_name s = text)) SCOPES.

Inductive coi_error : Type :=
| INVALID_REQUEST
| ATTESTATION_REQUIRED
| INVALID_RELATIONSHIP
| INVALID_SCOPE
| DETAILS_TOO_LONG
| DETAILS_REQUIRED
| INVALID_EXPIRY
| EXPIRY_IN_PAST
| EXPIRY_TOO_FAR
| DUPLICATE_DISCLOSURE (id : string)
| NOT_DISCLOSURE_OWNER
| DISCLOSURE_NOT_ACTIVE
| DISCLOSURE_NOT_FOUND
| STATEMENT_TOO_LONG
| CONFLICT_OF_INTEREST.

Record coi : Type := mkCoi {
  disclosures : jsmap string CoiDisclosure;
  attestations : jsmap string CoiAttestation;
  disclosureCount : Z;
}.

Definition newCoi : coi := mkCoi jm_empty jm_empty 0.

Definition normalize (value : string) : string := toUpperCase (trim value).

Definition requireText {St} (value : string) : M St coi_error string :=
  require (negb (is_blank value)) INVALID_REQUEST ;; mret (trim value).

Record declare_input : Type := mkDeclare {
  di_actor : string;
  di_relationship : string;
  di_counterparty : string;
  di_scope : string;
  di_details : option string;
  di_expiresAt : option date_text;
  di_attested : bool;
}.

Definition same_relation (actor : string) (r : CoiRelationshipType) (s : CoiScope)
    (counterparty : string) (d : CoiDisclosure) : bool :=
  bool_decide (cd_status d = DActive) && bool_decide (cd_actor d = actor) &&
  bool_decide (cd_relationship d = r) && bool_decide (cd_scope d = s) &&
  bool_decide (normalize counterparty = normalize (cd_counterparty d)).

Definition disclosure_id (n : Z) : string := "coi_" +:+ pretty n.

Definition declare (now : Z) (input : declare_input) : M coi coi_error CoiDisclosure :=
  actor ← requireText (di_actor input);
  require (di_attested input) ATTESTATION_REQUIRED ;;
  relationship ← require_some (λ _, relationship_of (di_relationship input)) INVALID_RELATIONSHIP;
  scope ← require_some (λ _, scope_of (di_scope input)) INVALID_SCOPE;
  counterparty ← requireText (di_counterparty input);
  let details := trim (default EmptyString (di_details input)) in
  require (negb (maxDetailsLength <? strlen details)) DETAILS_TOO_LONG ;;
  require (negb (bool_decide (relationship = OtherRelationship) &&
                 bool_decide (strlen details = 0))) DETAILS_REQUIRED ;;
  let maxExpiry := now + maxDisclosureSeconds * 1000 in
  expiresAt ← lift (match di_expiresAt input with
                    | None => Ok maxExpiry
                    | Some (DInstant ms) => Ok ms
                    | Some _ => Throw INVALID_EXPIRY
                    end);
  require (negb (expiresAt <=? now)) EXPIRY_IN_PAST ;;
  require (negb (maxExpiry <? expiresAt)) EXPIRY_TOO_FAR ;;
  duplicate ← gets (λ c, List.find (same_relation actor relationship scope counterparty)
                           (jm_values (disclosures c)));
  (match duplicate with Some d => throw (DUPLICATE_DISCLOSURE (cd_id d)) | None => mret tt end) ;;
  count ← gets disclosureCount;
  let id := disclosure_id (count + 1) in
  let d := mkDisclosure id actor relationship counterparty scope details now expiresAt
             DActive None in
  modify (λ c, mkCoi (jm_set id d (disclosures c)) (attestations c) (count + 1)) ;;
  mret d.

Definition set_status (s : CoiDisclosureStatus) (closed : option Z) (d : CoiDisclosure)
    : CoiDisclosure :=
  mkDisclosure (cd_id d) (cd_actor d) (cd_relationship d) (cd_counterparty d) (cd_scope d)
    (cd_details d) (cd_disclosedAt d) (cd_expiresAt d) s closed.

Definition with_disclosures ds (c : coi) : coi :=
  mkCoi ds (attestations c) (disclosureCount c).

Definition withdraw (now : Z) (id actor : string) : M coi coi_error CoiDisclosure :=
  d ← require_some (λ c, jm_get id (disclosures c)) DISCLOSURE_NOT_FOUND;
  caller ← requireText actor;
  require (bool_decide (cd_actor d = caller)) NOT_DISCLOSURE_OWNER ;;
  require (bool_decide (cd_status d = DActive)) DISCLOSURE_NOT_ACTIVE ;;
  let d' := set_status DWithdrawn (Some now) d in
  modify (λ c, with_disclosures (jm_set id d' (disclosures c)) c) ;;
  mret d'.

Definition due (now : Z) (d : CoiDisclosure) : bool :=
  bool_decide (cd_status d = DActive) && (cd_expiresAt d <=? now).

Definition expire (now : Z) (d : CoiDisclosure) : CoiDisclosure :=
  if due now d then set_status DExpired (cd_closedAt d) d else d.

Definition sweep (now : Z) (c : coi) : coi * Z :=
  (with_disclosures (jm_map_values (expire now) (disclosures c)) c,
   Z.of_nat (length (filter (λ d, due now d = true) (jm_values (disclosures c))))).

Definition attest (validity now : Z) (actor : string) (statement : option string)
    : M coi coi_error CoiAttestation :=
  identity ← requireText actor;
  require (negb (match statement with
                 | Some s => maxStatementLength <? strlen s
                 | None => false
                 end)) STATEMENT_TOO_LONG ;;
  let a := mkAttestation identity now (now + validity * 1000)
             (s ← statement; if is_blank s then None else Some (trim s)) in
  modify (λ c, mkCoi (disclosures c) (jm_set identity a (attestations c)) (disclosureCount c)) ;;
  mret a.

Record attestation_status : Type := mkAttestationStatus {
  as_valid : bool;
  as_dates : option (Z * Z);
}.

Definition attestationStatus (now : Z) (actor : string) (c : coi) : attestation_status :=
  match jm_get actor (attestations c) with
  | None => mkAttestationStatus false None
  | Some a =>
      mkAttestationStatus (negb (ca_expiresAt a <=? now))
        (Some (ca_attestedAt a, ca_expiresAt a))
  end.

(** Whether a declaration bears on a decision. *)
Definition scope_matches (request : RecusalRequest) (d : CoiDisclosure) : bool :=
  match cd_scope d with
  | ScopeProtocol => true
  | ScopeAsset => bool_decide (normalize (cd_counterparty d) ∈ normalize <$> rr_assets request)
  | ScopeSource => bool_decide (normalize (cd_counterparty d) ∈ normalize <$> rr_sources request)
  end.

Definition recuses (actor : string) (request : RecusalRequest) (d : CoiDisclosure) : bool :=
  negb (negb (bool_decide (cd_actor d = actor)) || bool_decide (cd_status d = DWithdrawn)) &&
  scope_matches request d.

Definition reason_text (d : CoiDisclosure) : string :=
  "conflict of interest: " +:+
  (if decide (cd_status d = DExpired)
   then "declaration " +:+ cd_id d +:+ " expired on " +:+ toISOString (cd_expiresAt d)
   else "active " +:+ relationship_name (cd_relationship d) +:+ " relationship with " +:+
        cd_counterparty d +:+ " (" +:+ cd_id d +:+ ")").

Definition recusalReasons (now : Z) (actor : string) (request : RecusalRequest) (c : coi)
    : coi * list string :=
  let c := fst (sweep now c) in
  (c, stable_sort (cmp_leb String.compare)
        (reason_text <$> filter (λ d, recuses actor request d = true)
                           (jm_values (disclosures c)))).

Inductive eligibility : Type :=
| Eligible
| Ineligible (code : coi_error) (reasons : list string).

Definition checkEligibility (now1 now2 : Z) (actor : string) (request : RecusalRequest)
    (c : coi) : coi * eligibility :=
  let a := attestationStatus now1 actor c in
  if as_valid a then
    let '(c, reasons) := recusalReasons now2 actor request c in
    (c, match reasons with
        | [] => Eligible
        | _ => Ineligible CONFLICT_OF_INTEREST reasons
        end)
  else
    (c, Ineligible ATTESTATION_REQUIRED
          [match as_dates a with
           | Some (_, expires) => "attestation expired on " +:+ toISOString expires +:+
                                  "; re-attest to the register"
           | None => "no conflict-of-interest attestation on file"
           end]).

Definition assertEligible (now1 now2 : Z) (actor : string) (request : RecusalRequest)
    : M coi coi_error unit :=
  λ c, let '(c', e) := checkEligibility now1 now2 actor request c in
       (c', match e with Eligible => Ok tt | Ineligible code _ => Throw code end).

(** [list]; the order of ids is the locale's. *)
Definition list_disclosures (localeCompare : string → string → comparison) (now : Z)
    (actor : option string) (status : option CoiDisclosureStatus) (c : coi)
    : coi * list CoiDisclosure :=
  let c := fst (sweep now c) in
  (c, stable_sort (cmp_leb (cmp_on cd_id localeCompare))
        (filter (λ d, default true ((λ s, bool_decide (cd_status d = s)) <$> status) = true)
           (filter (λ d, default true ((λ a, bool_decide (cd_actor d = a)) <$> actor) = true)
              (jm_values (disclosures c))))).

(** ** Recusal is a property of the declarations *)

Definition is_recused (actor : string) (request : RecusalRequest) (c : coi) : Prop :=
  ∃ id d, jm_get id (disclosures c) = Some d ∧ recuses actor request d = true.

Record coi_ok (c : coi) : Prop := {
  ok_wf : jm_wf (disclosures c);
  ok_count : 0 ≤ disclosureCount c;
  ok_ids id d : jm_get id (disclosures c) = Some d →
    ∃ n, 1 ≤ n ≤ disclosureCount c ∧ id = disclosure_id n;
}.

#[export] Instance disclosure_id_inj : Inj (=) (=) disclosure_id.
Proof. intros n m. unfold disclosure_id. simpl. intros [= H]. exact (pretty_Z_inj _ _ H). Qed.

Lemma fresh_id c : coi_ok c → jm_get (disclosure_id (disclosureCount c + 1)) (disclosures c) = None.
Proof.
  intros Hok. destruct (jm_get _ _) as [d|] eqn:E; [|done].
  destruct (ok_ids _ Hok _ _ E) as (n & Hn & Heq). apply (inj disclosure_id) in Heq. lia.
Qed.

Lemma recuses_expire now actor request d :
  recuses actor request (expire now d) = recuses actor request d.
Proof.
  unfold expire. destruct (due now d) eqn:E; [|done]. unfold due in E. to_prop.
  unfold recuses, scope_matches. simpl.
  match goal with H : cd_status d = DActive |- _ => rewrite H end. done.
Qed.

Lemma sweep_recused now actor request c :
  is_recused actor request (fst (sweep now c)) ↔ is_recused actor request c.
Proof.
  unfold is_recused, sweep. simpl. setoid_rewrite jm_get_map_values. split.
  - intros (id & d & Hget & Hr). destruct (jm_get id (disclosures c)) as [d0|] eqn:E; [|done].
    injection Hget as <-. rewrite recuses_expire in Hr. eauto.
  - intros (id & d & Hget & Hr). exists id, (expire now d). rewrite Hget. simpl.
    by rewrite recuses_expire.
Qed.

Lemma recusalReasons_nil now actor request c :
  coi_ok c →
  snd (recusalReasons now actor request c) ≠ [] ↔ is_recused actor request c.
Proof.
  intros Hok. rewrite <- (sweep_recused now). unfold recusalReasons. cbn [snd fst].
  set (c' := fst (sweep now c)).
  assert (jm_wf (disclosures c')) as Hwf by (apply jm_wf_map_values, Hok).
  set (l := filter _ _). assert (stable_sort (cmp_leb String.compare) (reason_text <$> l) ≠ [] ↔
    ∃ d, d ∈ l) as ->.
  { rewrite <- length_zero_iff_nil, stable_sort_length, length_fmap, length_zero_iff_nil.
    destruct l as [|d l']; [set_solver|]. split; [|done]. exists d. set_solver. }
  unfold l, is_recused. setoid_rewrite list_elem_of_filter. split.
  - intros (d & Hr & (id & Hget)%jm_value_inv); [eauto|done].
  - intros (id & d & Hget & Hr). eauto using jm_value_elem.
Qed.

(** ** Operations *)

Inductive coi_op : Type :=
| ODeclare (now : Z) (input : declare_input)
| OWithdraw (now : Z) (id actor : string)
| OSweep (now : Z)
| OAttest (validity now : Z) (actor : string) (statement : option string).

Definition run_op (op : coi_op) (c : coi) : coi :=
  match op with
  | ODeclare now input => fst (declare now input c)
  | OWithdraw now id actor => fst (withdraw now id actor c)
  | OSweep now => fst (sweep now c)
  | OAttest validity now actor statement => fst (attest validity now actor statement c)
  end.

Definition reachable (c : coi) : Prop := ∃ ops, c = foldl (flip run_op) newCoi ops.

Lemma requireText_ok {St} v (s s' : St) a :
  requireText v s = (s', Ok a) → s' = s ∧ is_blank v = false ∧ a = trim v.
Proof. unfold requireText. intros. inv_ok. by to_prop. Qed.

Lemma requireText_reads {St} v : reads (@requireText St v).
Proof. apply reads_bind; auto with oracle. Qed.
#[local] Hint Resolve requireText_reads : oracle.

(** A refused operation leaves the register as it was. *)
Lemma declare_atomic now input : atomic (declare now input).
Proof. unfold declare. solve_atomic. Qed.
Lemma withdraw_atomic now id actor : atomic (withdraw now id actor).
Proof. unfold withdraw. solve_atomic. Qed.

Lemma declare_cases now input c :
  fst (declare now input c) = c ∨
  ∃ d, fst (declare now input c) =
      mkCoi (jm_set (disclosure_id (disclosureCount c + 1)) d (disclosures c))
        (attestations c) (disclosureCount c + 1) ∧
    cd_status d = DActive ∧ now < cd_expiresAt d ≤ now + maxDisclosureSeconds * 1000.
Proof.
  destruct (declare now input c) as [c' [d|e]] eqn:E.
  - right. exists d. simpl. unfold declare in E.
    repeat (inv_ok; match goal with
    | H : requireText _ _ = (_, Ok _) |- _ => apply requireText_ok in H as (? & ? & ?)
    | H : (match ?o with Some _ => throw _ | None => _ end) _ = (_, Ok _) |- _ => destruct o
    end). inv_ok. to_prop. simpl. split_and!; [done..|lia|lia].
  - left. exact (declare_atomic now input _ _ _ E).
Qed.

Lemma withdraw_cases now id actor c :
  fst (withdraw now id actor c) = c ∨
  ∃ d, jm_get id (disclosures c) = Some d ∧ cd_actor d = trim actor ∧
    cd_status d = DActive ∧
    fst (withdraw now id actor c) =
      with_disclosures (jm_set id (set_status DWithdrawn (Some now) d) (disclosures c)) c.
Proof.
  destruct (withdraw now id actor c) as [c' [d|e]] eqn:E.
  - right. unfold withdraw in E. inv_ok.
    match goal with H : requireText _ _ = (_, Ok _) |- _ => apply requireText_ok in H as (? & ? & ?) end.
    subst. inv_ok. to_prop. eauto 10.
  - left. exact (withdraw_atomic now id actor _ _ _ E).
Qed.

Lemma attest_disclosures validity now actor st c :
  disclosures (fst (attest validity now actor st c)) = disclosures c ∧
  disclosureCount (fst (attest validity now actor st c)) = disclosureCount c.
Proof.
  unfold attest, requireText, mbind, M_bind, require, modify, mret, M_ret. simpl.
  repeat case_match; simplify_eq; done.
Qed.

Lemma run_op_ok op c : coi_ok c → coi_ok (run_op op c).
Proof.
  intros Hok. pose proof Hok as [Hwf Hc Hids]. destruct op as [now i|now id a|now|v now a st]; simpl.
  - destruct (declare_cases now i c) as [->|(d & -> & _)]; [done|]. split; simpl;
      [by apply jm_wf_set|lia|]. intros id d'. rewrite jm_get_set. case_decide; subst.
    + intros _. exists (disclosureCount c + 1). split; [lia|done].
    + intros (n & ? & ?)%Hids. exists n. split; [lia|done].
  - destruct (withdraw_cases now id a c) as [->|(d & Hget & _ & _ & ->)]; [done|].
    split; simpl; [by apply jm_wf_set|done|]. intros id' d'. rewrite jm_get_set.
    case_decide; subst; [intros _; by eapply Hids|apply Hids].
  - split; simpl; [by apply jm_wf_map_values|done|]. intros id d'. rewrite jm_get_map_values.
    destruct (jm_get id (disclosures c)) eqn:E; [|done]. intros _. by eapply Hids.
  - destruct (attest_disclosures v now a st c) as [E1 E2]. split; rewrite ?E1, ?E2; done.
Qed.

Lemma reachable_ok c : reachable c → coi_ok c.
Proof.
  intros [ops ->]. assert (coi_ok newCoi) as H by (split; [apply jm_wf_empty|done|done]).
  revert H. generalize newCoi. induction ops as [|op ops IH]; intros c Hc; [done|].
  apply IH. by apply run_op_ok.
Qed.

(** ** What the register promises *)

Lemma attest_recused validity now a st actor request c :
  is_recused actor request (fst (attest validity now a st c)) ↔ is_recused actor request c.
Proof. unfold is_recused. by rewrite (proj1 (attest_disclosures validity now a st c)). Qed.

Lemma declare_recused now input actor request c :
  coi_ok c → is_recused actor request c → is_recused actor request (fst (declare now input c)).
Proof.
  intros Hok (id & d & Hget & Hr). destruct (declare_cases now input c) as [->|(d' & -> & _)].
  { by exists id, d. }
  exists id, d. simpl. split; [|done]. rewrite jm_get_set_ne; [done|].
  intros Heq. subst id. by rewrite fresh_id in Hget.
Qed.

(** C33: A conflict, once declared, recuses its author until the author
    withdraws it: if a decision is barred to an actor before an operation of
    the register and open after it, whatever the clock readings, then the
    operation is the withdrawal, by that same actor, of an active declaration
    that bears on the decision.  Expiry, new declarations, attestations and
    other people's calls never lift a recusal. *)
Theorem recusal_lifted_only_by_owner c op actor request t1 t2 :
  reachable c →
  snd (recusalReasons t1 actor request c) ≠ [] →
  snd (recusalReasons t2 actor request (run_op op c)) = [] →
  ∃ now id caller d, op = OWithdraw now id caller ∧ trim caller = actor ∧
    jm_get id (disclosures c) = Some d ∧ cd_actor d = actor ∧ cd_status d = DActive ∧
    scope_matches request d = true.
Proof.
  intros Hok%reachable_ok Hbefore%recusalReasons_nil Hafter; [|done].
  assert (¬ is_recused actor request (run_op op c)) as Hnot.
  { rewrite <- (recusalReasons_nil t2) by (by apply run_op_ok). intros H. by apply H. }
  destruct op as [now i|now id a|now|v now a st]; simpl in Hnot.
  - exfalso. apply Hnot. by apply declare_recused.
  - destruct (withdraw_cases now id a c) as [Hc|(d & Hget & Ha & Hact & Hc)]; [destruct Hnot; by rewrite Hc|].
    exists now, id, a, d. destruct Hbefore as (id0 & d0 & Hget0 & Hr0).
    destruct (decide (id0 = id)) as [->|Hne].
    + rewrite Hget in Hget0. injection Hget0 as <-. unfold recuses in Hr0.
      apply andb_true_iff in Hr0 as [Hr1 Hr2]. to_prop. split_and!; congruence.
    + exfalso. apply Hnot. rewrite Hc. exists id0, d0. simpl. split; [|done].
      by rewrite jm_get_set_ne.
  - exfalso. apply Hnot. by apply sweep_recused.
  - exfalso. apply Hnot. by apply attest_recused.
Qed.

Definition demo_declare : declare_input :=
  mkDeclare "bob" "financial" "XLM" "asset" None None true.
Definition demo_coi : coi := run_op (ODeclare 1000 demo_declare) newCoi.
Definition demo_request : RecusalRequest := mkRecusal ["xlm"%string] [].

Lemma recusal_lifted_only_by_owner_witness :
  ∃ now id caller d, OWithdraw 3000 "coi_1" " bob " = OWithdraw now id caller ∧
    trim caller = "bob"%string ∧ jm_get id (disclosures demo_coi) = Some d ∧
    cd_actor d = "bob"%string ∧ cd_status d = DActive ∧ scope_matches demo_request d = true.
Proof.
  apply (recusal_lifted_only_by_owner demo_coi (OWithdraw 3000 "coi_1" " bob ") "bob"
           demo_request 2000 4000).
  - by exists [ODeclare 1000 demo_declare].
  - by vm_compute.
  - vm_compute. reflexivity.
Defined.

(** Not being recused, in terms of the declarations alone. *)
Lemma not_recused actor request c :
  ¬ is_recused actor request c ↔
  ∀ id d, jm_get id (disclosures c) = Some d → cd_actor d = actor →
    cd_status d ≠ DWithdrawn → scope_matches request d = false.
Proof.
  split.
  - intros Hn id d Hget Ha Hw. destruct (scope_matches request d) eqn:Es; [|done].
    destruct Hn. exists id, d. split; [done|]. unfold recuses.
    by rewrite Es, bool_decide_eq_true_2, bool_decide_eq_false_2 by done.
  - intros Hall (id & d & Hget & Hr). unfold recuses in Hr. apply andb_true_iff in Hr as [H1 H2].
    to_prop. rewrite (Hall id d) in H2; done.
Qed.

(** Eligibility is exact: an actor may take part in a decision precisely
    when their attestation is still valid and no declaration of theirs that
    was not withdrawn bears on the decision, and in that case the check throws
    nothing. *)
Theorem eligible_iff c now1 now2 actor request :
  reachable c →
  snd (assertEligible now1 now2 actor request c) = Ok tt ↔
  (∃ a, jm_get actor (attestations c) = Some a ∧ now1 < ca_expiresAt a) ∧
  ∀ id d, jm_get id (disclosures c) = Some d → cd_actor d = actor →
    cd_status d ≠ DWithdrawn → scope_matches request d = false.
Proof.
  intros Hok%reachable_ok. pose proof (recusalReasons_nil now2 actor request c Hok) as Hnil.
  unfold assertEligible, checkEligibility, attestationStatus.
  destruct (jm_get actor (attestations c)) as [a|]; cbn [as_valid]; [|naive_solver].
  destruct (ca_expiresAt a <=? now1) eqn:Ea; to_prop; cbn [negb].
  { split; [done|]. intros [(a' & [= <-] & ?) _]. lia. }
  destruct (recusalReasons now2 actor request c) as [c' reasons] eqn:Er. cbn [snd] in *.
  destruct reasons as [|r rs]; simpl.
  - split; [intros _|done]. split; [by exists a|]. apply not_recused.
    intros Hr%Hnil. by apply Hr.
  - split; [done|]. intros [_ Hall%not_recused]. destruct Hall. by apply Hnil.
Qed.

Lemma eligible_iff_witness :
  snd (assertEligible 2000 2000 "bob" (mkRecusal ["USDC"%string] [])
         (run_op (OAttest 60 1500 "bob" None) demo_coi)) = Ok tt.
Proof.
  apply (eligible_iff (run_op (OAttest 60 1500 "bob" None) demo_coi)).
  - by exists [ODeclare 1000 demo_declare; OAttest 60 1500 "bob" None].
  - split; [by eexists; split; [vm_compute; reflexivity|vm_compute; reflexivity]|].
    intros id d Hget%jm_get_elem _ _. vm_compute in Hget.
    apply list_elem_of_singleton in Hget. injection Hget as _ ->. vm_compute. reflexivity.
Defined.

(** A declaration that has been marked expired recuses its author for
    ever: no sequence of operations at any times, re-declaring and withdrawing
    included, opens a decision it bears on. *)
Theorem expired_recusal_permanent c id d request ops t :
  reachable c → jm_get id (disclosures c) = Some d → cd_status d = DExpired →
  scope_matches request d = true →
  snd (recusalReasons t (cd_actor d) request (foldl (flip run_op) c ops)) ≠ [].
Proof.
  intros Hok%reachable_ok Hget Hexp Hm.
  assert (coi_ok (foldl (flip run_op) c ops) ∧
          jm_get id (disclosures (foldl (flip run_op) c ops)) = Some d) as [Hok' Hget'].
  { revert c Hok Hget. induction ops as [|op ops IH]; intros c Hok Hget; [done|]. simpl.
    apply IH; [by apply run_op_ok|]. destruct op as [now i|now id' a|now|v now a st]; simpl.
    - destruct (declare_cases now i c) as [->|(d' & -> & _)]; [done|]. simpl.
      rewrite jm_get_set_ne; [done|]. intros <-. by rewrite fresh_id in Hget.
    - destruct (withdraw_cases now id' a c) as [->|(d' & Hget' & _ & Hact & ->)]; [done|]. simpl.
      rewrite jm_get_set_ne; [done|]. intros <-. congruence.
    - rewrite jm_get_map_values, Hget. simpl. unfold expire, due. by rewrite Hexp.
    - by rewrite (proj1 (attest_disclosures v now a st c)). }
  apply recusalReasons_nil; [done|]. exists id, d. split; [done|]. unfold recuses.
  by rewrite Hm, Hexp, bool_decide_eq_true_2, bool_decide_eq_false_2 by done.
Qed.

Definition demo_expired : coi := run_op (OSweep 40000000000) demo_coi.

Lemma expired_recusal_permanent_witness :
  snd (recusalReasons 50000000000 "bob" demo_request
    (foldl (flip run_op) demo_expired
       [ODeclare 40000000001 demo_declare; OWithdraw 40000000002 "coi_2" "bob";
        OWithdraw 40000000003 "coi_1" "bob"])) ≠ [].
Proof.
  refine (expired_recusal_permanent demo_expired "coi_1"
    (mkDisclosure "coi_1" "bob" Financial "XLM" ScopeAsset "" 1000 31536001000 DExpired None)
    demo_request _ 50000000000 _ _ _ _).
  - by exists [ODeclare 1000 demo_declare; OSweep 40000000000].
  - vm_compute. reflexivity.
  - reflexivity.
  - vm_compute. reflexivity.
Defined.

(** ** Interface to the other registries

    The emergency and catalog registries receive the register as a function
    [isRecused]; what they rely on is that it answers with a reason exactly for
    the barred actors. *)

Class RecusalOracle (isRecused : string → RecusalRequest → list string)
    (barred : string → RecusalRequest → Prop) : Prop :=
  recusal_spec actor request : isRecused actor request ≠ [] ↔ barred actor request.

(** The register discharges the interface, whatever the time of the question. *)
Lemma coi_recusal_oracle c now :
  coi_ok c →
  RecusalOracle (λ a r, snd (recusalReasons now a r c)) (λ a r, is_recused a r c).
Proof. intros Hok a r. by apply recusalReasons_nil. Qed.
