(* ===== verification/Emergency.v ===== *)
(** * Emergency actions

    Models [api/src/governance/emergency-actions.ts]: the registry of
    restrictive, time-bounded emergency actions with independent review,
    renewal, revocation, disclosure, the expiry sweep and the overlays the
    catalog consults.

    Every [this.now()] is a separate argument: [ts] is the reading of the
    [sweep] an operation starts with, [now] the reading of the operation
    itself.  A duration argument is the whole number of milliseconds it adds,
    or [DurInvalid] when the sum is not a date.  [isRecused] and
    [currentPolicyVersion] are the injected dependencies. *)

From Stdlib Require Import ZArith Lia.
From stdpp Require Import base tactics decidable list sets strings gmap relations.
From S2P Require Import Prelude JsMap CoiRegister.

Local Open Scope Z_scope.

Inductive EmergencyActionKind : Type := PauseFeed | FreezeSource | HaltPublishing.
Inductive EmergencyActionStatus : Type :=
| EActive | EReviewed | EExpired | ERevoked | EExpiredUnreviewed.
Inductive review_decision : Type := Confirm | Overturn.

#[export] Instance ekind_eq_dec : EqDecision EmergencyActionKind.
Proof. solve_decision. Defined.
#[export] Instance estatus_eq_dec : EqDecision EmergencyActionStatus.
Proof. solve_decision. Defined.
#[export] Instance decision_eq_dec : EqDecision review_decision.
Proof. solve_decision. Defined.

Record Disclosure : Type := mkDisclosed {
  ds_publishedAt : option Z;
  ds_publishedBy : option string;
  ds_summary : option string;
  ds_overdue : option bool;
}.

Record EmergencyAction : Type := mkAction {
  ea_id : Z;
  ea_kind : EmergencyActionKind;
  ea_asset : option string;
  ea_source : option string;
  ea_reason : string;
  ea_actor : string;
  ea_createdAt : Z;
  ea_expiresAt : Z;
  ea_reviewDeadlineAt : Z;
  ea_status : EmergencyActionStatus;
  ea_reviewer : option string;
  ea_reviewedAt : option Z;
  ea_reviewDecision : option review_decision;
  ea_reviewOverdue : option bool;
  ea_renewals : Z;
  ea_policyVersionAtCreation : Z;
  ea_revokedBy : option string;
  ea_revokedAt : option Z;
  ea_revocationReason : option string;
  ea_disclosure : Disclosure;
}.

(** [EMERGENCY_LIMITS], in milliseconds where the code multiplies by 1000. *)
Definition maxDurationMs : Z := 72 * 60 * 60 * 1000.
Definition reviewWindowMs : Z := 24 * 60 * 60 * 1000.
Definition disclosureWindowMs : Z := 24 * 60 * 60 * 1000.
Definition maxRenewals : Z := 2.
Definition maxReasonLength : Z := 500.
Definition maxDisclosureLength : Z := 2000.

Definition kind_name (k : EmergencyActionKind) : string :=
  match k with
  | PauseFeed => "pause-feed"
  | FreezeSource => "freeze-source"
  | HaltPublishing => "halt-publishing"
  end.
Definition RESTRICTIVE_KINDS : list EmergencyActionKind :=
  [PauseFeed; FreezeSource; HaltPublishing].
Definition kind_of (text : string) : option EmergencyActionKind :=
  List.find (λ k, bool_decide (kind_name k = text)) RESTRICTIVE_KINDS.

Inductive emergency_error : Type :=
| EM_INVALID_REQUEST
| EMERGENCY_KIND_NOT_PERMITTED
| REASON_TOO_LONG
| EXPIRY_REQUIRED
| EM_INVALID_EXPIRY
| EXPIRY_NOT_EXTENDING
| EM_EXPIRY_TOO_FAR
| SCOPE_REQUIRED
| SCOPE_NOT_ALLOWED
| DUPLICATE_EMERGENCY_ACTION (id : Z)
| EMERGENCY_ACTION_NOT_FOUND
| ALREADY_REVIEWED
| EMERGENCY_ACTION_CLOSED
| REVIEW_DEADLINE_PASSED
| INDEPENDENT_REVIEW_REQUIRED
| EM_ATTESTATION_REQUIRED
| EM_CONFLICT_OF_INTEREST (reasons : list string)
| REVIEW_REQUIRED_BEFORE_RENEWAL
| RENEWAL_LIMIT_REACHED
| RENEWAL_TOO_LONG
| RENEWAL_TOTAL_CAP_EXCEEDED
| DISCLOSURE_TOO_LONG
| DISCLOSURE_BEFORE_CLOSE
| DISCLOSURE_ALREADY_PUBLISHED.

Record emergency : Type := mkEmergency {
  actions : jsmap Z EmergencyAction;
  actionCount : Z;
}.

Definition newEmergency : emergency := mkEmergency jm_empty 0.

Abbreviation EM := (M emergency emergency_error).

Definition em_requireText (value : string) : EM string :=
  require (negb (is_blank value)) EM_INVALID_REQUEST ;; mret (trim value).

Definition isOpen (a : EmergencyAction) : bool :=
  bool_decide (ea_status a = EActive) || bool_decide (ea_status a = EReviewed).

(** JavaScript truthiness of an optional string. *)
Definition truthy (s : option string) : bool :=
  match s with Some s => negb (bool_decide (s = EmptyString)) | None => false end.

Definition recusalRequestFor (a : EmergencyAction) : RecusalRequest :=
  mkRecusal (if truthy (ea_asset a) then option_list (ea_asset a) else [])
            (if truthy (ea_source a) then option_list (ea_source a) else []).

Inductive duration_arg : Type := DurMs (ms : Z) | DurInvalid.

Definition resolveExpiry (now : Z) (expiresAt : option date_text)
    (duration : option duration_arg) (floor : option Z) : result emergency_error Z :=
  let resolved :=
    match expiresAt with
    | Some (DInstant ms) => Ok ms
    | Some DInvalid => Throw EM_INVALID_EXPIRY
    | _ =>
        match duration with
        | None => Throw EXPIRY_REQUIRED
        | Some DurInvalid => Throw EM_INVALID_EXPIRY
        | Some (DurMs ms) => Ok (now + ms)
        end
    end in
  match resolved with
  | Throw e => Throw e
  | Ok resolved =>
      let lowerBound := default now floor in
      if resolved <=? lowerBound then Throw EXPIRY_NOT_EXTENDING
      else if bool_decide (floor = None) && (now + maxDurationMs <? resolved)
      then Throw EM_EXPIRY_TOO_FAR
      else Ok resolved
  end.

Section updates.
Implicit Types a : EmergencyAction.

Definition set_status a (s : EmergencyActionStatus) : EmergencyAction :=
  mkAction (ea_id a) (ea_kind a) (ea_asset a) (ea_source a) (ea_reason a) (ea_actor a)
    (ea_createdAt a) (ea_expiresAt a) (ea_reviewDeadlineAt a) s (ea_reviewer a)
    (ea_reviewedAt a) (ea_reviewDecision a) (ea_reviewOverdue a) (ea_renewals a)
    (ea_policyVersionAtCreation a) (ea_revokedBy a) (ea_revokedAt a)
    (ea_revocationReason a) (ea_disclosure a).
Definition set_reviewOverdue a (b : bool) : EmergencyAction :=
  mkAction (ea_id a) (ea_kind a) (ea_asset a) (ea_source a) (ea_reason a) (ea_actor a)
    (ea_createdAt a) (ea_expiresAt a) (ea_reviewDeadlineAt a) (ea_status a) (ea_reviewer a)
    (ea_reviewedAt a) (ea_reviewDecision a) (Some b) (ea_renewals a)
    (ea_policyVersionAtCreation a) (ea_revokedBy a) (ea_revokedAt a)
    (ea_revocationReason a) (ea_disclosure a).
Definition set_review a (who : string) (now : Z) (d : review_decision) : EmergencyAction :=
  mkAction (ea_id a) (ea_kind a) (ea_asset a) (ea_source a) (ea_reason a) (ea_actor a)
    (ea_createdAt a) (ea_expiresAt a) (ea_reviewDeadlineAt a) (ea_status a) (Some who)
    (Some now) (Some d) (Some false) (ea_renewals a)
    (ea_policyVersionAtCreation a) (ea_revokedBy a) (ea_revokedAt a)
    (ea_revocationReason a) (ea_disclosure a).
Definition set_revoked a (who : string) (now : Z) (why : option string) : EmergencyAction :=
  mkAction (ea_id a) (ea_kind a) (ea_asset a) (ea_source a) (ea_reason a) (ea_actor a)
    (ea_createdAt a) (ea_expiresAt a) (ea_reviewDeadlineAt a) ERevoked (ea_reviewer a)
    (ea_reviewedAt a) (ea_reviewDecision a) (ea_reviewOverdue a) (ea_renewals a)
    (ea_policyVersionAtCreation a) (Some who) (Some now) why (ea_disclosure a).
Definition set_disclosure a (d : Disclosure) : EmergencyAction :=
  mkAction (ea_id a) (ea_kind a) (ea_asset a) (ea_source a) (ea_reason a) (ea_actor a)
    (ea_createdAt a) (ea_expiresAt a) (ea_reviewDeadlineAt a) (ea_status a) (ea_reviewer a)
    (ea_reviewedAt a) (ea_reviewDecision a) (ea_reviewOverdue a) (ea_renewals a)
    (ea_policyVersionAtCreation a) (ea_revokedBy a) (ea_revokedAt a)
    (ea_revocationReason a) d.
Definition set_renewed a (expiresAt reviewDeadline : Z) : EmergencyAction :=
  mkAction (ea_id a) (ea_kind a) (ea_asset a) (ea_source a) (ea_reason a) (ea_actor a)
    (ea_createdAt a) expiresAt reviewDeadline EActive None None None (Some false)
    (ea_renewals a + 1) (ea_policyVersionAtCreation a) (ea_revokedBy a) (ea_revokedAt a)
    (ea_revocationReason a) (ea_disclosure a).
End updates.

(** The body of the [sweep] loop. *)
Definition sweepAction (now : Z) (a : EmergencyAction) : EmergencyAction :=
  let expired := ea_expiresAt a <=? now in
  let a := if isOpen a && expired
           then set_status a (if decide (ea_status a = EReviewed) then EExpired
                              else EExpiredUnreviewed)
           else a in
  let a := if bool_decide (ea_reviewedAt a = None) && negb (isOpen a) &&
              bool_decide (ea_status a = EExpiredUnreviewed)
           then set_reviewOverdue a true else a in
  if bool_decide (ds_publishedAt (ea_disclosure a) = None) &&
     (ea_expiresAt a + disclosureWindowMs <=? now)
  then set_disclosure a (mkDisclosed (ds_publishedAt (ea_disclosure a))
         (ds_publishedBy (ea_disclosure a)) (ds_summary (ea_disclosure a)) (Some true))
  else a.

Definition sweepAll (now : Z) (r : emergency) : emergency :=
  mkEmergency (jm_map_values (sweepAction now) (actions r)) (actionCount r).

Definition sweep (now : Z) (r : emergency) : emergency * Z :=
  (sweepAll now r,
   Z.of_nat (length (filter (λ a, isOpen a && (ea_expiresAt a <=? now) = true)
                       (jm_values (actions r))))).

Definition put (a : EmergencyAction) (r : emergency) : emergency :=
  mkEmergency (jm_set (ea_id a) a (actions r)) (actionCount r).

Record open_input : Type := mkOpen {
  oi_kind : string;
  oi_reason : string;
  oi_actor : string;
  oi_asset : option string;
  oi_source : option string;
  oi_expiresAt : option date_text;
  oi_duration : option duration_arg;
}.

Definition same_scope (k : EmergencyActionKind) (asset source : option string)
    (a : EmergencyAction) : bool :=
  isOpen a && bool_decide (ea_kind a = k) && bool_decide (ea_asset a = asset) &&
  bool_decide (ea_source a = source).

Definition open (now ts : Z) (policyVersion : Z) (input : open_input) : EM EmergencyAction :=
  actor ← em_requireText (oi_actor input);
  kind ← require_some (λ _, kind_of (oi_kind input)) EMERGENCY_KIND_NOT_PERMITTED;
  reason ← em_requireText (oi_reason input);
  require (negb (maxReasonLength <? strlen reason)) REASON_TOO_LONG ;;
  expiresAt ← lift (resolveExpiry now (oi_expiresAt input) (oi_duration input) None);
  let asset := (λ s, toUpperCase (trim s)) <$> oi_asset input in
  let source := (λ s, toLowerCase (trim s)) <$> oi_source input in
  require (negb (bool_decide (kind = PauseFeed) && negb (truthy asset))) SCOPE_REQUIRED ;;
  require (negb (bool_decide (kind = FreezeSource) && negb (truthy source))) SCOPE_REQUIRED ;;
  require (negb (bool_decide (kind = HaltPublishing) && (truthy asset || truthy source)))
    SCOPE_NOT_ALLOWED ;;
  modify (sweepAll ts) ;;
  duplicate ← gets (λ r, List.find (same_scope kind asset source) (jm_values (actions r)));
  (match duplicate with
   | Some a => throw (DUPLICATE_EMERGENCY_ACTION (ea_id a))
   | None => mret tt
   end) ;;
  count ← gets actionCount;
  let a := mkAction (count + 1) kind asset source reason actor now expiresAt
             (Z.min (now + reviewWindowMs) expiresAt) EActive None None None None 0
             policyVersion None None None (mkDisclosed None None None None) in
  modify (λ r, mkEmergency (jm_set (count + 1) a (actions r)) (count + 1)) ;;
  mret a.

Definition requireAction (id : Z) : EM EmergencyAction :=
  require_some (λ r, jm_get id (actions r)) EMERGENCY_ACTION_NOT_FOUND.

(** [get] *)
Definition getAction (ts : Z) (id : Z) : EM EmergencyAction :=
  modify (sweepAll ts) ;; requireAction id.

Definition review (isRecused : string → RecusalRequest → list string) (ts now : Z) (id : Z)
    (reviewer : string) (decision : review_decision) (attested : bool) : EM EmergencyAction :=
  actor ← em_requireText reviewer;
  modify (sweepAll ts) ;;
  a ← requireAction id;
  require (negb (bool_decide (ea_status a = EReviewed))) ALREADY_REVIEWED ;;
  require (bool_decide (ea_status a = EActive)) EMERGENCY_ACTION_CLOSED ;;
  require_or (negb (ea_reviewDeadlineAt a <? now)) (put (set_reviewOverdue a true))
    REVIEW_DEADLINE_PASSED ;;
  require (negb (bool_decide (actor = ea_actor a))) INDEPENDENT_REVIEW_REQUIRED ;;
  require attested EM_ATTESTATION_REQUIRED ;;
  (let reasons := isRecused actor (recusalRequestFor a) in
   require (bool_decide (reasons = [])) (EM_CONFLICT_OF_INTEREST reasons)) ;;
  let a := set_review a actor now decision in
  let a := match decision with
           | Overturn => set_revoked a actor now
                           (Some "overturned on independent review"%string)
           | Confirm => set_status a EReviewed
           end in
  modify (put a) ;;
  mret a.

Definition renew (ts now : Z) (id : Z) (actor : string) (expires : option date_text)
    (duration : option duration_arg) : EM EmergencyAction :=
  em_requireText actor ;;
  modify (sweepAll ts) ;;
  a ← requireAction id;
  require (bool_decide (ea_status a = EReviewed)) REVIEW_REQUIRED_BEFORE_RENEWAL ;;
  require (negb (maxRenewals <=? ea_renewals a)) RENEWAL_LIMIT_REACHED ;;
  expiresAt ← lift (resolveExpiry now expires duration (Some (ea_expiresAt a)));
  require (negb (ea_expiresAt a + maxDurationMs <? expiresAt)) RENEWAL_TOO_LONG ;;
  require (negb (ea_createdAt a + maxDurationMs * (ea_renewals a + 2) <? expiresAt))
    RENEWAL_TOTAL_CAP_EXCEEDED ;;
  let a := set_renewed a expiresAt (Z.min (now + reviewWindowMs) expiresAt) in
  modify (put a) ;;
  mret a.

Definition revoke (ts now : Z) (id : Z) (actor : string) (reason : option string)
    : EM EmergencyAction :=
  caller ← em_requireText actor;
  modify (sweepAll ts) ;;
  a ← requireAction id;
  require (isOpen a) EMERGENCY_ACTION_CLOSED ;;
  require (negb (match reason with
                 | Some s => maxReasonLength <? strlen s
                 | None => false
                 end)) REASON_TOO_LONG ;;
  let a := set_revoked a caller now (s ← reason; if is_blank s then None else Some (trim s)) in
  modify (put a) ;;
  mret a.

Definition publishDisclosure (ts now : Z) (id : Z) (summary actor : string)
    : EM EmergencyAction :=
  caller ← em_requireText actor;
  summary ← em_requireText summary;
  require (negb (maxDisclosureLength <? strlen summary)) DISCLOSURE_TOO_LONG ;;
  modify (sweepAll ts) ;;
  a ← requireAction id;
  require (negb (isOpen a)) DISCLOSURE_BEFORE_CLOSE ;;
  require (bool_decide (ds_publishedAt (ea_disclosure a) = None)) DISCLOSURE_ALREADY_PUBLISHED ;;
  let a := set_disclosure a (mkDisclosed (Some now) (Some caller) (Some summary)
             (Some (ea_expiresAt a + disclosureWindowMs <? now))) in
  modify (put a) ;;
  mret a.

Record overlays : Type := mkOverlays {
  ov_assets : list string;
  ov_sources : list string;
  ov_halted : bool;
}.

(** One action's contribution to [activeOverlays]; the sets are lists of their
    elements. *)
Definition addOverlay (o : overlays) (a : EmergencyAction) : overlays :=
  if isOpen a then
    mkOverlays
      (if bool_decide (ea_kind a = PauseFeed) && truthy (ea_asset a)
       then ov_assets o ++ option_list (ea_asset a) else ov_assets o)
      (if bool_decide (ea_kind a = FreezeSource) && truthy (ea_source a)
       then ov_sources o ++ option_list (ea_source a) else ov_sources o)
      (ov_halted o || bool_decide (ea_kind a = HaltPublishing))
  else o.

Definition activeOverlays (ts : Z) (r : emergency) : emergency * overlays :=
  let r := sweepAll ts r in
  (r, foldl addOverlay (mkOverlays [] [] false) (jm_values (actions r))).

Definition isFrozen (ts : Z) (asset : string) (r : emergency) : emergency * bool :=
  let '(r, o) := activeOverlays ts r in
  (r, ov_halted o || bool_decide (toUpperCase (trim asset) ∈ ov_assets o)).

Definition isSourceFrozen (ts : Z) (source : string) (r : emergency) : emergency * bool :=
  let '(r, o) := activeOverlays ts r in
  (r, ov_halted o || bool_decide (toLowerCase (trim source) ∈ ov_sources o)).

Definition byId (a b : EmergencyAction) : comparison := Z.compare (ea_id a) (ea_id b).

Definition overdueReviews (ts now : Z) (r : emergency) : emergency * list EmergencyAction :=
  let r := sweepAll ts r in
  (r, stable_sort (cmp_leb byId)
        (filter (λ a, bool_decide (ea_status a = EActive) && (ea_reviewDeadlineAt a <? now) = true)
           (jm_values (actions r)))).

Definition overdueDisclosures (ts : Z) (r : emergency) : emergency * list EmergencyAction :=
  let r := sweepAll ts r in
  (r, stable_sort (cmp_leb byId)
        (filter (λ a, negb (isOpen a) && bool_decide (ds_publishedAt (ea_disclosure a) = None) &&
                      default false (ds_overdue (ea_disclosure a)) = true)
           (jm_values (actions r)))).

Definition list_actions (ts : Z) (status : option EmergencyActionStatus) (r : emergency)
    : emergency * list EmergencyAction :=
  let r := sweepAll ts r in
  (r, stable_sort (cmp_leb (cmp_flip byId))
        (filter (λ a, default true ((λ s, bool_decide (ea_status a = s)) <$> status) = true)
           (jm_values (actions r)))).

(** ** Invariant *)

Record action_ok (a : EmergencyAction) : Prop := {
  ao_renewals : 0 ≤ ea_renewals a ≤ maxRenewals;
  ao_bounded : ea_createdAt a < ea_expiresAt a ≤
               ea_createdAt a + maxDurationMs * (ea_renewals a + 1);
  ao_deadline : ea_reviewDeadlineAt a ≤ ea_expiresAt a;
  ao_reviewed : ea_status a = EReviewed →
    ea_reviewDecision a = Some Confirm ∧
    ∃ who, ea_reviewer a = Some who ∧ who ≠ ea_actor a;
  ao_closed : ds_publishedAt (ea_disclosure a) ≠ None → isOpen a = false;
  ao_scope :
    match ea_kind a with
    | PauseFeed => truthy (ea_asset a) = true
    | FreezeSource => truthy (ea_source a) = true
    | HaltPublishing => truthy (ea_asset a) = false ∧ truthy (ea_source a) = false
    end;
}.

Record emergency_ok (r : emergency) : Prop := {
  eo_wf : jm_wf (actions r);
  eo_count : 0 ≤ actionCount r;
  eo_action id a : jm_get id (actions r) = Some a →
    ea_id a = id ∧ 1 ≤ id ≤ actionCount r ∧ action_ok a;
}.

Lemma sweepAction_fields now a :
  let a' := sweepAction now a in
  ea_id a' = ea_id a ∧ ea_kind a' = ea_kind a ∧ ea_asset a' = ea_asset a ∧
  ea_source a' = ea_source a ∧ ea_actor a' = ea_actor a ∧ ea_createdAt a' = ea_createdAt a ∧
  ea_expiresAt a' = ea_expiresAt a ∧ ea_reviewDeadlineAt a' = ea_reviewDeadlineAt a ∧
  ea_reviewer a' = ea_reviewer a ∧ ea_reviewDecision a' = ea_reviewDecision a ∧
  ea_renewals a' = ea_renewals a ∧
  ds_publishedAt (ea_disclosure a') = ds_publishedAt (ea_disclosure a).
Proof. unfold sweepAction. split_ifs; simpl; split_and!; done. Qed.

Lemma sweepAction_status now a :
  ea_status (sweepAction now a) =
  if isOpen a && (ea_expiresAt a <=? now)
  then if decide (ea_status a = EReviewed) then EExpired else EExpiredUnreviewed
  else ea_status a.
Proof. unfold sweepAction. destruct (isOpen a && _); split_ifs; done. Qed.

(** After a sweep, the open actions are those still within their window. *)
Lemma sweepAction_open now a :
  isOpen (sweepAction now a) = isOpen a && (now <? ea_expiresAt a).
Proof.
  unfold isOpen at 1. rewrite sweepAction_status, Z.leb_antisym.
  destruct (isOpen a) eqn:E; simpl.
  - destruct (now <? ea_expiresAt a); simpl; [exact E|]. by destruct (decide _).
  - exact E.
Qed.

Lemma sweepAction_ok now a : action_ok a → action_ok (sweepAction now a).
Proof.
  intros Ha. destruct (sweepAction_fields now a)
    as (Hid & Hk & Has & Hso & Hac & Hcr & Hex & Hdl & Hrv & Hrd & Hrn & Hpb).
  split; rewrite ?Hk, ?Has, ?Hso, ?Hac, ?Hcr, ?Hex, ?Hdl, ?Hrv, ?Hrd, ?Hrn, ?Hpb; try apply Ha.
  - rewrite sweepAction_status. destruct (_ && _); [by destruct (decide _)|]. apply Ha.
  - intros Hp. rewrite sweepAction_open. apply andb_false_iff. left. by apply Ha.
Qed.

Lemma sweepAll_get now r id :
  jm_get id (actions (sweepAll now r)) = sweepAction now <$> jm_get id (actions r).
Proof. apply jm_get_map_values. Qed.

Lemma sweepAll_ok now r : emergency_ok r → emergency_ok (sweepAll now r).
Proof.
  intros [Hwf Hc Ha]. split; [by apply jm_wf_map_values|done|].
  intros id a'. rewrite sweepAll_get. destruct (jm_get id (actions r)) as [a|] eqn:E; [|done].
  intros [= <-]. destruct (Ha _ _ E) as (Hid & Hb & Hok).
  split_and!; [|lia|simpl; lia|by apply sweepAction_ok].
  by rewrite (proj1 (sweepAction_fields now a)).
Qed.

Lemma put_ok a a' r :
  emergency_ok r → jm_get (ea_id a) (actions r) = Some a → ea_id a' = ea_id a →
  action_ok a' → emergency_ok (put a' r).
Proof.
  intros [Hwf Hc Ha] Hget Hid Hok. split; simpl; [by apply jm_wf_set|done|].
  intros id a0. rewrite jm_get_set. case_decide; subst; [|apply Ha].
  intros [= <-]. destruct (Ha _ _ Hget) as (_ & ? & _). rewrite Hid. by split_and!; try lia.
Qed.

Lemma em_requireText_reads v : reads (em_requireText v).
Proof. apply reads_bind; auto with oracle. Qed.
#[local] Hint Resolve em_requireText_reads sweepAll_ok : oracle.

Lemma resolveExpiry_ok now e d floor t :
  resolveExpiry now e d floor = Ok t →
  default now floor < t ∧ (floor = None → t ≤ now + maxDurationMs).
Proof.
  unfold resolveExpiry. destruct (match e with Some _ => _ | None => _ end) as [t'|]; [|done].
  destruct (_ <=? _) eqn:E1; [done|]. destruct (_ && _) eqn:E2; [done|].
  intros [= <-]. to_prop. split; [lia|]. intros ->. simpl in E2. to_prop. lia.
Qed.

(** ** Every operation keeps the invariant *)

Inductive em_op : Type :=
| EOpen (now ts policyVersion : Z) (input : open_input)
| EReview (isRecused : string → RecusalRequest → list string) (ts now id : Z)
    (reviewer : string) (decision : review_decision) (attested : bool)
| ERenew (ts now id : Z) (actor : string) (expires : option date_text)
    (duration : option duration_arg)
| ERevoke (ts now id : Z) (actor : string) (reason : option string)
| EPublish (ts now id : Z) (summary actor : string)
| ESweep (ts : Z).

Definition run_em (op : em_op) (r : emergency) : emergency :=
  match op with
  | EOpen now ts pv input => fst (open now ts pv input r)
  | EReview rec ts now id who dec att => fst (review rec ts now id who dec att r)
  | ERenew ts now id who e d => fst (renew ts now id who e d r)
  | ERevoke ts now id who why => fst (revoke ts now id who why r)
  | EPublish ts now id summary who => fst (publishDisclosure ts now id summary who r)
  | ESweep ts => sweepAll ts r
  end.

Definition em_reachable (r : emergency) : Prop := ∃ ops, r = foldl (flip run_em) newEmergency ops.

(** The sweep an operation starts with. *)
Ltac run_sweep Hok :=
  apply run_modify;
  match goal with |- context [sweepAll ?ts ?r] =>
    let H := fresh Hok in
    assert (emergency_ok (sweepAll ts r)) as H by auto with oracle;
    let r' := fresh "r" in
    set (r' := sweepAll ts r) in *; clearbody r'
  end.

Lemma open_ok now ts pv input : preserves emergency_ok (open now ts pv input).
Proof.
  intros r Hr. unfold open. inv_run. run_sweep Hok. inv_run. simpl. to_prop.
  destruct Hok as [Hwf Hc Ha].
  match goal with H : resolveExpiry _ _ _ _ = Ok _ |- _ =>
    apply resolveExpiry_ok in H as [Hlo Hhi] end.
  simpl in Hlo. specialize (Hhi eq_refl). split; simpl; [by apply jm_wf_set|lia|].
  intros id0 act0. rewrite jm_get_set. destruct (decide _) as [<-|]; cycle 1.
  { intros (? & ? & ?)%Ha. split_and!; [done|lia|lia|done]. }
  intros [= <-]. split_and!; [done|lia|lia|].
  split; unfold maxRenewals; simpl; try done; [lia..|].
  match goal with |- match ?k with _ => _ end => destruct k end; simpl in *; to_prop;
    repeat match goal with H : bool_decide (_ = _) && _ = false |- _ =>
      rewrite bool_decide_eq_true_2 in H by done; simpl in H; to_prop end; auto.
Qed.

(** An action found after the sweep is stored under its id. *)
Lemma found_action r id a :
  emergency_ok r → jm_get id (actions r) = Some a →
  ea_id a = id ∧ jm_get (ea_id a) (actions r) = Some a ∧ action_ok a.
Proof. intros Hok Hget. destruct (eo_action _ Hok _ _ Hget) as (<- & _ & ?). done. Qed.

Lemma review_ok rec ts now id who dec att :
  preserves emergency_ok (review rec ts now id who dec att).
Proof.
  intros r Hr. unfold review. inv_run. run_sweep Hok. unfold requireAction. inv_run.
  match goal with H : jm_get _ _ = Some ?x |- _ =>
    destruct (found_action _ _ _ Hok H) as (_ & Hget & Ha); rename x into act end.
  apply run_require_or.
  { eapply put_ok; [done..|]. split; simpl; apply Ha. }
  intros ?. cbv zeta. inv_run. to_prop. eapply put_ok; [done|done|by destruct dec|].
  assert (act.(ea_status) = EActive) as Hact by done.
  assert (ds_publishedAt (ea_disclosure act) ≠ None → False) as Hp.
  { intros Hp%(ao_closed _ Ha). unfold isOpen in Hp. by rewrite Hact in Hp. }
  destruct dec; split; simpl; try apply Ha; try tauto.
  all: try done. intros _. split; [done|]. eexists. split; [done|congruence].
Qed.

Lemma renew_ok ts now id who e d : preserves emergency_ok (renew ts now id who e d).
Proof.
  intros r Hr. unfold renew. inv_run. run_sweep Hok. unfold requireAction. inv_run. to_prop.
  match goal with H : jm_get _ _ = Some ?x |- _ =>
    destruct (found_action _ _ _ Hok H) as (_ & Hget & Ha); rename x into act end.
  match goal with H : resolveExpiry _ _ _ _ = Ok _ |- _ =>
    apply resolveExpiry_ok in H as [Hlo _] end. simpl in Hlo.
  eapply put_ok; [done..|]. destruct Ha as [A1 A2 A3 A4 A5 A6].
  split; simpl; try done; try lia.
  intros Hp%A5. unfold isOpen in *.
  match goal with H : ea_status act = EReviewed |- _ => by rewrite H in Hp end.
Qed.

Lemma revoke_ok ts now id who why : preserves emergency_ok (revoke ts now id who why).
Proof.
  intros r Hr. unfold revoke. inv_run. run_sweep Hok. unfold requireAction. inv_run.
  match goal with H : jm_get _ _ = Some ?x |- _ =>
    destruct (found_action _ _ _ Hok H) as (_ & Hget & Ha) end.
  eapply put_ok; [done..|]. split; simpl; try done; apply Ha.
Qed.

Lemma publishDisclosure_ok ts now id summary who :
  preserves emergency_ok (publishDisclosure ts now id summary who).
Proof.
  intros r Hr. unfold publishDisclosure. inv_run. run_sweep Hok. unfold requireAction.
  inv_run. to_prop.
  match goal with H : jm_get _ _ = Some ?x |- _ =>
    destruct (found_action _ _ _ Hok H) as (_ & Hget & Ha) end.
  eapply put_ok; [done..|]. split; simpl; try apply Ha. done.
Qed.

Lemma run_em_ok op r : emergency_ok r → emergency_ok (run_em op r).
Proof.
  destruct op; simpl; intros Hr; [by apply open_ok|by apply review_ok|by apply renew_ok|
    by apply revoke_ok|by apply publishDisclosure_ok|by apply sweepAll_ok].
Qed.

Lemma em_reachable_ok r : em_reachable r → emergency_ok r.
Proof.
  intros [ops ->]. assert (emergency_ok newEmergency) as H
    by (split; [apply jm_wf_empty|done|done]).
  revert H. generalize newEmergency. induction ops as [|op ops IH]; intros r Hr; [done|].
  apply IH. by apply run_em_ok.
Qed.

(** ** What the registry promises *)

Lemma overlays_halted l o :
  ov_halted (foldl addOverlay o l) = true ↔
  ov_halted o = true ∨ ∃ a, a ∈ l ∧ isOpen a = true ∧ ea_kind a = HaltPublishing.
Proof.
  revert o. induction l as [|a l IH]; intros o; simpl; [set_solver|]. rewrite IH.
  unfold addOverlay. destruct (isOpen a) eqn:E; simpl.
  - rewrite orb_true_iff, bool_decide_eq_true. set_solver.
  - set_solver by congruence.
Qed.

Lemma overlays_assets l o x :
  x ∈ ov_assets (foldl addOverlay o l) ↔
  x ∈ ov_assets o ∨
  ∃ a, a ∈ l ∧ isOpen a = true ∧ ea_kind a = PauseFeed ∧ ea_asset a = Some x ∧ x ≠ EmptyString.
Proof.
  revert o. induction l as [|a l IH]; intros o; simpl; [set_solver|]. rewrite IH.
  assert (x ∈ ov_assets (addOverlay o a) ↔ x ∈ ov_assets o ∨
    isOpen a = true ∧ ea_kind a = PauseFeed ∧ ea_asset a = Some x ∧ x ≠ EmptyString) as ->.
  { unfold addOverlay. destruct (isOpen a); simpl; [|naive_solver].
    destruct (bool_decide (ea_kind a = PauseFeed)) eqn:Ek; to_prop; simpl; [|naive_solver].
    destruct (ea_asset a) as [y|]; simpl; [|naive_solver].
    destruct (bool_decide (y = EmptyString)) eqn:Ey; to_prop; simpl; set_solver. }
  set_solver.
Qed.

Lemma frozen_true r t asset :
  emergency_ok r →
  snd (isFrozen t asset r) = true ↔
  ∃ id a, jm_get id (actions r) = Some a ∧ isOpen a = true ∧ t < ea_expiresAt a ∧
    (ea_kind a = HaltPublishing ∨
     ea_kind a = PauseFeed ∧ ea_asset a = Some (toUpperCase (trim asset))).
Proof.
  intros Hok. unfold isFrozen, activeOverlays. cbn [snd].
  rewrite orb_true_iff, bool_decide_eq_true, overlays_halted, overlays_assets. simpl.
  assert (jm_wf (actions (sweepAll t r))) as Hwf by apply (eo_wf _ (sweepAll_ok t r Hok)).
  assert (∀ a', a' ∈ jm_values (jm_map_values (sweepAction t) (actions r)) ↔
    ∃ id a, jm_get id (actions r) = Some a ∧ a' = sweepAction t a) as Hval.
  { intros a'. split.
    - intros (id & Hget)%jm_value_inv; [|done]. rewrite jm_get_map_values in Hget.
      destruct (jm_get id (actions r)) as [a|] eqn:E; [|done]. injection Hget as <-. eauto.
    - intros (id & a & Hget & ->). apply (jm_value_elem id). by rewrite jm_get_map_values, Hget. }
  setoid_rewrite Hval. split.
  - intros [[?|(a' & (id & a & Hget & ->) & Hop & Hk)]|
            [?|(a' & (id & a & Hget & ->) & Hop & Hk & Has & _)]]; [done| |set_solver|];
      rewrite sweepAction_open in Hop; to_prop;
      destruct (sweepAction_fields t a) as (_ & Ek & Ea & _); exists id, a; split_and!; try done;
      rewrite <- ?Ek, <- ?Ea; auto.
  - intros (id & a & Hget & Hop & Hlt & Hk).
    destruct (sweepAction_fields t a) as (_ & Ek & Ea & _).
    assert (isOpen (sweepAction t a) = true) as Hop'.
    { rewrite sweepAction_open, Hop. simpl. by apply Z.ltb_lt. }
    destruct Hk as [Hk|[Hk Has]]; [left|right]; right; exists (sweepAction t a);
      (split; [by exists id, a|]); [by rewrite Ek|]. rewrite Ek, Ea. split_and!; try done.
    intros Hemp. destruct (found_action _ _ _ Hok Hget) as (_ & _ & Haok).
    pose proof (ao_scope _ Haok) as Hsc. by rewrite Hk, Has, Hemp in Hsc.
Qed.

(** Whether a feed is frozen is determined by the actions that are open
    and within their window at that moment: a feed is frozen precisely when
    such an action halts publishing or pauses that asset, spelled in any case
    and with surrounding spaces; expired, revoked and overturned actions and
    frozen sources never freeze a feed. *)
Theorem frozen_exact r t asset :
  em_reachable r →
  snd (isFrozen t asset r) = true ↔
  ∃ id a, jm_get id (actions r) = Some a ∧ isOpen a = true ∧ t < ea_expiresAt a ∧
    (ea_kind a = HaltPublishing ∨
     ea_kind a = PauseFeed ∧ ea_asset a = Some (toUpperCase (trim asset))).
Proof. intros Hok%em_reachable_ok. by apply frozen_true. Qed.

Definition demo_open : open_input :=
  mkOpen "pause-feed" "bad data" "alice" (Some " xlm"%string) None None (Some (DurMs 3600000)).
Definition demo_emergency : emergency := run_em (EOpen 1000 1000 1 demo_open) newEmergency.

Lemma frozen_exact_witness : snd (isFrozen 2000 "Xlm " demo_emergency) = true.
Proof.
  apply (frozen_exact demo_emergency 2000 "Xlm ").
  - by exists [EOpen 1000 1000 1 demo_open].
  - eexists 1, _. split; [vm_compute; reflexivity|]. split; [reflexivity|].
    split; [reflexivity|]. right. split; vm_compute; reflexivity.
Defined.

(** C34: Emergency power is bounded in time.  In every reachable registry an
    action has been renewed at most twice and expires within 72 hours times
    one more than its renewals of its creation; hence, whoever renews and
    reviews, an asset cannot be frozen by actions that are all at least 216
    hours old. *)
Theorem emergency_time_bounded r :
  em_reachable r →
  (∀ id a, jm_get id (actions r) = Some a →
    0 ≤ ea_renewals a ≤ 2 ∧ ea_createdAt a < ea_expiresAt a ∧
    ea_expiresAt a ≤ ea_createdAt a + (72 * 3600 * 1000) * (ea_renewals a + 1)) ∧
  (∀ t asset, (∀ id a, jm_get id (actions r) = Some a → ea_createdAt a + 216 * 3600 * 1000 ≤ t) →
    snd (isFrozen t asset r) = false).
Proof.
  intros Hr. pose proof (em_reachable_ok _ Hr) as Hok.
  assert (∀ id a, jm_get id (actions r) = Some a →
    0 ≤ ea_renewals a ≤ 2 ∧ ea_createdAt a < ea_expiresAt a ∧
    ea_expiresAt a ≤ ea_createdAt a + (72 * 3600 * 1000) * (ea_renewals a + 1)) as Hb.
  { intros id a (_ & _ & Ha)%(found_action _ _ _ Hok). destruct (ao_renewals _ Ha).
    destruct (ao_bounded _ Ha). unfold maxRenewals, maxDurationMs in *. lia. }
  split; [done|]. intros t asset Hold. apply not_true_iff_false. intros Hf.
  unfold isFrozen, activeOverlays in Hf. cbn [snd] in Hf.
  assert (∀ a', a' ∈ jm_values (jm_map_values (sweepAction t) (actions r)) → isOpen a' = false)
    as Hclosed.
  { rewrite jm_values_map_values. intros a' (a & -> & Ha)%list_elem_of_fmap.
    apply jm_value_inv in Ha as [id Hget]; [|apply Hok].
    rewrite sweepAction_open. apply andb_false_iff. right. apply Z.ltb_ge.
    specialize (Hb _ _ Hget). specialize (Hold _ _ Hget). lia. }
  apply orb_true_iff in Hf as [Hf|Hf].
  - apply overlays_halted in Hf as [?|(a & Ha & Ho & _)]; [done|].
    by rewrite (Hclosed _ Ha) in Ho.
  - apply bool_decide_eq_true, overlays_assets in Hf as [?|(a & Ha & Ho & _)]; [set_solver|].
    by rewrite (Hclosed _ Ha) in Ho.
Qed.

Lemma emergency_time_bounded_witness :
  snd (isFrozen (1000 + 216 * 3600 * 1000) "XLM" demo_emergency) = false.
Proof.
  apply (emergency_time_bounded demo_emergency).
  - by exists [EOpen 1000 1000 1 demo_open].
  - intros id a Hget%jm_get_elem. vm_compute in Hget.
    apply list_elem_of_singleton in Hget. injection Hget as _ ->. simpl. lia.
Defined.

Section countersign.
Context (isRecused : string → RecusalRequest → list string)
  (barred : string → RecusalRequest → Prop) `{!RecusalOracle isRecused barred}.

(** What a successful review established. *)
Lemma review_inv ts now id who dec att r r' a' :
  review isRecused ts now id who dec att r = (r', Ok a') →
  ∃ a, jm_get id (actions (sweepAll ts r)) = Some a ∧
    ea_status a = EActive ∧ now ≤ ea_reviewDeadlineAt a ∧ trim who ≠ ea_actor a ∧
    att = true ∧ ¬ barred (trim who) (recusalRequestFor a) ∧
    ea_reviewer a' = Some (trim who) ∧ ea_actor a' = ea_actor a ∧
    ea_status a' = (match dec with Confirm => EReviewed | Overturn => ERevoked end).
Proof.
  unfold review, requireAction, em_requireText. intros H. inv_ok. to_prop.
  eexists. split_and!; try done.
  - rewrite <- recusal_spec. auto.
  - by destruct dec.
  - by destruct dec.
  - by destruct dec.
Qed.
End countersign.

(** A countersignature is independent.  With the conflict-of-interest
    register plugged in as the dependency, a successful review of an emergency
    action was made by someone other than its author, within the review
    deadline, with an attestation, and by a reviewer none of whose unwithdrawn
    declarations bears on the action's asset or source. *)
Theorem countersign_independent c tc ts now id who dec att r r' a' :
  reachable c →
  review (λ a q, snd (recusalReasons tc a q c)) ts now id who dec att r = (r', Ok a') →
  ∃ a, jm_get id (actions (sweepAll ts r)) = Some a ∧ ea_status a = EActive ∧
    trim who ≠ ea_actor a ∧ now ≤ ea_reviewDeadlineAt a ∧ att = true ∧
    (∀ did d, jm_get did (disclosures c) = Some d → cd_actor d = trim who →
      cd_status d ≠ DWithdrawn → scope_matches (recusalRequestFor a) d = false).
Proof.
  intros Hc%reachable_ok Hrev.
  pose proof (coi_recusal_oracle c tc Hc) as Horacle.
  destruct (review_inv _ _ _ _ _ _ _ _ _ _ _ Hrev)
    as (a & Hget & Hact & Hdl & Hne & Hatt & Hbar & _).
  exists a. split_and!; try done. by apply not_recused.
Qed.

Lemma countersign_independent_witness :
  ∃ a, jm_get 1 (actions (sweepAll 2000 demo_emergency)) = Some a ∧ ea_status a = EActive ∧
    "carol"%string ≠ ea_actor a.
Proof.
  assert (review (λ a q, snd (recusalReasons 2000 a q demo_coi)) 2000 2000 1 "carol" Confirm true
            demo_emergency =
          (run_em (EReview (λ a q, snd (recusalReasons 2000 a q demo_coi)) 2000 2000 1 "carol"
                     Confirm true) demo_emergency,
           Ok (mkAction 1 PauseFeed (Some "XLM"%string) None "bad data" "alice" 1000 3601000 3601000
                 EReviewed (Some "carol"%string) (Some 2000) (Some Confirm) (Some false) 0 1
                 None None None (mkDisclosed None None None None)))) as Hrun
    by (vm_compute; reflexivity).
  destruct (countersign_independent demo_coi 2000 2000 2000 1 "carol" Confirm true demo_emergency _ _
    (ex_intro _ [ODeclare 1000 demo_declare] eq_refl) Hrun) as (a & Hget & Hact & Hne & _).
  exists a. split; [exact Hget|]. split; [exact Hact|exact Hne].
Defined.
