(* ===== verification/CatalogPolicy.v ===== *)
(** * Catalog policies: serialisation, normalisation, guard rails, plans

    Models the pure half of [api/src/governance/catalog-policy.ts]
    ([canonicalJson] to [parametersChanged]) with the parts of
    [packages/types/src/feed-metadata.ts] it uses.

    The numeric fields are integers and the enumerated fields are inductive
    types, as the request schemas of [catalog-governance-routes.ts] enforce
    ([z.number().int()], [z.enum]).  Findings keep their code, severity and
    asset; message texts are not modelled.  [localeCompare] and SHA-256 are
    parameters. *)

From Stdlib Require Import ZArith Lia.
From stdpp Require Import base tactics decidable list sets strings gmap pretty.
From S2P Require Import Prelude JsMap.

Local Open Scope Z_scope.

(** ** Deterministic serialisation *)

(** JSON values; an object entry whose value is [undefined] is [None]. *)
#[warnings="-register-all"] Inductive json : Type :=
| JNull
| JBool (b : bool)
| JNum (z : Z)
| JStr (s : string)
| JArr (items : list json)
| JObj (entries : list (string * option json)).

Definition backslash : string := String (Ascii.ascii_of_nat 92) EmptyString.

Definition hex_digit (n : nat) : string :=
  String (Ascii.ascii_of_nat (if bool_decide (n < 10)%nat then 48 + n else 87 + n)) EmptyString.

(** [JSON.stringify] on a character of a string. *)
Definition json_char (c : Ascii.ascii) : string :=
  let n := Ascii.nat_of_ascii c in
  if bool_decide (n = 34 ∨ n = 92)%nat then backslash +:+ String c EmptyString
  else if bool_decide (n = 8)%nat then backslash +:+ "b"
  else if bool_decide (n = 9)%nat then backslash +:+ "t"
  else if bool_decide (n = 10)%nat then backslash +:+ "n"
  else if bool_decide (n = 12)%nat then backslash +:+ "f"
  else if bool_decide (n = 13)%nat then backslash +:+ "r"
  else if bool_decide (n < 32)%nat
  then backslash +:+ "u00" +:+ hex_digit (n / 16) +:+ hex_digit (n mod 16)
  else String c EmptyString.

Fixpoint json_chars (s : string) : string :=
  match s with
  | EmptyString => EmptyString
  | String c s' => json_char c +:+ json_chars s'
  end.

Definition json_string (s : string) : string := dquote +:+ json_chars s +:+ dquote.

(** [items.join(sep)] *)
Fixpoint join (sep : string) (items : list string) : string :=
  match items with
  | [] => EmptyString
  | [x] => x
  | x :: rest => x +:+ sep +:+ join sep rest
  end.

Fixpoint canonicalJson (v : json) : string :=
  match v with
  | JNull => "null"
  | JBool b => if b then "true" else "false"
  | JNum z => pretty z
  | JStr s => json_string s
  | JArr items => "[" +:+ join "," (map canonicalJson items) +:+ "]"
  | JObj entries =>
      let texts :=
        omap (λ '(k, t), (λ t, (k, t)) <$> t)
          (map (λ '(k, v), (k, match v with
                               | Some v => Some (canonicalJson v)
                               | None => None
                               end)) entries) in
      let ordered := stable_sort (cmp_leb (cmp_on fst String.compare)) texts in
      "{" +:+ join "," (map (λ '(k, t), json_string k +:+ ":" +:+ t) ordered) +:+ "}"
  end.

(** ** Policies *)

Inductive FreshnessProfileName : Type := Realtime | Standard | Delayed.
Inductive QuoteCurrency : Type := USD | EUR | GBP | JPY | CHF | CAD | AUD.
Inductive QuoteRounding : Type := HalfUp | HalfEven | RoundDown.

#[export] Instance profile_eq_dec : EqDecision FreshnessProfileName.
Proof. solve_decision. Defined.
#[export] Instance currency_eq_dec : EqDecision QuoteCurrency.
Proof. solve_decision. Defined.
#[export] Instance rounding_eq_dec : EqDecision QuoteRounding.
Proof. solve_decision. Defined.

Record QuoteUnit : Type := mkQuoteUnit {
  qu_currency : QuoteCurrency;
  qu_denomination : string;
  qu_scaleDecimals : Z;
  qu_displayDecimals : Z;
  qu_rounding : QuoteRounding;
}.

Definition currency_name (c : QuoteCurrency) : string :=
  match c with
  | USD => "USD" | EUR => "EUR" | GBP => "GBP" | JPY => "JPY" | CHF => "CHF"
  | CAD => "CAD" | AUD => "AUD"
  end.
Definition rounding_name (r : QuoteRounding) : string :=
  match r with HalfUp => "half-up" | HalfEven => "half-even" | RoundDown => "down" end.
Definition profile_name (p : FreshnessProfileName) : string :=
  match p with Realtime => "realtime" | Standard => "standard" | Delayed => "delayed" end.

(** [FRESHNESS_PROFILES[p].warnSeconds] *)
Definition warnSeconds (p : FreshnessProfileName) : Z :=
  match p with Realtime => 10 | Standard => 60 | Delayed => 300 end.

Definition DEFAULT_QUOTE_UNIT : QuoteUnit :=
  mkQuoteUnit USD "USD_PER_ASSET_UNIT" 8 4 HalfEven.

Definition FEED_FRESHNESS_ASSIGNMENTS (asset : string) : option FreshnessProfileName :=
  if bool_decide (asset ∈ ["XLM"; "USDC"; "BTC"; "ETH"; "USDT"]%string)
  then Some Standard else None.

(** The errors of [validateQuoteUnit] that its argument type leaves possible. *)
Inductive quote_error : Type := QE_Denomination | QE_Scale | QE_Display.

Definition validateQuoteUnit (u : QuoteUnit) : list quote_error :=
  (if decide (qu_denomination u = currency_name (qu_currency u) +:+ "_PER_ASSET_UNIT")
   then [] else [QE_Denomination]) ++
  (if (qu_scaleDecimals u <? 0) || (18 <? qu_scaleDecimals u) then [QE_Scale] else []) ++
  (if (qu_displayDecimals u <? 0) || (12 <? qu_displayDecimals u) ||
      (qu_scaleDecimals u <? qu_displayDecimals u) then [QE_Display] else []).

Definition CATALOG_SOURCES : list string := ["chainlink"; "redstone"; "band"; "reflector"]%string.

Record FeedPolicy : Type := mkFeed {
  fp_asset : string;
  fp_sources : list string;
  fp_minSources : Z;
  fp_maxDeviationBps : Z;
  fp_stalenessSeconds : Z;
  fp_freshnessProfile : option FreshnessProfileName;
  fp_freshnessWarnSeconds : option Z;
  fp_quoteUnit : option QuoteUnit;
  fp_enabled : bool;
}.

Record CatalogPolicy : Type := mkPolicy {
  cp_version : Z;
  cp_activatedAt : Z;
  cp_proposalId : option Z;
  cp_feeds : list FeedPolicy;
}.

Inductive CatalogChangeKind : Type := StandardChange | Rollback.

#[export] Instance ckind_eq_dec : EqDecision CatalogChangeKind.
Proof. solve_decision. Defined.

Record CatalogPolicyChange : Type := mkCatalogChange {
  cc_baseVersion : Z;
  cc_kind : CatalogChangeKind;
  cc_upserts : list FeedPolicy;
  cc_removals : list string;
}.

(** [CATALOG_GUARDRAILS] *)
Definition minSourceCount : Z := 2.
Definition minDeviationBps : Z := 10.
Definition maxDeviationBps : Z := 2000.
Definition minStalenessSeconds : Z := 10.
Definition maxStalenessSeconds : Z := 3600.
Definition maxFeedsPerChange : Z := 100.
Definition requiredApprovals : Z := 2.
Definition highImpactApprovals : Z := 3.
Definition maxReviewers : Z := 7.
Definition reviewWindowMs : Z := 48 * 60 * 60 * 1000.
Definition timelockMs : Z := 24 * 60 * 60 * 1000.
Definition highImpactTimelockMs : Z := 48 * 60 * 60 * 1000.

Definition quote_json (u : QuoteUnit) : json :=
  JObj [("currency", Some (JStr (currency_name (qu_currency u))));
        ("denomination", Some (JStr (qu_denomination u)));
        ("scaleDecimals", Some (JNum (qu_scaleDecimals u)));
        ("displayDecimals", Some (JNum (qu_displayDecimals u)));
        ("rounding", Some (JStr (rounding_name (qu_rounding u))))]%string.

(** The object [canonicalJson(feed)] serialises. *)
Definition feed_json (f : FeedPolicy) : json :=
  JObj [("asset", Some (JStr (fp_asset f)));
        ("sources", Some (JArr (JStr <$> fp_sources f)));
        ("minSources", Some (JNum (fp_minSources f)));
        ("maxDeviationBps", Some (JNum (fp_maxDeviationBps f)));
        ("stalenessSeconds", Some (JNum (fp_stalenessSeconds f)));
        ("freshnessProfile", (λ p, JStr (profile_name p)) <$> fp_freshnessProfile f);
        ("freshnessWarnSeconds", JNum <$> fp_freshnessWarnSeconds f);
        ("quoteUnit", quote_json <$> fp_quoteUnit f);
        ("enabled", Some (JBool (fp_enabled f)))]%string.

(** ** Normalisation *)

Definition normalizeAsset (asset : string) : string := toUpperCase (trim asset).
Definition normalizeSource (source : string) : string := toLowerCase (trim source).

Definition normalizeFeed (feed : FeedPolicy) : FeedPolicy :=
  let freshnessProfile :=
    default (default Standard (FEED_FRESHNESS_ASSIGNMENTS (normalizeAsset (fp_asset feed))))
      (fp_freshnessProfile feed) in
  let quoteUnit := default DEFAULT_QUOTE_UNIT (fp_quoteUnit feed) in
  mkFeed (normalizeAsset (fp_asset feed))
    (sort_strings (js_dedup (normalizeSource <$> fp_sources feed)))
    (fp_minSources feed) (fp_maxDeviationBps feed) (fp_stalenessSeconds feed)
    (Some freshnessProfile)
    (Some (default (Z.min (warnSeconds freshnessProfile) (fp_stalenessSeconds feed - 1))
             (fp_freshnessWarnSeconds feed)))
    (Some quoteUnit) (fp_enabled feed).

(** ** Guard rails *)

Inductive GuardrailSeverity : Type := SevError | SevWarning.

#[export] Instance severity_eq_dec : EqDecision GuardrailSeverity.
Proof. solve_decision. Defined.

Inductive guardrail_code : Type :=
| STALE_BASE_VERSION | EMPTY_CHANGE | TOO_MANY_CHANGES | DUPLICATE_ASSET | CONFLICTING_CHANGE
| UNKNOWN_FEED | EMPTY_CATALOG | NO_ENABLED_FEEDS | NO_OP_CHANGE
| FEED_DISABLED | FEED_ENABLED | DEVIATION_LOOSENED | STALENESS_LOOSENED
| FRESHNESS_PROFILE_CHANGED | MIN_SOURCES_REDUCED | SOURCE_SET_REDUCED | QUOTE_SCALE_CHANGED
| INVALID_ASSET | UNKNOWN_SOURCE | INSUFFICIENT_SOURCES | MIN_SOURCES_BELOW_FLOOR
| MIN_SOURCES_EXCEEDS_SOURCES | DEVIATION_OUT_OF_BOUNDS | STALENESS_OUT_OF_BOUNDS
| UNKNOWN_FRESHNESS_PROFILE | FRESHNESS_WARNING_OUT_OF_BOUNDS
| INVALID_QUOTE_SCALE | INVALID_QUOTE_UNIT.

Record GuardrailFinding : Type := mkFinding {
  gf_code : guardrail_code;
  gf_severity : GuardrailSeverity;
  gf_asset : option string;
}.

Record CatalogDiff : Type := mkDiff {
  cd_added : list string;
  cd_removed : list string;
  cd_modified : list string;
  cd_unchanged : list string;
}.

Record CatalogValidation : Type := mkValidation {
  cv_findings : list GuardrailFinding;
  cv_errors : list GuardrailFinding;
  cv_warnings : list GuardrailFinding;
  cv_diff : CatalogDiff;
  cv_highImpact : bool;
  cv_nextFeeds : list FeedPolicy;
}.

(** [new Map(entries)] *)
Definition map_of {K V} `{EqDecision K} (entries : list (K * V)) : jsmap K V :=
  foldl (λ m '(k, v), jm_set k v m) jm_empty entries.

Definition diffPolicies (before after : list FeedPolicy) : CatalogDiff :=
  let text f := (fp_asset f, canonicalJson (feed_json f)) in
  let beforeMap := map_of (text <$> before) in
  let afterMap := map_of (text <$> after) in
  let added := filter (λ '(a, _), jm_get a beforeMap = None) afterMap in
  let unchanged := filter (λ '(a, t), jm_get a beforeMap = Some t) afterMap in
  let modified := filter (λ '(a, t), jm_get a beforeMap ≠ None ∧ jm_get a beforeMap ≠ Some t)
                    afterMap in
  let removed := filter (λ a, jm_has a afterMap = false) (jm_keys beforeMap) in
  mkDiff (sort_strings added.*1) (sort_strings removed) (sort_strings modified.*1)
    (sort_strings unchanged.*1).

(** [/^[A-Z0-9]{2,12}$/.test(s)] *)
Definition ticker_char (c : Ascii.ascii) : bool :=
  let n := Ascii.nat_of_ascii c in
  bool_decide (65 ≤ n ≤ 90)%nat || bool_decide (48 ≤ n ≤ 57)%nat.
Definition is_ticker (s : string) : bool :=
  forallb ticker_char (String.list_ascii_of_string s) &&
  (2 <=? strlen s) && (strlen s <=? 12).

Definition validateFeed (feed : FeedPolicy) : list GuardrailFinding :=
  let push (b : bool) (code : guardrail_code) :=
    if b then [mkFinding code SevError (Some (fp_asset feed))] else [] in
  let count := Z.of_nat (length (fp_sources feed)) in
  push (negb (is_ticker (fp_asset feed))) INVALID_ASSET ++
  mjoin ((λ s, push (negb (bool_decide (s ∈ CATALOG_SOURCES))) UNKNOWN_SOURCE)
           <$> fp_sources feed) ++
  push (count <? minSourceCount) INSUFFICIENT_SOURCES ++
  push (fp_minSources feed <? minSourceCount) MIN_SOURCES_BELOW_FLOOR ++
  push (count <? fp_minSources feed) MIN_SOURCES_EXCEEDS_SOURCES ++
  push ((fp_maxDeviationBps feed <? minDeviationBps) ||
        (maxDeviationBps <? fp_maxDeviationBps feed)) DEVIATION_OUT_OF_BOUNDS ++
  push ((fp_stalenessSeconds feed <? minStalenessSeconds) ||
        (maxStalenessSeconds <? fp_stalenessSeconds feed)) STALENESS_OUT_OF_BOUNDS ++
  push (bool_decide (fp_freshnessProfile feed = None)) UNKNOWN_FRESHNESS_PROFILE ++
  push (match fp_freshnessWarnSeconds feed with
        | Some w => (w <? 1) || (fp_stalenessSeconds feed <=? w)
        | None => true
        end) FRESHNESS_WARNING_OUT_OF_BOUNDS ++
  mjoin ((λ e, push true (match e with
                          | QE_Scale | QE_Display => INVALID_QUOTE_SCALE
                          | QE_Denomination => INVALID_QUOTE_UNIT
                          end))
           <$> validateQuoteUnit (default DEFAULT_QUOTE_UNIT (fp_quoteUnit feed))).

(** The loop over the upserts. *)
Fixpoint upsertFindings (removals seen : list string) (upserts : list FeedPolicy)
    : list GuardrailFinding :=
  match upserts with
  | [] => []
  | feed :: rest =>
      (if decide (fp_asset feed ∈ seen)
       then [mkFinding DUPLICATE_ASSET SevError (Some (fp_asset feed))] else []) ++
      (if decide (fp_asset feed ∈ removals)
       then [mkFinding CONFLICTING_CHANGE SevError (Some (fp_asset feed))] else []) ++
      validateFeed feed ++
      upsertFindings removals (fp_asset feed :: seen) rest
  end.

(** The warnings a modified feed raises; each one makes the change high impact. *)
Definition modificationWarnings (asset : string) (before after : FeedPolicy)
    : list GuardrailFinding :=
  let warn (b : bool) (code : guardrail_code) :=
    if b then [mkFinding code SevWarning (Some asset)] else [] in
  let beforeQuote := default DEFAULT_QUOTE_UNIT (fp_quoteUnit before) in
  let afterQuote := default DEFAULT_QUOTE_UNIT (fp_quoteUnit after) in
  let dropped := filter (λ s, s ∉ fp_sources after) (fp_sources before) in
  warn (fp_enabled before && negb (fp_enabled after)) FEED_DISABLED ++
  warn (negb (fp_enabled before) && fp_enabled after) FEED_ENABLED ++
  warn (fp_maxDeviationBps before <? fp_maxDeviationBps after) DEVIATION_LOOSENED ++
  warn (fp_stalenessSeconds before <? fp_stalenessSeconds after) STALENESS_LOOSENED ++
  warn (negb (bool_decide (fp_freshnessProfile after = fp_freshnessProfile before)) ||
        (default 0 (fp_freshnessWarnSeconds before) <? default 0 (fp_freshnessWarnSeconds after)))
    FRESHNESS_PROFILE_CHANGED ++
  warn (fp_minSources after <? fp_minSources before) MIN_SOURCES_REDUCED ++
  warn (negb (bool_decide (dropped = [])) && fp_enabled after) SOURCE_SET_REDUCED ++
  warn (negb (bool_decide (qu_currency beforeQuote = qu_currency afterQuote)) ||
        negb (bool_decide (qu_denomination beforeQuote = qu_denomination afterQuote)) ||
        negb (qu_scaleDecimals beforeQuote =? qu_scaleDecimals afterQuote)) QUOTE_SCALE_CHANGED.

(** ** On-chain plans *)

Inductive OnChainAction : Type :=
| SetTrustedAsset (asset : string) (trusted : bool)
| AddSource (address name : string)
| RemoveSource (address : string)
| SetDeviationThreshold (thresholdBps : Z).

Definition action_name (a : OnChainAction) : string :=
  match a with
  | SetTrustedAsset _ _ => "SetTrustedAsset"
  | AddSource _ _ => "AddSource"
  | RemoveSource _ => "RemoveSource"
  | SetDeviationThreshold _ => "SetDeviationThreshold"
  end.

Definition action_params (a : OnChainAction) : json :=
  match a with
  | SetTrustedAsset asset trusted =>
      JObj [("asset", Some (JStr asset)); ("trusted", Some (JBool trusted))]%string
  | AddSource address name =>
      JObj [("source", Some (JStr address)); ("name", Some (JStr name))]%string
  | RemoveSource address => JObj [("source"%string, Some (JStr address))]
  | SetDeviationThreshold bps => JObj [("thresholdBps"%string, Some (JNum bps))]
  end.

Definition action_key (a : OnChainAction) : string :=
  action_name a +:+ ":" +:+ canonicalJson (action_params a).

Definition action_json (a : OnChainAction) : json :=
  JObj [("action", Some (JStr (action_name a))); ("params", Some (action_params a))]%string.

Record OnChainPlan : Type := mkPlan {
  op_actions : list OnChainAction;
  op_offChainParameters : list string;
  op_missingSourceAddresses : list string;
  op_digest : string;
}.

Definition enabledSources (feeds : list FeedPolicy) : list string :=
  js_dedup (mjoin (fp_sources <$> filter (λ f, fp_enabled f = true) feeds)).

Definition parametersChanged (key : FeedPolicy → Z) (before after : list FeedPolicy) : bool :=
  let m := map_of ((λ f, (fp_asset f, key f)) <$> before) in
  existsb (λ f, negb (bool_decide (jm_get (fp_asset f) m = Some (key f)))) after.

Definition trustActions (before after : jsmap string FeedPolicy) : list OnChainAction :=
  omap (λ '(asset, feed),
          match jm_get asset before with
          | None => if fp_enabled feed then Some (SetTrustedAsset asset true) else None
          | Some previous =>
              if Bool.eqb (fp_enabled previous) (fp_enabled feed) then None
              else Some (SetTrustedAsset asset (fp_enabled feed))
          end) after ++
  omap (λ '(asset, feed),
          if negb (jm_has asset after) && fp_enabled feed
          then Some (SetTrustedAsset asset false) else None) before.

(** The address configured for a source, when it is a non-empty text. *)
Definition address_of (addresses : jsmap string string) (source : string) : option string :=
  a ← jm_get source addresses; if decide (a = EmptyString) then None else Some a.

(** One of the two loops over changed sources: the sources of [from] that are
    not in [other], with the action each becomes or the missing source. *)
Definition sourceActions (addresses : jsmap string string) (from other : list string)
    (mk : string → string → OnChainAction) : list OnChainAction * list string :=
  let changed := filter (λ s, s ∉ other) (sort_strings from) in
  (omap (λ s, (λ a, mk a s) <$> address_of addresses s) changed,
   filter (λ s, address_of addresses s = None) changed).

Definition thresholdActions (current next : list FeedPolicy) : list OnChainAction :=
  let enabled := filter (λ f, fp_enabled f = true) in
  let thresholds := js_dedup (fp_maxDeviationBps <$> enabled next) in
  match thresholds with
  | [bps] =>
      let previous := js_dedup (fp_maxDeviationBps <$> enabled current) in
      if negb (bool_decide (length previous = 1%nat)) || negb (bool_decide (bps ∈ previous))
      then [SetDeviationThreshold bps] else []
  | _ => []
  end.

Section locale.
(** [String.prototype.localeCompare] *)
Context (localeCompare : string → string → comparison).

Definition by_asset : FeedPolicy → FeedPolicy → comparison := cmp_on fp_asset localeCompare.
Definition sort_feeds : list FeedPolicy → list FeedPolicy := stable_sort (cmp_leb by_asset).

Definition normalizeChange (c : CatalogPolicyChange) : CatalogPolicyChange :=
  mkCatalogChange (cc_baseVersion c) (cc_kind c)
    (sort_feeds (normalizeFeed <$> cc_upserts c))
    (sort_strings (js_dedup (normalizeAsset <$> cc_removals c))).

Definition projectFeeds (current : CatalogPolicy) (change : CatalogPolicyChange)
    : list FeedPolicy :=
  let feeds := map_of ((λ f, (fp_asset f, f)) <$> cp_feeds current) in
  let feeds := foldl (λ m a, jm_delete a m) feeds (cc_removals change) in
  let feeds := foldl (λ m f, jm_set (fp_asset f) f m) feeds (cc_upserts change) in
  sort_feeds (jm_values feeds).

Definition validateCatalogChange (current : CatalogPolicy) (rawChange : CatalogPolicyChange)
    : CatalogValidation :=
  let change := normalizeChange rawChange in
  let error (b : bool) (code : guardrail_code) (asset : option string) :=
    if b then [mkFinding code SevError asset] else [] in
  let touched := Z.of_nat (length (cc_upserts change) + length (cc_removals change)) in
  let currentAssets := fp_asset <$> cp_feeds current in
  let nextFeeds := projectFeeds current change in
  let diff := diffPolicies (cp_feeds current) nextFeeds in
  let beforeByAsset := map_of ((λ f, (fp_asset f, f)) <$> cp_feeds current) in
  let warnings :=
    mjoin ((λ asset,
      match jm_get asset beforeByAsset,
            List.find (λ f, bool_decide (fp_asset f = asset)) nextFeeds with
      | Some before, Some after => modificationWarnings asset before after
      | _, _ => []
      end) <$> cd_modified diff) in
  let highImpact :=
    bool_decide (cc_kind change = Rollback) ||
    negb (bool_decide (cd_added diff = [])) || negb (bool_decide (cd_removed diff = [])) ||
    negb (bool_decide (length warnings = 0%nat)) in
  let findings :=
    error (negb (cc_baseVersion change =? cp_version current)) STALE_BASE_VERSION None ++
    error (touched =? 0) EMPTY_CHANGE None ++
    error (maxFeedsPerChange <? touched) TOO_MANY_CHANGES None ++
    upsertFindings (cc_removals change) [] (cc_upserts change) ++
    mjoin ((λ a, error (negb (bool_decide (a ∈ currentAssets))) UNKNOWN_FEED (Some a))
             <$> cc_removals change) ++
    error (bool_decide (length nextFeeds = 0%nat)) EMPTY_CATALOG None ++
    error (negb (existsb fp_enabled nextFeeds)) NO_ENABLED_FEEDS None ++
    error (bool_decide (length (cd_added diff) + length (cd_removed diff) +
                        length (cd_modified diff) = 0)%nat) NO_OP_CHANGE None ++
    warnings in
  mkValidation findings
    (filter (λ f, gf_severity f = SevError) findings)
    (filter (λ f, gf_severity f = SevWarning) findings)
    diff highImpact nextFeeds.

Definition applyCatalogChange (current : CatalogPolicy) (change : CatalogPolicyChange)
    (activatedAt proposalId : Z) : CatalogPolicy :=
  mkPolicy (cp_version current + 1) activatedAt (Some proposalId) (projectFeeds current change).

Section digest.
(** SHA-256, in hexadecimal. *)
Context (sha256hex : string → string).

Definition digestOf (v : json) : string := sha256hex (canonicalJson v).

Definition feedsDigest (p : CatalogPolicy) : string :=
  digestOf (JArr ((λ f, feed_json (mkFeed (fp_asset f) (sort_strings (fp_sources f))
                     (fp_minSources f) (fp_maxDeviationBps f) (fp_stalenessSeconds f)
                     (fp_freshnessProfile f) (fp_freshnessWarnSeconds f) (fp_quoteUnit f)
                     (fp_enabled f))) <$> sort_feeds (cp_feeds p))).

Definition buildOnChainPlan (current : CatalogPolicy) (nextFeeds : list FeedPolicy)
    (sourceAddresses : jsmap string string) : OnChainPlan :=
  let before := map_of ((λ f, (fp_asset f, f)) <$> cp_feeds current) in
  let after := map_of ((λ f, (fp_asset f, f)) <$> nextFeeds) in
  let sourcesBefore := enabledSources (cp_feeds current) in
  let sourcesAfter := enabledSources nextFeeds in
  let '(adds, missing1) := sourceActions sourceAddresses sourcesAfter sourcesBefore AddSource in
  let '(removes, missing2) :=
    sourceActions sourceAddresses sourcesBefore sourcesAfter (λ a _, RemoveSource a) in
  let thresholds :=
    js_dedup (fp_maxDeviationBps <$> filter (λ f, fp_enabled f = true) nextFeeds) in
  let actions := trustActions before after ++ adds ++ removes ++
                 thresholdActions (cp_feeds current) nextFeeds in
  let offChain :=
    (if bool_decide (1 < length thresholds)%nat then ["maxDeviationBps (per feed)"%string] else []) ++
    (if parametersChanged fp_minSources (cp_feeds current) nextFeeds
     then ["minSources"%string] else []) ++
    (if parametersChanged fp_stalenessSeconds (cp_feeds current) nextFeeds
     then ["stalenessSeconds"%string] else []) in
  let sortedActions := stable_sort (cmp_leb (cmp_on action_key localeCompare)) actions in
  mkPlan sortedActions (sort_strings offChain) (sort_strings (missing1 ++ missing2))
    (digestOf (JObj [("actions", Some (JArr (action_json <$> sortedActions)));
                     ("offChainParameters", Some (JArr (JStr <$> sort_strings offChain)))]%string)).
End digest.

(** ** Normalisation is idempotent *)

Lemma normalizeAsset_idemp a : normalizeAsset (normalizeAsset a) = normalizeAsset a.
Proof. unfold normalizeAsset. by rewrite trim_toUpperCase, toUpperCase_idemp, trim_idemp. Qed.

Lemma normalizeSource_idemp a : normalizeSource (normalizeSource a) = normalizeSource a.
Proof. unfold normalizeSource. by rewrite trim_toLowerCase, toLowerCase_idemp, trim_idemp. Qed.

Lemma fmap_fix {A} (f : A → A) (l : list A) : (∀ x, x ∈ l → f x = x) → f <$> l = l.
Proof.
  induction l as [|x l IH]; intros Hl; [done|]. rewrite fmap_cons.
  f_equal; [apply Hl; set_solver|]. apply IH. set_solver.
Qed.

(** Deduplicated and sorted texts in normal form are left as they are. *)
Lemma sort_dedup_idemp (n : string → string) (l : list string) :
  (∀ x, n (n x) = n x) →
  sort_strings (js_dedup (n <$> sort_strings (js_dedup (n <$> l)))) =
  sort_strings (js_dedup (n <$> l)).
Proof.
  intros Hn. assert (n <$> sort_strings (js_dedup (n <$> l)) = sort_strings (js_dedup (n <$> l))) as ->.
  { apply fmap_fix. intros x. unfold sort_strings.
    rewrite elem_of_stable_sort, elem_of_js_dedup. intros (y & -> & _)%list_elem_of_fmap. apply Hn. }
  rewrite js_dedup_fix; [apply cmp_sort_idemp, _|].
  unfold sort_strings. rewrite stable_sort_perm. apply NoDup_js_dedup.
Qed.

Lemma normalizeFeed_idemp f : normalizeFeed (normalizeFeed f) = normalizeFeed f.
Proof.
  unfold normalizeFeed. cbn [fp_asset fp_sources fp_minSources fp_maxDeviationBps fp_stalenessSeconds
    fp_freshnessProfile fp_freshnessWarnSeconds fp_quoteUnit fp_enabled default from_option id].
  rewrite sort_dedup_idemp by apply normalizeSource_idemp. by rewrite normalizeAsset_idemp.
Qed.

Lemma normalizeChange_idemp `{!cmp_laws localeCompare} c :
  normalizeChange (normalizeChange c) = normalizeChange c.
Proof.
  unfold normalizeChange. simpl. f_equal.
  - assert (normalizeFeed <$> sort_feeds (normalizeFeed <$> cc_upserts c) =
            sort_feeds (normalizeFeed <$> cc_upserts c)) as ->.
    { apply fmap_fix. intros f. unfold sort_feeds. rewrite elem_of_stable_sort.
      intros (f0 & -> & _)%list_elem_of_fmap. apply normalizeFeed_idemp. }
    apply cmp_sort_idemp. unfold by_asset. apply _.
  - apply sort_dedup_idemp, normalizeAsset_idemp.
Qed.

(** ** Guard rails hold of every feed that passes validation *)

Definition feed_ok (f : FeedPolicy) : Prop :=
  is_ticker (fp_asset f) = true ∧
  (∀ s, s ∈ fp_sources f → s ∈ CATALOG_SOURCES) ∧
  minSourceCount ≤ fp_minSources f ≤ Z.of_nat (length (fp_sources f)) ∧
  minDeviationBps ≤ fp_maxDeviationBps f ≤ maxDeviationBps ∧
  minStalenessSeconds ≤ fp_stalenessSeconds f ≤ maxStalenessSeconds ∧
  (∃ w, fp_freshnessWarnSeconds f = Some w ∧ 1 ≤ w < fp_stalenessSeconds f) ∧
  validateQuoteUnit (default DEFAULT_QUOTE_UNIT (fp_quoteUnit f)) = [].

Lemma push_nil (b : bool) (x : GuardrailFinding) : (if b then [x] else []) = [] ↔ b = false.
Proof. by destruct b. Qed.

Lemma app_nil {A} (l k : list A) : l ++ k = [] ↔ l = [] ∧ k = [].
Proof. destruct l; naive_solver. Qed.

Lemma mjoin_nil {A B} (f : A → list B) l :
  mjoin (f <$> l) = [] ↔ ∀ x, x ∈ l → f x = [].
Proof.
  induction l as [|y l IH]; [set_solver|]. rewrite fmap_cons. cbn [mjoin list_join].
  rewrite app_nil, IH. set_solver.
Qed.

Lemma validateFeed_ok f : validateFeed f = [] → feed_ok f.
Proof.
  unfold validateFeed. cbv zeta. rewrite !app_nil, !push_nil, !mjoin_nil.
  intros (H1 & H2 & _ & H4 & H5 & H6 & H7 & _ & H9 & H10). to_prop.
  unfold feed_ok. split_and!; try done; try lia.
  - intros s Hs. specialize (H2 s Hs). rewrite push_nil in H2. by to_prop.
  - destruct (fp_freshnessWarnSeconds f) as [w|]; [|done]. to_prop. exists w. split; [done|lia].
  - destruct (validateQuoteUnit _) as [|e l]; [done|]. by specialize (H10 e ltac:(set_solver)).
Qed.

(** Every finding of [validateFeed] is an error. *)
Lemma validateFeed_errors f : Forall (λ x, gf_severity x = SevError) (validateFeed f).
Proof.
  assert (∀ (b : bool) c a, Forall (λ x, gf_severity x = SevError)
            (if b then [mkFinding c SevError a] else [])) as Hp.
  { intros [] c a; by repeat constructor. }
  unfold validateFeed. cbv zeta. rewrite !Forall_app. split_and!; try apply Hp.
  - induction (fp_sources f) as [|s l IH]; [constructor|]. rewrite fmap_cons. cbn [mjoin list_join].
    apply Forall_app. split; [apply Hp|done].
  - induction (validateQuoteUnit _) as [|s l IH]; [constructor|].
    rewrite fmap_cons. cbn [mjoin list_join]. constructor; done.
Qed.

Lemma filter_errors_nil l :
  Forall (λ x, gf_severity x = SevError) l →
  filter (λ f, gf_severity f = SevError) l = [] → l = [].
Proof. intros Hl. rewrite Forall_forall in Hl. by rewrite filter_all. Qed.

Lemma upsertFindings_ok removals seen ups :
  filter (λ f, gf_severity f = SevError) (upsertFindings removals seen ups) = [] →
  (∀ f, f ∈ ups → validateFeed f = [] ∧ (fp_asset f ∉ seen) ∧ (fp_asset f ∉ removals)) ∧
  NoDup (fp_asset <$> ups).
Proof.
  revert seen. induction ups as [|f ups IH]; intros seen; simpl.
  { intros _. split; [set_solver|constructor]. }
  rewrite !filter_app, !app_nil.
  intros (H1 & H2 & H3 & (H4 & H5)%IH). apply filter_errors_nil in H3; [|apply validateFeed_errors].
  destruct (decide (fp_asset f ∈ seen)) as [|Hs]; [done|].
  destruct (decide (fp_asset f ∈ removals)) as [|Hr]; [done|]. split.
  - intros f' [->|Hin]%elem_of_cons; [done|]. destruct (H4 _ Hin) as (? & ? & ?). set_solver.
  - apply NoDup_cons. split; [|done]. intros (f' & Heq & Hin)%list_elem_of_fmap.
    destruct (H4 _ Hin) as (_ & Hn & _). set_solver.
Qed.

(** ** The projected feeds *)

Lemma jm_values_fold_delete {K V} `{EqDecision K} (l : list K) (m : jsmap K V) v :
  v ∈ jm_values (foldl (λ m a, jm_delete a m) m l) → v ∈ jm_values m.
Proof.
  revert m. induction l as [|a l IH]; intros m; [done|]. intros Hv%IH.
  by apply jm_values_delete in Hv.
Qed.

Lemma jm_values_fold_set {V} (k : V → string) (l : list V) (m : jsmap string V) v :
  v ∈ jm_values (foldl (λ m f, jm_set (k f) f m) m l) → v ∈ l ∨ v ∈ jm_values m.
Proof.
  revert m. induction l as [|a l IH]; intros m; [by right|]. simpl. intros [Hv|Hv]%IH; [set_solver|].
  apply jm_values_set in Hv as [->|]; set_solver.
Qed.

Lemma map_of_values l f :
  f ∈ jm_values (map_of ((λ f, (fp_asset f, f)) <$> l)) → f ∈ l.
Proof.
  unfold map_of. rewrite foldl_fmap. intros [|H]%(jm_values_fold_set fp_asset); [done|].
  simpl in H. set_solver.
Qed.

Lemma projectFeeds_elem current change f :
  f ∈ projectFeeds current change → f ∈ cc_upserts change ∨ f ∈ cp_feeds current.
Proof.
  unfold projectFeeds, sort_feeds. rewrite elem_of_stable_sort.
  intros [|H]%(jm_values_fold_set fp_asset); [by left|right].
  apply jm_values_fold_delete in H. by apply map_of_values.
Qed.

(** What an error-free validation establishes. *)
Lemma validated current change :
  cv_errors (validateCatalogChange current change) = [] →
  cc_baseVersion change = cp_version current ∧
  (∀ f, f ∈ cc_upserts (normalizeChange change) → feed_ok f) ∧
  NoDup (fp_asset <$> cc_upserts (normalizeChange change)) ∧
  (∀ a, a ∈ cc_removals (normalizeChange change) → a ∈ fp_asset <$> cp_feeds current) ∧
  (∃ f, f ∈ projectFeeds current (normalizeChange change) ∧ fp_enabled f = true) ∧
  (let d := cv_diff (validateCatalogChange current change) in
   cd_added d ++ cd_removed d ++ cd_modified d ≠ []).
Proof.
  unfold validateCatalogChange. cbn [cv_errors cv_diff]. rewrite !filter_app, !app_nil.
  intros (H1 & _ & _ & H4 & H5 & _ & H7 & H8 & _). apply upsertFindings_ok in H4 as [Hok Hnd].
  split_and!.
  - destruct (_ =? cp_version current) eqn:E; [by to_prop|done].
  - intros f Hf. apply validateFeed_ok. by apply Hok.
  - done.
  - intros a Ha. destruct (decide (a ∈ fp_asset <$> cp_feeds current)) as [|Hn]; [done|]. exfalso.
    assert (mkFinding UNKNOWN_FEED SevError (Some a) ∈ filter (λ f, gf_severity f = SevError)
      (mjoin ((λ a, if negb (bool_decide (a ∈ fp_asset <$> cp_feeds current))
                    then [mkFinding UNKNOWN_FEED SevError (Some a)] else [])
         <$> cc_removals (normalizeChange change)))) as Hin; [|rewrite H5 in Hin; by apply elem_of_nil in Hin].
    apply list_elem_of_filter. split; [done|]. apply list_elem_of_join. eexists.
    split; [|apply list_elem_of_fmap; exists a; split; [reflexivity|done]].
    rewrite bool_decide_eq_false_2 by done. apply list_elem_of_here.
  - destruct (existsb fp_enabled (projectFeeds current (normalizeChange change))) eqn:E; [|done].
    by apply existsb_elem in E.
  - intros (E1 & E2 & E3). by rewrite E1, E2, E3 in H8.
Qed.
End locale.
