(* ===== verification/CatalogGovernance.v ===== *)
(** * Catalog governance: proposals, reviews, activation, rollback

    Models the class [CatalogGovernance] of
    [api/src/governance/catalog-policy.ts] and, in its last section, the wiring
    of [api/src/governance/catalog-governance-routes.ts] that plugs the
    conflict-of-interest register and the emergency registry in as the
    [isRecused] and [isFrozen] dependencies.

    [now] is the one clock reading of each method.  The copies the methods
    return are the values themselves.  [policyHistory], [listProposals] and
    [getProposal] only read. *)

From Stdlib Require Import ZArith Lia.
From stdpp Require Import base tactics decidable list sets strings gmap pretty relations.
From S2P Require Import Prelude JsMap CoiRegister Emergency CatalogPolicy.

Local Open Scope Z_scope.

Inductive CatalogProposalStatus : Type := InReview | Approved | Rejected | Activated | Expired.
Inductive catalog_decision : Type := Approve | RejectDecision.

#[export] Instance cstatus_eq_dec : EqDecision CatalogProposalStatus.
Proof. solve_decision. Defined.
#[export] Instance cdecision_eq_dec : EqDecision catalog_decision.
Proof. solve_decision. Defined.

Record CatalogReviewRecord : Type := mkReview {
  cr_reviewer : string;
  cr_decision : catalog_decision;
  cr_at : Z;
}.

Inductive impact_risk : Type := RiskLow | RiskMedium | RiskHigh | RiskCritical.

Record CatalogImpactSummary : Type := mkImpact {
  ci_generatedAt : Z;
  ci_deterministicHash : string;
  ci_risk : impact_risk;
  ci_approvalBlocked : bool;
  ci_warnings : list string;
}.

Record OnChainExecution : Type := mkExecution {
  ex_actionIndex : Z;
  ex_onChainProposalId : Z;
}.

Record CatalogProposal : Type := mkProposal {
  pr_id : Z;
  pr_proposer : string;
  pr_description : string;
  pr_change : CatalogPolicyChange;
  pr_status : CatalogProposalStatus;
  pr_createdAt : Z;
  pr_reviewDeadlineAt : Z;
  pr_timelockEndsAt : option Z;
  pr_activatedAt : option Z;
  pr_activatedVersion : option Z;
  pr_activatedBy : option string;
  pr_reviews : list CatalogReviewRecord;
  pr_findings : list GuardrailFinding;
  pr_highImpact : bool;
  pr_requiredApprovals : Z;
  pr_sourceAddresses : jsmap string string;
  pr_onChainPlan : OnChainPlan;
  pr_onChainExecutions : option (list OnChainExecution);
  pr_impact : option CatalogImpactSummary;
}.

Inductive catalog_error : Type :=
| CATALOG_TYPE_ERROR
| ACTOR_REQUIRED
| DESCRIPTION_REQUIRED
| DESCRIPTION_TOO_LONG
| CATALOG_POLICY_INVALID (findings : list GuardrailFinding)
| MISSING_SOURCE_ADDRESS (sources : list string)
| PROPOSAL_NOT_FOUND
| IMPACT_NOT_ACCEPTED
| PROPOSAL_NOT_IN_REVIEW
| REVIEW_WINDOW_EXPIRED
| SELF_REVIEW_FORBIDDEN
| CG_ATTESTATION_REQUIRED
| CG_ALREADY_REVIEWED
| REVIEW_LIMIT_REACHED
| CG_CONFLICT_OF_INTEREST (reasons : list string)
| IMPACT_ANALYSIS_REQUIRED
| IMPACT_ANALYSIS_BLOCKED
| PROPOSAL_NOT_APPROVED
| TIMELOCK_ACTIVE
| POLICY_DRIFT (findings : list GuardrailFinding)
| PLAN_DRIFTED
| EMERGENCY_OVERRIDE_ACTIVE (asset : string)
| ON_CHAIN_EXECUTION_INVALID
| ON_CHAIN_EXECUTION_INCOMPLETE
| POLICY_VERSION_NOT_FOUND
| ROLLBACK_TARGET_IS_LIVE.

Record governance : Type := mkGovernance {
  versions : list CatalogPolicy;
  proposals : jsmap Z CatalogProposal;
  proposalCount : Z;
}.

Abbreviation CG := (M governance catalog_error).

Definition requireActor (actor : string) : CG string :=
  require (negb (is_blank actor)) ACTOR_REQUIRED ;; mret (trim actor).

Definition putProposal (p : CatalogProposal) (g : governance) : governance :=
  mkGovernance (versions g) (jm_set (pr_id p) p (proposals g)) (proposalCount g).

Section updates.
Implicit Types p : CatalogProposal.

Definition set_pstatus p (s : CatalogProposalStatus) : CatalogProposal :=
  mkProposal (pr_id p) (pr_proposer p) (pr_description p) (pr_change p) s (pr_createdAt p)
    (pr_reviewDeadlineAt p) (pr_timelockEndsAt p) (pr_activatedAt p) (pr_activatedVersion p)
    (pr_activatedBy p) (pr_reviews p) (pr_findings p) (pr_highImpact p)
    (pr_requiredApprovals p) (pr_sourceAddresses p) (pr_onChainPlan p)
    (pr_onChainExecutions p) (pr_impact p).
Definition set_impact p (i : CatalogImpactSummary) : CatalogProposal :=
  mkProposal (pr_id p) (pr_proposer p) (pr_description p) (pr_change p) (pr_status p)
    (pr_createdAt p) (pr_reviewDeadlineAt p) (pr_timelockEndsAt p) (pr_activatedAt p)
    (pr_activatedVersion p) (pr_activatedBy p) (pr_reviews p) (pr_findings p)
    (pr_highImpact p) (pr_requiredApprovals p) (pr_sourceAddresses p) (pr_onChainPlan p)
    (pr_onChainExecutions p) (Some i).
Definition push_review p (r : CatalogReviewRecord) : CatalogProposal :=
  mkProposal (pr_id p) (pr_proposer p) (pr_description p) (pr_change p) (pr_status p)
    (pr_createdAt p) (pr_reviewDeadlineAt p) (pr_timelockEndsAt p) (pr_activatedAt p)
    (pr_activatedVersion p) (pr_activatedBy p) (pr_reviews p ++ [r]) (pr_findings p)
    (pr_highImpact p) (pr_requiredApprovals p) (pr_sourceAddresses p) (pr_onChainPlan p)
    (pr_onChainExecutions p) (pr_impact p).
Definition set_approved p (timelockEndsAt : Z) : CatalogProposal :=
  mkProposal (pr_id p) (pr_proposer p) (pr_description p) (pr_change p) Approved
    (pr_createdAt p) (pr_reviewDeadlineAt p) (Some timelockEndsAt) (pr_activatedAt p)
    (pr_activatedVersion p) (pr_activatedBy p) (pr_reviews p) (pr_findings p)
    (pr_highImpact p) (pr_requiredApprovals p) (pr_sourceAddresses p) (pr_onChainPlan p)
    (pr_onChainExecutions p) (pr_impact p).
Definition set_activated p (at_ version : Z) (by_ : string) (ex : list OnChainExecution)
    : CatalogProposal :=
  mkProposal (pr_id p) (pr_proposer p) (pr_description p) (pr_change p) Activated
    (pr_createdAt p) (pr_reviewDeadlineAt p) (pr_timelockEndsAt p) (Some at_) (Some version)
    (Some by_) (pr_reviews p) (pr_findings p) (pr_highImpact p) (pr_requiredApprovals p)
    (pr_sourceAddresses p) (pr_onChainPlan p) (Some ex) (pr_impact p).
End updates.

Definition recusalRequest (p : CatalogProposal) : RecusalRequest :=
  let change := pr_change p in
  mkRecusal
    (sort_strings (js_dedup ((fp_asset <$> cc_upserts change) ++ cc_removals change)))
    (sort_strings (js_dedup (mjoin (fp_sources <$> cc_upserts change)))).

(** The loop of [assertExecutionsComplete]: the indices seen. *)
Fixpoint checkExecutions (expected : Z) (seen : list Z) (executions : list OnChainExecution)
    : result catalog_error (list Z) :=
  match executions with
  | [] => Ok seen
  | e :: rest =>
      if (ex_actionIndex e <? 0) || (expected <=? ex_actionIndex e)
      then Throw ON_CHAIN_EXECUTION_INVALID
      else if decide (ex_actionIndex e ∈ seen) then Throw ON_CHAIN_EXECUTION_INVALID
      else if ex_onChainProposalId e <=? 0 then Throw ON_CHAIN_EXECUTION_INVALID
      else checkExecutions expected (ex_actionIndex e :: seen) rest
  end.

Definition assertExecutionsComplete (p : CatalogProposal) (executions : list OnChainExecution)
    : result catalog_error unit :=
  let expected := Z.of_nat (length (op_actions (pr_onChainPlan p))) in
  match checkExecutions expected [] executions with
  | Throw e => Throw e
  | Ok seen =>
      if Z.of_nat (length seen) =? expected then Ok tt else Throw ON_CHAIN_EXECUTION_INCOMPLETE
  end.

Definition approvals (p : CatalogProposal) : Z :=
  Z.of_nat (length (filter (λ r, cr_decision r = Approve) (pr_reviews p))).

Section governance.
Context (localeCompare : string → string → comparison) (sha256hex : string → string).

Definition newGovernance (genesisFeeds : list FeedPolicy) : governance :=
  mkGovernance [mkPolicy 1 0 None (sort_feeds localeCompare (normalizeFeed <$> genesisFeeds))]
    jm_empty 0.

Definition currentPolicy : CG CatalogPolicy :=
  require_some (λ g, last (versions g)) CATALOG_TYPE_ERROR.

Definition policyVersion (version : Z) : CG CatalogPolicy :=
  require_some (λ g, List.find (λ p, cp_version p =? version) (versions g))
    POLICY_VERSION_NOT_FOUND.

Definition createProposal (now : Z) (proposer_ description : string)
    (change_ : CatalogPolicyChange) (sourceAddresses_ : option (jsmap string string))
    : CG CatalogProposal :=
  proposer ← requireActor proposer_;
  require (negb (is_blank description)) DESCRIPTION_REQUIRED ;;
  require (negb (2000 <? strlen description)) DESCRIPTION_TOO_LONG ;;
  current ← currentPolicy;
  let change := normalizeChange localeCompare change_ in
  let validation := validateCatalogChange localeCompare current change in
  require (bool_decide (length (cv_errors validation) = 0%nat))
    (CATALOG_POLICY_INVALID (cv_errors validation)) ;;
  let sourceAddresses := default jm_empty sourceAddresses_ in
  let plan := buildOnChainPlan localeCompare sha256hex current (cv_nextFeeds validation)
                sourceAddresses in
  require (bool_decide (op_missingSourceAddresses plan = []))
    (MISSING_SOURCE_ADDRESS (op_missingSourceAddresses plan)) ;;
  count ← gets proposalCount;
  let id := count + 1 in
  let p := mkProposal id proposer (trim description) change InReview now
             (now + CatalogPolicy.reviewWindowMs) None None None None [] (cv_findings validation)
             (cv_highImpact validation)
             (if cv_highImpact validation then highImpactApprovals else requiredApprovals)
             sourceAddresses plan None None in
  modify (λ g, mkGovernance (versions g) (jm_set id p (proposals g)) id) ;;
  mret p.

Definition requireProposal (id : Z) : CG CatalogProposal :=
  require_some (λ g, jm_get id (proposals g)) PROPOSAL_NOT_FOUND.

Definition attachImpact (id : Z) (impact : CatalogImpactSummary) : CG CatalogProposal :=
  p ← requireProposal id;
  require (bool_decide (pr_status p = InReview)) IMPACT_NOT_ACCEPTED ;;
  let p := set_impact p impact in
  modify (putProposal p) ;;
  mret p.

Definition recordReview (isRecused : string → RecusalRequest → list string) (now : Z) (id : Z)
    (reviewer : string) (decision : catalog_decision) (attested : bool) : CG CatalogProposal :=
  actor ← requireActor reviewer;
  p ← requireProposal id;
  require (bool_decide (pr_status p = InReview)) PROPOSAL_NOT_IN_REVIEW ;;
  require_or (negb (pr_reviewDeadlineAt p <? now)) (putProposal (set_pstatus p Expired))
    REVIEW_WINDOW_EXPIRED ;;
  require (negb (bool_decide (actor = pr_proposer p))) SELF_REVIEW_FORBIDDEN ;;
  require attested CG_ATTESTATION_REQUIRED ;;
  require (negb (bool_decide (actor ∈ cr_reviewer <$> pr_reviews p))) CG_ALREADY_REVIEWED ;;
  require (negb (maxReviewers <=? Z.of_nat (length (pr_reviews p)))) REVIEW_LIMIT_REACHED ;;
  (let reasons := isRecused actor (recusalRequest p) in
   require (bool_decide (reasons = [])) (CG_CONFLICT_OF_INTEREST reasons)) ;;
  let completes := bool_decide (decision = Approve) &&
                   (pr_requiredApprovals p <=? approvals p + 1) in
  (if completes then
     impact ← require_some (λ _, pr_impact p) IMPACT_ANALYSIS_REQUIRED;
     require (negb (ci_approvalBlocked impact)) IMPACT_ANALYSIS_BLOCKED
   else mret tt) ;;
  let p := push_review p (mkReview actor decision now) in
  let p := match decision with
           | RejectDecision => set_pstatus p Rejected
           | Approve =>
               if completes
               then set_approved p (now + (if pr_highImpact p then highImpactTimelockMs
                                           else timelockMs))
               else p
           end in
  modify (putProposal p) ;;
  mret p.

Definition activate (isFrozen : string → bool) (now : Z) (id : Z) (actor : string)
    (executions : list OnChainExecution) : CG CatalogProposal :=
  caller ← requireActor actor;
  p ← requireProposal id;
  require (bool_decide (pr_status p = Approved)) PROPOSAL_NOT_APPROVED ;;
  require (match pr_timelockEndsAt p with Some t => negb (now <? t) | None => false end)
    TIMELOCK_ACTIVE ;;
  current ← currentPolicy;
  let validation := validateCatalogChange localeCompare current (pr_change p) in
  require (bool_decide (length (cv_errors validation) = 0%nat))
    (POLICY_DRIFT (cv_errors validation)) ;;
  let plan := buildOnChainPlan localeCompare sha256hex current (cv_nextFeeds validation)
                (pr_sourceAddresses p) in
  require (bool_decide (op_digest plan = op_digest (pr_onChainPlan p))) PLAN_DRIFTED ;;
  let diff := cv_diff validation in
  (match List.find isFrozen (cd_added diff ++ cd_removed diff ++ cd_modified diff) with
   | Some asset => throw (EMERGENCY_OVERRIDE_ACTIVE asset)
   | None => mret tt
   end) ;;
  lift (assertExecutionsComplete p executions) ;;
  let next := applyCatalogChange localeCompare current (pr_change p) now (pr_id p) in
  let p := set_activated p now (cp_version next) caller executions in
  modify (λ g, mkGovernance (versions g ++ [next]) (jm_set (pr_id p) p (proposals g))
                 (proposalCount g)) ;;
  mret p.

Definition createRollbackProposal (now : Z) (proposer : string) (targetVersion : Z)
    (description : option string) (sourceAddresses : option (jsmap string string))
    : CG CatalogProposal :=
  current ← currentPolicy;
  require (negb (targetVersion =? cp_version current)) ROLLBACK_TARGET_IS_LIVE ;;
  target ← policyVersion targetVersion;
  let targetAssets := fp_asset <$> cp_feeds target in
  let change :=
    mkCatalogChange (cp_version current) Rollback (cp_feeds target)
      (filter (λ a, a ∉ targetAssets) (fp_asset <$> cp_feeds current)) in
  let text := trim (default EmptyString description) in
  createProposal now proposer
    (if decide (text = EmptyString)
     then "Rollback catalog policy from v" +:+ pretty (cp_version current) +:+ " to v" +:+
          pretty targetVersion
     else text) change sourceAddresses.

Definition expireProposal (now : Z) (p : CatalogProposal) : CatalogProposal :=
  if bool_decide (pr_status p = InReview) && (pr_reviewDeadlineAt p <? now)
  then set_pstatus p Expired else p.

Definition sweepExpired (now : Z) (g : governance) : governance :=
  mkGovernance (versions g) (jm_map_values (expireProposal now) (proposals g))
    (proposalCount g).
End governance.

(** ** Invariant *)

(** What a proposal's own fields say about its history. *)
Record proposal_ok (p : CatalogProposal) : Prop := {
  po_required : pr_requiredApprovals p = (if pr_highImpact p then 3 else 2);
  po_distinct : NoDup (cr_reviewer <$> pr_reviews p);
  po_independent : pr_proposer p ∉ cr_reviewer <$> pr_reviews p;
  po_limit : Z.of_nat (length (pr_reviews p)) ≤ 7;
  po_timely r : r ∈ pr_reviews p → cr_at r ≤ pr_reviewDeadlineAt p;
  po_open : pr_status p = InReview →
    Forall (λ r, cr_decision r = Approve) (pr_reviews p) ∧
    Z.of_nat (length (pr_reviews p)) < pr_requiredApprovals p;
  po_approved : pr_status p = Approved ∨ pr_status p = Activated →
    Forall (λ r, cr_decision r = Approve) (pr_reviews p) ∧
    pr_requiredApprovals p ≤ Z.of_nat (length (pr_reviews p)) ∧
    (∃ i, pr_impact p = Some i ∧ ci_approvalBlocked i = false) ∧
    (∃ t r, pr_timelockEndsAt p = Some t ∧ r ∈ pr_reviews p ∧
      t = cr_at r + (if pr_highImpact p then 48 * 3600 * 1000 else 24 * 3600 * 1000));
}.

Section invariant.
Context (localeCompare : string → string → comparison) (sha256hex : string → string).
Context `{!cmp_laws localeCompare}.

Record gov_ok (g : governance) : Prop := {
  go_versions i p : versions g !! i = Some p → cp_version p = Z.of_nat i + 1;
  go_nonempty : versions g ≠ [];
  go_feeds p f : p ∈ versions g → f ∈ cp_feeds p → feed_ok f;
  go_wf : jm_wf (proposals g);
  go_count : 0 ≤ proposalCount g;
  go_proposal id p : jm_get id (proposals g) = Some p →
    pr_id p = id ∧ 1 ≤ id ≤ proposalCount g ∧ proposal_ok p ∧
    normalizeChange localeCompare (pr_change p) = pr_change p;
}.

(** Replacing a stored proposal by an updated one. *)
Lemma putProposal_ok p p' g :
  gov_ok g → jm_get (pr_id p) (proposals g) = Some p → pr_id p' = pr_id p →
  pr_change p' = pr_change p → proposal_ok p' → gov_ok (putProposal p' g).
Proof.
  intros [H1 H2 H3 H4 H5 H6] Hget Hid Hc Hok. split; try done; simpl; [by apply jm_wf_set|].
  intros id p0. rewrite jm_get_set. case_decide; subst; [|apply H6].
  intros [= <-]. destruct (H6 _ _ Hget) as (_ & ? & _ & Hn). rewrite Hid, Hc. by split_and!; try lia.
Qed.

Lemma found_proposal g id p :
  gov_ok g → jm_get id (proposals g) = Some p →
  jm_get (pr_id p) (proposals g) = Some p ∧ proposal_ok p ∧
  normalizeChange localeCompare (pr_change p) = pr_change p.
Proof. intros Hok Hget. destruct (go_proposal _ Hok _ _ Hget) as (<- & _ & ? & ?). done. Qed.

Lemma requireActor_reads a : reads (requireActor a).
Proof. apply reads_bind; auto with oracle. Qed.
#[local] Hint Resolve requireActor_reads : oracle.

Lemma requireActor_run a g x : requireActor a g = (g, Ok x) → x = trim a.
Proof. unfold requireActor. intros H. by inv_ok. Qed.

Lemma fresh_proposal_ok id who desc change now deadline fs (high : bool) addr plan :
  proposal_ok (mkProposal id who desc change InReview now deadline None None None None [] fs high
    (if high then highImpactApprovals else requiredApprovals) addr plan None None).
Proof.
  split; simpl; [by destruct high|constructor|set_solver|lia|set_solver| |naive_solver].
  intros _. split; [constructor|]. by destruct high.
Qed.

Lemma createProposal_ok now who desc change addr :
  preserves gov_ok (createProposal localeCompare sha256hex now who desc change addr).
Proof.
  intros g Hg. unfold createProposal, currentPolicy. inv_run. apply run_modify. cbn [fst mret M_ret].
  destruct Hg as [G1 G2 G3 G4 G5 G6]. split; cbn [versions proposals proposalCount]; try done; [by apply jm_wf_set|lia|].
  intros id p. rewrite jm_get_set. destruct (decide _) as [<-|]; cycle 1.
  { intros (? & ? & ? & ?)%G6. split_and!; try done; lia. }
  intros Heq. apply (inj Some) in Heq as <-.
  split_and!; [done|cbn [pr_id]; lia..|apply fresh_proposal_ok|
    by apply normalizeChange_idemp].
Qed.

Lemma set_pstatus_closed_ok p s :
  proposal_ok p → s = Expired ∨ s = Rejected → proposal_ok (set_pstatus p s).
Proof. intros [] [->| ->]; split; simpl; try done; naive_solver. Qed.

Lemma attachImpact_ok id impact : preserves gov_ok (attachImpact id impact).
Proof.
  intros g Hg. unfold attachImpact, requireProposal. inv_run. to_prop. apply run_modify. simpl.
  match goal with H : jm_get _ _ = Some _ |- _ =>
    destruct (found_proposal _ _ _ Hg H) as (Hget & Hok & _) end.
  eapply putProposal_ok; [done..|]. destruct Hok. split; simpl; try done.
  intros [|]; congruence.
Qed.

(** Recording one more review on an open proposal. *)
Lemma reviewed_ok p actor dec now :
  proposal_ok p → pr_status p = InReview → now ≤ pr_reviewDeadlineAt p →
  actor ≠ pr_proposer p → actor ∉ cr_reviewer <$> pr_reviews p →
  Z.of_nat (length (pr_reviews p)) < 7 →
  let completes := bool_decide (dec = Approve) &&
                   (pr_requiredApprovals p <=? approvals p + 1) in
  (completes = true → ∃ i, pr_impact p = Some i ∧ ci_approvalBlocked i = false) →
  let p1 := push_review p (mkReview actor dec now) in
  proposal_ok
    (match dec with
     | RejectDecision => set_pstatus p1 Rejected
     | Approve =>
         if completes
         then set_approved p1 (now + (if pr_highImpact p1 then highImpactTimelockMs
                                      else timelockMs))
         else p1
     end).
Proof.
  intros [Hreq Hnd Hind Hlim Htime Hopen Happ] Hst Hdl Hself Hnew Hmax completes Himp p1.
  destruct (Hopen Hst) as [Hall Hlt].
  assert (approvals p = Z.of_nat (length (pr_reviews p))) as Hcount.
  { unfold approvals. rewrite filter_all; [done|]. by apply Forall_forall. }
  assert (NoDup ((cr_reviewer <$> pr_reviews p) ++ [actor])) as Hnd'.
  { apply NoDup_app. split_and!; [done|set_solver|apply NoDup_singleton]. }
  assert (Z.of_nat (length (pr_reviews p ++ [mkReview actor dec now])) =
          Z.of_nat (length (pr_reviews p)) + 1) as Hlen by (rewrite length_app; simpl; lia).
  assert (∀ r, r ∈ pr_reviews p ++ [mkReview actor dec now] → cr_at r ≤ pr_reviewDeadlineAt p)
    as Htime'.
  { intros r [Hr|Hr]%elem_of_app; [by apply Htime|]. by apply list_elem_of_singleton in Hr as ->. }
  assert (pr_proposer p ∉ (cr_reviewer <$> pr_reviews p) ++ [actor]) as Hind' by set_solver.
  assert (∀ q, pr_requiredApprovals q = pr_requiredApprovals p →
    pr_highImpact q = pr_highImpact p → pr_proposer q = pr_proposer p →
    pr_reviewDeadlineAt q = pr_reviewDeadlineAt p →
    pr_reviews q = pr_reviews p ++ [mkReview actor dec now] →
    (pr_status q = InReview → dec = Approve ∧ approvals p + 1 < pr_requiredApprovals p) →
    (pr_status q = Approved ∨ pr_status q = Activated → dec = Approve ∧
      pr_requiredApprovals p ≤ approvals p + 1 ∧
      (∃ i, pr_impact q = Some i ∧ ci_approvalBlocked i = false) ∧
      pr_timelockEndsAt q = Some (now + (if pr_highImpact p then highImpactTimelockMs
                                         else timelockMs))) → proposal_ok q) as Hgen.
  { intros q E1 E2 E3 E4 E5 E6 E7. split; rewrite ?E1, ?E2, ?E3, ?E4, ?E5, ?fmap_app; try done.
    - rewrite Hlen. lia.
    - intros [-> ?]%E6. split; [|lia]. apply Forall_app. split; [done|by repeat constructor].
    - intros (-> & ? & Hi & Ht)%E7. split_and!; [|lia|done|].
      + apply Forall_app. split; [done|by repeat constructor].
      + eexists _, (mkReview actor Approve now). split_and!; [done|set_solver|].
        by destruct (pr_highImpact p). }
  destruct dec; [destruct completes eqn:Ec|]; subst completes; simpl in *; to_prop;
    apply Hgen; simpl; try done; try (by intros [|]); intros Hs.
  - split_and!; [done|lia|by apply Himp|done].
  - destruct Hs; congruence.
Qed.

Lemma recordReview_ok rec now id who dec att : preserves gov_ok (recordReview rec now id who dec att).
Proof.
  intros g Hg. unfold recordReview, requireProposal. inv_run.
  match goal with H : jm_get _ _ = Some ?x |- _ =>
    destruct (found_proposal _ _ _ Hg H) as (Hget & Hok & _); rename x into p end.
  apply run_require_or.
  { eapply putProposal_ok; [done..|]. apply set_pstatus_closed_ok; auto. }
  intros Hdl. inv_run.
  match goal with H : (if _ then _ else _) _ = (_, Ok _) |- _ => rename H into Hu end.
  apply run_modify. simpl. to_prop.
  eapply putProposal_ok; [done|done|by destruct dec; [destruct (_ && _)|]|
    by destruct dec; [destruct (_ && _)|]|].
  unfold maxReviewers in *. apply reviewed_ok; try done; try lia.
  intros Hc. rewrite Hc in Hu. inv_ok. to_prop. eauto.
Qed.

Lemma activate_ok fz now id who ex :
  preserves gov_ok (activate localeCompare sha256hex fz now id who ex).
Proof.
  intros g Hg. unfold activate, currentPolicy, requireProposal. inv_run. apply run_modify.
  cbn [fst mret M_ret]. to_prop.
  match goal with H : jm_get _ _ = Some ?x |- _ =>
    destruct (found_proposal _ _ _ Hg H) as (Hget & Hok & Hnorm); rename x into p end.
  match goal with H : last _ = Some ?x |- _ => rename H into Hlast; rename x into cur end.
  match goal with H : length (cv_errors _) = 0%nat |- _ =>
    apply length_zero_iff_nil, validated in H as (_ & Hups & _); rewrite Hnorm in Hups end.
  pose proof Hlast as Hlast'. rewrite last_lookup in Hlast'.
  destruct Hg as [G1 G2 G3 G4 G5 G6]. pose proof (G1 _ _ Hlast') as Hver.
  assert (length (versions g) ≠ 0%nat) as Hlen by (by rewrite length_zero_iff_nil).
  split; cbn [versions proposals proposalCount]; try done.
  - intros i q [Hq|[Hi Hq]]%lookup_app_Some; [by apply G1|].
    apply list_lookup_singleton_Some in Hq as [Hi' <-]. simpl. rewrite Hver. lia.
  - by destruct (versions g).
  - intros q f [Hq|Hq]%elem_of_app Hf; [by eapply G3|].
    apply list_elem_of_singleton in Hq as ->. simpl in Hf.
    apply projectFeeds_elem in Hf as [Hf|Hf]; [by apply Hups|].
    eapply G3; [|done]. by eapply list_elem_of_lookup_2.
  - by apply jm_wf_set.
  - intros id' p'. rewrite jm_get_set. destruct (decide _) as [<-|]; [|apply G6].
    intros [= <-]. simpl. destruct (G6 _ _ Hget) as (_ & ? & _ & _). split_and!; [done|lia|lia| |done].
    destruct Hok. split; simpl; try done. intros _. auto.
Qed.
End invariant.

(** ** Runs of the governance *)

Inductive gov_op : Type :=
| GCreate (now : Z) (who desc : string) (change : CatalogPolicyChange)
    (addresses : option (jsmap string string))
| GImpact (id : Z) (impact : CatalogImpactSummary)
| GReview (isRecused : string → RecusalRequest → list string) (now id : Z) (who : string)
    (decision : catalog_decision) (attested : bool)
| GActivate (isFrozen : string → bool) (now id : Z) (who : string)
    (executions : list OnChainExecution)
| GRollback (now : Z) (who : string) (target : Z) (desc : option string)
    (addresses : option (jsmap string string))
| GSweep (now : Z).

Section runs.
Context (localeCompare : string → string → comparison) (sha256hex : string → string).

Definition run_gov (op : gov_op) (g : governance) : governance :=
  match op with
  | GCreate now who desc change addr =>
      fst (createProposal localeCompare sha256hex now who desc change addr g)
  | GImpact id impact => fst (attachImpact id impact g)
  | GReview rec now id who dec att => fst (recordReview rec now id who dec att g)
  | GActivate fz now id who ex => fst (activate localeCompare sha256hex fz now id who ex g)
  | GRollback now who target desc addr =>
      fst (createRollbackProposal localeCompare sha256hex now who target desc addr g)
  | GSweep now => sweepExpired now g
  end.

Definition run_all (ops : list gov_op) (g : governance) : governance :=
  foldl (flip run_gov) g ops.

(** A genesis whose feeds satisfy the guard rails once normalised. *)
Definition genesis_ok (feeds : list FeedPolicy) : Prop :=
  ∀ f, f ∈ feeds → feed_ok (normalizeFeed f).

Context `{!cmp_laws localeCompare}.
#[local] Hint Resolve requireActor_reads : oracle.

Lemma rollback_ok now who target desc addr :
  preserves (gov_ok localeCompare)
    (createRollbackProposal localeCompare sha256hex now who target desc addr).
Proof.
  intros g Hg. unfold createRollbackProposal, currentPolicy, policyVersion. inv_run.
  by apply createProposal_ok.
Qed.

Lemma sweepExpired_ok now g :
  gov_ok localeCompare g → gov_ok localeCompare (sweepExpired now g).
Proof.
  intros [G1 G2 G3 G4 G5 G6]. split; try done; simpl; [by apply jm_wf_map_values|].
  intros id p. rewrite jm_get_map_values. destruct (jm_get id (proposals g)) as [p0|] eqn:E; [|done].
  intros [= <-]. destruct (G6 _ _ E) as (Hid & Hb & Hok & Hn).
  unfold expireProposal. destruct (_ && _); [|by split_and!; try lia].
  split_and!; [done|lia|lia| |done]. apply set_pstatus_closed_ok; auto.
Qed.

Lemma run_gov_ok op g : gov_ok localeCompare g → gov_ok localeCompare (run_gov op g).
Proof.
  destruct op; simpl; intros Hg; [by apply createProposal_ok|by apply attachImpact_ok|
    by apply recordReview_ok|by apply activate_ok|by apply rollback_ok|by apply sweepExpired_ok].
Qed.

Lemma run_all_ok ops g : gov_ok localeCompare g → gov_ok localeCompare (run_all ops g).
Proof.
  revert g. induction ops as [|op ops IH]; intros g Hg; [done|]. apply IH. by apply run_gov_ok.
Qed.

Lemma genesis_gov_ok feeds :
  genesis_ok feeds → gov_ok localeCompare (newGovernance localeCompare feeds).
Proof.
  intros Hgen. split; simpl; try done; [| |apply jm_wf_empty].
  - intros [|i] p; simpl; [by intros [= <-]|done].
  - intros p f Hp Hf. apply list_elem_of_singleton in Hp as ->. simpl in Hf.
    unfold sort_feeds in Hf. rewrite elem_of_stable_sort in Hf.
    apply list_elem_of_fmap in Hf as (f0 & -> & Hf). by apply Hgen.
Qed.

(** Only [activate] touches the versions, and it appends one. *)
Lemma createProposal_versions now who desc change addr g :
  versions (fst (createProposal localeCompare sha256hex now who desc change addr g)) = versions g.
Proof.
  pattern (fst (createProposal localeCompare sha256hex now who desc change addr g)).
  match goal with |- ?P _ => set (I := P) end. assert (I g) as HI by done.
  unfold createProposal, currentPolicy. inv_run. by apply run_modify.
Qed.

Lemma attachImpact_versions id impact g :
  versions (fst (attachImpact id impact g)) = versions g.
Proof.
  pattern (fst (attachImpact id impact g)).
  match goal with |- ?P _ => set (I := P) end. assert (I g) as HI by done.
  unfold attachImpact, requireProposal. inv_run. by apply run_modify.
Qed.

Lemma recordReview_versions rec now id who dec att g :
  versions (fst (recordReview rec now id who dec att g)) = versions g.
Proof.
  pattern (fst (recordReview rec now id who dec att g)).
  match goal with |- ?P _ => set (I := P) end. assert (I g) as HI by done.
  unfold recordReview, requireProposal. inv_run. apply run_require_or; [done|]. intros _.
  inv_run. by apply run_modify.
Qed.

Lemma activate_versions fz now id who ex g :
  ∃ tail, versions (fst (activate localeCompare sha256hex fz now id who ex g)) =
          versions g ++ tail.
Proof.
  pattern (fst (activate localeCompare sha256hex fz now id who ex g)).
  match goal with |- ?P _ => set (I := P) end.
  assert (I g) as HI by (exists []; by rewrite app_nil_r).
  unfold activate, currentPolicy, requireProposal. inv_run. apply run_modify. by eexists.
Qed.

Lemma run_gov_versions op g : ∃ tail, versions (run_gov op g) = versions g ++ tail.
Proof.
  destruct op; simpl; [| | |apply activate_versions| |]; exists []; rewrite app_nil_r.
  - apply createProposal_versions.
  - apply attachImpact_versions.
  - apply recordReview_versions.
  - match goal with |- versions ?x = _ => pattern x end.
    match goal with |- ?P _ => set (I := P) end. assert (I g) as HI by done.
    unfold createRollbackProposal, currentPolicy, policyVersion. inv_run.
    apply createProposal_versions.
  - done.
Qed.

Lemma run_all_versions ops g : ∃ tail, versions (run_all ops g) = versions g ++ tail.
Proof.
  revert g. induction ops as [|op ops IH]; intros g; [exists []; by rewrite app_nil_r|].
  simpl. destruct (IH (run_gov op g)) as [t1 Ht1]. destruct (run_gov_versions op g) as [t2 Ht2].
  exists (t2 ++ t1). unfold run_all in *. simpl. by rewrite Ht1, Ht2, app_assoc.
Qed.

(** What a successful activation established. *)
Lemma activate_inv fz now id who ex g g' p' :
  activate localeCompare sha256hex fz now id who ex g = (g', Ok p') →
  ∃ p cur t, jm_get id (proposals g) = Some p ∧ pr_status p = Approved ∧
    pr_timelockEndsAt p = Some t ∧ t ≤ now ∧ last (versions g) = Some cur ∧
    cv_errors (validateCatalogChange localeCompare cur (pr_change p)) = [] ∧
    (let d := cv_diff (validateCatalogChange localeCompare cur (pr_change p)) in
     ∀ a, a ∈ cd_added d ++ cd_removed d ++ cd_modified d → fz a = false) ∧
    assertExecutionsComplete p ex = Ok tt ∧
    versions g' = versions g ++
      [applyCatalogChange localeCompare cur (pr_change p) now (pr_id p)].
Proof.
  unfold activate, currentPolicy, requireProposal, requireActor. intros H.
  repeat (inv_ok; match goal with
    H : (match List.find _ _ with Some _ => _ | None => _ end) _ = (_, Ok _) |- _ =>
      destruct (List.find _ _) eqn:Hfind end). inv_ok. to_prop.
  match goal with H : (match pr_timelockEndsAt ?x with Some _ => _ | None => _ end) = true |- _ =>
    destruct (pr_timelockEndsAt x) as [t|] eqn:Et; [|done] end. to_prop.
  match goal with H : assertExecutionsComplete _ _ = Ok ?u |- _ => destruct u end.
  eexists _, _, t. split_and!; try done; [by apply length_zero_iff_nil|].
  cbv zeta. by apply list_find_bool.
Qed.
End runs.

(** ** Executions cover the plan *)

Lemma checkExecutions_ok expected seen ex seen' :
  checkExecutions expected seen ex = Ok seen' →
  NoDup seen → (∀ i, i ∈ seen → 0 ≤ i < expected) →
  NoDup seen' ∧ (∀ i, i ∈ seen' → 0 ≤ i < expected) ∧
  (∀ i, i ∈ seen' ↔ i ∈ seen ∨ i ∈ ex_actionIndex <$> ex) ∧
  (∀ e, e ∈ ex → 0 < ex_onChainProposalId e).
Proof.
  revert seen. induction ex as [|e ex IH]; simpl; intros seen H Hnd Hb.
  { apply (inj Ok) in H as <-. split_and!; [done..| |]; set_solver. }
  destruct (_ || _) eqn:E1; [done|]. case_decide as Hs; [done|].
  destruct (_ <=? 0) eqn:E3; [done|]. to_prop.
  destruct (IH _ H) as (I1 & I2 & I3 & I4).
  { by apply NoDup_cons. }
  { intros i [->|Hi]%elem_of_cons; [lia|by apply Hb]. }
  split_and!; [done..| |].
  - intros i. rewrite I3, !elem_of_cons. tauto.
  - intros e' [->|He]%elem_of_cons; [lia|by apply I4].
Qed.

Lemma executions_cover p ex :
  assertExecutionsComplete p ex = Ok tt →
  (∀ i, i ∈ ex_actionIndex <$> ex ↔ 0 ≤ i < Z.of_nat (length (op_actions (pr_onChainPlan p)))) ∧
  (∀ e, e ∈ ex → 0 < ex_onChainProposalId e).
Proof.
  unfold assertExecutionsComplete. set (n := Z.of_nat _).
  destruct (checkExecutions n [] ex) as [seen|] eqn:E; [|done].
  destruct (_ =? n) eqn:El; [|done]. intros _. to_prop.
  apply checkExecutions_ok in E as (Hnd & Hb & Hin & Hpos); [|constructor|set_solver].
  split; [|done]. intros i. assert (i ∈ seen ↔ i ∈ ex_actionIndex <$> ex) as <-.
  { rewrite Hin. set_solver. }
  split; [apply Hb|]. intros Hi.
  assert (seen ≡ₚ seqZ 0 n) as ->; [|by apply elem_of_seqZ].
  apply submseteq_length_Permutation.
  - apply NoDup_submseteq; [done|]. intros x Hx%Hb. apply elem_of_seqZ. lia.
  - rewrite length_seqZ. lia.
Qed.

(** ** What the governance promises *)

(** C10: The guard rails hold for every feed of every policy that was ever
    live.  If the genesis feeds satisfy them, then after any sequence of
    proposals, reviews, activations, rollbacks and sweeps each feed of each
    version has a well-formed ticker, only registered providers, at least two
    of them required and no more than are declared, and deviation, staleness
    and warning bounds inside the documented limits. *)
Theorem guardrails_enforced localeCompare sha256hex (L : cmp_laws localeCompare) genesis ops p f :
  genesis_ok genesis →
  p ∈ versions (run_all localeCompare sha256hex ops (newGovernance localeCompare genesis)) →
  f ∈ cp_feeds p →
  is_ticker (fp_asset f) = true ∧
  (∀ s, s ∈ fp_sources f → s ∈ CATALOG_SOURCES) ∧
  2 ≤ fp_minSources f ≤ Z.of_nat (length (fp_sources f)) ∧
  10 ≤ fp_maxDeviationBps f ≤ 2000 ∧ 10 ≤ fp_stalenessSeconds f ≤ 3600 ∧
  (∃ w, fp_freshnessWarnSeconds f = Some w ∧ 1 ≤ w < fp_stalenessSeconds f).
Proof.
  intros Hgen Hp Hf.
  destruct (go_feeds _ _ (run_all_ok localeCompare sha256hex ops _
    (genesis_gov_ok localeCompare genesis Hgen)) p f Hp Hf) as (? & ? & ? & ? & ? & ? & _).
  unfold minSourceCount, minDeviationBps, maxDeviationBps, minStalenessSeconds,
    maxStalenessSeconds in *. split_and!; try done; lia.
Qed.

(** [GENESIS_FEEDS] *)
Definition GENESIS_FEEDS : list FeedPolicy :=
  [mkFeed "XLM" ["chainlink"; "redstone"; "band"]%string 2 150 60 None None None true;
   mkFeed "USDC" ["chainlink"; "reflector"; "band"]%string 2 50 60 None None None true].

Lemma genesis_feeds_ok : genesis_ok GENESIS_FEEDS.
Proof.
  intros f [->|[->|[]%elem_of_nil]%elem_of_cons]%elem_of_cons; apply validateFeed_ok;
    vm_compute; reflexivity.
Qed.

(** A locale that orders like code units, and a placeholder digest. *)
Definition demo_digest (text : string) : string := text.
Abbreviation demo_gov := (newGovernance String.compare GENESIS_FEEDS).

(** Add [BTC], backed by the two providers already trusted for [XLM]. *)
Definition demo_change : CatalogPolicyChange :=
  mkCatalogChange 1 StandardChange
    [mkFeed " btc" ["Chainlink"; "band"]%string 2 100 60 None None None true] [].
Definition demo_impact : CatalogImpactSummary := mkImpact 0 "hash" RiskLow false [].
Definition nobody_recused : string → RecusalRequest → list string := λ _ _, [].
Definition demo_ops : list gov_op :=
  [GCreate 1000 "alice" "list BTC" demo_change None; GImpact 1 demo_impact;
   GReview nobody_recused 2000 1 "bob" Approve true;
   GReview nobody_recused 2000 1 "carol" Approve true;
   GReview nobody_recused 2000 1 "dave" Approve true].
Abbreviation demo_approved := (run_all String.compare demo_digest demo_ops demo_gov).
Definition demo_executions : list OnChainExecution :=
  [mkExecution 0 7].

Definition demo_activate : gov_op :=
  GActivate (λ _, false) 172802000 1 "alice" demo_executions.
Abbreviation demo_active :=
  (run_all String.compare demo_digest (demo_ops ++ [demo_activate]) demo_gov).

Definition demo_feed : FeedPolicy :=
  mkFeed "BTC" ["band"; "chainlink"]%string 2 100 60 (Some Standard) (Some 59)
    (Some DEFAULT_QUOTE_UNIT) true.

Lemma demo_feed_live :
  ∃ p, p ∈ versions demo_active ∧ demo_feed ∈ cp_feeds p.
Proof.
  assert (option_map (λ p, head (cp_feeds p)) (versions demo_active !! 1%nat) =
          Some (Some demo_feed)) as Hl by (vm_compute; reflexivity).
  destruct (versions demo_active !! 1%nat) as [p|] eqn:E; [|done]. exists p.
  split; [by eapply list_elem_of_lookup_2|]. simpl in Hl. apply (inj Some) in Hl.
  by apply head_Some_elem_of.
Qed.

Lemma guardrails_enforced_witness :
  is_ticker "BTC" = true ∧
  ∃ w, fp_freshnessWarnSeconds demo_feed = Some w ∧ 1 ≤ w < fp_stalenessSeconds demo_feed.
Proof.
  destruct demo_feed_live as (p & Hp & Hf).
  destruct (guardrails_enforced String.compare demo_digest _ GENESIS_FEEDS
    (demo_ops ++ [demo_activate]) p demo_feed genesis_feeds_ok Hp Hf) as (Ht & _ & _ & _ & _ & Hw).
  split; [exact Ht|exact Hw].
Defined.

(** Policy versions are immutable and consecutive: after any run the
    [i]-th entry of the history has version number [i+1], and whatever happens
    later the history only grows at its end. *)
Theorem versions_immutable localeCompare sha256hex (L : cmp_laws localeCompare) genesis ops later :
  genesis_ok genesis →
  let g := run_all localeCompare sha256hex ops (newGovernance localeCompare genesis) in
  versions g ≠ [] ∧
  (∀ i p, versions g !! i = Some p → cp_version p = Z.of_nat i + 1) ∧
  ∃ tail, versions (run_all localeCompare sha256hex later g) = versions g ++ tail.
Proof.
  intros Hgen g. destruct (run_all_ok localeCompare sha256hex ops _
    (genesis_gov_ok localeCompare genesis Hgen)) as [H1 H2 _ _ _ _].
  split_and!; [done..|]. apply run_all_versions.
Qed.

Lemma versions_immutable_witness :
  ∃ tail, versions (run_all String.compare demo_digest [demo_activate] demo_approved) =
    versions demo_approved ++ tail.
Proof.
  exact (proj2 (proj2 (versions_immutable String.compare demo_digest _ GENESIS_FEEDS demo_ops
    [demo_activate] genesis_feeds_ok))).
Defined.

(** C9: Nothing becomes live without independent approval.  In any reachable
    state, when an activation succeeds the proposal had been approved by at
    least two reviewers (three for a high-impact change), all distinct, none
    of them the proposer, none dissenting, each within the review window; a
    non-blocking impact analysis is attached; the timelock (24 or 48 hours
    from one of these approvals) has passed; the change was authored against
    the live version; every action of the on-chain plan is backed by exactly
    one positive multisig proposal number; and exactly one version, the
    successor of the live one, is added. *)
Theorem activation_authorised localeCompare sha256hex (L : cmp_laws localeCompare)
    genesis ops fz now id who ex g' p' :
  genesis_ok genesis →
  let g := run_all localeCompare sha256hex ops (newGovernance localeCompare genesis) in
  activate localeCompare sha256hex fz now id who ex g = (g', Ok p') →
  ∃ p cur next, jm_get id (proposals g) = Some p ∧ last (versions g) = Some cur ∧
    versions g' = versions g ++ [next] ∧ cp_version next = cp_version cur + 1 ∧
    cc_baseVersion (pr_change p) = cp_version cur ∧
    Forall (λ r, cr_decision r = Approve ∧ cr_at r ≤ pr_reviewDeadlineAt p) (pr_reviews p) ∧
    NoDup (cr_reviewer <$> pr_reviews p) ∧
    (pr_proposer p ∉ cr_reviewer <$> pr_reviews p) ∧
    (if pr_highImpact p then 3 else 2) ≤ Z.of_nat (length (pr_reviews p)) ∧
    (∃ i, pr_impact p = Some i ∧ ci_approvalBlocked i = false) ∧
    (∃ r, r ∈ pr_reviews p ∧
      cr_at r + (if pr_highImpact p then 48 else 24) * 3600 * 1000 ≤ now) ∧
    (∀ i, i ∈ ex_actionIndex <$> ex ↔
      0 ≤ i < Z.of_nat (length (op_actions (pr_onChainPlan p)))).
Proof.
  intros Hgen g Hact.
  assert (gov_ok localeCompare g) as Hg by (by apply run_all_ok, genesis_gov_ok).
  apply activate_inv in Hact
    as (p & cur & t & Hget & Hst & Ht & Hle & Hlast & Herr & _ & Hex & Hver).
  destruct (found_proposal _ _ _ _ Hg Hget) as (_ & [P1 P2 P3 P4 P5 P6 P7] & _).
  destruct (P7 (or_introl Hst)) as (Hall & Hreq & Himp & t' & r & Ht' & Hr & Heq).
  apply validated in Herr as (Hbase & _). apply executions_cover in Hex as [Hcov _].
  eexists p, cur, _. split_and!; try done; [|by rewrite <- P1|].
  - rewrite Forall_forall in Hall. apply Forall_forall. auto.
  - exists r. split; [done|]. destruct (pr_highImpact p); simplify_eq; lia.
Qed.

(** An activation that succeeds, without naming its result. *)
Lemma is_ok_run {A} (m : CG A) g : is_ok (snd (m g)) = true → ∃ x, m g = (fst (m g), Ok x).
Proof. destruct (m g) as [g' [x|]]; simpl; [eauto|done]. Qed.

Lemma activation_authorised_witness :
  ∃ p, jm_get 1 (proposals demo_approved) = Some p ∧ NoDup (cr_reviewer <$> pr_reviews p).
Proof.
  destruct (is_ok_run (activate String.compare demo_digest (λ _, false) 172802000 1 "alice"
              demo_executions) demo_approved ltac:(vm_compute; reflexivity)) as [p' Hrun].
  destruct (activation_authorised String.compare demo_digest _ GENESIS_FEEDS demo_ops
    (λ _, false) 172802000 1 "alice" demo_executions _ p' genesis_feeds_ok Hrun)
    as (p & cur & next & Hget & _ & _ & _ & _ & _ & Hnd & _).
  exists p. split; [exact Hget|exact Hnd].
Defined.

(** ** The assembled system *)

(** A conflict of interest disqualifies a reviewer end to end.  With the
    register plugged in as the recusal dependency, whenever a review of a
    catalog proposal is recorded, the reviewer is not the proposer and none of
    the reviewer's declarations that was not withdrawn, current or expired,
    bears on an asset or provider the change touches. *)
Theorem recused_cannot_review c tc now id who dec att g g' p' :
  reachable c →
  recordReview (λ a q, snd (recusalReasons tc a q c)) now id who dec att g = (g', Ok p') →
  ∃ p, jm_get id (proposals g) = Some p ∧ trim who ≠ pr_proposer p ∧ att = true ∧
    now ≤ pr_reviewDeadlineAt p ∧
    (∀ did d, jm_get did (disclosures c) = Some d → cd_actor d = trim who →
      cd_status d ≠ DWithdrawn → scope_matches (recusalRequest p) d = false).
Proof.
  intros Hc%reachable_ok Hrev. pose proof (coi_recusal_oracle c tc Hc) as Horacle.
  unfold recordReview, requireProposal, requireActor in Hrev. inv_ok; to_prop.
  all: eexists; split_and!; try done.
  all: apply not_recused; intros Hn%Horacle; by apply Hn.
Qed.

Lemma recused_cannot_review_witness :
  ∃ p, jm_get 1 (proposals (run_all String.compare demo_digest (take 2 demo_ops) demo_gov)) = Some p ∧
    "bob"%string ≠ pr_proposer p.
Proof.
  destruct (is_ok_run (recordReview (λ a q, snd (recusalReasons 2000 a q demo_coi)) 2000 1 "bob"
              Approve true) (run_all String.compare demo_digest (take 2 demo_ops) demo_gov)
              ltac:(vm_compute; reflexivity)) as [p' Hrun].
  destruct (recused_cannot_review demo_coi 2000 2000 1 "bob" Approve true _ _ p'
    (ex_intro _ [ODeclare 1000 demo_declare] eq_refl) Hrun) as (p & Hget & Hne & _).
  exists p. split; [exact Hget|exact Hne].
Defined.

(** C11: An emergency override blocks the catalog.  With the emergency
    registry plugged in, an activation succeeds only if at that moment no open
    and unexpired action halts publishing, and none pauses an asset that the
    change adds, removes or modifies. *)
Theorem override_blocks_activation localeCompare sha256hex r tf now id who ex g g' p' :
  em_reachable r →
  activate localeCompare sha256hex (λ a, snd (isFrozen tf a r)) now id who ex g = (g', Ok p') →
  ∃ p cur, jm_get id (proposals g) = Some p ∧ last (versions g) = Some cur ∧
    let d := cv_diff (validateCatalogChange localeCompare cur (pr_change p)) in
    ∀ aid a, jm_get aid (actions r) = Some a → isOpen a = true → tf < ea_expiresAt a →
      ea_kind a ≠ HaltPublishing ∧
      (ea_kind a = PauseFeed → ∀ x, x ∈ cd_added d ++ cd_removed d ++ cd_modified d →
        ea_asset a ≠ Some (normalizeAsset x)).
Proof.
  intros Hr Hact. apply activate_inv in Hact
    as (p & cur & t & Hget & _ & _ & _ & Hlast & Herr & Hfz & _).
  exists p, cur. split_and!; [done..|]. intros d aid a Ha Hopen Hlt. fold d in Hfz.
  apply validated in Herr as (_ & _ & _ & _ & _ & Hne). fold d in Hne.
  assert (∀ x, x ∈ cd_added d ++ cd_removed d ++ cd_modified d →
    ¬ (ea_kind a = HaltPublishing ∨
       ea_kind a = PauseFeed ∧ ea_asset a = Some (toUpperCase (trim x)))) as Hno.
  { intros x Hx Hk. specialize (Hfz x Hx). apply not_true_iff_false in Hfz. apply Hfz.
    apply frozen_true; [by apply em_reachable_ok|]. eauto 10. }
  clearbody d. split; [intros Hk|].
  - destruct (_ ++ _) as [|x l] eqn:E in Hno, Hne; [done|].
    apply (Hno x); [apply list_elem_of_here|by left].
  - intros Hk x Hx Hpaused. apply (Hno x Hx). by right.
Qed.

Lemma override_blocks_activation_witness :
  ∃ p cur, jm_get 1 (proposals demo_approved) = Some p ∧ last (versions demo_approved) = Some cur.
Proof.
  destruct (is_ok_run (activate String.compare demo_digest
              (λ a, snd (isFrozen 2000 a demo_emergency)) 172802000 1 "alice" demo_executions)
              demo_approved ltac:(vm_compute; reflexivity)) as [p' Hrun].
  destruct (override_blocks_activation String.compare demo_digest demo_emergency 2000 172802000 1
    "alice" demo_executions demo_approved _ p'
    (ex_intro _ [EOpen 1000 1000 1 demo_open] eq_refl) Hrun) as (p & cur & Hget & Hlast & _).
  exists p, cur. split; [exact Hget|exact Hlast].
Defined.
